(* ===== verification/_CoqProject ===== *)
-Q . S2P
Prelude.v
Fairness.v
Sys.v
CLib.v
Safe.v
ThreadSafeQueue.v
LibevThreadPool.v
PoolSystem.v
PoolShutdown.v
PoolRefine.v
PoolSafe.v
ProcPool.v
ProcSafe.v
ProcSystem.v
ProcLiveness.v
ProcShutdown.v
ProcRefine.v
ProcParent.v
MultiConn.v
MultiSafe.v
EpollThreads.v
EpollRefine.v
LibevMulti.v
Client.v
ClientSafe.v
LoadTest.v
Tools.v
SimpleServers.v
Mains.v
