(* ===== verification/Prelude.v ===== *)
(** * linux_server_programming: verification development (root file)

    ** The program

    Two executables.  The server (server/main.cpp) starts one of several servers
    written in different styles, all with the same service: read what a client
    sends, print it, answer.  The client (client/main.cpp) starts a load client
    or a simple one.  The parts and how they interact:
    - thread_safe_queue.hpp: a queue with a mutex and a condition variable;
    - libev_half_sync_reactive_thread_pool_server.hpp: the main thread accepts
      connections and deals them out, round robin, to worker threads; for each
      worker there is a thread safe queue that carries the connections and a
      socket pair that carries one byte per message ("there is a connection",
      "terminate");
    - epoll_half_sync_reactive_proc_pool_server.hpp: the same with processes:
      the parent sees that a connection is waiting and tells one child through a
      socket pair, and the child accepts and serves it; signals arrive through
      one more socket pair;
    - multi_connection_server.hpp: select, poll, and epoll with a thread pool;
    - libev_multi_con_server.hpp: one thread, one libevent loop;
    - simple_tcp_server.hpp, simple_file_down_server.hpp: one client at a time;
    - tools.hpp: daemonize, the number of a thread, the buffer size, syslog macros;
    - libevent_no_block_client.hpp, simple_tcp_client.hpp: the clients.

    ** The files

    - Prelude (this file): machine integers, 0-based access to lists with C
      indices ([lookupZ], [insertZ]), counting, executions of a labelled step
      relation ([steps]), the hint and rewrite databases [server] and the
      case-analysis tactics.
    - Fairness: deterministic systems of actions: their finite and infinite
      executions, weak fairness towards processes, the rule that proves that
      something happens in the end from a measure that every process with work to
      do can only lower ([helps_leads_to]), and infinite executions that repeat
      (lassos), to show what need not happen.
    - Sys: the outside world and the effect monad.  What the program calls and
      does not define (system calls, libevent, boost::asio) is [call]; [Env] is
      the parameter that answers a call, given the history of calls and answers.
      [M S] is the monad of code that runs on a state [S]: it keeps [errno], the
      history and the lines printed, and stops with exit, an uncaught exception
      or failed assertion, undefined behaviour, a call that never returns, or no
      fuel left.  [wp] is its weakest precondition, [while_] and [for_each] the
      loops with their rules, [event_loop] the dispatch loop of libevent: the
      environment chooses the next callback.
    - CLib: byte buffers and C strings, [sockaddr_in] and htons, atoi's
      arithmetic, receiving into a buffer (a write past its end is undefined
      behaviour), division (so is a division by zero), and what the histories
      say: what was closed, accepted, sent.
    - Safe: a type system for the monad: [safe] code keeps an invariant and stops
      only in ways that are defined, whatever the environment answers.
    - ThreadSafeQueue: the class, with one definition per method body; Module
      Monitor runs the methods under mutex and condition variable with any number
      of threads, at the grain of lock, wait, wake, notify, unlock; the interface
      [FifoQueue] and its instance.  The overloads that return a shared_ptr need a
      conversion of the element type to one, the class parameter [SharedPtr].
    - LibevThreadPool: the handlers of the thread pool server ([conn_listener_cb],
      [signal_event_cb], [main_msg_cb], [client_msg_cb], [client_event_cb],
      [worker_func], [start_libev_adv_server]).  The record
      [pool] is the file's global variables.  PoolSystem puts its threads in
      parallel: one action of [act] is one queue method or one system call of
      one thread; it uses the queues through [FifoQueue] and the socket pairs
      through [ByteChannel], and shows that its actions are what the handlers do.
      PoolShutdown is about its executions after SIGINT; PoolRefine shows that
      [main_msg_cb] and [signal_event_cb], too, are sequences of its actions.
      PoolSafe types the code of both kinds of threads with the rules of Safe.
    - ProcPool: [SrvProcessPool] ([run_parent], [run_child], their turns and
      signal handling, the fork loop of its constructor), the class parameter of
      the C++ template as [UserConn], with [TestConn] as instance, and
      [start_process_pool_server].  ProcSafe types all of it with the rules of
      Safe.  ProcSystem puts the parent and the children in parallel: one action of
      [act] is what one process does between two points where another can
      intervene, on the queue of the listening socket, the pipes, the signals and
      the ends of processes.  ProcLiveness and ProcShutdown are about its infinite
      executions: that clients are accepted, that a termination request ends
      everything, and when it does not; ProcRefine shows that its actions are what
      ProcPool's functions do, each run alone, and ProcParent that the whole loop of
      the parent is a sequence of them when the others act at every call.
    - MultiConn: the three multiplexing servers.  The select and poll tables are
      lists of descriptors with -1 for a free slot, the epoll record is a set.
      MultiSafe types them with the rules of Safe.  EpollThreads puts the main
      thread and the message tasks of the epoll server in parallel; EpollRefine
      shows that a run of [serv_epoll] is a sequence of its actions.
    - LibevMulti: the single-threaded libevent server.
    - Client: the load client, first each function to completion, then the
      callbacks of all threads interleaved on the shared counter.  ClientSafe types
      it with the rules of Safe.
    - LoadTest: the load client and the thread pool server composed: the systems
      of threads of PoolSystem and Client, unchanged, joined by their connections.
    - Tools: daemonize, with the table of descriptors, and get_thread_id.
    - SimpleServers: the straight-line programs.
    - Mains: the two main functions, and with them the types of PoolSafe and
      ClientSafe from the command line on.

    ** What the theorems show

    Every property is a theorem with a numbered comment that states it.
    - The queue: every interleaved execution of its methods is one of an atomic
      queue; a sleeping pop means an empty queue; no deadlock, and every call comes to
      its end; first-in first-out.
    - The thread pool server: what each handler does, and for every interleaving
      of the threads: each connection is, in order, with the worker it was
      assigned to, in exactly one of three places, and is served although a
      notification byte may be dropped; the interleaved actions are those of the
      code; a termination byte may be dropped for good, but when none is, every fair
      execution after SIGINT ends with all threads out of their loops and every
      connection taken over.  From the command line on, no thread runs into
      undefined behaviour.
    - The client and the thread pool server together: in every fair execution every
      request is answered and counted and the completion reported.
    - The process pool: which child is told of a connection, reaping, signals,
      the fork loop, the child's turns and its table of connections; that no
      process of it runs into undefined behaviour; for every interleaving of the
      processes: no client is lost or served twice, and the parent stops after its
      children; for every fair execution: clients are accepted, and a termination
      request ends all processes - unless a failing accept keeps a child from its
      signals, of which there is an execution; the interleaved actions are those
      of the code.
    - The multiplexing servers: no connection is in two slots, none is lost or
      closed twice (the poll server never closes those that came to a full table,
      and no others); the bound of the epoll server; for every interleaving of its threads: what the record covers
      and that connections stay watched as long as no descriptor is reused too
      early, the interleavings that lose a connection, and that the interleaved
      actions are those of the code, for the main thread from its start to its end; that an edge-triggered task does what
      level-triggered tasks do one after the other; that none of the three runs into
      undefined behaviour (select, as long as descriptors fit in an fd_set).
    - The clients and the other servers: the libevent server as a whole, with its
      connections and its counter; a session of the simple server from start to
      end; the split of the clients, the report of completion, that the callback
      is the two actions of the interleaved client, reading and answering, the
      outcomes of starting, the numbers on the command line; what daemonize leaves
      behind.
    Each property with hypotheses has a [_witness] that applies it at a concrete
    input, with the environment a concrete script or function.

    ** What is assumed of the environment

    Nothing, unless a theorem says so.  The hypotheses used are documented
    behaviour: [returns] (every call returns), [recv_contract] and
    [bev_read_contract] (no more bytes than asked for), [socketpair_contract] (two
    descriptors), [epoll_contract] (only what was added is reported),
    [poll_contract] (one result per entry), [accept_fresh] and [wait_reports]
    (accept gives a descriptor not in use, epoll_wait reports what is watched),
    [reaped_below] (a process has finitely
    many children, each reported once), [pipe_bytes_below] (finitely many bytes
    are waiting in a pipe), [dispatch_contract] (libevent runs the callbacks that
    were registered), [dispatches] (the same, for the callbacks of one thread),
    [answered] (the calls of the parent are answered as the system of processes
    stands), [net_ok] (recv, poll and epoll_wait), [pipe_holds] (which bytes recv finds),
    [small_fds] (descriptors below FD_SETSIZE), [open_contract] (open gives the
    lowest free descriptor), [kernel_ok] (those of the process pool, and descriptors
    below the number of user objects, which the limit set by main provides), and in
    PoolSystem the laws of [ByteChannel].
    The theorems about infinite executions assume weak fairness: a process or thread
    with work to do, on and on, acts in the end.  Those about the process pool begin
    when every process has run [setup_sig_pipe], and take epoll_wait to report
    everything that is ready, which fewer than MAX_EVENT_NUMBER descriptors are.
    LoadTest takes a client's message and its answer to arrive in one piece, and no
    call of either program to fail.
    [drains c h rs r] says that a call in a loop gives the answers [rs] and then
    the final [r].

    ** Fuel and bounds

    A loop of the code that waits for the outside ([while (true)], an event loop)
    takes fuel, and its theorems hold for every fuel above a number they state
    (the answers to be read plus one) or for every fuel, as an invariant that also
    holds when the fuel is used up.  Loops over the program's own data need none,
    or are given the length of the data, which a theorem shows to be enough
    (the queue [take_connections] empties, the children [parent_new_con] goes
    round).
    Integers are Z; where the width matters the conversion is written out
    ([wrap_u], [wrap_s]: the port through a signed short and htons, signals
    through a signed char).  Array accesses outside the bounds are undefined
    behaviour, [HUB].

    ** What is not modelled

    Console and syslog lines that show no received data, and with them the uses of
    [get_thread_id]; openlog and setlogmask; freeing of memory; the iteration
    order of [std::unordered_set], which is that of the finite set; data races on [running] and [errno] being thread local.
    libevent and boost::asio are part of the environment. *)

From Stdlib Require Export ZArith Lia Bool.
From stdpp Require Export base tactics numbers option list list_numbers relations strings gmap.

#[global] Set Default Proof Using "Type".
#[global] Open Scope Z_scope.
#[export] Set Warnings "-clear-no-such-hyp".

(** ** Machine integers

    A [w]-bit unsigned, resp. two's complement signed, C integer is the
    integer it denotes; the conversions to these types are written out. *)

Definition wrap_u (w z : Z) : Z := z mod 2 ^ w.
Definition wrap_s (w z : Z) : Z := (z + 2 ^ (w - 1)) mod 2 ^ w - 2 ^ (w - 1).

Lemma wrap_u_range w z : 0 <= w -> 0 <= wrap_u w z < 2 ^ w.
Proof. intros. apply Z.mod_pos_bound. lia. Qed.

Lemma wrap_u_id w z : 0 <= z < 2 ^ w -> wrap_u w z = z.
Proof. intros. by apply Z.mod_small. Qed.

Lemma wrap_s_range w z : 0 < w -> - 2 ^ (w - 1) <= wrap_s w z < 2 ^ (w - 1).
Proof.
  intros Hw. unfold wrap_s.
  assert (2 ^ w = 2 * 2 ^ (w - 1)) by (rewrite <- Z.pow_succ_r by lia; f_equal; lia).
  pose proof (Z.mod_pos_bound (z + 2 ^ (w - 1)) (2 ^ w) ltac:(lia)). lia.
Qed.

Lemma wrap_s_id w z : 0 < w -> - 2 ^ (w - 1) <= z < 2 ^ (w - 1) -> wrap_s w z = z.
Proof.
  intros Hw Hz. unfold wrap_s.
  assert (2 ^ w = 2 * 2 ^ (w - 1)) by (rewrite <- Z.pow_succ_r by lia; f_equal; lia).
  rewrite Z.mod_small; lia.
Qed.

Lemma wrap_s32_id z : - 2 ^ 31 <= z < 2 ^ 31 -> wrap_s 32 z = z.
Proof. intros. by apply wrap_s_id. Qed.

(** Going through the signed type of the same width loses nothing. *)
Lemma wrap_u_wrap_s w z : 0 < w -> wrap_u w (wrap_s w z) = wrap_u w z.
Proof.
  intros Hw. unfold wrap_u, wrap_s.
  rewrite Zminus_mod_idemp_l. f_equal. lia.
Qed.

(** ** Arrays: lists indexed by a C [int] *)

(** [a[i]] for an [int] index: [None] when [i] is out of range. *)
Definition lookupZ {A} (l : list A) (i : Z) : option A :=
  if bool_decide (0 <= i) then l !! Z.to_nat i else None.

(** [a[i] = x] for an index known to be in range. *)
Definition insertZ {A} (i : Z) (x : A) (l : list A) : list A :=
  if bool_decide (0 <= i) then <[Z.to_nat i := x]> l else l.

Lemma lookupZ_Some {A} (l : list A) i x :
  lookupZ l i = Some x <-> 0 <= i /\ l !! Z.to_nat i = Some x.
Proof.
  unfold lookupZ. case_bool_decide; split; [done | by intros [_ ?] | done | by intros [? _]].
Qed.

Lemma lookupZ_is_Some {A} (l : list A) i :
  is_Some (lookupZ l i) <-> 0 <= i < Z.of_nat (length l).
Proof.
  unfold lookupZ. case_bool_decide.
  - rewrite lookup_lt_is_Some. lia.
  - split; [by intros [? [=]] | lia].
Qed.

Lemma lookupZ_None {A} (l : list A) i :
  lookupZ l i = None <-> ~ (0 <= i < Z.of_nat (length l)).
Proof. rewrite <- lookupZ_is_Some, <- eq_None_not_Some. done. Qed.

Lemma length_insertZ {A} i (x : A) l : length (insertZ i x l) = length l.
Proof. unfold insertZ. case_bool_decide; [apply length_insert | done]. Qed.

Lemma lookupZ_insertZ_eq {A} i (x : A) l :
  0 <= i < Z.of_nat (length l) -> lookupZ (insertZ i x l) i = Some x.
Proof.
  intros. unfold lookupZ, insertZ. rewrite !bool_decide_eq_true_2 by lia.
  apply list_lookup_insert_eq. lia.
Qed.

Lemma lookupZ_insertZ_ne {A} i j (x : A) l :
  i <> j -> lookupZ (insertZ i x l) j = lookupZ l j.
Proof.
  intros. unfold lookupZ, insertZ. repeat case_bool_decide; try done.
  apply list_lookup_insert_ne. lia.
Qed.

Lemma lookupZ_of_nat {A} (l : list A) n : lookupZ l (Z.of_nat n) = l !! n.
Proof. unfold lookupZ. rewrite bool_decide_eq_true_2 by lia. by rewrite Nat2Z.id. Qed.

Lemma insertZ_of_nat {A} n (x : A) l : insertZ (Z.of_nat n) x l = <[n := x]> l.
Proof. unfold insertZ. rewrite bool_decide_eq_true_2 by lia. by rewrite Nat2Z.id. Qed.

(** ** Counting the elements of a list that satisfy a boolean test *)

Fixpoint countb {A} (f : A -> bool) (l : list A) : nat :=
  match l with
  | [] => 0
  | x :: l => (if f x then 1 else 0) + countb f l
  end%nat.

Lemma countb_app {A} (f : A -> bool) l k : countb f (l ++ k) = (countb f l + countb f k)%nat.
Proof. induction l; simpl; [done | rewrite IHl; lia]. Qed.

(** Updating one element moves the count by the difference of the two. *)
Lemma countb_insert {A} (f : A -> bool) l i x y :
  l !! i = Some y ->
  (countb f (<[i := x]> l) + (if f y then 1 else 0) =
   countb f l + (if f x then 1 else 0))%nat.
Proof.
  revert i. induction l as [|z l IH]; intros [|i] H; simplify_eq/=; [lia|].
  specialize (IH _ H). lia.
Qed.

Lemma countb_pos {A} (f : A -> bool) l i x :
  l !! i = Some x -> f x = true -> (0 < countb f l)%nat.
Proof.
  revert i. induction l as [|z l IH]; intros [|i] H Hf; simplify_eq/=.
  - rewrite Hf. lia.
  - specialize (IH _ H Hf). lia.
Qed.

Lemma countb_0 {A} (f : A -> bool) l :
  countb f l = 0%nat <-> forall i x, l !! i = Some x -> f x = false.
Proof.
  split.
  - intros H i x Hx. destruct (f x) eqn:E; [|done].
    pose proof (countb_pos f l i x Hx E). lia.
  - induction l as [|z l IH]; intros H; simpl; [done|].
    rewrite (H 0%nat z eq_refl). apply (IH (fun i => H (S i))).
Qed.

Lemma countb_exists {A} (f : A -> bool) l :
  (0 < countb f l)%nat -> exists i x, l !! i = Some x /\ f x = true.
Proof.
  induction l as [|z l IH]; simpl; [lia|]. destruct (f z) eqn:E.
  - intros _. exists 0%nat, z. done.
  - intros H. destruct (IH H) as (i & x & ? & ?). by exists (S i), x.
Qed.

Lemma countb_full {A} (f : A -> bool) l :
  (forall i x, l !! i = Some x -> f x = true) -> countb f l = length l.
Proof.
  induction l as [|z l IH]; intros H; simpl; [done|].
  rewrite (H 0%nat z eq_refl). by rewrite (IH (fun i => H (S i))).
Qed.

Lemma countb_le {A} (f : A -> bool) l : (countb f l <= length l)%nat.
Proof. induction l as [|z l IH]; simpl; [done|]. destruct (f z); lia. Qed.

Lemma countb_lt {A} (f : A -> bool) l i x :
  l !! i = Some x -> f x = false -> (countb f l < length l)%nat.
Proof.
  revert i. induction l as [|z l IH]; intros [|i] H Hf; simplify_eq/=.
  - rewrite Hf. pose proof (countb_le f l). lia.
  - specialize (IH _ H Hf). destruct (f z); lia.
Qed.

(** Case analysis on a comparison in the goal, or in a hypothesis. *)
Ltac zcase :=
  match goal with
  | |- context [?a <=? ?b] => destruct (Z.leb_spec a b)
  | |- context [?a <? ?b] => destruct (Z.ltb_spec a b)
  | |- context [?a =? ?b] => destruct (Z.eqb_spec a b)
  end.
Ltac zcase_in H :=
  match type of H with
  | context [?a <=? ?b] => destruct (Z.leb_spec a b)
  | context [?a <? ?b] => destruct (Z.ltb_spec a b)
  | context [?a =? ?b] => destruct (Z.eqb_spec a b)
  end.

(** ** Sums and searches *)

Lemma sum_list_with_insert {A} (f : A -> nat) l i x y :
  l !! i = Some x -> (sum_list_with f (<[i := y]> l) + f x = sum_list_with f l + f y)%nat.
Proof.
  revert i. induction l as [|z l IH]; intros [|i] Hi; simplify_eq/=; [lia|].
  specialize (IH _ Hi). lia.
Qed.

(** What [find] finds in [g a, g (a + 1), ...]: the first that passes the test. *)
Lemma find_map_seq {A} (f : A -> bool) (g : nat -> A) n : forall a y,
  List.find f (map g (seq a n)) = Some y ->
  exists d, (a <= d < a + n)%nat /\ y = g d /\ f y = true /\
    forall e, (a <= e < d)%nat -> f (g e) = false.
Proof.
  induction n as [|n IH]; intros a y Hy; simpl in Hy; [done|].
  destruct (f (g a)) eqn:Hf; simplify_eq.
  - exists a. split_and!; [lia|lia|done|done|]. intros; lia.
  - destruct (IH _ _ Hy) as (d & Hd & -> & Hfy & Hall). exists d.
    split_and!; [lia|lia|done|done|]. intros e He.
    destruct (decide (e = a)) as [->|]; [done|]. apply Hall. lia.
Qed.

(** ** Reachable states of a labelled step relation *)

Section lts.
Context {State Label : Type} (step : State -> Label -> State -> Prop).

(** A finite execution with the list of its labels. *)
Inductive steps : State -> list Label -> State -> Prop :=
| steps_nil s : steps s [] s
| steps_cons s l s' ls s'' : step s l s' -> steps s' ls s'' -> steps s (l :: ls) s''.

Lemma steps_app s ls s' ls' s'' : steps s ls s' -> steps s' ls' s'' -> steps s (ls ++ ls') s''.
Proof. induction 1; simpl; [done | econstructor; eauto]. Qed.

(** An invariant that every step keeps holds along every execution. *)
Lemma steps_invariant (I : State -> Prop) :
  (forall s l s', I s -> step s l s' -> I s') ->
  forall s ls s', steps s ls s' -> I s -> I s'.
Proof. intros Hstep s ls s'. induction 1; eauto. Qed.
End lts.

Create HintDb server.
Create Rewrite HintDb server.
#[export] Hint Constructors steps : server.
#[export] Hint Rewrite @length_insertZ @length_insert @length_app : server.
