(* ===== verification/Fairness.v ===== *)
(** * Infinite executions and weak fairness

    An infinite execution of a deterministic labelled step function, the weak
    fairness of a process in it, and the rule the liveness theorems use: if some
    process is always there to help, and its every action brings the goal nearer,
    the goal is reached. *)

From S2P Require Import Prelude.
From Stdlib Require Import Wellfounded.Lexicographic_Product Relation_Operators.

Section fairness.
Context {State Label : Type} (step : State -> Label -> option State).

(** A finite execution. *)
Fixpoint exec (s : State) (l : list Label) : option State :=
  match l with [] => Some s | a :: l => s' ← step s a; exec s' l end.

Lemma exec_snoc s l a : exec s (l ++ [a]) = (s' ← exec s l; step s' a).
Proof.
  revert s. induction l as [|b l IH]; intros s; cbn; [by destruct (step s a)|].
  by destruct (step s b); cbn.
Qed.

Lemma exec_take s l s' i : exec s l = Some s' -> is_Some (exec s (take i l)).
Proof.
  revert s i. induction l as [|b l IH]; intros s [|i] Hl; cbn in *; try by eexists.
  destruct (step s b); cbn in *; [by apply IH|done].
Qed.

(** [tr t] is the state at time [t] and [lab t] the action taken there. *)
Definition infinite_run (tr : nat -> State) (lab : nat -> Label) : Prop :=
  forall t, step (tr t) (lab t) = Some (tr (S t)).

(** Weak fairness: a process that stays ready eventually acts. *)
Definition weakly_fair (ready : State -> bool) (mine : Label -> bool)
    (tr : nat -> State) (lab : nat -> Label) : Prop :=
  forall t, exists t', (t <= t')%nat /\ (mine (lab t') = true \/ ready (tr t') = false).

(** The execution from time [k] on. *)
Lemma run_shift tr lab k : infinite_run tr lab ->
  infinite_run (fun t => tr (k + t)%nat) (fun t => lab (k + t)%nat).
Proof. intros Hrun t. rewrite Nat.add_succ_r. apply Hrun. Qed.

Lemma fair_shift ready mine tr lab k : weakly_fair ready mine tr lab ->
  weakly_fair ready mine (fun t => tr (k + t)%nat) (fun t => lab (k + t)%nat).
Proof.
  intros Hfair t. destruct (Hfair (k + t)%nat) as (t' & Ht' & Hcase). exists (t' - k)%nat.
  split; [lia|]. by replace (k + (t' - k))%nat with t' by lia.
Qed.

(** What every action allowed in the execution keeps holds from then on. *)
Lemma run_invariant (ok : Label -> bool) (I : State -> Prop) tr lab t0 :
  infinite_run tr lab -> (forall t, (t0 <= t)%nat -> ok (lab t) = true) ->
  (forall s a s', I s -> ok a = true -> step s a = Some s' -> I s') ->
  I (tr t0) -> forall t, (t0 <= t)%nat -> I (tr t).
Proof.
  intros Hrun Hok Hstep HI t Ht. induction Ht as [|t Ht IH]; [done|].
  by eapply Hstep; [exact IH|by apply Hok|apply Hrun].
Qed.

(** *** An execution that ends in a cycle *)

Section lasso.
Context (s0 s1 : State) (d : Label) (pre cyc : list Label).

Definition lasso_lab (t : nat) : Label :=
  default d (if (t <? length pre)%nat then pre !! t
             else cyc !! ((t - length pre) mod length cyc)%nat).
Definition lasso_state (t : nat) : State :=
  default s0 (if (t <? length pre)%nat then exec s0 (take t pre)
              else exec s1 (take ((t - length pre) mod length cyc) cyc)).

(** The next state of an execution, with what comes after its last action. *)
Lemma exec_next s l s' i : exec s l = Some s' -> (i < length l)%nat -> exists x a y,
  l !! i = Some a /\ exec s (take i l) = Some x /\ step x a = Some y /\
  exec s (take (S i) l) = Some y.
Proof.
  intros Hl Hi. destruct (lookup_lt_is_Some_2 _ _ Hi) as [a Ha].
  destruct (exec_take _ _ _ i Hl) as [x Hx]. destruct (exec_take _ _ _ (S i) Hl) as [y Hy].
  exists x, a, y. split_and!; [done|done| |done].
  by rewrite (take_S_r _ _ _ Ha), exec_snoc, Hx in Hy.
Qed.

Lemma lasso_run : cyc <> [] -> exec s0 pre = Some s1 -> exec s1 cyc = Some s1 ->
  infinite_run lasso_state lasso_lab.
Proof.
  intros Hne Hpre Hcyc t. unfold lasso_state, lasso_lab. assert (Hk : (0 < length cyc)%nat) by (by destruct cyc; [|simpl; lia]).
  destruct (Nat.ltb_spec t (length pre)) as [Hlt|Hge].
  - destruct (exec_next _ _ _ _ Hpre Hlt) as (x & a & y & -> & -> & Hs & Hy). cbn [from_option]. unfold id. rewrite Hs.
    destruct (Nat.ltb_spec (S t) (length pre)); [by rewrite Hy|].
    replace (S t - length pre)%nat with 0%nat by lia. rewrite Nat.mod_small by done. cbn [take exec].
    rewrite take_ge, Hpre in Hy by lia. by injection Hy as <-.
  - rewrite (proj2 (Nat.ltb_ge _ _)) by lia.
    replace (S t - length pre)%nat with (t - length pre + 1)%nat by lia.
    rewrite <- (Nat.Div0.add_mod_idemp_l _ 1). set (i := ((t - length pre) mod length cyc)%nat).
    assert (Hi : (i < length cyc)%nat) by (apply Nat.mod_upper_bound; lia).
    destruct (exec_next _ _ _ _ Hcyc Hi) as (x & a & y & -> & -> & Hs & Hy). cbn [from_option]. unfold id. rewrite Hs.
    destruct (decide (i + 1 < length cyc)%nat).
    + rewrite Nat.mod_small by done. rewrite Nat.add_1_r. by rewrite Hy.
    + replace (i + 1)%nat with (length cyc) by lia. rewrite Nat.Div0.mod_same. cbn [take exec].
      rewrite take_ge, Hcyc in Hy by lia. by injection Hy as <-.
Qed.

(** It comes round to every place of its cycle. *)
Lemma lasso_place t i : (i < length cyc)%nat -> exists t', (t <= t')%nat /\
  lasso_lab t' = default d (cyc !! i) /\ lasso_state t' = default s0 (exec s1 (take i cyc)).
Proof.
  intros Hi. exists (length pre + (i + t * length cyc))%nat. split; [nia|].
  assert (Hm : ((length pre + (i + t * length cyc) - length pre) mod length cyc = i)%nat).
  { replace (length pre + (i + t * length cyc) - length pre)%nat with (i + t * length cyc)%nat by lia.
    etrans; [apply Nat.Div0.mod_add|by apply Nat.mod_small]. }
  unfold lasso_lab, lasso_state. rewrite (proj2 (Nat.ltb_ge _ _)) by lia. by rewrite Hm.
Qed.

Lemma lasso_fair ready mine i : (i < length cyc)%nat ->
  mine (default d (cyc !! i)) = true \/ ready (default s0 (exec s1 (take i cyc))) = false ->
  weakly_fair ready mine lasso_state lasso_lab.
Proof.
  intros Hi Hcase t. destruct (lasso_place t i Hi) as (t' & Ht & Hl & Hs).
  exists t'. rewrite Hl, Hs. done.
Qed.

(** What holds at each place of it holds always. *)
Lemma lasso_all (P : Label -> bool) (Q : State -> bool) t0 :
  forallb P (drop t0 pre ++ cyc) = true ->
  forallb (fun i => Q (default s0 (exec s0 (take i pre)))) (seq t0 (length pre - t0)) = true ->
  forallb (fun i => Q (default s0 (exec s1 (take i cyc)))) (seq 0 (length cyc)) = true ->
  cyc <> [] -> forall t, (t0 <= t)%nat -> P (lasso_lab t) = true /\ Q (lasso_state t) = true.
Proof.
  rewrite !forallb_forall. intros HP HQ1 HQ2 Hne t Ht. unfold lasso_lab, lasso_state.
  assert (Hk : (0 < length cyc)%nat) by (by destruct cyc; [|simpl; lia]).
  destruct (Nat.ltb_spec t (length pre)) as [Hlt|Hge].
  - split; [|apply HQ1, in_seq; lia]. destruct (lookup_lt_is_Some_2 _ _ Hlt) as [a Ha].
    rewrite Ha. apply HP, in_app_iff. left. apply list_elem_of_In, list_elem_of_lookup.
    exists (t - t0)%nat. rewrite lookup_drop. by replace (t0 + (t - t0))%nat with t by lia.
  - pose proof (Nat.mod_upper_bound (t - length pre) (length cyc) ltac:(lia)) as Hi.
    split; [|apply HQ2, in_seq; lia]. destruct (lookup_lt_is_Some_2 _ _ Hi) as [a Ha].
    rewrite Ha. apply HP, in_app_iff. right. by eapply list_elem_of_In, list_elem_of_lookup_2.
Qed.
End lasso.

(** The rule.  [I] holds all along; while the goal is not reached, every action
    reaches it, makes the measure smaller, or is that of another process and
    changes neither the measure nor which process is to help. *)
Section rule.
Context {Proc M : Type} (mine : Proc -> Label -> bool) (ready : Proc -> State -> bool).
Context (helpful : State -> Proc) (R : M -> M -> Prop) (mu : State -> M).
Context (ok : Label -> bool) (I goal : State -> Prop).

Definition helps : Prop :=
  (forall s, I s -> ~ goal s -> ready (helpful s) s = true) /\
  (forall s a s', I s -> ~ goal s -> ok a = true -> step s a = Some s' ->
    goal s' \/ R (mu s') (mu s) \/
    (mu s' = mu s /\ helpful s' = helpful s /\ mine (helpful s) a = false)).

Lemma helps_leads_to `{!forall s, Decision (goal s)} tr lab t0 :
  well_founded R -> helps -> infinite_run tr lab ->
  (forall t, (t0 <= t)%nat -> ok (lab t) = true) ->
  (forall t, (t0 <= t)%nat -> I (tr t)) ->
  (forall p, weakly_fair (ready p) (mine p) tr lab) ->
  exists t, (t0 <= t)%nat /\ goal (tr t).
Proof.
  intros Hwf [Hready Hact] Hrun Hok HI Hfair.
  remember (mu (tr t0)) as m eqn:Hm. revert t0 Hok HI Hm.
  induction (Hwf m) as [m _ IH]. intros t0 Hok HI ->.
  destruct (Hfair (helpful (tr t0)) t0) as (t1 & Ht1 & Hcase).
  assert (Hgen : forall d t, (t + d = t1)%nat -> (t0 <= t)%nat -> mu (tr t) = mu (tr t0) ->
    helpful (tr t) = helpful (tr t0) -> exists t', (t0 <= t')%nat /\ goal (tr t')).
  { induction d as [|d IHd]; intros t Htd Ht Hmu Hh;
      (destruct (decide (goal (tr t))) as [|Hng]; [by exists t|]);
      (destruct (Hact _ _ _ (HI _ Ht) Hng (Hok _ Ht) (Hrun t)) as [Hg|[HR|(Hmu' & Hh' & Hmine)]];
       [exists (S t); split; [lia|done]| |]).
    1, 3: rewrite Hmu in HR; destruct (IH _ HR (S t)) as (t' & ? & ?);
      [intros; apply Hok; lia|intros; apply HI; lia|done|exists t'; split; [lia|done]].
    - exfalso. replace t1 with t in * by lia. rewrite Hh in Hmine.
      pose proof (Hready _ (HI _ Ht) Hng) as Hr. rewrite Hh in Hr. destruct Hcase; congruence.
    - apply (IHd (S t)); [lia|lia|congruence|congruence]. }
  by apply (Hgen (t1 - t0)%nat t0); [lia|lia|..].
Qed.
End rule.
End fairness.

(** ** Stuttering *)

(** At some times nothing happens ([None]), as when every process waits. *)
Definition stutter {State Label} (step : State -> Label -> option State)
    (s : State) (o : option Label) : option State :=
  match o with Some a => step s a | None => Some s end.
Definition on_action {Label} (b : bool) (f : Label -> bool) (o : option Label) : bool :=
  match o with Some a => f a | None => b end.

Section stuttering.
Context {State Label : Type} (step : State -> Label -> option State).

Lemma stutter_invariant (ok : Label -> bool) (I : State -> Prop) tr lab t0 :
  infinite_run (stutter step) tr lab ->
  (forall t, (t0 <= t)%nat -> on_action true ok (lab t) = true) ->
  (forall s a s', I s -> ok a = true -> step s a = Some s' -> I s') ->
  I (tr t0) -> forall t, (t0 <= t)%nat -> I (tr t).
Proof.
  intros Hrun Hok Hstep. apply (run_invariant (stutter step) (on_action true ok) I tr lab); [done|done|].
  intros s [a|] s' HI Ha Hs; simpl in *; [by eapply Hstep|by simplify_eq].
Qed.

Lemma stutter_leads_to {Proc M} (mine : Proc -> Label -> bool) (ready : Proc -> State -> bool)
    (helpful : State -> Proc) (R : M -> M -> Prop) (mu : State -> M) (ok : Label -> bool)
    (I goal : State -> Prop) `{!forall s, Decision (goal s)} tr lab t0 :
  well_founded R -> helps step mine ready helpful R mu ok I goal ->
  infinite_run (stutter step) tr lab ->
  (forall t, (t0 <= t)%nat -> on_action true ok (lab t) = true) ->
  (forall t, (t0 <= t)%nat -> I (tr t)) ->
  (forall p, weakly_fair (ready p) (on_action false (mine p)) tr lab) ->
  exists t, (t0 <= t)%nat /\ goal (tr t).
Proof.
  intros Hwf [Hready Hact] Hrun Hok HI Hfair.
  apply (helps_leads_to (stutter step) (fun p => on_action false (mine p))
    ready helpful R mu (on_action true ok) I goal tr lab t0); [done| |done..].
  split; [done|]. intros s [a|] s' Hs0 Hng Ha Hs; simpl in *; [by eapply Hact|].
  injection Hs as <-. by right; right.
Qed.

(** A fair execution of the system itself is one of the system with stuttering. *)
Lemma exec_stutter l : forall s, exec (stutter step) s (map Some l) = exec step s l.
Proof. induction l as [|a l IH]; intros s; cbn; [done|]. by destruct (step s a); cbn. Qed.
End stuttering.

(** ** Lexicographic measures *)

Definition lex2 {A B} (ltA : A -> A -> Prop) (ltB : B -> B -> Prop) : A * B -> A * B -> Prop :=
  slexprod A B ltA ltB.

Lemma lex2_wf {A B} (ltA : A -> A -> Prop) (ltB : B -> B -> Prop) :
  well_founded ltA -> well_founded ltB -> well_founded (lex2 ltA ltB).
Proof. apply wf_slexprod. Qed.

Lemma lex2_intro {A B} (ltA : A -> A -> Prop) (ltB : B -> B -> Prop) a b a' b' :
  ltA a' a \/ (a' = a /\ ltB b' b) -> lex2 ltA ltB (a', b') (a, b).
Proof. intros [Ha|[-> Hb]]; by constructor. Qed.

Abbreviation nlt := Nat.lt (only parsing).
