(* ===== verification/Sys.v ===== *)
(** * The program's outside world and the effect monad

    What the program calls but does not define - the operating system, libevent
    and boost::asio - is the parameter [env]: it answers each call, given the
    calls made before it.  [M] is the monad of the program's code: program state,
    [errno], the log of calls and their answers, the messages printed, and the
    ways the code can stop.  [wp] is its weakest precondition, with one rule per
    construct. *)

From S2P Require Import Prelude.

(** ** Calls *)

(** The calls, with their arguments.  Handles of libevent objects are numbers,
    callbacks are the names of the functions registered, and the [void* arg]
    passed to a callback is the contents of the object it points to. *)
Inductive call :=
(* sockets *)
| Socket (domain type protocol : Z)
| SetSockOpt (fd level opt val : Z)
| GetSockOpt (fd level opt : Z)
| Bind (fd : Z) (addr : list Z)
| Listen (fd backlog : Z)
| Accept (fd : Z)
| Connect (fd : Z) (addr : list Z)
| Recv (fd len flags : Z)
| Send (fd : Z) (bytes : list Z) (flags : Z)
| Close (fd : Z)
| FcntlGetfl (fd : Z)
| FcntlSetfl (fd flags : Z)
| SocketPair (domain type protocol : Z)
| SendFile (out_fd in_fd count : Z)
(* multiplexing *)
| EpollCreate (size : Z)
| EpollCtlAdd (epfd fd events : Z)
| EpollCtlDel (epfd fd : Z)
| EpollWait (epfd maxevents timeout : Z)
| Select (nfds : Z) (rfds : list Z) (timeout : Z)
| Poll (pfds : list (Z * Z)) (timeout : Z)
(* processes and signals *)
| Sigaction (sig : Z) (handler : string) (flags : Z)
| Fork
| Getpid
| Waitpid (pid options : Z)
| Kill (pid sig : Z)
| Umask (mask : Z)
| Setsid
| Chdir (path : string)
| Open (path : string) (flags : Z)
| Fstat (fd : Z)
| Sleep (ms : Z)
| HardwareConcurrency
| Now  (* system_clock::now in milliseconds *)
| SetRlimit (soft hard : Z)
| GetRlimit
(* libevent *)
| EventBaseNew
| EventBaseFree (base : Z)
| EventBaseDispatch (base : Z)
| EventBaseLoopexit (base : Z)
| EventNew (base fd : Z) (events : Z) (cb : string) (arg : list Z)
| EventAssign (ev base fd : Z) (events : Z) (cb : string) (arg : list Z)
| EventAdd (ev : Z)
| EventFree (ev : Z)
| EvutilNonblocking (fd : Z)
| EvutilReuseable (fd : Z)
| EvutilClosesocket (fd : Z)
| BevSocketNew (base fd options : Z)
| BevSetcb (be : Z) (readcb writecb eventcb : string) (arg : list Z)
| BevEnable (be events : Z)
| BevRead (be size : Z)
| BevWrite (be : Z) (bytes : list Z)
| BevFree (be : Z)
| BevGetfd (be : Z)
| BevConnect (be : Z) (addr : list Z)
| ListenerNewBind (base : Z) (cb : string) (arg : list Z) (flags backlog : Z) (addr : list Z)
| ListenerFree (lev : Z)
(* boost::asio::thread_pool *)
| PoolNew (size : Z)
| PoolDispatch (task : string) (args : list Z)
| PoolJoin.

(** An answer: the return value, the [errno] a failing call leaves, the bytes
    (or numbers) written to an output argument, the (fd, events) pairs of the
    multiplexing calls, and, for [EventBaseDispatch], the callback that libevent
    runs next ([None] when the loop has ended and the call returns). *)
Record reply := Reply {
  r_ret : Z;
  r_errno : Z;
  r_data : list Z;
  r_evs : list (Z * Z);
  r_cb : option (string * list Z);
}.

Definition ret_ok (z : Z) : reply := Reply z 0 [] [] None.
Definition ret_err (e : Z) : reply := Reply (-1) e [] [] None.
Definition ret_data (l : list Z) : reply := Reply (Z.of_nat (length l)) 0 l [] None.
Definition ret_evs (l : list (Z * Z)) : reply := Reply (Z.of_nat (length l)) 0 [] l None.
Definition ret_cb (cb : string) (args : list Z) : reply := Reply 0 0 [] [] (Some (cb, args)).

Abbreviation event := (call * reply)%type (only parsing).

(** The environment: the answer to a call after a history of calls; [None] when
    the call does not return (it blocks for ever). *)
Class Env := env : list event -> call -> option reply.

(** The environment that gives the listed answers one after the other. *)
Definition script (rs : list reply) : Env := fun h _ => rs !! length h.

(** *** Constants of the system headers (Linux) *)
Definition EINTR : Z := 4.
Definition EAGAIN : Z := 11.
Definition EWOULDBLOCK : Z := EAGAIN.
Definition SIGINT : Z := 2.
Definition SIGPIPE : Z := 13.
Definition SIGALRM : Z := 14.
Definition SIGTERM : Z := 15.
Definition SIGCHLD : Z := 17.
Definition SIGURG : Z := 23.
Definition AF_UNIX : Z := 1.
Definition AF_INET : Z := 2.
Definition SOCK_STREAM : Z := 1.
Definition SOL_SOCKET : Z := 1.
Definition SO_REUSEADDR : Z := 2.
Definition SO_SNDBUF : Z := 7.
Definition SO_RCVBUF : Z := 8.
Definition O_NONBLOCK : Z := 2048.
Definition SA_RESTART : Z := 268435456.
Definition EPOLLIN : Z := 1.
Definition EPOLLET : Z := 2147483648.
Definition POLLIN : Z := 1.
Definition WNOHANG : Z := 1.
Definition EV_READ : Z := 2.
Definition EV_SIGNAL : Z := 8.
Definition EV_PERSIST : Z := 16.
Definition BEV_OPT_CLOSE_ON_FREE : Z := 1.
Definition BEV_EVENT_EOF : Z := 16.
Definition BEV_EVENT_ERROR : Z := 32.
Definition BEV_EVENT_CONNECTED : Z := 128.
Definition LEV_OPT_CLOSE_ON_FREE : Z := 2.
Definition LEV_OPT_REUSEABLE : Z := 8.

(** [x & flag] used as a condition. *)
Definition has_flag (x flag : Z) : bool := negb (Z.land x flag =? 0).

(** ** The monad *)

(** A line printed: the tag of the message and the data it shows. *)
Inductive output :=
| OutMsg (fd len : Z) (msg : list Z)      (* "Recv from fd .. msg len: .., msg: .." *)
| OutNum (tag : string) (n : Z)
| OutStr (tag : string) (s : list Z).

Record world (S : Type) := World {
  w_st : S;
  w_errno : Z;
  w_log : list event;
  w_out : list output;
}.
Arguments World {S} _ _ _ _.
Arguments w_st {S} _.
Arguments w_errno {S} _.
Arguments w_log {S} _.
Arguments w_out {S} _.

(** Why the code stopped before its end: [exit(code)], a failed [assert],
    undefined behaviour (an index out of range, a division by zero), a call that
    never returns, or the bound on loop iterations of the model. *)
Inductive halt := HExit (code : Z) | HAssert | HUB | HBlocked | HFuel.

Inductive res (A : Type) := Ok (a : A) | Stop (h : halt).
Arguments Ok {A} _.
Arguments Stop {A} _.

Definition M (S A : Type) : Type := world S -> res A * world S.

Section monad.
Context {S : Type}.

#[global] Instance M_ret : MRet (M S) := fun A a w => (Ok a, w).
#[global] Instance M_bind : MBind (M S) := fun A B k m w =>
  match m w with
  | (Ok a, w') => k a w'
  | (Stop h, w') => (Stop h, w')
  end.

Definition stop {A} (h : halt) : M S A := fun w => (Stop h, w).

Definition get : M S S := fun w => (Ok (w_st w), w).
Definition modify (f : S -> S) : M S unit := fun w =>
  (Ok tt, World (f (w_st w)) (w_errno w) (w_log w) (w_out w)).
Definition gets {A} (f : S -> A) : M S A := fun w => (Ok (f (w_st w)), w).
Definition get_errno : M S Z := fun w => (Ok (w_errno w), w).
Definition set_errno (e : Z) : M S unit := fun w =>
  (Ok tt, World (w_st w) e (w_log w) (w_out w)).
Definition print (o : output) : M S unit := fun w =>
  (Ok tt, World (w_st w) (w_errno w) (w_log w) (w_out w ++ [o])).

(** The world after a call was answered. *)
Definition after (c : call) (r : reply) (w : world S) : world S :=
  World (w_st w) (if r_ret r <? 0 then r_errno r else w_errno w)
    (w_log w ++ [(c, r)]) (w_out w).

Definition sys `{Env} (c : call) : M S reply := fun w =>
  match env (w_log w) c with
  | Some r => (Ok r, after c r w)
  | None => (Stop HBlocked, w)
  end.

(** A call whose result is used as a number, or not at all. *)
Definition sys_ `{Env} (c : call) : M S Z := r ← sys c; mret (r_ret r).

Definition assert_ (b : bool) : M S unit := if b then mret tt else stop HAssert.

(** [a[i]] with an index out of range is undefined behaviour. *)
Definition index {A} (l : list A) (i : Z) : M S A :=
  match lookupZ l i with Some x => mret x | None => stop HUB end.

Definition when (b : bool) (m : M S unit) : M S unit := if b then m else mret tt.

(** [while (true)]: the body says [inl] to go on and [inr] to leave. *)
Fixpoint while_ {A B} (fuel : nat) (body : A -> M S (A + B)) (a : A) : M S B :=
  match fuel with
  | O => stop HFuel
  | Datatypes.S fuel =>
      r ← body a;
      match r with inl a' => while_ fuel body a' | inr b => mret b end
  end.

(** [for (x : l)]: the body says [inl] to go on and [inr] to [break]. *)
Fixpoint for_ {I A} (l : list I) (body : I -> A -> M S (A + A)) (a : A) : M S A :=
  match l with
  | [] => mret a
  | i :: l =>
      r ← body i a;
      match r with inl a' => for_ l body a' | inr a' => mret a' end
  end.

(** A [for] loop without [break] and without local state. *)
Definition for_each {I} (l : list I) (body : I -> M S unit) : M S unit :=
  for_ l (fun i _ => body i ;; mret (inl tt)) tt.
End monad.

(** [event_base_dispatch]: libevent runs callbacks, one after the other, until
    the loop ends; the result is the value it returns then. *)
Definition event_loop `{Env} {S} (fuel : nat) (base : Z)
    (callback : string -> list Z -> M S unit) : M S Z :=
  while_ fuel (fun _ =>
    r ← sys (EventBaseDispatch base);
    match r_cb r with
    | Some (cb, args) => callback cb args ;; mret (inl tt)
    | None => mret (inr (r_ret r))
    end) tt.

(** The indices of [for (int i = from; i < to; i++)]. *)
Definition range (from to : Z) : list Z := seqZ from (to - from).

#[global] Arguments while_ : simpl never.
#[global] Arguments range : simpl never.
#[global] Arguments for_each : simpl never.

(** ** Weakest preconditions *)

Definition wp {S A} (m : M S A) (Q : res A -> world S -> Prop) (w : world S) : Prop :=
  let '(r, w') := m w in Q r w'.

(** The continuation of a bind in postcondition position. *)
Definition bind_post {S A B} (k : A -> M S B) (Q : res B -> world S -> Prop)
    : res A -> world S -> Prop := fun r w =>
  match r with Ok a => wp (k a) Q w | Stop h => Q (Stop h) w end.

Section wp_rules.
Context {S : Type}.
Implicit Types w : world S.

Lemma wp_run {A} (m : M S A) Q w : wp m Q w <-> Q (fst (m w)) (snd (m w)).
Proof. unfold wp. by destruct (m w). Qed.

Lemma wp_mono {A} (m : M S A) (P Q : res A -> world S -> Prop) w :
  wp m P w -> (forall r w', P r w' -> Q r w') -> wp m Q w.
Proof. rewrite !wp_run. auto. Qed.

Lemma wp_ret {A} (a : A) Q w : Q (Ok a) w -> wp (mret a : M S A) Q w.
Proof. done. Qed.

Lemma wp_stop {A} h (Q : res A -> world S -> Prop) w : Q (Stop h) w -> wp (stop h) Q w.
Proof. done. Qed.

Lemma wp_bind {A B} (m : M S A) (k : A -> M S B) Q w :
  wp m (bind_post k Q) w -> wp (m ≫= k) Q w.
Proof. unfold wp, bind_post, mbind, M_bind. destruct (m w) as [[a|h] w']; done. Qed.

Lemma wp_get Q w : Q (Ok (w_st w)) w -> wp get Q w.
Proof. done. Qed.

Lemma wp_gets {A} (f : S -> A) Q w : Q (Ok (f (w_st w))) w -> wp (gets f) Q w.
Proof. done. Qed.

Lemma wp_modify f Q w :
  Q (Ok tt) (World (f (w_st w)) (w_errno w) (w_log w) (w_out w)) -> wp (modify f) Q w.
Proof. done. Qed.

Lemma wp_print o Q w :
  Q (Ok tt) (World (w_st w) (w_errno w) (w_log w) (w_out w ++ [o])) -> wp (print o) Q w.
Proof. done. Qed.

Lemma wp_get_errno Q w : Q (Ok (w_errno w)) w -> wp get_errno Q w.
Proof. done. Qed.

Lemma wp_sys `{Env} c Q w :
  (env (w_log w) c = None -> Q (Stop HBlocked) w) ->
  (forall r, env (w_log w) c = Some r -> Q (Ok r) (after c r w)) ->
  wp (sys c) Q w.
Proof. unfold wp, sys. destruct (env (w_log w) c); auto. Qed.

Lemma wp_sys_ `{Env} c Q w :
  (env (w_log w) c = None -> Q (Stop HBlocked) w) ->
  (forall r, env (w_log w) c = Some r -> Q (Ok (r_ret r)) (after c r w)) ->
  wp (sys_ c) Q w.
Proof. intros ??. apply wp_bind, wp_sys; auto. Qed.

Lemma wp_assert b Q w :
  (b = true -> Q (Ok tt) w) -> (b = false -> Q (Stop HAssert) w) -> wp (assert_ b) Q w.
Proof. destruct b; intros; [apply wp_ret | apply wp_stop]; auto. Qed.

Lemma wp_index {A} (l : list A) i Q w :
  (forall x, lookupZ l i = Some x -> Q (Ok x) w) ->
  (lookupZ l i = None -> Q (Stop HUB) w) -> wp (index l i) Q w.
Proof.
  unfold index. destruct (lookupZ l i); intros; [apply wp_ret | apply wp_stop]; auto.
Qed.

Lemma wp_when b m Q w :
  (b = true -> wp m Q w) -> (b = false -> Q (Ok tt) w) -> wp (when b m) Q w.
Proof. destruct b; intros; [|apply wp_ret]; auto. Qed.

Lemma wp_while_O {A B} (body : A -> M S (A + B)) Q a w :
  Q (Stop HFuel) w -> wp (while_ O body a) Q w.
Proof. done. Qed.

Lemma wp_while_S {A B} (body : A -> M S (A + B)) Q fuel a w :
  wp (body a) (bind_post (fun r => match r with
    | inl a' => while_ fuel body a'
    | inr b => mret b
    end) Q) w -> wp (while_ (Datatypes.S fuel) body a) Q w.
Proof. intros. by apply wp_bind. Qed.

(** A loop invariant that the body keeps, also where the loop is cut. *)
Lemma wp_while {A B} (I : A -> world S -> Prop) (body : A -> M S (A + B)) Q fuel a w :
  (forall a w, I a w -> Q (Stop HFuel) w) ->
  (forall a w, I a w ->
    wp (body a) (fun r w' => match r with
      | Ok (inl a') => I a' w'
      | Ok (inr b) => Q (Ok b) w'
      | Stop h => Q (Stop h) w'
      end) w) ->
  I a w -> wp (while_ fuel body a) Q w.
Proof.
  intros Hfuel Hbody. revert a w. induction fuel as [|fuel IH]; intros a w HI.
  - apply wp_while_O. eauto.
  - apply wp_while_S. eapply wp_mono; [by apply Hbody|].
    intros [[a'|b]|h] w'; simpl; auto.
Qed.

(** A [for] loop with an invariant over the elements still to come. *)
Lemma wp_for {I A} (Inv : list I -> A -> world S -> Prop) (l : list I)
    (body : I -> A -> M S (A + A)) Q a w :
  (forall a w, Inv [] a w -> Q (Ok a) w) ->
  (forall i l a w, Inv (i :: l) a w ->
    wp (body i a) (fun r w' => match r with
      | Ok (inl a') => Inv l a' w'
      | Ok (inr a') => Q (Ok a') w'
      | Stop h => Q (Stop h) w'
      end) w) ->
  Inv l a w -> wp (for_ l body a) Q w.
Proof.
  intros Hnil Hbody. revert a w. induction l as [|i l IH]; intros a w HI; simpl.
  - apply wp_ret. eauto.
  - apply wp_bind. eapply wp_mono; [by apply Hbody|].
    intros [[a'|b]|h] w'; simpl; auto.
Qed.

Lemma wp_for_each {I} (Inv : world S -> Prop) (l : list I) (body : I -> M S unit) Q w :
  (forall w, Inv w -> Q (Ok tt) w) ->
  (forall i w, i ∈ l -> Inv w ->
    wp (body i) (fun r w' => match r with Ok _ => Inv w' | Stop h => Q (Stop h) w' end) w) ->
  Inv w -> wp (for_each l body) Q w.
Proof.
  intros Hnil Hbody HI. unfold for_each.
  apply (wp_for (fun l' _ w => l' ⊆ l /\ Inv w)); [| |done].
  - intros [] ? [_ ?]; auto.
  - intros i l' [] w' [Hl ?]. apply wp_bind. eapply wp_mono; [apply Hbody; [set_solver|done]|].
    intros [[]|h] w''; simpl; [|done]. intros. apply wp_ret. set_solver.
Qed.

(** A [for] loop over a list that is known, turn by turn. *)
Lemma wp_for_each_nil {I} (body : I -> M S unit) Q w : Q (Ok tt) w -> wp (for_each [] body) Q w.
Proof. done. Qed.

Lemma wp_for_each_cons {I} i (l : list I) (body : I -> M S unit) Q w :
  wp (body i) (bind_post (fun _ => for_each l body) Q) w -> wp (for_each (i :: l) body) Q w.
Proof.
  intros Hw. apply wp_bind, wp_bind. eapply wp_mono; [exact Hw|]. by intros [[]|h] w'.
Qed.

(** A [for] loop over the indices from [from] to [to], with an invariant that
    mentions the index. *)
Lemma wp_for_range {A} (Inv : Z -> A -> world S -> Prop) from to
    (body : Z -> A -> M S (A + A)) Q a w :
  from <= to ->
  (forall a w, Inv to a w -> Q (Ok a) w) ->
  (forall i a w, from <= i < to -> Inv i a w ->
    wp (body i a) (fun r w' => match r with
      | Ok (inl a') => Inv (i + 1) a' w'
      | Ok (inr a') => Q (Ok a') w'
      | Stop h => Q (Stop h) w'
      end) w) ->
  Inv from a w -> wp (for_ (range from to) body a) Q w.
Proof.
  intros Hle Hend Hbody HI.
  apply (wp_for (fun l a w => exists i, from <= i <= to /\ l = range i to /\ Inv i a w)).
  - intros a' w' (i & Hi & Hl & HI'). destruct (decide (i = to)) as [->|]; [by apply Hend|].
    unfold range in Hl. rewrite seqZ_cons in Hl by lia. done.
  - intros j l a' w' (i & Hi & Hl & HI'). unfold range in Hl.
    destruct (decide (i = to)) as [->|]; [by rewrite Z.sub_diag in Hl|].
    rewrite seqZ_cons in Hl by lia. simplify_eq.
    eapply wp_mono; [apply Hbody; [lia|done]|].
    intros [[a''|b]|h] w''; [|done..]. intros HI''. exists (i + 1).
    split_and!; [lia|lia| |done]. unfold range. f_equal; lia.
  - exists from. split_and!; done || lia.
Qed.

Lemma wp_for_each_range (Inv : Z -> world S -> Prop) from to (body : Z -> M S unit) Q w :
  from <= to ->
  (forall w, Inv to w -> Q (Ok tt) w) ->
  (forall i w, from <= i < to -> Inv i w ->
    wp (body i) (fun r w' => match r with Ok _ => Inv (i + 1) w' | Stop h => Q (Stop h) w' end) w) ->
  Inv from w -> wp (for_each (range from to) body) Q w.
Proof.
  intros Hle Hend Hbody HI. unfold for_each.
  apply (wp_for_range (fun i _ => Inv i)); [done|intros []; auto| |done].
  intros i [] w' Hi HI'. apply wp_bind. eapply wp_mono; [by apply Hbody|].
  by intros [[]|h] w''.
Qed.
End wp_rules.

#[global] Arguments for_ : simpl never.

(** One step of symbolic execution: bring the head construct of the program to
    the front and apply its rule. *)
Ltac wp_step :=
  match goal with
  | |- wp (mbind _ _) _ _ => apply wp_bind
  | |- wp (mret _) _ _ => apply wp_ret
  | |- wp (stop _) _ _ => apply wp_stop
  | |- wp get _ _ => apply wp_get
  | |- wp (gets _) _ _ => apply wp_gets
  | |- wp (modify _) _ _ => apply wp_modify
  | |- wp (print _) _ _ => apply wp_print
  | |- wp get_errno _ _ => apply wp_get_errno
  | |- wp (sys _) _ _ => apply wp_sys; [intros ? | intros ? ?]
  | |- wp (sys_ _) _ _ => apply wp_sys_; [intros ? | intros ? ?]
  | |- wp (assert_ _) _ _ => apply wp_assert; intros ?
  | |- wp (index _ _) _ _ => apply wp_index; [intros ? ? | intros ?]
  | |- wp (when _ _) _ _ => apply wp_when; intros ?
  | |- bind_post _ _ _ _ => unfold bind_post
  end; simpl.
Ltac wp_steps := repeat wp_step.

(** Running a program on an environment that is known call by call. *)
Lemma sys_run `{Env} {S} c r (w : world S) :
  env (w_log w) c = Some r -> sys c w = (Ok r, after c r w).
Proof. unfold sys. by intros ->. Qed.

Lemma sys__run `{Env} {S} c r (w : world S) :
  env (w_log w) c = Some r -> sys_ c w = (Ok (r_ret r), after c r w).
Proof. unfold sys_, mbind, M_bind. by intros ->%sys_run. Qed.

Lemma bind_run {S A B} (m : M S A) (k : A -> M S B) w a w' :
  m w = (Ok a, w') -> (m ≫= k) w = k a w'.
Proof. unfold mbind, M_bind. by intros ->. Qed.

Lemma bind_stop {S A B} (m : M S A) (k : A -> M S B) w h w' :
  m w = (Stop h, w') -> (m ≫= k) w = (Stop h, w').
Proof. unfold mbind, M_bind. by intros ->. Qed.

(** ** Environments *)

(** Every call returns. *)
Definition returns `{Env} : Prop := forall h c, is_Some (env h c).

Lemma wp_sys_returns `{Env} {S} c (Q : res reply -> world S -> Prop) w :
  returns -> (forall r, env (w_log w) c = Some r -> Q (Ok r) (after c r w)) -> wp (sys c) Q w.
Proof.
  intros Hret HQ. apply wp_sys; [|done]. intros Hn. destruct (Hret (w_log w) c). congruence.
Qed.

Lemma wp_sys__returns `{Env} {S} c (Q : res Z -> world S -> Prop) w :
  returns -> (forall r, env (w_log w) c = Some r -> Q (Ok (r_ret r)) (after c r w)) ->
  wp (sys_ c) Q w.
Proof. intros Hret HQ. by apply wp_bind, wp_sys_returns. Qed.

(** [wp_steps] when every call returns. *)
Ltac wp_step_ret Hret :=
  match goal with
  | |- wp (sys _) _ _ => apply wp_sys_returns; [exact Hret | intros ? ?]; simpl
  | |- wp (sys_ _) _ _ => apply wp_sys__returns; [exact Hret | intros ? ?]; simpl
  | |- _ => wp_step
  end.
Ltac wp_steps_ret Hret := repeat wp_step_ret Hret.

(** [drains c h rs r]: after the history [h], the environment answers the call
    [c], repeated with no other call in between, by the positive results [rs] and
    then by [r], which is zero or negative. *)
Inductive drains `{Env} (c : call) : list event -> list reply -> reply -> Prop :=
| drains_stop h r : env h c = Some r -> r_ret r <= 0 -> drains c h [] r
| drains_more h r rs r' :
    env h c = Some r -> 0 < r_ret r -> drains c (h ++ [(c, r)]) rs r' ->
    drains c h (r :: rs) r'.

(** A read loop whose turns each make the call [c] and nothing else goes round
    once per positive answer; [I ps] holds after the answers [ps]. *)
Lemma wp_while_drains `{Env} {S A B} c (body : A -> M S (A + B))
    (I : list reply -> A -> world S -> Prop) (Q : res B -> world S -> Prop) fuel a w rs r :
  (forall ps a w r, I ps a w -> env (w_log w) c = Some r -> 0 < r_ret r ->
    wp (body a) (fun x w' => exists a', x = Ok (inl a') /\
      w_log w' = w_log w ++ [(c, r)] /\ I (ps ++ [r]) a' w') w) ->
  (forall a w, I rs a w -> env (w_log w) c = Some r -> r_ret r <= 0 ->
    wp (body a) (fun x w' => match x with
      | Ok (inl _) => False
      | Ok (inr b) => Q (Ok b) w'
      | Stop h => Q (Stop h) w'
      end) w) ->
  drains c (w_log w) rs r -> (length rs < fuel)%nat -> I [] a w ->
  wp (while_ fuel body a) Q w.
Proof.
  intros Hmore Hstop Hd Hfuel HI.
  assert (Hgen : forall ps rs', rs = ps ++ rs' ->
    forall fuel a w, drains c (w_log w) rs' r -> (length rs' < fuel)%nat -> I ps a w ->
    wp (while_ fuel body a) Q w).
  { clear fuel a w Hd Hfuel HI. intros ps rs'. revert ps.
    induction rs' as [|r' rs' IH]; intros ps Hps [|fuel] a w Hd Hfuel HI; simpl in *; try lia.
    - apply wp_while_S. inversion Hd; subst. rewrite app_nil_r in *.
      eapply wp_mono; [by apply Hstop|]. intros [[a'|b]|h] w'; done.
    - apply wp_while_S. inversion Hd; subst. eapply wp_mono; [by eapply Hmore|].
      intros x w' (a' & -> & Hlog & HI'); simpl.
      apply (IH (ps ++ [r'])); [by rewrite <- app_assoc| |lia|done].
      by rewrite Hlog. }
  by apply (Hgen [] rs).
Qed.
