(* ===== verification/CLib.v ===== *)
(** * The C library's data: byte buffers, strings, socket addresses

    The functions of the C standard library the program uses on memory (memset,
    C strings, atoi), the layout of [sockaddr_in], and the helpers that receive
    into a buffer. *)

From S2P Require Import Prelude Sys.

(** server/include/tools.hpp: the size of every receive buffer. *)
Definition BUF_SIZE : Z := 4096.

(** The answer of every server to a message: "OK". *)
Definition OK : list Z := [79; 75].

(** ** Buffers *)

(** [memset(buf, c, n)] *)
Definition memset (buf : list Z) (c : Z) (n : nat) : list Z := replicate n c ++ drop n buf.

(** What a call that stores [data] at the start of [buf] leaves in it. *)
Definition buf_write (buf data : list Z) : list Z := data ++ drop (length data) buf.

(** The bytes before the first NUL; [None] when there is none, in which case
    printing the buffer as a string reads past its end. *)
Fixpoint c_str (buf : list Z) : option (list Z) :=
  match buf with
  | [] => None
  | b :: buf => if b =? 0 then Some [] else (b ::.) <$> c_str buf
  end.

(** The part of a message that is shown when it is printed as a C string. *)
Fixpoint until_nul (data : list Z) : list Z :=
  match data with
  | [] => []
  | b :: data => if b =? 0 then [] else b :: until_nul data
  end.

Lemma c_str_write buf data i :
  c_str (data ++ 0 :: i ++ buf) = Some (until_nul data).
Proof. induction data as [|b d IH]; simpl; [done|]. case_match; [done|]. by rewrite IH. Qed.

(** An array with a NUL in it can be printed. *)
Lemma c_str_is_Some buf : 0 ∈ buf -> is_Some (c_str buf).
Proof.
  induction buf as [|b buf IH]; intros Hin; [by apply elem_of_nil in Hin|]. simpl.
  destruct (Z.eqb_spec b 0); [by eexists|]. apply elem_of_cons in Hin as [?|Hin]; [congruence|].
  destruct (IH Hin) as [x ->]. by eexists.
Qed.

Lemma length_buf_write buf data :
  (length data <= length buf)%nat -> length (buf_write buf data) = length buf.
Proof. intros. unfold buf_write. rewrite length_app, length_drop. lia. Qed.

(** A message terminated in place: [recv] then [buf[n] = 0]. *)
Lemma c_str_terminated buf data :
  (length data < length buf)%nat ->
  c_str (insertZ (Z.of_nat (length data)) 0 (buf_write buf data)) = Some (until_nul data).
Proof.
  intros H. rewrite insertZ_of_nat. unfold buf_write.
  rewrite insert_app_r_alt, Nat.sub_diag by lia.
  destruct (drop (length data) buf) as [|b rest] eqn:E; simpl.
  - apply (f_equal length) in E. rewrite length_drop in E. simpl in E. lia.
  - apply (c_str_write rest data []).
Qed.

(** A message in a buffer cleared beforehand: [memset] then [recv]. *)
Lemma c_str_cleared n data :
  (length data < n)%nat ->
  c_str (buf_write (replicate n 0) data) = Some (until_nul data).
Proof.
  intros H. unfold buf_write. rewrite drop_replicate.
  destruct (n - length data)%nat as [|m] eqn:E; [lia|]. simpl.
  apply (c_str_write (replicate m 0) data []).
Qed.

(** ** Receiving into a buffer *)

Section recv.
Context `{Env} {S : Type}.

(** Storing what a call wrote; more bytes than the buffer holds would be an
    overflow. *)
Definition fill (buf : list Z) (r : reply) : M S (list Z) :=
  if bool_decide (length (r_data r) <= length buf)%nat
  then mret (buf_write buf (r_data r)) else stop HUB.

(** [recv(fd, buf, len, flags)]: the result and the buffer. *)
Definition recv (fd : Z) (buf : list Z) (len flags : Z) : M S (Z * list Z) :=
  r ← sys (Recv fd len flags); buf ← fill buf r; mret (r_ret r, buf).

(** [bufferevent_read(be, buf, size)] *)
Definition bufferevent_read (be : Z) (buf : list Z) (size : Z) : M S (Z * list Z) :=
  r ← sys (BevRead be size); buf ← fill buf r; mret (r_ret r, buf).

(** [buf[i] = v] *)
Definition store (buf : list Z) (i v : Z) : M S (list Z) :=
  _ ← index buf i; mret (insertZ i v buf).

(** Printing a buffer as a string. *)
Definition string_of (buf : list Z) : M S (list Z) :=
  match c_str buf with Some s => mret s | None => stop HUB end.
End recv.

(** What recv(2) and bufferevent_read promise: at most [len] bytes are stored
    and their number is returned, -1 and nothing stored on failure. *)
Definition read_ok (len : Z) (r : reply) : Prop :=
  -1 <= r_ret r <= len /\ length (r_data r) = Z.to_nat (r_ret r).

Definition recv_contract `{Env} : Prop :=
  forall h fd len flags r, env h (Recv fd len flags) = Some r -> 0 <= len -> read_ok len r.

Definition bev_read_contract `{Env} : Prop :=
  forall h be size r, env h (BevRead be size) = Some r -> 0 <= size ->
    0 <= r_ret r /\ read_ok size r.

Lemma recv_wp `{Env} {S} fd buf len flags r (Q : res (Z * list Z) -> world S -> Prop) (w : world S) :
  recv_contract -> env (w_log w) (Recv fd len flags) = Some r ->
  0 <= len <= Z.of_nat (length buf) ->
  (read_ok len r -> Q (Ok (r_ret r, buf_write buf (r_data r))) (after (Recv fd len flags) r w)) ->
  wp (recv fd buf len flags) Q w.
Proof.
  intros Hrecv Hr Hlen HQ. pose proof (Hrecv _ _ _ _ _ Hr ltac:(lia)) as Hok.
  unfold recv. wp_steps; simplify_eq. unfold fill. destruct (Hok) as [Hle Hdl].
  rewrite bool_decide_eq_true_2 by lia. wp_steps. by apply HQ.
Qed.

Lemma bufferevent_read_wp `{Env} {S} be buf size r (Q : res (Z * list Z) -> world S -> Prop) (w : world S) :
  env (w_log w) (BevRead be size) = Some r ->
  (length (r_data r) <= length buf)%nat ->
  Q (Ok (r_ret r, buf_write buf (r_data r))) (after (BevRead be size) r w) ->
  wp (bufferevent_read be buf size) Q w.
Proof.
  intros Hr Hlen HQ. unfold bufferevent_read. wp_steps; simplify_eq.
  unfold fill. rewrite bool_decide_eq_true_2 by done. by wp_steps.
Qed.

(** ** Addresses *)

(** The two bytes, in memory order, of [htons(port)]: the conversion to
    [uint16_t] and the network (big endian) order. *)
Definition htons (port : Z) : list Z :=
  [wrap_u 16 port / 256; wrap_u 16 port mod 256].

(** The host value of two bytes in network order. *)
Definition ntohs (b : list Z) : Z :=
  match b with [hi; lo] => 256 * hi + lo | _ => 0 end.

(** A [uint16_t] read from two bytes of memory by this (little endian) host. *)
Definition load_u16 (b : list Z) : Z :=
  match b with [lo; hi] => 256 * hi + lo | _ => 0 end.

(** inet_pton is a parameter: the four bytes of an address, or none when the
    text is not an IPv4 address. *)
Class InetPton := inet_pton : string -> option (list Z).

(** The [sockaddr_in] that every server and client builds: family, port,
    address (left zero when [inet_pton] fails), padding. *)
Definition sockaddr_in `{InetPton} (ip : string) (port : Z) : list Z :=
  [AF_INET; 0] ++ htons port ++ default [0; 0; 0; 0] (inet_pton ip) ++ replicate 8 0.

Definition sin_port (addr : list Z) : list Z := take 2 (drop 2 addr).
Definition sin_addr (addr : list Z) : list Z := take 4 (drop 4 addr).

Lemma ntohs_htons port : 0 <= port < 2 ^ 16 -> ntohs (htons port) = port.
Proof.
  intros Hp. unfold ntohs, htons. rewrite wrap_u_id by done.
  pose proof (Z.div_mod port 256 ltac:(lia)). lia.
Qed.

(** ** Division

    [a / b] and [a % b] on C integers: truncated, and undefined for a zero
    divisor. *)
Section division.
Context {S : Type}.

Definition c_div (a b : Z) : M S Z := if b =? 0 then stop HUB else mret (Z.quot a b).
Definition c_mod (a b : Z) : M S Z := if b =? 0 then stop HUB else mret (Z.rem a b).

Lemma wp_c_mod a b (Q : res Z -> world S -> Prop) w :
  0 <= a -> 0 < b -> Q (Ok (a mod b)) w -> wp (c_mod a b) Q w.
Proof.
  intros Ha Hb HQ. unfold c_mod. destruct (Z.eqb_spec b 0); [lia|].
  rewrite Z.rem_mod_nonneg by lia. by wp_step.
Qed.

Lemma wp_c_div a b (Q : res Z -> world S -> Prop) w :
  0 <= a -> 0 < b -> Q (Ok (a / b)) w -> wp (c_div a b) Q w.
Proof.
  intros Ha Hb HQ. unfold c_div. destruct (Z.eqb_spec b 0); [lia|].
  rewrite Z.quot_div_nonneg by lia. by wp_step.
Qed.
End division.

(** ** The message buffer of the servers

    [char buf[BUF_SIZE]; memset(buf, 0, BUF_SIZE); recv(fd, buf, BUF_SIZE - 1, 0)]
    and printing the buffer when something was received; the result of [recv]. *)

(** The array after memset; what was in it before does not matter. *)
Definition cleared_buf : list Z :=
  let n := Z.to_nat BUF_SIZE in memset (replicate n 0) 0 n.
#[global] Arguments cleared_buf : simpl never.

Lemma cleared_buf_zero : cleared_buf = replicate (Z.to_nat BUF_SIZE) 0.
Proof. unfold cleared_buf, memset. rewrite drop_replicate, Nat.sub_diag, app_nil_r. reflexivity. Qed.

Lemma length_cleared_buf : Z.of_nat (length cleared_buf) = BUF_SIZE.
Proof. rewrite cleared_buf_zero, length_replicate. apply Z2Nat.id. unfold BUF_SIZE. lia. Qed.

Lemma c_str_cleared_buf data : Z.of_nat (length data) < BUF_SIZE ->
  c_str (buf_write cleared_buf data) = Some (until_nul data).
Proof.
  intros Hlen. rewrite cleared_buf_zero. apply c_str_cleared.
  apply Nat2Z.inj_lt. rewrite Z2Nat.id by (unfold BUF_SIZE; lia). done.
Qed.

#[global] Opaque cleared_buf.

Section receive_message.
Context `{Env} {S : Type}.

Definition receive_message (fd : Z) : M S Z :=
  '(len, buf) ← recv fd cleared_buf (BUF_SIZE - 1) 0;
  if 0 <? len then
    msg ← string_of buf;
    print (OutMsg fd len msg);;
    mret len
  else mret len.

(** What is printed for an answer of [recv]. *)
Definition message_out (fd : Z) (r : reply) : list output :=
  if 0 <? r_ret r then [OutMsg fd (r_ret r) (until_nul (r_data r))] else [].

Lemma receive_message_wp fd r (Q : res Z -> world S -> Prop) w :
  recv_contract -> env (w_log w) (Recv fd (BUF_SIZE - 1) 0) = Some r ->
  (forall w', w_st w' = w_st w -> w_log w' = w_log w ++ [(Recv fd (BUF_SIZE - 1) 0, r)] ->
    w_out w' = w_out w ++ message_out fd r ->
    w_errno w' = (if r_ret r <? 0 then r_errno r else w_errno w) ->
    Q (Ok (r_ret r)) w') ->
  wp (receive_message fd) Q w.
Proof.
  intros Hrecv Hr HQ. destruct (Hrecv _ _ _ _ _ Hr ltac:(done)) as [Hle Hdl].
  assert (Hfit : Z.of_nat (length (r_data r)) < BUF_SIZE) by (unfold BUF_SIZE in *; lia).
  unfold receive_message, recv, message_out in *.
  wp_steps; simplify_eq. unfold fill.
  pose proof length_cleared_buf. rewrite bool_decide_eq_true_2 by lia.
  wp_steps. destruct (Z.ltb_spec 0 (r_ret r)).
  - wp_step. unfold string_of. rewrite c_str_cleared_buf by done. wp_steps. by apply HQ.
  - wp_step. apply HQ; rewrite ?app_nil_r; done.
Qed.
End receive_message.

(** ** The idiom of the libevent servers

    [n = read(..., buf, BUF_SIZE - 1)], [buf[n] = '\0'], print [buf]: for [n > 0]
    the message is terminated inside the array. *)
Section terminate.
Context `{Env} {S : Type}.

Definition terminate_and_print (fd n : Z) (buf : list Z) : M S (list Z) :=
  buf ← store buf n 0;
  msg ← string_of buf;
  print (OutMsg fd n msg);;
  mret buf.

Lemma terminate_and_print_wp fd r buf (Q : res (list Z) -> world S -> Prop) w :
  read_ok (BUF_SIZE - 1) r -> 0 < r_ret r -> length buf = Z.to_nat BUF_SIZE ->
  (forall buf', length buf' = Z.to_nat BUF_SIZE ->
    Q (Ok buf') (World (w_st w) (w_errno w) (w_log w) (w_out w ++ message_out fd r))) ->
  wp (terminate_and_print fd (r_ret r) (buf_write buf (r_data r))) Q w.
Proof.
  intros [Hle Hdl] Hpos Hlen HQ. unfold BUF_SIZE in Hle, Hlen.
  unfold terminate_and_print, store, index. wp_step.
  destruct (lookupZ (buf_write buf (r_data r)) (r_ret r)) as [x|] eqn:Hl.
  2: { apply lookupZ_None in Hl. rewrite length_buf_write in Hl by lia. lia. }
  wp_steps. unfold string_of.
  replace (r_ret r) with (Z.of_nat (length (r_data r))) at 1 by lia.
  rewrite c_str_terminated by lia. wp_steps. unfold message_out in HQ.
  rewrite (proj2 (Z.ltb_lt _ _)) in HQ by done. apply HQ.
  by rewrite length_insertZ, length_buf_write by lia.
Qed.
End terminate.

(** ** Socket pairs *)

(** The pair of descriptors a call of socketpair stored. *)
Definition pair_of (e : event) : option (Z * Z) :=
  match e with
  | (SocketPair _ _ _, r) => match r_data r with [a; b] => Some (a, b) | _ => None end
  | _ => None
  end.

(** socketpair(2): on success two descriptors are stored. *)
Definition socketpair_contract `{Env} : Prop :=
  forall h d t p r, env h (SocketPair d t p) = Some r -> r_ret r = 0 ->
    exists a b, r_data r = [a; b].

(** ** What a log says *)

(** The calls of a log. *)
Definition calls {S} (w : world S) : list call := map fst (w_log w).

(** [w'] comes after [w] by the calls [cs]. *)
Definition comes_by {S} (w : world S) (cs : list call) (w' : world S) : Prop :=
  exists L, w_log w' = w_log w ++ L /\ map fst L = cs.

Lemma comes_by_refl {S} (w w' : world S) : w_log w' = w_log w -> comes_by w [] w'.
Proof. intros Hl. exists []. by rewrite app_nil_r. Qed.

Lemma comes_by_log {S} (w w' : world S) L : w_log w' = w_log w ++ L -> comes_by w (map fst L) w'.
Proof. by exists L. Qed.

Lemma comes_by_trans {S} (w w1 w2 : world S) cs1 cs2 :
  comes_by w cs1 w1 -> comes_by w1 cs2 w2 -> comes_by w (cs1 ++ cs2) w2.
Proof.
  intros (L1 & H1 & <-) (L2 & H2 & <-). exists (L1 ++ L2). by rewrite H2, H1, app_assoc, map_app.
Qed.

Lemma comes_by_calls {S} (w w' : world S) cs : comes_by w cs w' -> calls w' = calls w ++ cs.
Proof. intros (L & HL & <-). unfold calls. by rewrite HL, map_app. Qed.

(** The fds closed and the connections accepted. *)
Definition close_of (c : call) : option Z := match c with Close fd => Some fd | _ => None end.
Definition closed (L : list event) : list Z := omap close_of (map fst L).
Definition accept_of (e : event) : option Z :=
  match e with (Accept _, r) => if 0 <=? r_ret r then Some (r_ret r) else None | _ => None end.
Definition accepts (L : list event) : list Z := omap accept_of L.

Lemma closed_app L1 L2 : closed (L1 ++ L2) = closed L1 ++ closed L2.
Proof. unfold closed. by rewrite map_app, omap_app. Qed.
Lemma accepts_app L1 L2 : accepts (L1 ++ L2) = accepts L1 ++ accepts L2.
Proof. apply omap_app. Qed.
#[export] Hint Rewrite closed_app accepts_app : server.
