(* ===== verification/Safe.v ===== *)
(** * Code that does not go wrong

    A type system for the monad of Sys.  [safe I ok m P]: from a state in [I],
    whatever the environment answers, [m] either gives a result in [P] and leaves
    the state in [I], or stops in one of the ways [ok] allows - so, when [ok] excludes
    [HUB], without an access out of range or a division by zero.  There is one rule
    per construct, declared as a hint. *)

From S2P Require Import Prelude Sys CLib.

Create HintDb safe.

(** The ways to stop that are not undefined behaviour: an assertion, an exit, a
    call that does not return, the bound on the loops the environment ends. *)
Definition defined (h : halt) : Prop := h <> HUB.

Section safe.
Context `{Env} {S : Type} (I : S -> Prop) (ok : halt -> Prop).

Definition safe {A} (m : M S A) (P : A -> Prop) : Prop :=
  forall w, I (w_st w) ->
    wp m (fun r w' => match r with Ok a => P a /\ I (w_st w') | Stop h => ok h end) w.

Lemma safe_mono {A} (m : M S A) (P Q : A -> Prop) :
  safe m P -> (forall a, P a -> Q a) -> safe m Q.
Proof.
  intros Hm HPQ w Hw. eapply wp_mono; [by apply Hm|]. intros [a|h] w'; [|done].
  intros [? ?]. auto.
Qed.

Lemma safe_ret {A} (a : A) (P : A -> Prop) : P a -> safe (mret a) P.
Proof. by intros Ha w Hw. Qed.

Lemma safe_stop {A} h (P : A -> Prop) : ok h -> safe (stop h) P.
Proof. by intros Hh w Hw. Qed.

Lemma safe_bind {A B} (m : M S A) (k : A -> M S B) (P : A -> Prop) (Q : B -> Prop) :
  safe m P -> (forall a, P a -> safe (k a) Q) -> safe (m ≫= k) Q.
Proof.
  intros Hm Hk w Hw. apply wp_bind. eapply wp_mono; [by apply Hm|].
  intros [a|h] w'; simpl; [|done]. intros [Ha Hw']. by apply Hk.
Qed.

Lemma safe_get : safe get I.
Proof. by intros w Hw. Qed.

Lemma safe_get_errno : safe get_errno (fun _ => True).
Proof. by intros w Hw. Qed.

Lemma safe_print o : safe (print o) (fun _ => True).
Proof. by intros w Hw. Qed.

Lemma safe_modify f : (forall s, I s -> I (f s)) -> safe (modify f) (fun _ => True).
Proof. intros Hf w Hw. split; [done|]. simpl. auto. Qed.

Lemma safe_sys c : ok HBlocked -> safe (sys c) (fun r => exists h, env h c = Some r).
Proof. intros Hb w Hw. apply wp_sys; [done|]. intros r Hr. split; [by eexists|done]. Qed.

Lemma safe_sys_ c : ok HBlocked -> safe (sys_ c) (fun _ => True).
Proof. intros Hb. eapply safe_bind; [by apply safe_sys|]. intros r _. by apply safe_ret. Qed.

Lemma safe_assert b : ok HAssert -> safe (assert_ b) (fun _ => b = true).
Proof. intros Ha. destruct b; [by apply safe_ret|by apply safe_stop]. Qed.

Lemma safe_index {A} (l : list A) i : 0 <= i < Z.of_nat (length l) ->
  safe (index l i) (fun x => lookupZ l i = Some x).
Proof.
  intros Hi. unfold index. destruct (lookupZ l i) eqn:E; [by apply safe_ret|].
  by apply lookupZ_None in E.
Qed.

Lemma safe_if {A} (b : bool) (m1 m2 : M S A) P :
  (b = true -> safe m1 P) -> (b = false -> safe m2 P) -> safe (if b then m1 else m2) P.
Proof. destruct b; auto. Qed.

Lemma safe_c_mod a b : b <> 0 -> safe (c_mod a b) (fun x => x = Z.rem a b).
Proof. intros Hb. unfold c_mod. apply safe_if; [lia|]. intros _. by apply safe_ret. Qed.

Lemma safe_while {A B} (Inv : A -> Prop) (P : B -> Prop) n (body : A -> M S (A + B)) a :
  ok HFuel -> Inv a ->
  (forall a, Inv a -> safe (body a) (fun r => match r with inl a' => Inv a' | inr b => P b end)) ->
  safe (while_ n body a) P.
Proof.
  intros Hf Ha Hbody w Hw.
  apply (wp_while (fun a w' => Inv a /\ I (w_st w'))); [done| |done].
  intros a' w' [Ha' Hw']. eapply wp_mono; [by apply Hbody|].
  intros [[a''|b]|h] w''; naive_solver.
Qed.

Lemma safe_for {J A} (Inv : A -> Prop) (l : list J) (body : J -> A -> M S (A + A)) a :
  Inv a ->
  (forall j a, j ∈ l -> Inv a ->
    safe (body j a) (fun r => match r with inl a' | inr a' => Inv a' end)) ->
  safe (for_ l body a) Inv.
Proof.
  intros Ha Hbody w Hw.
  apply (wp_for (fun l' a w' => l' ⊆ l /\ Inv a /\ I (w_st w'))); [by intros ? ? [_ ?]| |done].
  intros j l' a' w' (Hl & Ha' & Hw'). eapply wp_mono; [apply Hbody; [set_solver|done..]|].
  intros [[a''|b]|h] w''; [|naive_solver..]. intros [? ?]. split; [set_solver|done].
Qed.

Lemma safe_for_each {J} (l : list J) (body : J -> M S unit) :
  (forall j, j ∈ l -> safe (body j) (fun _ => True)) -> safe (for_each l body) (fun _ => True).
Proof.
  intros Hbody. unfold for_each. apply safe_for; [done|]. intros j [] Hj _.
  eapply safe_bind; [by apply Hbody|]. intros _ _. by apply safe_ret.
Qed.

(** Leaving the type system: the rest of the code needs another invariant. *)
Lemma wp_safe_bind {A B} (m : M S A) (k : A -> M S B) (P : A -> Prop)
    (Q : res B -> world S -> Prop) w :
  safe m P -> I (w_st w) -> (forall h w', ok h -> Q (Stop h) w') ->
  (forall a w', P a -> I (w_st w') -> wp (k a) Q w') -> wp (m ≫= k) Q w.
Proof.
  intros Hm Hw Hstop Hk. apply wp_bind. eapply wp_mono; [by apply Hm|].
  intros [a|h] w'; simpl; [|auto]. intros [? ?]. auto.
Qed.

(** recv into a buffer of at least [len] bytes. *)
Lemma safe_recv fd buf len flags :
  recv_contract -> ok HBlocked -> 0 <= len <= Z.of_nat (length buf) ->
  safe (recv fd buf len flags) (fun '(ret, buf') => -1 <= ret <= len /\ length buf' = length buf).
Proof.
  intros Hrecv Hb Hlen w Hw. apply wp_bind, wp_sys; [done|]. intros r Hr.
  destruct (Hrecv _ _ _ _ _ Hr ltac:(lia)) as [Hle Hdl]. unfold fill. simpl.
  rewrite bool_decide_eq_true_2 by lia. wp_steps. split; [|done].
  split; [done|]. rewrite length_buf_write; lia.
Qed.
End safe.

Lemma defined_blocked : defined HBlocked. Proof. done. Qed.
Lemma defined_fuel : defined HFuel. Proof. done. Qed.
Lemma defined_assert : defined HAssert. Proof. done. Qed.
#[export] Hint Resolve defined_blocked defined_fuel defined_assert : safe.

(** One construct at a time; [safe_seq] forgets the result of the first part. *)
Ltac safe_seq := eapply safe_bind; [|intros ? _].
Ltac safe_get p Hp := eapply safe_bind; [apply safe_get|intros p Hp; simpl in *].
Ltac safe_call := eapply safe_bind; [by apply safe_sys_|intros ? _].

Lemma elem_of_range i a b : i ∈ range a b <-> a <= i < b.
Proof. unfold range. rewrite elem_of_seqZ. lia. Qed.

#[export] Hint Resolve safe_ret safe_get_errno safe_print safe_sys_ : safe.

(** ** Receiving messages *)

Section messages.
Context `{Env} {S : Type} (I : S -> Prop).

(** receive_message: the terminating NUL is inside the buffer. *)
Lemma receive_message_safe fd : recv_contract -> safe I defined (receive_message fd) (fun _ => True).
Proof.
  intros Hrecv w Hw. destruct (env (w_log w) (Recv fd (BUF_SIZE - 1) 0)) as [r|] eqn:Hr.
  - apply (receive_message_wp fd r); [done|done|]. intros w' Hst _ _ _. by rewrite Hst.
  - unfold receive_message, recv. do 2 apply wp_bind. apply wp_sys; [done|].
    intros r Hr'. congruence.
Qed.

(** An array in which a NUL was stored can be printed. *)
Lemma string_of_safe buf n : 0 <= n < Z.of_nat (length buf) ->
  safe I defined (string_of (insertZ n 0 buf)) (fun _ => True).
Proof.
  intros Hn. unfold string_of. destruct (c_str_is_Some (insertZ n 0 buf)) as [s ->]; [|by apply safe_ret].
  assert (Hl : lookupZ (insertZ n 0 buf) n = Some 0) by by apply lookupZ_insertZ_eq.
  apply lookupZ_Some in Hl as [_ Hl]. by eapply list_elem_of_lookup_2.
Qed.

(** The idiom of the libevent servers: a NUL stored behind what was read. *)
Lemma terminate_safe buf fd n : length buf = Z.to_nat BUF_SIZE -> 0 <= n < BUF_SIZE ->
  safe I defined (terminate_and_print fd n buf) (fun buf' => length buf' = Z.to_nat BUF_SIZE).
Proof.
  intros Hlen Hn. unfold terminate_and_print, store.
  eapply (safe_bind _ _ _ _ (fun b => b = insertZ n 0 buf)).
  { safe_seq; [apply safe_index; unfold BUF_SIZE in *; lia|]. by apply safe_ret. }
  intros b ->. eapply (safe_bind _ _ _ _ (fun _ => True)).
  { apply string_of_safe. unfold BUF_SIZE in *. lia. }
  intros msg _. safe_seq; [apply safe_print|]. apply safe_ret. by rewrite length_insertZ.
Qed.

Lemma safe_bufferevent_read be buf size :
  bev_read_contract -> 0 <= size <= Z.of_nat (length buf) ->
  safe I defined (bufferevent_read be buf size)
    (fun '(ret, buf') => 0 <= ret <= size /\ length buf' = length buf).
Proof.
  intros Hbev Hsize w Hw. apply wp_bind, wp_sys; [done|]. intros r Hr.
  destruct (Hbev _ _ _ _ Hr ltac:(lia)) as [Hpos [Hle Hdl]]. unfold fill. simpl.
  rewrite bool_decide_eq_true_2 by lia. wp_steps. split; [|done].
  split; [lia|]. rewrite length_buf_write; lia.
Qed.
End messages.

#[export] Hint Resolve receive_message_safe : safe.

(** ** libevent *)

(** libevent runs callbacks that were registered, with their arguments. *)
Definition dispatches `{Env} (registered : string -> list Z -> Prop) : Prop :=
  forall h base r cb args, env h (EventBaseDispatch base) = Some r -> r_cb r = Some (cb, args) ->
    registered cb args.

Lemma safe_event_loop `{Env} {S} (I : S -> Prop) registered fuel base callback :
  dispatches registered ->
  (forall cb args, registered cb args -> safe I defined (callback cb args) (fun _ => True)) ->
  safe I defined (event_loop fuel base callback) (fun _ => True).
Proof.
  intros Hdisp Hcb. unfold event_loop.
  apply (safe_while _ _ (fun _ => True) (fun _ => True)); [done|done|]. intros [] _.
  eapply safe_bind; [by apply safe_sys|]. intros r [h Hr].
  destruct (r_cb r) as [[cb args]|] eqn:Hcb'; [|by apply safe_ret].
  safe_seq; [apply Hcb; by eapply Hdisp|]. by apply safe_ret.
Qed.
