(* ===== verification/ThreadSafeQueue.v ===== *)
(** * The thread safe queue (server/include/thread_safe_queue.hpp)

    [ThreadSafeQueue] is the class's data; [push], [try_pop], ... are the bodies
    of its methods between the construction and the destruction of the lock
    guard.  Module [Monitor] runs those bodies under the mutex and the condition
    variable with any number of threads, one atomic action per step, and shows
    that the methods are atomic, first-in first-out, never deadlock, come to their
    end and never lose a wake-up.  [FifoQueue] is the interface the dispatching server relies
    on; the class implements it. *)

From S2P Require Import Prelude.

(** What the overloads that return a [std::shared_ptr<T>] ask of the element
    type: they build the pointer with [std::shared_ptr<T> res(front())], so [T]
    must itself convert to a [std::shared_ptr<T>], by code of [T] that does not
    throw.  [P] stands for [std::shared_ptr<T>]. *)
Class SharedPtr (T P : Type) := {
  ptr_of : T -> P;
  ptr_null : P;  (** [std::shared_ptr<T>()] *)
}.

Section data.
Context {T : Type}.

(** The [std::queue] member; its front is the head of the list. *)
Record ThreadSafeQueue := mkTSQ { _data_queue : list T }.

(** [ThreadSafeQueue() = default] *)
Definition default_ctor : ThreadSafeQueue := mkTSQ [].

(** The copy constructor copies the elements. *)
Definition copy_ctor (other : ThreadSafeQueue) : ThreadSafeQueue :=
  mkTSQ (_data_queue other).

(** The move constructor takes the elements; [moved] is what the standard
    library leaves in the moved-from [std::queue] ("valid but unspecified"). *)
Definition move_ctor (moved : list T) (other : ThreadSafeQueue)
  : ThreadSafeQueue * ThreadSafeQueue :=
  (mkTSQ (_data_queue other), mkTSQ moved).

Definition empty (q : ThreadSafeQueue) : bool :=
  match _data_queue q with [] => true | _ => false end.

(** [push(const T&)] *)
Definition push (q : ThreadSafeQueue) (new_val : T) : ThreadSafeQueue :=
  mkTSQ (_data_queue q ++ [new_val]).

(** [push(T&&)]: the argument is named, hence copied as well. *)
Definition push_rvalue (q : ThreadSafeQueue) (new_val : T) : ThreadSafeQueue :=
  mkTSQ (_data_queue q ++ [new_val]).

(** [pop(T&)] once its wait is over: [None] when [front()] would be undefined
    because the queue is empty, otherwise the element and the rest. *)
Definition pop_ready (q : ThreadSafeQueue) : option (T * ThreadSafeQueue) :=
  match _data_queue q with
  | [] => None
  | x :: rest => Some (x, mkTSQ rest)
  end.

(** [try_pop(T&)]: the returned flag, the new value of the reference argument
    (its old value when the queue is empty) and the queue. *)
Definition try_pop (q : ThreadSafeQueue) (new_val : T) : bool * T * ThreadSafeQueue :=
  if empty q then (false, new_val, q)
  else match _data_queue q with
       | [] => (false, new_val, q)
       | x :: rest => (true, x, mkTSQ rest)
       end.

(** [std::shared_ptr<T> pop()] once its wait is over: [front()] is converted
    before the element leaves the queue. *)
Definition pop_ptr_ready {P} `{!SharedPtr T P} (q : ThreadSafeQueue)
  : option (P * ThreadSafeQueue) :=
  match _data_queue q with
  | [] => None
  | x :: rest => let res := ptr_of x in Some (res, mkTSQ rest)
  end.

(** [std::shared_ptr<T> try_pop()]: the null pointer when the queue is empty. *)
Definition try_pop_ptr {P} `{!SharedPtr T P} (q : ThreadSafeQueue) : P * ThreadSafeQueue :=
  if empty q then (ptr_null, q)
  else match _data_queue q with
       | [] => (ptr_null, q)
       | x :: rest => let res := ptr_of x in (res, mkTSQ rest)
       end.

(** The loop [while (q.try_pop(v)) ...]: the values it sees.  One iteration
    per element, so the length of the queue bounds it. *)
Fixpoint pop_all (fuel : nat) (q : ThreadSafeQueue) (v : T) : list T * ThreadSafeQueue :=
  match fuel with
  | O => ([], q)
  | S fuel =>
      match try_pop q v with
      | (false, _, q') => ([], q')
      | (true, x, q') => let '(xs, q'') := pop_all fuel q' x in (x :: xs, q'')
      end
  end.
End data.
Arguments ThreadSafeQueue : clear implicits.

(** ** The interface: a first-in first-out queue with a non-blocking pop *)

Class FifoQueue (Q : Type -> Type) := {
  fq_empty : forall {T}, Q T;
  fq_push : forall {T}, Q T -> T -> Q T;
  fq_try_pop : forall {T}, Q T -> T -> bool * T * Q T;
  fq_view : forall {T}, Q T -> list T;
  fq_view_empty : forall T, fq_view (@fq_empty T) = [];
  fq_view_push : forall T (q : Q T) v, fq_view (fq_push q v) = fq_view q ++ [v];
  fq_try_pop_nil : forall T (q : Q T) v, fq_view q = [] -> fq_try_pop q v = (false, v, q);
  fq_try_pop_cons : forall T (q : Q T) v x xs, fq_view q = x :: xs ->
    exists q', fq_try_pop q v = (true, x, q') /\ fq_view q' = xs;
}.

#[export, program] Instance tsq_fifo : FifoQueue ThreadSafeQueue := {|
  fq_empty := @default_ctor;
  fq_push := @push;
  fq_try_pop := @try_pop;
  fq_view := @_data_queue;
|}.
Next Obligation. done. Qed.
Next Obligation. done. Qed.
Next Obligation. intros T [[|]] v; by simpl. Qed.
Next Obligation. intros T [[|]] v x xs [=]; subst. by eexists. Qed.

Lemma try_pop_nil {T} (v : T) : try_pop (mkTSQ []) v = (false, v, mkTSQ []).
Proof. done. Qed.

Lemma try_pop_cons {T} (x v : T) q : try_pop (mkTSQ (x :: q)) v = (true, x, mkTSQ q).
Proof. done. Qed.

Lemma pop_ready_cons {T} (x : T) q : pop_ready (mkTSQ (x :: q)) = Some (x, mkTSQ q).
Proof. done. Qed.

Lemma pop_ptr_ready_cons {T P} `{!SharedPtr T P} (x : T) q :
  pop_ptr_ready (mkTSQ (x :: q)) = Some (ptr_of x, mkTSQ q).
Proof. done. Qed.

Lemma try_pop_ptr_nil {T P} `{!SharedPtr T P} :
  try_pop_ptr (T:=T) (mkTSQ []) = (ptr_null, mkTSQ []).
Proof. done. Qed.

Lemma try_pop_ptr_cons {T P} `{!SharedPtr T P} (x : T) q :
  try_pop_ptr (mkTSQ (x :: q)) = (ptr_of x, mkTSQ q).
Proof. done. Qed.

#[export] Hint Rewrite @pop_ptr_ready_cons @try_pop_ptr_nil @try_pop_ptr_cons : server.
#[export] Hint Rewrite @try_pop_nil @try_pop_cons @pop_ready_cons : server.

Lemma pop_all_spec {T} (q : ThreadSafeQueue T) v fuel :
  (length (_data_queue q) < fuel)%nat ->
  pop_all fuel q v = (_data_queue q, mkTSQ []).
Proof.
  revert q v. induction fuel as [|fuel IH]; intros [l] v H; simpl in *; [lia|].
  destruct l as [|x l]; simpl in *; [done|]. rewrite IH; [done|simpl; lia].
Qed.

(** ** The monitor: any number of threads calling the methods *)

Module Monitor.
(** The two overloads of [pop]: [void pop(T&)] and [std::shared_ptr<T> pop()]. *)
Inductive overload := by_ref | by_ptr.

Section monitor.
Context {T P : Type} `{!SharedPtr T P}.

(** The method calls.  [op_push] stands for both overloads, which have the
    same body. *)
Inductive op :=
| op_push (v : T) | op_pop (k : overload) | op_try_pop (v : T) | op_try_pop_ptr | op_empty.

Inductive ret :=
| r_unit | r_val (v : T) | r_ptr (p : P) | r_try (b : bool) (v : T) | r_bool (b : bool).

(** Where a thread is: outside; asking for the mutex; inside, before the body;
    asleep in [_queue_cond.wait]; woken and asking for the mutex again; inside,
    with the lock guard about to be destroyed. *)
Inductive pc :=
| Idle | Locking (o : op) | Critical (o : op)
| Waiting (k : overload) | Relocking (k : overload) | Unlocking (r : ret).

Record monitor := Mon {
  tsq : ThreadSafeQueue T;
  _queue_mutex : option nat;
  pcs : list pc;
}.

(** [notify_one]: if some thread sleeps, one of them is woken. *)
Inductive notify_one : list pc -> list pc -> Prop :=
| notify_none ps : (forall j k, ps !! j <> Some (Waiting k)) -> notify_one ps ps
| notify_some ps j k : ps !! j = Some (Waiting k) -> notify_one ps (<[j := Relocking k]> ps).

(** The label of a step: the body of a method ran and returned a value. *)
Definition label : Type := option (nat * op * ret).

(** The steps the program takes by itself. *)
Inductive internal : monitor -> label -> monitor -> Prop :=
| st_lock q ps i o :
    ps !! i = Some (Locking o) ->
    internal (Mon q None ps) None (Mon q (Some i) (<[i := Critical o]> ps))
| st_relock q ps i k :
    ps !! i = Some (Relocking k) ->
    internal (Mon q None ps) None (Mon q (Some i) (<[i := Critical (op_pop k)]> ps))
| st_push q m ps ps' i v :
    ps !! i = Some (Critical (op_push v)) ->
    notify_one ps ps' ->
    internal (Mon q m ps) (Some (i, op_push v, r_unit))
      (Mon (push q v) m (<[i := Unlocking r_unit]> ps'))
| st_pop q q' m ps i v :
    ps !! i = Some (Critical (op_pop by_ref)) ->
    pop_ready q = Some (v, q') ->
    internal (Mon q m ps) (Some (i, op_pop by_ref, r_val v))
      (Mon q' m (<[i := Unlocking (r_val v)]> ps))
| st_pop_ptr q q' m ps i p :
    ps !! i = Some (Critical (op_pop by_ptr)) ->
    pop_ptr_ready q = Some (p, q') ->
    internal (Mon q m ps) (Some (i, op_pop by_ptr, r_ptr p))
      (Mon q' m (<[i := Unlocking (r_ptr p)]> ps))
| st_wait q m ps i k :
    ps !! i = Some (Critical (op_pop k)) ->
    empty q = true ->
    internal (Mon q m ps) None (Mon q None (<[i := Waiting k]> ps))
| st_try_pop q q' m ps i v b v' :
    ps !! i = Some (Critical (op_try_pop v)) ->
    try_pop q v = (b, v', q') ->
    internal (Mon q m ps) (Some (i, op_try_pop v, r_try b v'))
      (Mon q' m (<[i := Unlocking (r_try b v')]> ps))
| st_try_pop_ptr q q' m ps i p :
    ps !! i = Some (Critical op_try_pop_ptr) ->
    try_pop_ptr q = (p, q') ->
    internal (Mon q m ps) (Some (i, op_try_pop_ptr, r_ptr p))
      (Mon q' m (<[i := Unlocking (r_ptr p)]> ps))
| st_empty q m ps i :
    ps !! i = Some (Critical op_empty) ->
    internal (Mon q m ps) (Some (i, op_empty, r_bool (empty q)))
      (Mon q m (<[i := Unlocking (r_bool (empty q))]> ps))
| st_unlock q m ps i r :
    ps !! i = Some (Unlocking r) ->
    internal (Mon q m ps) None (Mon q None (<[i := Idle]> ps)).

(** All steps: also a new call by an idle thread, and the spurious wake-ups
    that [std::condition_variable] allows. *)
Inductive step : monitor -> label -> monitor -> Prop :=
| st_internal s l s' : internal s l s' -> step s l s'
| st_call q m ps i o :
    ps !! i = Some Idle -> step (Mon q m ps) None (Mon q m (<[i := Locking o]> ps))
| st_spurious q m ps i k :
    ps !! i = Some (Waiting k) -> step (Mon q m ps) None (Mon q m (<[i := Relocking k]> ps)).

(** [n] threads outside the queue, which holds what the constructor left. *)
Definition init (q : ThreadSafeQueue T) (n : nat) : monitor := Mon q None (replicate n Idle).

Definition reachable (s : monitor) : Prop :=
  exists q n ls, steps step (init q n) ls s.

(** *** Mutual exclusion *)

Definition holds (p : pc) : bool :=
  match p with Critical _ | Unlocking _ => true | _ => false end.

Definition mutex_inv (s : monitor) : Prop :=
  forall i, _queue_mutex s = Some i <-> exists p, pcs s !! i = Some p /\ holds p = true.

(** *** Wake-ups: the elements no running [pop] will take are zero when
    somebody sleeps. *)

Definition is_waiting (p : pc) : bool := match p with Waiting _ => true | _ => false end.
Definition will_check (p : pc) : bool :=
  match p with Relocking _ | Critical (op_pop _) => true | _ => false end.

Definition wakeup_inv (s : monitor) : Prop :=
  countb is_waiting (pcs s) = 0%nat \/
  (length (_data_queue (tsq s)) <= countb will_check (pcs s))%nat.

(** *** Progress

    What a thread has still to do by itself: a sleeping one nothing, but a push
    may wake it. *)

Definition pc_work (p : pc) : nat :=
  match p with
  | Idle | Waiting _ => 0
  | Unlocking _ => 1
  | Critical (op_push _) => 5
  | Locking (op_push _) => 6
  | Critical _ => 2
  | Locking _ | Relocking _ => 3
  end.
Definition work (s : monitor) : nat := sum_list_with pc_work (pcs s).

(** The calls under way: of [pop], [push] and [try_pop]. *)
Definition popping (p : pc) : bool :=
  match p with Locking (op_pop _) | Critical (op_pop _) | Waiting _ | Relocking _ => true | _ => false end.
Definition pushing (p : pc) : bool :=
  match p with Locking (op_push _) | Critical (op_push _) => true | _ => false end.
Definition trying (p : pc) : bool :=
  match p with
  | Locking o | Critical o => match o with op_try_pop _ | op_try_pop_ptr => true | _ => false end
  | _ => false
  end.
Definition at_rest (p : pc) : bool := match p with Idle | Waiting _ => true | _ => false end.

(** *** The specification: an atomic queue *)

Definition spec_op (q : list T) (o : op) : option (ret * list T) :=
  match o, q with
  | op_push v, _ => Some (r_unit, q ++ [v])
  | op_pop _, [] => None
  | op_pop by_ref, x :: q' => Some (r_val x, q')
  | op_pop by_ptr, x :: q' => Some (r_ptr (ptr_of x), q')
  | op_try_pop v, [] => Some (r_try false v, [])
  | op_try_pop _, x :: q' => Some (r_try true x, q')
  | op_try_pop_ptr, [] => Some (r_ptr ptr_null, [])
  | op_try_pop_ptr, x :: q' => Some (r_ptr (ptr_of x), q')
  | op_empty, _ => Some (r_bool (bool_decide (length q = 0%nat)), q)
  end.

Inductive spec_step : list T -> label -> list T -> Prop :=
| spec_stutter q : spec_step q None q
| spec_do q i o r q' : spec_op q o = Some (r, q') -> spec_step q (Some (i, o, r)) q'.

(** The values a method put in, and those it took out: of a value taken by
    pointer the caller only sees the pointer made from it. *)
Definition pushed (l : label) : list T :=
  match l with Some (_, op_push v, _) => [v] | _ => [] end.
Inductive popped : label -> list T -> Prop :=
| popped_internal : popped None []
| popped_push i v : popped (Some (i, op_push v, r_unit)) []
| popped_empty i b : popped (Some (i, op_empty, r_bool b)) []
| popped_ref i v : popped (Some (i, op_pop by_ref, r_val v)) [v]
| popped_ptr i v : popped (Some (i, op_pop by_ptr, r_ptr (ptr_of v))) [v]
| popped_try i v w : popped (Some (i, op_try_pop v, r_try true w)) [w]
| popped_try_none i v : popped (Some (i, op_try_pop v, r_try false v)) []
| popped_try_ptr i v : popped (Some (i, op_try_pop_ptr, r_ptr (ptr_of v))) [v]
| popped_try_ptr_none i : popped (Some (i, op_try_pop_ptr, r_ptr ptr_null)) [].
End monitor.
Arguments op : clear implicits.
Arguments ret : clear implicits.
Arguments pc : clear implicits.
Arguments monitor : clear implicits.
Arguments label : clear implicits.

Section proofs.
Context {T P : Type} `{!SharedPtr T P}.
Implicit Types (s : monitor T P) (ps : list (pc T P)).

Lemma notify_one_lookup ps ps' i p :
  notify_one ps ps' -> ps !! i = Some p -> is_waiting p = false -> ps' !! i = Some p.
Proof.
  intros [|? j k Hj] Hi Hp; [done|].
  rewrite list_lookup_insert_ne; [done|]. by intros ->; simplify_eq.
Qed.

Lemma notify_one_inv ps ps' i p :
  notify_one ps ps' -> ps' !! i = Some p ->
  ps !! i = Some p \/ exists k, p = Relocking k /\ ps !! i = Some (Waiting k).
Proof.
  intros [|? j k Hj] Hi; [by left|].
  apply list_lookup_insert_Some in Hi as [(-> & <- & _)|[? ?]]; eauto.
Qed.

(** What the mutex invariant says of one thread. *)
Lemma mutex_inv_thread q m ps i p :
  mutex_inv (Mon q m ps) -> ps !! i = Some p -> holds p = true <-> m = Some i.
Proof.
  intros Hinv Hi. rewrite (Hinv i); simpl. split; [by eauto|].
  intros (p' & Hi' & ?). by simplify_eq.
Qed.

Lemma mutex_inv_insert q m m' ps i p0 p q' :
  mutex_inv (Mon q m ps) ->
  ps !! i = Some p0 ->
  (holds p = true <-> m' = Some i) ->
  (forall j, j <> i -> m = Some j <-> m' = Some j) ->
  mutex_inv (Mon q' m' (<[i := p]> ps)).
Proof.
  intros Hinv Hi Hp Hm j; simpl. destruct (decide (j = i)) as [->|Hne].
  - rewrite list_lookup_insert_eq by (by eapply lookup_lt_Some).
    rewrite <- Hp. split; [by eauto|]. intros (? & ? & ?). by simplify_eq.
  - rewrite list_lookup_insert_ne by done. rewrite <- Hm by done. apply Hinv.
Qed.

Lemma mutex_inv_notify q q' m ps ps' :
  notify_one ps ps' -> mutex_inv (Mon q m ps) -> mutex_inv (Mon q' m ps').
Proof.
  intros Hn Hinv i; simpl. rewrite (Hinv i); simpl. split; intros (p & Hi & Hp).
  - exists p. split; [|done]. eapply notify_one_lookup; [done..|]. by destruct p.
  - destruct (notify_one_inv _ _ _ _ Hn Hi) as [H|(k & -> & H)]; [by eauto|done].
Qed.

Lemma mutex_inv_holder q m ps i p :
  mutex_inv (Mon q m ps) -> ps !! i = Some p -> holds p = true -> m = Some i.
Proof. intros Hinv Hi Hp. by apply (mutex_inv_thread _ _ _ _ _ Hinv Hi). Qed.

Ltac mutex_tac Hinv :=
  match goal with
  | Hi : _ !! ?i = Some ?p |- _ =>
      pose proof (mutex_inv_thread _ _ _ _ _ Hinv Hi); simpl in *;
      eapply mutex_inv_insert; [done | done | simpl; intuition congruence | intuition congruence]
  end.

Lemma mutex_inv_step s l s' : step s l s' -> mutex_inv s -> mutex_inv s'.
Proof.
  intros [s0 l0 s0' Hst | q m ps i o Hi | q m ps i k Hi] Hinv; [|by mutex_tac Hinv..].
  revert Hinv; destruct Hst as [q ps i o Hi|q ps i k Hi|q m ps ps' i v Hi Hn|q q' m ps i v Hi Hp|
    q q' m ps i p Hi Hp|q m ps i k Hi He|q q' m ps i v b v' Hi Ht|q q' m ps i p Hi Ht|
    q m ps i Hi|q m ps i r Hi];
    intros Hinv; try by mutex_tac Hinv.
  assert (Hi' : ps' !! i = Some (Critical (op_push v))) by by eapply notify_one_lookup.
  clear Hi. apply (mutex_inv_notify _ q _ _ _ Hn) in Hinv. by mutex_tac Hinv.
Qed.

Lemma mutex_inv_init q n : mutex_inv (init (T:=T) (P:=P) q n).
Proof. 
  intros i; simpl. split; [done|]. intros (p & Hi & Hp).
  apply lookup_replicate in Hi as [-> _]. done.
Qed.

Lemma mutex_inv_reachable s : reachable s -> mutex_inv s.
Proof.
  intros (q & n & ls & H). eapply steps_invariant; [|done|apply mutex_inv_init].
  intros ??? Hi Hs. by eapply mutex_inv_step.
Qed.

(** Counting after one thread moved. *)
Ltac count_tac :=
  repeat match goal with
  | Hi : ?ps !! ?i = Some ?p |- context [countb ?f (<[?i := ?x]> ?ps)] =>
      let H := fresh "Hc" in
      pose proof (countb_insert f ps i x p Hi) as H; simpl in H;
      generalize dependent (countb f (<[i := x]> ps)); intros
  end.

Lemma wakeup_inv_notify q ps ps' i v :
  ps !! i = Some (Critical (op_push v)) -> notify_one ps ps' ->
  wakeup_inv (Mon q (Some i) ps) -> wakeup_inv (Mon (push q v) (Some i) ps').
Proof.
  unfold wakeup_inv; simpl. rewrite length_app; simpl. intros Hi [ps0 Hn|ps0 j k Hj] Hw.
  - left. apply countb_0. intros k p Hk. destruct p; try done. by destruct (Hn k k0).
  - count_tac. lia.
Qed.

Lemma wakeup_inv_step s l s' : step s l s' -> mutex_inv s -> wakeup_inv s -> wakeup_inv s'.
Proof.
  intros [s0 l0 s0' Hst | q m ps i o Hi | q m ps i k Hi] Hmu Hw;
    [|unfold wakeup_inv in *; simpl in *; count_tac; lia..].
  revert Hmu Hw; destruct Hst as [q ps i o Hi|q ps i k Hi|q m ps ps' i v Hi Hn|q q' m ps i v Hi Hp|
    q q' m ps i p Hi Hp|q m ps i k Hi He|q q' m ps i v b v' Hi Ht|q q' m ps i p Hi Ht|
    q m ps i Hi|q m ps i r Hi]; intros Hmu Hw.
  - unfold wakeup_inv in *; simpl in *. destruct o; count_tac; lia.
  - unfold wakeup_inv in *; simpl in *; count_tac. lia.
  - rewrite (mutex_inv_holder _ _ _ _ _ Hmu Hi eq_refl) in *.
    pose proof (notify_one_lookup _ _ _ _ Hn Hi ltac:(done)) as Hi'.
    eapply wakeup_inv_notify in Hw; [|done..].
    unfold wakeup_inv in *; simpl in *; count_tac; lia.
  - unfold pop_ready in Hp. destruct q as [[|x q]]; simplify_eq/=.
    unfold wakeup_inv in *; simpl in *; count_tac; lia.
  - unfold pop_ptr_ready in Hp. destruct q as [[|x q]]; simplify_eq/=.
    unfold wakeup_inv in *; simpl in *; count_tac; lia.
  - unfold empty in He. destruct q as [[|x q]]; simplify_eq/=.
    unfold wakeup_inv; simpl. lia.
  - destruct q as [[|x q]]; autorewrite with server in Ht; simplify_eq/=;
    unfold wakeup_inv in *; simpl in *; count_tac; lia.
  - destruct q as [[|x q]]; autorewrite with server in Ht; simplify_eq/=;
    unfold wakeup_inv in *; simpl in *; count_tac; lia.
  - unfold wakeup_inv in *; simpl in *; count_tac; lia.
  - unfold wakeup_inv in *; simpl in *; count_tac; lia.
Qed.

Lemma wakeup_inv_reachable s : reachable s -> wakeup_inv s.
Proof.
  intros (q & n & ls & H).
  enough (mutex_inv s /\ wakeup_inv s) as [_ ?] by done.
  eapply (steps_invariant step (fun s => mutex_inv s /\ wakeup_inv s)); [|done|].
  - intros s1 l s2 [Hm Hw] Hs.
    eauto using mutex_inv_step, wakeup_inv_step.
  - split; [apply mutex_inv_init|]. left. apply countb_0. intros i p; simpl.
    rewrite lookup_replicate. by intros [-> _].
Qed.

(** Case analysis of what an enabled thread does. *)
Lemma notify_one_exists ps : exists ps', notify_one ps ps'.
Proof.
  destruct (countb is_waiting ps) eqn:E.
  - exists ps. apply notify_none. intros j k Hj.
    by pose proof (proj1 (countb_0 _ _) E j _ Hj).
  - destruct (countb_exists is_waiting ps) as (j & [] & Hj & ?); [lia|done..| |done|done].
    eexists. by apply notify_some.
Qed.

Lemma holder_moves q m ps i p :
  ps !! i = Some p -> holds p = true -> exists l s', internal (Mon q m ps) l s'.
Proof.
  intros Hi Hp. destruct p as [| |o| | |r]; simplify_eq/=.
  - destruct o as [v|k|v| |].
    + destruct (notify_one_exists ps) as [ps' ?]. eauto using @internal.
    + destruct q as [[|x q]].
      * by eauto using @internal.
      * destruct k; eauto using @internal, @pop_ready_cons, @pop_ptr_ready_cons.
    + destruct (try_pop q v) as [[b v'] q'] eqn:E. eauto using @internal.
    + destruct (try_pop_ptr q) as [p q'] eqn:E. eauto using @internal.
    + eauto using @internal.
  - eauto using @internal.
Qed.

Lemma spec_step_refines s l s' : step s l s' -> spec_step (_data_queue (tsq s)) l (_data_queue (tsq s')).
Proof.
  intros [s0 l0 s0' Hst| |]; [|simpl; constructor..].
  destruct Hst as [| |q m ps ps' i v Hi Hn|q q' m ps i v Hi Hp|q q' m ps i p Hi Hp| |
    q q' m ps i v b v' Hi Ht|q q' m ps i p Hi Ht|q m ps i Hi|]; simpl; try by constructor.
  - unfold pop_ready in Hp. destruct q as [[|x q]]; simplify_eq/=. by constructor.
  - unfold pop_ptr_ready in Hp. destruct q as [[|x q]]; simplify_eq/=. by constructor.
  - destruct q as [[|x q]]; autorewrite with server in Ht; simplify_eq/=; by constructor.
  - destruct q as [[|x q]]; autorewrite with server in Ht; simplify_eq/=; by constructor.
  - constructor. by destruct q as [[|x q]].
Qed.

Lemma spec_step_fifo q l q' :
  spec_step (T:=T) (P:=P) q l q' -> exists xs, popped l xs /\ xs ++ q' = q ++ pushed l.
Proof.
  intros [q0|q0 i o r q0' H]; simpl.
  - exists []. rewrite app_nil_r. by split; [constructor|].
  - destruct o as [v|[]|v| |], q0 as [|x q0]; simplify_eq/=; rewrite ?app_nil_r;
      first [by exists []; split; [constructor|]
            | by exists [x]; split; [constructor|]].
Qed.

(** *** Progress *)

Lemma rest_empty s : reachable s ->
  (forall i p, pcs s !! i = Some p -> at_rest p = true) ->
  (exists i k, pcs s !! i = Some (Waiting k)) -> empty (tsq s) = true.
Proof.
  intros Hr Hq (i & k & Hi). destruct (wakeup_inv_reachable s Hr) as [H|H].
  - by pose proof (proj1 (countb_0 _ _) H i _ Hi).
  - replace (countb will_check (pcs s)) with 0%nat in H.
    + unfold empty. destruct (tsq s) as [[|x q]]; simpl in *; [done|lia].
    + symmetry. apply countb_0. intros j p Hj. specialize (Hq j p Hj). by destruct p.
Qed.

Lemma busy_moves s i p : reachable s -> pcs s !! i = Some p -> at_rest p = false ->
  exists l s', internal s l s'.
Proof.
  intros Hr Hi Hbusy. destruct s as [q m ps]; simpl in *. destruct m as [j|].
  - destruct (proj1 (mutex_inv_reachable _ Hr j) eq_refl) as (pj & Hj & Hp). by eapply holder_moves.
  - destruct p as [| |o|k|k|r]; try done.
    + by eauto using @internal.
    + by eapply holder_moves.
    + by eauto using @internal.
    + by eapply holder_moves.
Qed.

(** How the sums and counts over the threads change. *)
Ltac sum_tac :=
  repeat match goal with
  | Hi : ?ps !! ?i = Some ?p |- context [sum_list_with ?f (<[?i := ?x]> ?ps)] =>
      let H := fresh "Hs" in
      pose proof (sum_list_with_insert f ps i p x Hi) as H; simpl in H;
      generalize dependent (sum_list_with f (<[i := x]> ps)); intros
  end.

Lemma notify_one_work ps ps' : notify_one ps ps' ->
  (sum_list_with pc_work ps' <= sum_list_with pc_work ps + 3)%nat.
Proof. intros [|? j k Hj]; [lia|]. sum_tac. lia. Qed.

(** Every internal step is some of the work there is. *)
Lemma internal_work s l s' : internal s l s' -> (work s' < work s)%nat.
Proof.
  unfold work. intros [q ps i o Hi|q ps i k Hi|q m ps ps' i v Hi Hn|q q' m ps i v Hi Hp|
    q q' m ps i p Hi Hp|q m ps i k Hi He|q q' m ps i v b v' Hi Ht|q q' m ps i p Hi Ht|
    q m ps i Hi|q m ps i r Hi]; simpl; try (sum_tac; lia).
  - destruct o; sum_tac; lia.
  - pose proof (notify_one_lookup _ _ _ _ Hn Hi ltac:(done)) as Hi'.
    apply notify_one_work in Hn. sum_tac. lia.
Qed.

Lemma notify_one_count f ps ps' : notify_one ps ps' -> (forall k, f (Waiting k) = f (Relocking k)) ->
  countb f ps' = countb f ps.
Proof.
  intros [|? j k Hj] Hf; [done|]. pose proof (countb_insert f _ _ (Relocking k) _ Hj) as Hc.
  rewrite Hf in Hc. lia.
Qed.

(** What is in the queue and on its way into it, less what is to be taken out,
    stays the same as long as nobody calls [try_pop]. *)
Lemma internal_balance s l s' : internal s l s' -> countb trying (pcs s) = 0%nat ->
  countb trying (pcs s') = 0%nat /\
  (countb popping (pcs s') + length (_data_queue (tsq s)) + countb pushing (pcs s) =
   countb popping (pcs s) + length (_data_queue (tsq s')) + countb pushing (pcs s'))%nat.
Proof.
  intros [q ps i o Hi|q ps i k Hi|q m ps ps' i v Hi Hn|q q' m ps i v Hi Hp|
    q q' m ps i p Hi Hp|q m ps i k Hi He|q q' m ps i v b v' Hi Ht|q q' m ps i p Hi Ht|
    q m ps i Hi|q m ps i r Hi] Htry; simpl in *;
    pose proof (proj1 (countb_0 _ _) Htry _ _ Hi) as Hno; try done; try (count_tac; lia).
  - pose proof (notify_one_lookup _ _ _ _ Hn Hi ltac:(done)) as Hi'.
    pose proof (notify_one_count trying _ _ Hn ltac:(done)).
    pose proof (notify_one_count popping _ _ Hn ltac:(done)).
    pose proof (notify_one_count pushing _ _ Hn ltac:(done)).
    rewrite length_app. simpl. count_tac. lia.
  - unfold pop_ready in Hp. destruct q as [[|x q]]; simplify_eq/=. count_tac. lia.
  - unfold pop_ptr_ready in Hp. destruct q as [[|x q]]; simplify_eq/=. count_tac. lia.
Qed.

Lemma internals_work s ls s' : steps internal s ls s' -> (length ls + work s' <= work s)%nat.
Proof. induction 1 as [|s1 l s2 ls s3 Hl%internal_work Hrest IH]; simpl; lia. Qed.

Lemma internals_balance s ls s' : steps internal s ls s' -> countb trying (pcs s) = 0%nat ->
  (countb popping (pcs s') + length (_data_queue (tsq s)) + countb pushing (pcs s) =
   countb popping (pcs s) + length (_data_queue (tsq s')) + countb pushing (pcs s'))%nat.
Proof.
  induction 1 as [|s1 l s2 ls s3 Hl Hrest IH]; intros Htry; [lia|].
  destruct (internal_balance _ _ _ Hl Htry) as [Htry' Hb]. specialize (IH Htry'). lia.
Qed.

Lemma internals_reachable s ls s' : steps internal s ls s' -> reachable s -> reachable s'.
Proof.
  intros Hls (q & n & ls0 & H0). exists q, n, (ls0 ++ ls). eapply steps_app; [done|].
  clear H0. induction Hls as [|s1 l s2 ls s3 Hl _ IH]; econstructor; [by apply st_internal|done].
Qed.

(** ** Properties *)

(** C3. No lost wake-up: when every thread is either outside or asleep in
    [pop], nobody sleeps next to an element - if some thread sleeps then the
    queue is empty. *)
Theorem no_lost_wakeup (s : monitor T P) :
  reachable s ->
  (forall i p, pcs s !! i = Some p -> p = Idle \/ exists k, p = Waiting k) ->
  (exists i k, pcs s !! i = Some (Waiting k)) ->
  empty (tsq s) = true.
Proof.
  intros Hr Hq. apply rest_empty; [done|]. intros i p Hi. by destruct (Hq i p Hi) as [->|[k ->]].
Qed.

(** Deadlock freedom: as long as some thread is inside a method and not
    asleep waiting for an element, the program itself can take a step. *)
Theorem deadlock_free (s : monitor T P) i p :
  reachable s -> pcs s !! i = Some p -> p <> Idle -> (forall k, p <> Waiting k) ->
  exists l s', internal s l s'.
Proof.
  intros Hr Hi Hidle Hwait. eapply busy_moves; [done..|]. destruct p; try done. by destruct (Hwait k).
Qed.

(** C4. Every call comes to its end: from any reachable state the program's own
    steps (no new call, no spurious wake-up) are bounded in number, and wherever they stop, no thread is inside a method - but
    for those asleep in [pop], next to an empty queue.  With no call of [try_pop]
    under way, and at least as many elements in the queue or being pushed as
    calls of [pop], none is left asleep: every [pop] returns. *)
Theorem calls_complete (s : monitor T P) ls s' :
  reachable s -> steps internal s ls s' -> (length ls <= work s)%nat /\
  ((exists l s'', internal s' l s'') \/
   (forall i p, pcs s' !! i = Some p ->
      p = Idle \/ ((exists k, p = Waiting k) /\ empty (tsq s') = true)) /\
   (countb trying (pcs s) = 0%nat ->
    (countb popping (pcs s) <= length (_data_queue (tsq s)) + countb pushing (pcs s))%nat ->
    forall i p, pcs s' !! i = Some p -> p = Idle)).
Proof.
  intros Hr Hls. split; [pose proof (internals_work _ _ _ Hls); lia|].
  pose proof (internals_reachable _ _ _ Hls Hr) as Hr'.
  destruct (countb (fun p => negb (at_rest p)) (pcs s')) as [|n] eqn:Hn.
  2: { destruct (countb_exists (fun p => negb (at_rest p)) (pcs s')) as (i & p & Hi & Hp); [lia|].
       left. eapply busy_moves; [done..|]. by apply negb_true_iff. }
  right. assert (Hrest : forall i p, pcs s' !! i = Some p -> at_rest p = true).
  { intros i p Hi. apply negb_false_iff. by apply (proj1 (countb_0 _ _) Hn i). }
  assert (Hsleep : forall i p, pcs s' !! i = Some p ->
    p = Idle \/ ((exists k, p = Waiting k) /\ empty (tsq s') = true)).
  { intros i p Hi. specialize (Hrest i p Hi) as Hp. destruct p; try done; [by left|right].
    split; [by eexists|]. apply rest_empty; eauto. }
  split; [done|]. intros Htry Hsupply i p Hi.
  destruct (Hsleep i p Hi) as [->|[[k ->] Hempty]]; [done|exfalso].
  pose proof (internals_balance _ _ _ Hls Htry) as Hb.
  pose proof (countb_pos popping _ _ _ Hi eq_refl).
  assert (countb pushing (pcs s') = 0%nat).
  { apply countb_0. intros j p Hj. specialize (Hrest j p Hj). by destruct p. }
  unfold empty in Hempty. destruct (tsq s') as [[|x q]]; simpl in *; [lia|done].
Qed.


(** First-in first-out: whatever the threads do, the values [xss] their
    calls took out so far followed by the values still queued are the initial values followed by
    the values pushed so far, in order: nothing is lost, duplicated or
    reordered. *)
Theorem monitor_fifo (q : ThreadSafeQueue T) n ls s :
  steps step (init q n) ls s ->
  exists xss, Forall2 popped ls xss /\
  concat xss ++ _data_queue (tsq s) = _data_queue q ++ concat (map pushed ls).
Proof.
  change (_data_queue q) with (_data_queue (tsq (init (P:=P) q n))).
  induction 1 as [s|s1 l s2 ls s3 Hstep Hrest (xss & Hxss & IH)]; simpl.
  - exists []. by rewrite app_nil_r.
  - apply spec_step_refines, spec_step_fifo in Hstep as (xs & Hxs & Heq).
    exists (xs :: xss). split; [by constructor|]. simpl.
    by rewrite <- app_assoc, IH, !app_assoc, Heq.
Qed.
End proofs.

(** Two threads: thread 0 finds the queue empty in the [pop] that returns a
    pointer and goes to sleep, thread 1 pushes 7, which wakes thread 0; it takes
    the element.  The elements are numbers that convert to optional numbers. *)
#[local] Instance demo_ptr : SharedPtr Z (option Z) := {| ptr_of := Some; ptr_null := None |}.
Definition run_sleep : list (label Z (option Z)) := replicate 3 None.
Definition run_wake : list (label Z (option Z)) :=
  [None; None; Some (1%nat, op_push 7, r_unit); None; None;
   Some (0%nat, op_pop by_ptr, r_ptr (Some 7)); None].

Lemma run_sleep_steps :
  steps step (init (default_ctor (T:=Z)) 2) run_sleep
    (Mon default_ctor None [Waiting by_ptr; Idle]).
Proof.
  eapply steps_cons; [apply (st_call _ _ _ 0%nat (op_pop by_ptr)); done|].
  eapply steps_cons; [apply st_internal, (st_lock _ _ 0%nat (op_pop by_ptr)); done|].
  eapply steps_cons; [apply st_internal, (st_wait _ _ _ 0%nat by_ptr); done|].
  apply steps_nil.
Qed.

Lemma run_wake_steps :
  steps step (Mon default_ctor None [Waiting by_ptr; Idle]) run_wake
    (Mon (mkTSQ []) None [Idle; Idle]).
Proof.
  eapply steps_cons; [apply (st_call _ _ _ 1%nat (op_push 7)); done|].
  eapply steps_cons; [apply st_internal, (st_lock _ _ 1%nat (op_push 7)); done|].
  eapply steps_cons; [eapply st_internal, st_push; [done | by apply (notify_some _ 0%nat by_ptr)]|].
  eapply steps_cons; [apply st_internal, (st_unlock _ _ _ 1%nat r_unit); done|].
  eapply steps_cons; [apply st_internal, (st_relock _ _ 0%nat by_ptr); done|].
  eapply steps_cons; [by apply st_internal, (st_pop_ptr _ (mkTSQ []) _ _ 0%nat (Some 7))|].
  eapply steps_cons; [apply st_internal, (st_unlock _ _ _ 0%nat (r_ptr (Some 7))); done|].
  apply steps_nil.
Qed.

Lemma run_steps :
  steps step (init default_ctor 2) (run_sleep ++ run_wake) (Mon (mkTSQ []) None [Idle; Idle]).
Proof. eapply steps_app; [apply run_sleep_steps | apply run_wake_steps]. Qed.

Lemma no_lost_wakeup_witness :
  empty (tsq (Mon (T:=Z) (P:=option Z) default_ctor None [Waiting by_ptr; Idle])) = true.
Proof.
  apply (no_lost_wakeup (Mon default_ctor None [Waiting by_ptr; Idle])).
  - exists default_ctor, 2%nat, run_sleep. apply run_sleep_steps.
  - intros [|[|i]] p Hp; simplify_eq/=; eauto.
  - by exists 0%nat, by_ptr.
Defined.

Lemma deadlock_free_witness :
  exists l s', internal (Mon (T:=Z) default_ctor None [Locking (op_pop by_ref); Idle]) l s'.
Proof.
  apply (deadlock_free _ 0%nat (Locking (op_pop by_ref))); [|done..].
  exists default_ctor, 2%nat, [None].
  eapply steps_cons; [apply (st_call _ _ _ 0%nat (op_pop by_ref)); done|]. apply steps_nil.
Defined.

(** Thread 0 asleep, thread 1 about to push: thread 0 is woken and returns. *)
Lemma calls_complete_witness :
  let s := Mon (T:=Z) (P:=option Z) default_ctor None [Waiting by_ptr; Locking (op_push 7)] in
  let s' := Mon (mkTSQ []) None [Idle; Idle] in
  (6 <= work s)%nat /\ ((exists l s'', internal s' l s'') \/
   (forall i p, pcs s' !! i = Some p ->
      p = Idle \/ ((exists k, p = Waiting k) /\ empty (tsq s') = true)) /\
   (countb trying (pcs s) = 0%nat ->
    (countb popping (pcs s) <= length (_data_queue (tsq s)) + countb pushing (pcs s))%nat ->
    forall i p, pcs s' !! i = Some p -> p = Idle)).
Proof.
  intros s s'. apply (calls_complete s (drop 1 run_wake) s').
  - exists default_ctor, 2%nat, (run_sleep ++ [None]). eapply steps_app; [apply run_sleep_steps|].
    eapply steps_cons; [apply (st_call _ _ _ 1%nat (op_push 7)); done|apply steps_nil].
  - eapply steps_cons; [apply (st_lock _ _ 1%nat (op_push 7)); done|].
    eapply steps_cons; [eapply st_push; [done | by apply (notify_some _ 0%nat by_ptr)]|].
    eapply steps_cons; [apply (st_unlock _ _ _ 1%nat r_unit); done|].
    eapply steps_cons; [apply (st_relock _ _ 0%nat by_ptr); done|].
    eapply steps_cons; [by apply (st_pop_ptr _ (mkTSQ []) _ _ 0%nat (Some 7))|].
    eapply steps_cons; [apply (st_unlock _ _ _ 0%nat (r_ptr (Some 7))); done|].
    apply steps_nil.
Defined.


Lemma monitor_fifo_witness :
  exists xss, Forall2 popped (run_sleep ++ run_wake) xss /\ concat xss ++ [] = [] ++ [7].
Proof.
  apply (monitor_fifo default_ctor 2 (run_sleep ++ run_wake) (Mon (mkTSQ []) None [Idle; Idle])).
  apply run_steps.
Defined.
End Monitor.
