(* ===== verification/LibevThreadPool.v ===== *)
(** * The half-sync/half-reactive thread pool server
      (server/include/libev_half_sync_reactive_thread_pool_server.hpp)

    The handlers of the main thread (accepting and dispatching connections,
    SIGINT) and of the worker threads (taking over connections, reading and
    answering messages), each run to completion against the environment.  The
    interleaving of the threads is the subject of PoolSystem. *)

From S2P Require Import Prelude Sys CLib ThreadSafeQueue.

(** [CommMsgType] *)
Definition COMM_NEW_CONNECTED : Z := 0.
Definition COMM_TERMINATE : Z := 1.

(** [CommQueueItem] *)
Record CommQueueItem := mkItem { fd : Z }.

(** [CommContex]; [ctx_ptr] is what a [void*] to it designates. *)
Record CommContex := mkCtx { worker_id : Z; ev_base : Z }.
Definition ctx_ptr (ctx : CommContex) : list Z := [worker_id ctx; ev_base ctx].

(** The globals, and the static local of [conn_listener_cb]. *)
Record pool := mkPool {
  comm_pipes : list Z;
  comm_queues : list (ThreadSafeQueue CommQueueItem);
  cur_worker_ind : Z;
  succ_cli_count : Z;
}.

Definition pool_init : pool := mkPool [] [] 0 0.

Definition set_queue (i : Z) (q : ThreadSafeQueue CommQueueItem) (p : pool) : pool :=
  mkPool (comm_pipes p) (insertZ i q (comm_queues p)) (cur_worker_ind p) (succ_cli_count p).
Definition set_cur (i : Z) (p : pool) : pool :=
  mkPool (comm_pipes p) (comm_queues p) i (succ_cli_count p).
Definition incr_succ (p : pool) : pool :=
  mkPool (comm_pipes p) (comm_queues p) (cur_worker_ind p) (wrap_s 32 (succ_cli_count p + 1)).
Definition add_worker (pipe : Z) (p : pool) : pool :=
  mkPool (comm_pipes p ++ [pipe]) (comm_queues p ++ [default_ctor]) (cur_worker_ind p)
    (succ_cli_count p).

Section handlers.
Context `{Env}.

(** *** Worker thread *)

(** One turn of the read loop of [client_msg_cb]. *)
Definition client_msg_turn (be cli_fd : Z) (buf : list Z) : M pool (list Z + unit) :=
  '(size, buf) ← bufferevent_read be buf (BUF_SIZE - 1);
  let n := wrap_s 32 size in
  if n <=? 0 then mret (inr tt)
  else
    buf ← store buf n 0;
    modify incr_succ;;
    msg ← string_of buf;
    print (OutMsg cli_fd n msg);;
    mret (inl buf).

(** [buf] is the content of the uninitialised local array. *)
Definition client_msg_cb (fuel : nat) (buf : list Z) (be : Z) (ctx : CommContex) : M pool unit :=
  cli_fd ← sys_ (BevGetfd be);
  while_ fuel (client_msg_turn be cli_fd) buf;;
  sys_ (Sleep 100);;
  sys_ (BevWrite be OK);;
  mret tt.

Definition client_event_cb (be events : Z) (ctx : CommContex) : M pool unit :=
  sys_ (BevGetfd be);;
  if has_flag events BEV_EVENT_EOF then sys_ (BevFree be);; mret tt
  else if has_flag events BEV_EVENT_ERROR then sys_ (BevFree be);; mret tt
  else mret tt.

(** Taking over one connection. *)
Definition register (ctx : CommContex) (item : CommQueueItem) : M pool unit :=
  be ← sys_ (BevSocketNew (ev_base ctx) (fd item) BEV_OPT_CLOSE_ON_FREE);
  sys_ (BevSetcb be "client_msg_cb" "" "client_event_cb" (ctx_ptr ctx));;
  sys_ (BevEnable be (Z.lor EV_READ EV_PERSIST));;
  mret tt.

(** One turn of [while (comm_queues[worker_ind].try_pop(cq_msg))]. *)
Definition take_turn (ctx : CommContex) (cq_msg : CommQueueItem)
    : M pool (CommQueueItem + unit) :=
  p ← get;
  q ← index (comm_queues p) (worker_id ctx);
  let '(b, cq_msg, q) := try_pop q cq_msg in
  modify (set_queue (worker_id ctx) q);;
  if b then register ctx cq_msg;; mret (inl cq_msg) else mret (inr tt).

(** The queue only shrinks while it is emptied, so its length bounds the
    turns of the inner loop. *)
Definition take_connections (ctx : CommContex) : M pool unit :=
  p ← get;
  q ← index (comm_queues p) (worker_id ctx);
  while_ (S (length (_data_queue q))) (take_turn ctx) (mkItem (-1)).

(** One turn of the [while (true)] of [main_msg_cb]. *)
Definition main_msg_turn (mfd : Z) (ctx : CommContex) (_ : unit) : M pool (unit + unit) :=
  r ← sys (Recv mfd 1 0);
  let len := wrap_s 32 (r_ret r) in
  if 0 <? len then
    match r_data r with
    | msg_type :: _ =>
        if msg_type =? COMM_NEW_CONNECTED then take_connections ctx;; mret (inl tt)
        else if msg_type =? COMM_TERMINATE then
          sys_ (EventBaseLoopexit (ev_base ctx));; mret (inr tt)
        else mret (inl tt)
    | [] => stop HUB
    end
  else
    e ← get_errno;
    if (len =? 0) || ((len <? 0) && negb (e =? EAGAIN) && negb (e =? EWOULDBLOCK)) then
      sys_ (EventBaseLoopexit (ev_base ctx));; mret (inr tt)
    else mret (inr tt).

Definition main_msg_cb (fuel : nat) (mfd : Z) (ctx : CommContex) : M pool unit :=
  while_ fuel (main_msg_turn mfd ctx) tt.

(** The callbacks a worker registers, by name. *)
Definition worker_callback (fuel : nat) (buf : list Z) (ctx : CommContex)
    (cb : string) (args : list Z) : M pool unit :=
  match args with
  | [a] =>
      if bool_decide (cb = "main_msg_cb") then main_msg_cb fuel a ctx
      else if bool_decide (cb = "client_msg_cb") then client_msg_cb fuel buf a ctx
      else stop HUB
  | [a; events] =>
      if bool_decide (cb = "client_event_cb") then client_event_cb a events ctx else stop HUB
  | _ => stop HUB
  end.

Definition worker_func (fuel : nat) (buf : list Z) (worker_ind main_fd : Z) : M pool unit :=
  base ← sys_ EventBaseNew;
  main_ev ← sys_ (EventNew 0 (-1) 0 "" []);
  let args := mkCtx worker_ind base in
  sys_ (EventAssign main_ev base main_fd (Z.lor EV_READ EV_PERSIST) "main_msg_cb" (ctx_ptr args));;
  sys_ (EventAdd main_ev);;
  event_loop fuel base (worker_callback fuel buf args);;
  sys_ (Close main_fd);;
  sys_ (EventFree main_ev);;
  sys_ (EventBaseFree base);;
  mret tt.

(** *** Main thread *)

Definition conn_listener_cb (cfd : Z) : M pool unit :=
  sys_ (EvutilNonblocking cfd);;
  p ← get;
  let concur := wrap_s 32 (Z.of_nat (length (comm_queues p))) in
  q ← index (comm_queues p) (cur_worker_ind p);
  modify (set_queue (cur_worker_ind p) (push_rvalue q (mkItem cfd)));;
  pipe ← index (comm_pipes p) (cur_worker_ind p);
  sys_ (Send pipe [COMM_NEW_CONNECTED] 0);;
  let next := cur_worker_ind p + 1 in
  modify (set_cur (if concur <=? next then 0 else next)).

Definition signal_event_cb (sig base : Z) : M pool unit :=
  if sig =? SIGINT then
    pipes ← gets comm_pipes;
    for_each pipes (fun pfd => sys_ (Send pfd [COMM_TERMINATE] 0);; mret tt);;
    sys_ (EventBaseLoopexit base);;
    mret tt
  else mret tt.

(** One turn of the loop that starts the workers. *)
Definition start_worker (i : Z) : M pool unit :=
  r ← sys (SocketPair AF_UNIX SOCK_STREAM 0);
  assert_ (r_ret r =? 0);;
  fd0 ← index (r_data r) 0;
  fd1 ← index (r_data r) 1;
  sys_ (EvutilNonblocking fd0);;
  sys_ (EvutilNonblocking fd1);;
  modify (add_worker fd1);;
  sys_ (PoolDispatch "worker_func" [i; fd0]);;
  mret tt.

Definition main_callback (base : Z) (cb : string) (args : list Z) : M pool unit :=
  match args with
  | [a] =>
      if bool_decide (cb = "conn_listener_cb") then conn_listener_cb a
      else if bool_decide (cb = "signal_event_cb") then signal_event_cb a base
      else stop HUB
  | _ => stop HUB
  end.

Definition start_libev_adv_server `{InetPton} (fuel : nat) (ip : string) (port concur : Z)
    : M pool unit :=
  sys_ (PoolNew concur);;
  for_each (range 0 concur) start_worker;;
  let srv_addr := sockaddr_in ip port in
  base ← sys_ EventBaseNew;
  sig_listener ← sys_ (EventNew base SIGINT (Z.lor EV_SIGNAL EV_PERSIST) "signal_event_cb" [base]);
  sys_ (EventAdd sig_listener);;
  con_listener ← sys_ (ListenerNewBind base "conn_listener_cb" [base]
    (Z.lor LEV_OPT_REUSEABLE LEV_OPT_CLOSE_ON_FREE) 65535 srv_addr);
  event_loop fuel base (main_callback base);;
  sys_ (ListenerFree con_listener);;
  sys_ (EventFree sig_listener);;
  sys_ (EventBaseFree base);;
  sys_ PoolJoin;;
  mret tt.
End handlers.

(** ** Round robin *)

(** The connections, numbered from [k] on, that go to worker [i] out of [n]:
    those whose number is [i] modulo [n]. *)
Fixpoint assigned {A} (n i k : Z) (l : list A) : list A :=
  match l with
  | [] => []
  | x :: l => if k mod n =? i then x :: assigned n i (k + 1) l else assigned n i (k + 1) l
  end.

Lemma assigned_app {A} n i k (l1 l2 : list A) :
  assigned n i k (l1 ++ l2) = assigned n i k l1 ++ assigned n i (k + Z.of_nat (length l1)) l2.
Proof.
  revert k. induction l1 as [|x l1 IH]; intros k; simpl; [by rewrite Z.add_0_r|].
  replace (k + Z.of_nat (S (length l1))) with (k + 1 + Z.of_nat (length l1)) by lia.
  rewrite IH. by case_match.
Qed.

(** Moving on by one connection. *)
Lemma mod_next n k : 0 < n -> (k + 1) mod n = if n <=? k mod n + 1 then 0 else k mod n + 1.
Proof.
  intros Hn. pose proof (Z.mod_pos_bound k n Hn).
  rewrite <- Zplus_mod_idemp_l. destruct (Z.leb_spec n (k mod n + 1)).
  - replace (k mod n + 1) with n by lia. by apply Z_mod_same_full.
  - apply Z.mod_small. lia.
Qed.

Lemma next_worker n c : 0 <= c < n -> (if n <=? c + 1 then 0 else c + 1) = (c + 1) mod n.
Proof. intros. by rewrite mod_next, Z.mod_small by lia. Qed.

Lemma assigned_succ n i k : 0 <= i < n ->
  (k + 1 + (n - 1 - i)) / n = (k + (n - 1 - i)) / n + (if k mod n =? i then 1 else 0).
Proof.
  intros Hi. pose proof (Z.div_mod k n ltac:(lia)) as Hk.
  pose proof (Z.mod_pos_bound k n ltac:(lia)) as Hm.
  generalize dependent (k / n). generalize dependent (k mod n). intros m Hm q ->.
  destruct (Z.eqb_spec m i) as [->|Hne].
  - replace (n * q + i + 1 + (n - 1 - i)) with (0 + (q + 1) * n) by ring.
    replace (n * q + i + (n - 1 - i)) with ((n - 1) + q * n) by ring.
    rewrite !Z.div_add by lia. rewrite (Z.div_small (n - 1)), (Z.div_small 0) by lia. lia.
  - destruct (Z.lt_ge_cases m i).
    + replace (n * q + m + 1 + (n - 1 - i)) with (m + n - i + q * n) by ring.
      replace (n * q + m + (n - 1 - i)) with (m + n - i - 1 + q * n) by ring.
      rewrite !Z.div_add, !Z.div_small by lia. lia.
    + replace (n * q + m + 1 + (n - 1 - i)) with (m - i + (q + 1) * n) by ring.
      replace (n * q + m + (n - 1 - i)) with (m - i - 1 + (q + 1) * n) by ring.
      rewrite !Z.div_add, !Z.div_small by lia. lia.
Qed.

(** How many of the first connections a worker gets. *)
Lemma length_assigned {A} n i k (l : list A) : 0 <= i < n -> 0 <= k ->
  Z.of_nat (length (assigned n i k l)) =
  (k + Z.of_nat (length l) + (n - 1 - i)) / n - (k + (n - 1 - i)) / n.
Proof.
  intros Hi. revert k. induction l as [|x l IH]; intros k Hk; simpl.
  - rewrite Z.add_0_r. lia.
  - replace (k + Z.of_nat (S (length l))) with (k + 1 + Z.of_nat (length l)) by lia.
    specialize (IH (k + 1) ltac:(lia)).
    pose proof (assigned_succ n i k Hi). case_match; simpl; lia.
Qed.

(** ** The main thread *)

(** [n] workers are running and the next one is in range. *)
Definition pool_ok (n : Z) (p : pool) : Prop :=
  length (comm_pipes p) = Z.to_nat n /\ length (comm_queues p) = Z.to_nat n /\
  0 <= cur_worker_ind p < n /\ n < 2 ^ 31.

(** The values queued for worker [i]. *)
Definition queued (p : pool) (i : Z) : list CommQueueItem :=
  match lookupZ (comm_queues p) i with Some q => _data_queue q | None => [] end.

Lemma queued_set_queue_eq p i q :
  0 <= i < Z.of_nat (length (comm_queues p)) -> queued (set_queue i q p) i = _data_queue q.
Proof. intros. unfold queued, set_queue; simpl. by rewrite lookupZ_insertZ_eq. Qed.

Lemma queued_set_queue_ne p i j q : i <> j -> queued (set_queue i q p) j = queued p j.
Proof. intros. unfold queued, set_queue; simpl. by rewrite lookupZ_insertZ_ne. Qed.

Lemma queued_set_cur p i j : queued (set_cur i p) j = queued p j.
Proof. done. Qed.

Lemma queued_lookup p i q : lookupZ (comm_queues p) i = Some q -> queued p i = _data_queue q.
Proof. unfold queued. by intros ->. Qed.

#[export] Hint Rewrite queued_set_cur : server.

Section main_thread.
Context `{Env}.

(** What the dispatch of one connection does to the state. *)
Definition dispatched (n cfd : Z) (p p' : pool) : Prop :=
  comm_pipes p' = comm_pipes p /\
  cur_worker_ind p' = (cur_worker_ind p + 1) mod n /\
  succ_cli_count p' = succ_cli_count p /\
  forall i, queued p' i =
    queued p i ++ (if i =? cur_worker_ind p then [mkItem cfd] else []).

(** The state the callback leaves, exactly. *)
Lemma conn_listener_wp_exact n cfd w (Q : res unit -> world pool -> Prop) :
  returns -> pool_ok n (w_st w) ->
  (forall w' pipe q r1 r2, let c := cur_worker_ind (w_st w) in
    lookupZ (comm_pipes (w_st w)) c = Some pipe -> lookupZ (comm_queues (w_st w)) c = Some q ->
    w_st w' = set_cur ((c + 1) mod n) (set_queue c (push_rvalue q (mkItem cfd)) (w_st w)) ->
    w_log w' = w_log w ++ [(EvutilNonblocking cfd, r1); (Send pipe [COMM_NEW_CONNECTED] 0, r2)] ->
    Q (Ok tt) w') ->
  wp (conn_listener_cb cfd) Q w.
Proof.
  intros Hret (Hp & Hq & Hc & Hn) HQ. unfold conn_listener_cb. wp_steps_ret Hret.
  - eapply HQ; simpl; [done|done| |by rewrite <- app_assoc].
    rewrite wrap_s32_id by lia. rewrite Hq, Z2Nat.id by lia. by rewrite next_worker.
  - match goal with Hl : lookupZ (comm_pipes _) _ = None |- _ => apply lookupZ_None in Hl end. lia.
  - match goal with Hl : lookupZ (comm_queues _) _ = None |- _ => apply lookupZ_None in Hl end. lia.
Qed.

Lemma conn_listener_wp n cfd w (Q : res unit -> world pool -> Prop) :
  returns -> pool_ok n (w_st w) ->
  (forall w' pipe r1 r2, lookupZ (comm_pipes (w_st w)) (cur_worker_ind (w_st w)) = Some pipe ->
    pool_ok n (w_st w') -> dispatched n cfd (w_st w) (w_st w') ->
    w_log w' = w_log w ++ [(EvutilNonblocking cfd, r1); (Send pipe [COMM_NEW_CONNECTED] 0, r2)] ->
    Q (Ok tt) w') ->
  wp (conn_listener_cb cfd) Q w.
Proof.
  intros Hret Hok HQ. eapply conn_listener_wp_exact; [done..|].
  intros w' pipe q r1 r2 c Hpipe Hqueue Hst Hlog. destruct Hok as (Hp & Hq & Hc & Hn).
  eapply HQ; [done| | |done]; rewrite Hst.
  - unfold pool_ok; simpl. rewrite length_insertZ.
    pose proof (Z.mod_pos_bound (c + 1) n ltac:(lia)). done.
  - split; [done|]. split; [done|]. split; [done|]. intros i. autorewrite with server.
    subst c. destruct (Z.eqb_spec i (cur_worker_ind (w_st w))) as [->|Hne].
    + rewrite queued_set_queue_eq by lia. by erewrite queued_lookup.
    + by rewrite queued_set_queue_ne, app_nil_r.
Qed.

Lemma connections_wp n cfds (w : world pool) :
  returns -> pool_ok n (w_st w) -> cur_worker_ind (w_st w) = 0 ->
  wp (for_each cfds conn_listener_cb) (fun r w' =>
    r = Ok tt /\ pool_ok n (w_st w') /\
    forall i, 0 <= i < n ->
      queued (w_st w') i = queued (w_st w) i ++ map mkItem (assigned n i 0 cfds)) w.
Proof.
  intros Hret Hok Hcur. unfold for_each.
  apply (wp_for (fun rest _ w' => exists past, cfds = past ++ rest /\
    pool_ok n (w_st w') /\ cur_worker_ind (w_st w') = Z.of_nat (length past) mod n /\
    forall i, 0 <= i < n ->
      queued (w_st w') i = queued (w_st w) i ++ map mkItem (assigned n i 0 past))).
  - intros [] w' (past & -> & Hok' & _ & Hqs). by rewrite app_nil_r.
  - intros cfd rest [] w' (past & -> & Hok' & Hcur' & Hqs).
    apply wp_bind, (conn_listener_wp n); [done..|].
    intros w'' pipe r1 r2 _ Hok'' (Hpipes & Hnext & _ & Hq) _; simpl. apply wp_ret.
    exists (past ++ [cfd]). rewrite length_app; simpl.
    split_and!; [by rewrite <- app_assoc|done| |].
    + rewrite Hnext, Hcur', Zplus_mod_idemp_l. f_equal. lia.
    + intros i Hi. rewrite Hq, Hqs, Hcur', assigned_app, map_app, app_assoc by done.
      f_equal. simpl. rewrite (Z.eqb_sym i). by destruct (_ =? i).
  - exists []. split_and!; [done|done|by rewrite Hcur, Zmod_0_l|].
    intros. by rewrite app_nil_r.
Qed.

(** C22. Round robin: from the start, connection number [k] (counted from 0) is
    queued for worker [k mod n], in the order of acceptance, whatever the number
    of connections. *)
Theorem connections_round_robin n cfds (w : world pool) :
  returns -> pool_ok n (w_st w) -> cur_worker_ind (w_st w) = 0 ->
  wp (for_each cfds conn_listener_cb) (fun r w' =>
    r = Ok tt /\ pool_ok n (w_st w') /\
    forall i, 0 <= i < n ->
      queued (w_st w') i = queued (w_st w) i ++ map mkItem (assigned n i 0 cfds)) w.
Proof. apply connections_wp. Qed.

(** Load balance: however many connections arrive, the numbers of
    connections given to two workers differ by at most one, the earlier worker
    never having fewer. *)
Theorem connections_balanced n cfds (w : world pool) :
  returns -> pool_ok n (w_st w) -> cur_worker_ind (w_st w) = 0 ->
  (forall i, queued (w_st w) i = []) ->
  wp (for_each cfds conn_listener_cb) (fun r w' =>
    r = Ok tt /\ forall i j, 0 <= i <= j -> j < n ->
      (length (queued (w_st w') j) <= length (queued (w_st w') i) <=
       S (length (queued (w_st w') j)))%nat) w.
Proof.
  intros Hret Hok Hcur Hnil. eapply wp_mono; [by apply connections_wp|].
  intros r w' (-> & _ & Hq). split; [done|]. intros i j Hij Hjn.
  rewrite !Hq, !Hnil by lia. simpl. rewrite !length_map.
  pose proof (length_assigned n i 0 cfds ltac:(lia) ltac:(lia)) as Hi.
  pose proof (length_assigned n j 0 cfds ltac:(lia) ltac:(lia)) as Hj.
  rewrite !Z.add_0_l in Hi, Hj.
  rewrite (Z.div_small (n - 1 - i)), Z.sub_0_r in Hi by lia.
  rewrite (Z.div_small (n - 1 - j)), Z.sub_0_r in Hj by lia.
  pose proof (Z.div_le_mono (Z.of_nat (length cfds) + (n - 1 - j))
    (Z.of_nat (length cfds) + (n - 1 - i)) n ltac:(lia) ltac:(lia)).
  pose proof (Z.div_le_mono (Z.of_nat (length cfds) + (n - 1 - i))
    (Z.of_nat (length cfds) + (n - 1 - j) + 1 * n) n ltac:(lia) ltac:(lia)) as Hle.
  rewrite Z.div_add in Hle by lia. lia.
Qed.

(** Without workers (a concurrency of zero on the command line) the first
    connection indexes an empty vector: undefined behaviour. *)
Lemma conn_listener_cb_no_workers cfd (w : world pool) :
  returns -> comm_queues (w_st w) = [] ->
  wp (conn_listener_cb cfd) (fun r _ => r = Stop HUB) w.
Proof.
  intros Hret Hnil. unfold conn_listener_cb.
  wp_steps_ret Hret; try done;
    match goal with Hl : lookupZ (comm_queues _) _ = Some _ |- _ => rewrite Hnil in Hl end;
    unfold lookupZ in *; by case_bool_decide.
Qed.
End main_thread.

(** ** Signals and start-up *)

(** What the log says of socket pairs, worker tasks and registered fds. *)
Definition task_of (e : event) : option (list Z) :=
  match e with (PoolDispatch "worker_func" args, _) => Some args | _ => None end.

Section startup.
Context `{Env}.

(** SIGINT: every worker pipe, in order, is sent one COMM_TERMINATE byte,
    then the main loop is told to exit; any other signal changes nothing. *)
Theorem signal_event_cb_terminates_workers sig base (w : world pool) :
  returns ->
  wp (signal_event_cb sig base) (fun r w' => r = Ok tt /\ w_st w' = w_st w /\
    (sig <> SIGINT -> w_log w' = w_log w) /\
    (sig = SIGINT -> map fst (w_log w') = map fst (w_log w) ++
      map (fun p => Send p [COMM_TERMINATE] 0) (comm_pipes (w_st w)) ++
      [EventBaseLoopexit base])) w.
Proof.
  intros Hret. unfold signal_event_cb. destruct (Z.eqb_spec sig SIGINT) as [->|Hne].
  - do 3 wp_step. unfold for_each.
    apply (wp_for (fun rest _ w' => exists past, comm_pipes (w_st w) = past ++ rest /\
      w_st w' = w_st w /\ map fst (w_log w') = map fst (w_log w) ++
        map (fun p => Send p [COMM_TERMINATE] 0) past)).
    + intros [] w' (past & Hp & Hst & Hlog). rewrite app_nil_r in Hp; subst.
      wp_steps_ret Hret. split_and!; [done|done|done|]. intros _.
      by rewrite map_app, Hlog, <- app_assoc.
    + intros p rest [] w' (past & Hp & Hst & Hlog). wp_steps_ret Hret.
      exists (past ++ [p]). rewrite <- app_assoc. split_and!; [done|done|].
      by rewrite !map_app, Hlog, <- app_assoc.
    + exists []. by rewrite !app_nil_r.
  - apply wp_ret. by split_and!.
Qed.

Lemma start_worker_wp i (Q : res unit -> world pool -> Prop) w :
  returns -> socketpair_contract ->
  (forall w', Q (Stop HAssert) w') ->
  (forall w' a b, w_st w' = add_worker b (w_st w) ->
    omap pair_of (w_log w') = omap pair_of (w_log w) ++ [(a, b)] ->
    omap task_of (w_log w') = omap task_of (w_log w) ++ [[i; a]] -> Q (Ok tt) w') ->
  wp (start_worker i) Q w.
Proof.
  intros Hret Hsp Hassert HQ. unfold start_worker. wp_steps_ret Hret; try done.
  all: match goal with
    | Hr : env _ (SocketPair _ _ _) = Some ?r, Hb : (r_ret ?r =? 0) = true |- _ =>
        destruct (Hsp _ _ _ _ _ Hr ltac:(by apply Z.eqb_eq)) as (a & b & Hab);
        rewrite Hab in *;
        repeat match goal with Hl : lookupZ [a; b] _ = _ |- _ => vm_compute in Hl end;
        simplify_eq
    end.
  eapply HQ; [done|..]; simpl; rewrite !omap_app; simpl; by rewrite ?Hab, !app_nil_r.
Qed.

(** Start-up: the loop that starts the workers either fails its assertion
    (some socketpair failed) or leaves exactly [concur] pipes and empty queues;
    worker [i] is started with its own index and one end of the [i]-th
    socketpair, the other end of which is [comm_pipes[i]]. *)
Theorem workers_started concur (w : world pool) :
  returns -> socketpair_contract -> w_st w = pool_init ->
  w_log w = [] -> 0 <= concur ->
  wp (for_each (range 0 concur) start_worker) (fun r w' =>
    match r with
    | Ok _ => exists pairs, Z.of_nat (length pairs) = concur /\
        omap pair_of (w_log w') = pairs /\
        comm_pipes (w_st w') = map snd pairs /\
        omap task_of (w_log w') = imap (fun i p => [Z.of_nat i; fst p]) pairs /\
        comm_queues (w_st w') = replicate (Z.to_nat concur) default_ctor /\
        cur_worker_ind (w_st w') = 0
    | Stop h => h = HAssert
    end) w.
Proof.
  intros Hret Hsp Hst Hlog Hconc. unfold for_each, range.
  apply (wp_for (fun rest _ w' => exists pairs,
    rest = seqZ (Z.of_nat (length pairs)) (concur - Z.of_nat (length pairs)) /\
    Z.of_nat (length pairs) <= concur /\
    omap pair_of (w_log w') = pairs /\
    comm_pipes (w_st w') = map snd pairs /\
    omap task_of (w_log w') = imap (fun i p => [Z.of_nat i; fst p]) pairs /\
    comm_queues (w_st w') = replicate (length pairs) default_ctor /\
    cur_worker_ind (w_st w') = 0)).
  - intros [] w' (pairs & Hrest & Hle & Hp & Hpipes & Ht & Hq & Hc).
    assert (concur = Z.of_nat (length pairs)) as ->.
    { apply (f_equal length) in Hrest. rewrite length_seqZ in Hrest. simpl in Hrest. lia. }
    exists pairs. by rewrite Nat2Z.id.
  - intros i rest [] w' (pairs & Hrest & Hle & Hp & Hpipes & Ht & Hq & Hc).
    assert (Z.of_nat (length pairs) < concur).
    { apply (f_equal length) in Hrest. rewrite length_seqZ in Hrest. simpl in Hrest. lia. }
    rewrite seqZ_cons in Hrest by lia. injection Hrest as -> ->.
    apply wp_bind, start_worker_wp; [done|done|done|].
    intros w'' a b Hst'' Hp'' Ht''; simpl. apply wp_ret.
    exists (pairs ++ [(a, b)]). rewrite Hst'', length_app, imap_app, map_app; simpl.
    split_and!; [f_equal; lia|lia| | | | |done].
    + by rewrite Hp'', Hp.
    + by rewrite Hpipes.
    + rewrite Ht'', Ht. f_equal. by rewrite Nat.add_0_r.
    + rewrite Hq. by rewrite replicate_add.
  - exists []. rewrite Hst, Hlog. by split_and!.
Qed.
End startup.

(** ** The worker threads *)

Section worker.
Context `{Env}.

(** The calls that take over the connections [items], one after the other. *)
Inductive reg_events (ctx : CommContex) : list CommQueueItem -> list event -> Prop :=
| reg_nil : reg_events ctx [] []
| reg_cons it items r1 r2 r3 L :
    reg_events ctx items L ->
    reg_events ctx (it :: items)
      ((BevSocketNew (ev_base ctx) (fd it) BEV_OPT_CLOSE_ON_FREE, r1) ::
       (BevSetcb (r_ret r1) "client_msg_cb" "" "client_event_cb" (ctx_ptr ctx), r2) ::
       (BevEnable (r_ret r1) (Z.lor EV_READ EV_PERSIST), r3) :: L).

Lemma set_queue_set_queue i q q' p : set_queue i q' (set_queue i q p) = set_queue i q' p.
Proof.
  unfold set_queue, insertZ; simpl. case_bool_decide; [|done].
  by rewrite list_insert_insert_eq.
Qed.

Lemma take_loop_wp ctx items : forall fuel v (Q : res unit -> world pool -> Prop) w,
  returns -> (length items < fuel)%nat ->
  lookupZ (comm_queues (w_st w)) (worker_id ctx) = Some (mkTSQ items) ->
  (forall w' L, reg_events ctx items L ->
    w_st w' = set_queue (worker_id ctx) (mkTSQ []) (w_st w) ->
    w_log w' = w_log w ++ L -> w_out w' = w_out w -> Q (Ok tt) w') ->
  wp (while_ fuel (take_turn ctx) v) Q w.
Proof.
  induction items as [|it items IH]; intros [|fuel] v Q w Hret Hlt Hq HQ; simpl in Hlt; [lia| |lia|];
    apply wp_while_S; unfold take_turn at 1; wp_steps_ret Hret; rewrite Hq in *; simplify_eq/=;
    wp_steps_ret Hret.
  - eapply HQ; [constructor|done|by rewrite app_nil_r|done].
  - unfold register. wp_steps_ret Hret. apply (IH fuel); simpl; [done|lia| |].
    + apply lookupZ_insertZ_eq. apply lookupZ_is_Some. by eexists.
    + intros w' L HL Hst Hlog Hout. eapply HQ; [by constructor| | |done].
      * by rewrite Hst, set_queue_set_queue.
      * rewrite Hlog, <- !app_assoc. done.
Qed.

Lemma take_connections_wp ctx items (Q : res unit -> world pool -> Prop) w :
  returns ->
  lookupZ (comm_queues (w_st w)) (worker_id ctx) = Some (mkTSQ items) ->
  (forall w' L, reg_events ctx items L ->
    w_st w' = set_queue (worker_id ctx) (mkTSQ []) (w_st w) ->
    w_log w' = w_log w ++ L -> w_out w' = w_out w -> Q (Ok tt) w') ->
  wp (take_connections ctx) Q w.
Proof.
  intros Hret Hq HQ. unfold take_connections. wp_steps; rewrite Hq in *; simplify_eq.
  apply (take_loop_wp _ items); [done|simpl; lia|done..].
Qed.

(** The connections handed to libevent by the calls of a log. *)
Definition delivered (L : list event) : list CommQueueItem :=
  omap (fun e => match e with (BevSocketNew _ f _, _) => Some (mkItem f) | _ => None end) L.

(** The bytes received from the pipe [mfd]. *)
Definition received (mfd : Z) (L : list event) : list Z :=
  omap (fun e => match e with
    | (Recv f _ _, r) => if (f =? mfd) && (0 <? r_ret r) then head (r_data r) else None
    | _ => None
    end) L.

Lemma reg_events_delivered ctx items L : reg_events ctx items L -> delivered L = items.
Proof. induction 1 as [|[f] items r1 r2 r3 L H1 IH]; [done|]. cbn. by f_equal. Qed.

Lemma reg_events_received mfd ctx items L : reg_events ctx items L -> received mfd L = [].
Proof. induction 1; [done|]. by cbn. Qed.

Lemma delivered_app L1 L2 : delivered (L1 ++ L2) = delivered L1 ++ delivered L2.
Proof. apply omap_app. Qed.
Lemma received_app mfd L1 L2 : received mfd (L1 ++ L2) = received mfd L1 ++ received mfd L2.
Proof. apply omap_app. Qed.

Lemma received_cons mfd e L : received mfd (e :: L) = received mfd [e] ++ received mfd L.
Proof. apply (received_app mfd [e]). Qed.

(** Fewer than [m] bytes can be received from the pipe. *)
Definition pipe_bytes_below (mfd : Z) (m : nat) : Prop :=
  forall h r, env h (Recv mfd 1 0) = Some r -> 0 < r_ret r ->
    (length (received mfd h) < m)%nat.

(** What is in the queue of a worker. *)
Definition worker_has (ctx : CommContex) (items : list CommQueueItem) (p : pool) : Prop :=
  lookupZ (comm_queues p) (worker_id ctx) = Some (mkTSQ items).

Lemma worker_has_emptied ctx items p :
  worker_has ctx items p ->
  worker_has ctx [] (set_queue (worker_id ctx) (mkTSQ []) p).
Proof.
  intros Hhas. apply lookupZ_insertZ_eq, lookupZ_is_Some. by eexists.
Qed.

(** One turn of [main_msg_cb]. *)
Definition turn_post (mfd : Z) (ctx : CommContex) (items : list CommQueueItem) (w : world pool)
    (x : res (unit + unit)) (w' : world pool) : Prop :=
  exists L, w_log w' = w_log w ++ L /\
  match x with
  | Ok (inl _) => exists b, received mfd L = [b] /\ b <> COMM_TERMINATE /\
      (exists r, env (w_log w) (Recv mfd 1 0) = Some r /\ 0 < r_ret r) /\
      (b = COMM_NEW_CONNECTED /\ delivered L = items /\
         w_st w' = set_queue (worker_id ctx) (mkTSQ []) (w_st w) \/
       b <> COMM_NEW_CONNECTED /\ delivered L = [] /\ w_st w' = w_st w)
  | Ok (inr _) => w_st w' = w_st w /\ delivered L = [] /\
      (received mfd L = [COMM_TERMINATE] /\
         map fst L = [Recv mfd 1 0; EventBaseLoopexit (ev_base ctx)] \/
       received mfd L = [])
  | Stop _ => False
  end.

Lemma main_msg_turn_wp mfd ctx items w :
  returns -> recv_contract -> worker_has ctx items (w_st w) ->
  wp (main_msg_turn mfd ctx tt) (turn_post mfd ctx items w) w.
Proof.
  intros Hret Hrecv Hhas. unfold main_msg_turn. wp_steps_ret Hret.
  match goal with Hr0 : env _ _ = Some _ |- _ => rename Hr0 into Hr end.
  destruct (Hrecv _ _ _ _ _ Hr ltac:(lia)) as [Hle Hlen]. rewrite wrap_s32_id by lia.
  destruct (Z.ltb_spec 0 (r_ret r)) as [Hpos|Hneg].
  - assert (r_ret r = 1) as Hr1 by lia. rewrite Hr1 in Hlen.
    destruct (r_data r) as [|b [|]] eqn:Hdata; try done.
    assert (Hrcv : received mfd [(Recv mfd 1 0, r)] = [b]).
    { cbn. rewrite Z.eqb_refl, Hr1, Hdata. done. }
    destruct (Z.eqb_spec b COMM_NEW_CONNECTED) as [->|Hnew];
      [|destruct (Z.eqb_spec b COMM_TERMINATE) as [->|Hterm]].
    + apply wp_bind, (take_connections_wp _ items); [done|done|].
      intros w' L HL Hst Hlog _; simpl in Hst, Hlog. apply wp_ret.
      exists ((Recv mfd 1 0, r) :: L). split; [by rewrite Hlog, <- app_assoc|].
      exists COMM_NEW_CONNECTED. split_and!; [|done|by eauto with lia|left].
      * by rewrite received_cons, Hrcv, (reg_events_received _ _ _ _ HL).
      * split_and!; [done| |done]. apply (reg_events_delivered _ _ _ HL).
    + wp_steps_ret Hret. eexists. split; [simpl; by rewrite <- app_assoc|].
      split_and!; [done|done|left]. split; [|done].
      by rewrite received_app, Hrcv.
    + wp_steps_ret Hret. eexists. split; [done|]. exists b.
      split_and!; [done|done|by eauto with lia|by right].
  - assert (Hrcv : received mfd [(Recv mfd 1 0, r)] = []).
    { cbn. rewrite Z.eqb_refl. by destruct (Z.ltb_spec 0 (r_ret r)); [lia|]. }
    wp_steps_ret Hret. case_match; wp_steps_ret Hret; eexists;
      (split; [simpl; by rewrite <- ?app_assoc|]); (split_and!; [done|done|right]); [|done].
    by rewrite received_app, Hrcv.
Qed.

Lemma set_queue_same ctx items p :
  worker_has ctx items p -> set_queue (worker_id ctx) (mkTSQ items) p = p.
Proof.
  unfold worker_has, set_queue, insertZ, lookupZ. destruct p; simpl.
  case_bool_decide; [|done]. intros. f_equal. by rewrite list_insert_id.
Qed.

(** The result of a whole run of [main_msg_cb]: the connections it handed to
    libevent and those left in the queue are the ones that were queued. *)
Definition drained_post (mfd : Z) (ctx : CommContex) (items : list CommQueueItem)
    (w w' : world pool) : Prop :=
  exists L rest, w_log w' = w_log w ++ L /\
    w_st w' = set_queue (worker_id ctx) (mkTSQ rest) (w_st w) /\
    delivered L ++ rest = items /\
    (COMM_NEW_CONNECTED ∈ received mfd L -> rest = []).

Lemma main_msg_loop_wp mfd ctx m : forall fuel items w,
  returns -> recv_contract -> pipe_bytes_below mfd m -> worker_has ctx items (w_st w) ->
  (m - length (received mfd (w_log w)) < fuel)%nat ->
  wp (main_msg_cb fuel mfd ctx) (fun r w' => r = Ok tt /\ drained_post mfd ctx items w w') w.
Proof.
  unfold main_msg_cb. induction fuel as [|fuel IH];
    intros items w Hret Hrecv Hm Hhas Hf; [lia|].
  apply wp_while_S. eapply wp_mono; [by apply (main_msg_turn_wp _ _ items)|].
  intros [[[]|[]]|h] w1 (L & Hlog & Hx); [| |done].
  - destruct Hx as (b & Hb & Hterm & (r & Hr & Hpos) & Hx).
    pose proof (Hm _ _ Hr Hpos) as Hlt.
    assert (Hf' : (m - length (received mfd (w_log w1)) < fuel)%nat).
    { rewrite Hlog, received_app, length_app, Hb. simpl. lia. }
    assert (Hnext : exists items', worker_has ctx items' (w_st w1) /\
      w_st w1 = set_queue (worker_id ctx) (mkTSQ items') (w_st w) /\
      delivered L ++ items' = items /\ (b = COMM_NEW_CONNECTED -> items' = [])).
    { destruct Hx as [(-> & Hd & Hst)|(Hne & Hd & Hst)].
      - exists []. rewrite Hst, Hd, app_nil_r. split_and!; try done.
        by eapply worker_has_emptied.
      - exists items. rewrite Hst, Hd, set_queue_same by done. by split_and!. }
    destruct Hnext as (items' & Hhas' & Hst & Hd & Hnew).
    eapply wp_mono; [by apply (IH items')|]. intros x w' (-> & L' & rest & Hlog' & Hst' & Hd' & Hnew').
    split; [done|]. exists (L ++ L'), rest. split_and!.
    + by rewrite Hlog', Hlog, <- app_assoc.
    + by rewrite Hst', Hst, set_queue_set_queue.
    + by rewrite delivered_app, <- app_assoc, Hd'.
    + rewrite received_app, Hb. intros [Hin%list_elem_of_singleton|Hin]%elem_of_app; [|by auto].
      rewrite (Hnew (eq_sym Hin)) in Hd'. by apply app_eq_nil in Hd' as [_ ?].
  - destruct Hx as (Hst & Hd & Hx). split; [done|]. exists L, items.
    rewrite Hd, Hst, set_queue_same by done. split_and!; try done.
    intros Hin. exfalso. destruct Hx as [[Hx _]|Hx]; rewrite Hx in Hin; [|by apply elem_of_nil in Hin].
    by apply list_elem_of_singleton in Hin.
Qed.

(** Taking over connections: if the main thread wrote fewer than [m] bytes
    to the pipe, [main_msg_cb] returns after at most [m + 1] turns; every queued
    connection is then either handed to libevent, in order and exactly once, or
    still in the queue - and none is left in the queue if a COMM_NEW_CONNECTED
    byte was received.  No other queue is touched. *)
Theorem main_msg_cb_takes_connections mfd ctx m items (w : world pool) :
  returns -> recv_contract -> pipe_bytes_below mfd m -> worker_has ctx items (w_st w) ->
  wp (main_msg_cb (S m) mfd ctx) (fun r w' => r = Ok tt /\ drained_post mfd ctx items w w') w.
Proof. intros. apply (main_msg_loop_wp _ _ m); [done..|lia]. Qed.

(** COMM_TERMINATE: when the next byte of the pipe is COMM_TERMINATE the
    callback tells the worker's loop to exit and returns; it makes no other call,
    so the queued connections and the ones the worker already serves are left as
    they are (none of them is closed). *)
Lemma main_msg_cb_terminate mfd ctx fuel r (w : world pool) :
  returns -> env (w_log w) (Recv mfd 1 0) = Some r ->
  r_ret r = 1 -> r_data r = [COMM_TERMINATE] ->
  wp (main_msg_cb (S fuel) mfd ctx) (fun x w' => x = Ok tt /\ w_st w' = w_st w /\
    map fst (w_log w') = map fst (w_log w) ++ [Recv mfd 1 0; EventBaseLoopexit (ev_base ctx)]) w.
Proof.
  intros Hret Hr Hr1 Hdata. unfold main_msg_cb. apply wp_while_S. unfold main_msg_turn.
  wp_steps_ret Hret. simplify_eq. rewrite Hr1, Hdata. simpl. wp_steps_ret Hret.
  split_and!; [done|done|]. by rewrite !map_app, <- app_assoc.
Qed.

(** The state after [k] messages. *)
Definition count_messages (k : nat) (p : pool) : pool := Nat.iter k incr_succ p.

End worker.

(** ** The theorems at concrete inputs *)

(** An environment in which every call returns: the pipe 7 holds one
    COMM_NEW_CONNECTED byte, each bufferevent holds one chunk "hi\0!", and the
    descriptors handed out are 40 plus the number of calls so far. *)
Definition demo_env : Env := fun h c => Some (match c with
  | Recv f len _ =>
      if (f =? 7) && (len =? 1) && bool_decide (length (received 7 h) = 0%nat)
      then ret_data [COMM_NEW_CONNECTED] else ret_err EAGAIN
  | BevRead _ size =>
      if (4 <=? size) &&
         bool_decide (countb (fun e => match e with (BevRead _ _, _) => true | _ => false end) h = 0%nat)
      then ret_data [104; 105; 0; 33] else ret_ok 0
  | BevGetfd _ => ret_ok 5
  | SocketPair _ _ _ =>
      Reply 0 0 [40 + Z.of_nat (length h); 41 + Z.of_nat (length h)] [] None
  | _ => ret_ok 0
  end).

Lemma demo_returns : @returns demo_env.
Proof. intros h c. by eexists. Qed.

Lemma demo_recv : @recv_contract demo_env.
Proof.
  intros h f len fl r [= <-] Hlen. case_match eqn:E; split; simpl; lia.
Qed.

Lemma demo_bev_read : @bev_read_contract demo_env.
Proof.
  intros h be size r [= <-] Hsize. case_match eqn:E; [|repeat split; simpl; lia].
  apply andb_true_iff in E as [E _]. repeat split; simpl; lia.
Qed.

Lemma demo_socketpair : @socketpair_contract demo_env.
Proof. intros h d t p r [= <-] _. by do 2 eexists. Qed.

Lemma demo_pipe : @pipe_bytes_below demo_env 7 1.
Proof.
  intros h r [= <-]. simpl. case_bool_decide as E; [|done]. unfold received in *. lia.
Qed.

(** Three workers with empty queues. *)
Definition demo_pool : pool := mkPool [11; 12; 13] (replicate 3 default_ctor) 0 0.
Definition demo_world (p : pool) : world pool := World p 0 [] [].

Lemma demo_pool_ok : pool_ok 3 demo_pool.
Proof. by split_and!. Qed.

Lemma demo_pool_empty i : queued demo_pool i = [].
Proof.
  unfold queued. destruct (lookupZ (comm_queues demo_pool) i) as [q|] eqn:E; [|done].
  apply lookupZ_Some in E as [_ E]. simpl in E.
  by apply (lookup_replicate_1 3) in E as [-> _].
Qed.

Lemma connections_round_robin_witness :
  wp (for_each [5; 6; 7; 8] (@conn_listener_cb demo_env)) (fun r w' =>
    r = Ok tt /\ pool_ok 3 (w_st w') /\
    forall i, 0 <= i < 3 ->
      queued (w_st w') i = queued demo_pool i ++ map mkItem (assigned 3 i 0 [5; 6; 7; 8]))
    (demo_world demo_pool).
Proof.
  apply (@connections_round_robin demo_env 3 [5; 6; 7; 8] (demo_world demo_pool));
    [apply demo_returns | apply demo_pool_ok | done].
Defined.

Lemma signal_event_cb_terminates_workers_witness :
  wp (@signal_event_cb demo_env SIGINT 9) (fun r w' => r = Ok tt /\ w_st w' = demo_pool /\
    (SIGINT <> SIGINT -> w_log w' = []) /\
    (SIGINT = SIGINT -> map fst (w_log w') = map fst ([] : list event) ++
      map (fun p => Send p [COMM_TERMINATE] 0) [11; 12; 13] ++ [EventBaseLoopexit 9]))
    (demo_world demo_pool).
Proof.
  apply (@signal_event_cb_terminates_workers demo_env SIGINT 9 (demo_world demo_pool)).
  apply demo_returns.
Defined.

Lemma workers_started_witness :
  wp (for_each (range 0 2) (@start_worker demo_env)) (fun r w' =>
    match r with
    | Ok _ => exists pairs, Z.of_nat (length pairs) = 2 /\
        omap pair_of (w_log w') = pairs /\
        comm_pipes (w_st w') = map snd pairs /\
        omap task_of (w_log w') = imap (fun i p => [Z.of_nat i; fst p]) pairs /\
        comm_queues (w_st w') = replicate (Z.to_nat 2) default_ctor /\
        cur_worker_ind (w_st w') = 0
    | Stop h => h = HAssert
    end) (demo_world pool_init).
Proof.
  apply (@workers_started demo_env 2 (demo_world pool_init));
    [apply demo_returns | apply demo_socketpair | done | done | lia].
Defined.

(** Worker 1 with two connections in its queue. *)
Definition demo_busy : pool :=
  mkPool [11; 12] [default_ctor; mkTSQ [mkItem 20; mkItem 21]] 0 0.

Lemma main_msg_cb_takes_connections_witness :
  wp (@main_msg_cb demo_env 2 7 (mkCtx 1 3)) (fun r w' => r = Ok tt /\
    drained_post 7 (mkCtx 1 3) [mkItem 20; mkItem 21] (demo_world demo_busy) w')
    (demo_world demo_busy).
Proof.
  apply (@main_msg_cb_takes_connections demo_env 7 (mkCtx 1 3) 1);
    [apply demo_returns | apply demo_recv | apply demo_pipe | done].
Defined.

Definition demo_terminate : Env := fun h c => Some (match c with
  | Recv _ _ _ => ret_data [COMM_TERMINATE]
  | _ => ret_ok 0
  end).

