(* ===== verification/PoolSystem.v ===== *)
(** * The threads of the thread pool server, interleaved

    LibevThreadPool has the code each thread runs; here the main thread and the
    workers run at the same time, sharing the queues (through the interface
    [FifoQueue]) and the socket pairs (through [ByteChannel], which states what
    the system documents of them).  [act] is one atomic action of one thread:
    the body of a queue method, one system call on a socket pair, or handing one
    connection to libevent.  The theorems: no connection is lost, duplicated or
    given to another worker, every dispatched connection is served although a
    notification may be lost, and a termination request can be lost. *)

From S2P Require Import Prelude Sys CLib ThreadSafeQueue LibevThreadPool.

(** What the main thread relies on of a non-blocking [AF_UNIX] stream socket
    pair: bytes arrive in order, none is lost, a send fails (EAGAIN) only when
    unread bytes fill the buffer, a receive only when there is no byte. *)
Class ByteChannel (C : Type) := {
  ch_send : C -> Z -> option C;
  ch_recv : C -> option (Z * C);
  ch_view : C -> list Z;
  ch_send_Some : forall c b c', ch_send c b = Some c' -> ch_view c' = ch_view c ++ [b];
  ch_send_None : forall c b, ch_send c b = None -> ch_view c <> [];
  ch_recv_nil : forall c, ch_view c = [] -> ch_recv c = None;
  ch_recv_cons : forall c b l, ch_view c = b :: l ->
    exists c', ch_recv c = Some (b, c') /\ ch_view c' = l;
}.

(** Where a worker is in [main_msg_cb]: in its event loop; before [recv]; before
    [try_pop]; before registering the connection just popped; out of its loop. *)
Inductive wpc :=
| WIdle | WRecv | WPop (cq_msg : CommQueueItem) | WReg (cq_msg : CommQueueItem) | WDone.

(** Where the main thread is: in its event loop; in [conn_listener_cb] between
    the push and the send; in [signal_event_cb] before the send to worker [k];
    out of its loop. *)
Inductive mpc := MIdle | MSend | MTerm (k : Z) | MExit.

Section system.
Context {Q : Type -> Type} `{FifoQueue Q} {C : Type} `{ByteChannel C}.

(** A worker: its queue, its end of the socket pair, its position and the
    connections it has handed to libevent. *)
Record worker := mkWorker {
  w_queue : Q CommQueueItem;
  w_chan : C;
  w_pc : wpc;
  w_conns : list Z;
}.

(** The system; [accepted] records the connections accepted so far. *)
Record sys_state := mkSys {
  workers : list worker;
  cur : Z;
  main : mpc;
  accepted : list Z;
}.

Inductive action :=
| Accept_ (cfd : Z)  (* conn_listener_cb: push *)
| Notify             (* conn_listener_cb: send and move on *)
| SigInt             (* signal_event_cb starts *)
| Terminate          (* signal_event_cb: one turn of its loop, or its end *)
| Wake (i : Z)       (* the worker's loop calls main_msg_cb *)
| RecvByte (i : Z)   (* main_msg_cb: recv and the switch *)
| TryPop (i : Z)     (* main_msg_cb: try_pop *)
| Register (i : Z).  (* main_msg_cb: bufferevent_socket_new, setcb, enable *)

Definition with_worker (i : Z) (s : sys_state) (f : worker -> option worker) : option sys_state :=
  w ← lookupZ (workers s) i;
  w' ← f w;
  Some (mkSys (insertZ i w' (workers s)) (cur s) (main s) (accepted s)).

Definition set_main (m : mpc) (s : sys_state) : sys_state :=
  mkSys (workers s) (cur s) m (accepted s).

Definition advance (s : sys_state) : sys_state :=
  let concur := Z.of_nat (length (workers s)) in
  mkSys (workers s) (if concur <=? cur s + 1 then 0 else cur s + 1) MIdle (accepted s).

(** A send whose result is ignored. *)
Definition send_ignored (b : Z) (w : worker) : option worker :=
  Some (mkWorker (w_queue w) (default (w_chan w) (ch_send (w_chan w) b)) (w_pc w) (w_conns w)).

Definition recv_step (w : worker) : option worker :=
  match w_pc w with
  | WRecv =>
      match ch_recv (w_chan w) with
      | None => Some (mkWorker (w_queue w) (w_chan w) WIdle (w_conns w))
      | Some (b, c) =>
          let pc := if b =? COMM_NEW_CONNECTED then WPop (mkItem (-1))
                    else if b =? COMM_TERMINATE then WDone else WRecv in
          Some (mkWorker (w_queue w) c pc (w_conns w))
      end
  | _ => None
  end.

Definition pop_step (w : worker) : option worker :=
  match w_pc w with
  | WPop v =>
      let '(b, x, q) := fq_try_pop (w_queue w) v in
      Some (mkWorker q (w_chan w) (if b : bool then WReg x else WRecv) (w_conns w))
  | _ => None
  end.

Definition register_step (w : worker) : option worker :=
  match w_pc w with
  | WReg x => Some (mkWorker (w_queue w) (w_chan w) (WPop x) (w_conns w ++ [fd x]))
  | _ => None
  end.

Definition wake_step (w : worker) : option worker :=
  match w_pc w, ch_view (w_chan w) with
  | WIdle, _ :: _ => Some (mkWorker (w_queue w) (w_chan w) WRecv (w_conns w))
  | _, _ => None
  end.

Definition push_step (cfd : Z) (w : worker) : option worker :=
  Some (mkWorker (fq_push (w_queue w) (mkItem cfd)) (w_chan w) (w_pc w) (w_conns w)).

(** One action; [None] when it is not possible in the state. *)
Definition act (s : sys_state) (a : action) : option sys_state :=
  match a, main s with
  | Accept_ cfd, MIdle =>
      s ← with_worker (cur s) s (push_step cfd);
      Some (mkSys (workers s) (cur s) MSend (accepted s ++ [cfd]))
  | Notify, MSend => s ← with_worker (cur s) s (send_ignored COMM_NEW_CONNECTED); Some (advance s)
  | SigInt, MIdle => Some (set_main (MTerm 0) s)
  | Terminate, MTerm k =>
      if k <? Z.of_nat (length (workers s)) then
        s ← with_worker k s (send_ignored COMM_TERMINATE); Some (set_main (MTerm (k + 1)) s)
      else Some (set_main MExit s)
  | Wake i, _ => with_worker i s wake_step
  | RecvByte i, _ => with_worker i s recv_step
  | TryPop i, _ => with_worker i s pop_step
  | Register i, _ => with_worker i s register_step
  | _, _ => None
  end.

Fixpoint run (s : sys_state) (l : list action) : option sys_state :=
  match l with [] => Some s | a :: l => s' ← act s a; run s' l end.

(** Start: [n] workers with empty queues and pipes. *)
Definition new_worker (c : C) : worker := mkWorker fq_empty c WIdle [].
Definition start (cs : list C) : sys_state := mkSys (map new_worker cs) 0 MIdle [].

Definition reachable (cs : list C) (s : sys_state) : Prop :=
  Forall (fun c => ch_view c = []) cs /\ exists l, run (start cs) l = Some s.
End system.
Arguments worker : clear implicits.
Arguments sys_state : clear implicits.

(** ** The invariant *)

Section invariant.
Context {Q : Type -> Type} `{FifoQueue Q} {C : Type} `{ByteChannel C}.
Implicit Types (s : sys_state Q C) (w : worker Q C).

Definition view w : list CommQueueItem := fq_view (w_queue w).
Definition pending w : list Z := ch_view (w_chan w).

(** The connection popped and not yet registered. *)
Definition inflight (p : wpc) : list Z := match p with WReg x => [fd x] | _ => [] end.
Definition emptying (p : wpc) : bool := match p with WPop _ | WReg _ => true | _ => false end.
Definition dispatching (m : mpc) : bool := match m with MIdle | MSend => true | _ => false end.

(** Worker [i] of [n] in a state of the main thread: every connection it was
    given is registered, in flight or queued; a non-empty queue will be looked at
    again; before the shutdown the pipe only carries COMM_NEW_CONNECTED. *)
Record worker_inv (n : Z) (cur : Z) (m : mpc) (acc : list Z) (i : Z) w : Prop := {
  wi_conns : w_conns w ++ inflight (w_pc w) ++ map fd (view w) = assigned n i 0 acc;
  wi_noticed : view w = [] \/ w_pc w = WDone \/ COMM_NEW_CONNECTED ∈ pending w \/
    emptying (w_pc w) = true \/ (m = MSend /\ cur = i);
  wi_pipe : dispatching m = true ->
    Forall (eq COMM_NEW_CONNECTED) (pending w) /\ w_pc w <> WDone;
}.

Record sys_inv (n : Z) s : Prop := {
  si_len : Z.of_nat (length (workers s)) = n;
  si_cur : 0 <= cur s < n;
  si_next : match main s with
    | MIdle => cur s = Z.of_nat (length (accepted s)) mod n
    | MSend => (cur s + 1) mod n = Z.of_nat (length (accepted s)) mod n
    | _ => True
    end;
  si_workers : forall i w, lookupZ (workers s) i = Some w ->
    worker_inv n (cur s) (main s) (accepted s) i w;
}.

Lemma with_worker_Some i s f s' :
  with_worker i s f = Some s' <-> exists w w', lookupZ (workers s) i = Some w /\ f w = Some w' /\
    s' = mkSys (insertZ i w' (workers s)) (cur s) (main s) (accepted s).
Proof.
  unfold with_worker, mbind, option_bind. split.
  - intros Hs. repeat case_match; simplify_eq. eauto.
  - by intros (w & w' & -> & -> & ->).
Qed.

Lemma lookupZ_insertZ_Some (l : list (worker Q C)) i j w w' :
  lookupZ (insertZ i w l) j = Some w' -> is_Some (lookupZ l i) ->
  (j = i /\ w' = w) \/ (j <> i /\ lookupZ l j = Some w').
Proof.
  intros Hj Hi. destruct (decide (j = i)) as [->|Hne].
  - rewrite lookupZ_insertZ_eq in Hj by (by apply lookupZ_is_Some). left. by simplify_eq.
  - right. by rewrite lookupZ_insertZ_ne in Hj.
Qed.

(** An action of worker [i] that keeps that worker's invariant. *)
Lemma sys_inv_worker n i s f s' :
  sys_inv n s -> with_worker i s f = Some s' ->
  (forall w w', f w = Some w' -> worker_inv n (cur s) (main s) (accepted s) i w ->
    worker_inv n (cur s) (main s) (accepted s) i w') ->
  sys_inv n s'.
Proof.
  intros [Hlen Hcur Hnext Hw] (w & w' & Hi & Hf & ->)%with_worker_Some Hkeep.
  split; simpl; [by rewrite length_insertZ|done|done|].
  intros j wj [[-> ->]|[Hne Hj]]%lookupZ_insertZ_Some; eauto.
Qed.

Lemma wake_keeps n c m acc i w w' :
  wake_step w = Some w' -> worker_inv n c m acc i w -> worker_inv n c m acc i w'.
Proof.
  unfold wake_step. intros Hs [Hc Hn Hp]. repeat case_match; simplify_eq/=.
  split; unfold view, pending in *; simpl in *; intuition congruence.
Qed.

Lemma register_keeps n c m acc i w w' :
  register_step w = Some w' -> worker_inv n c m acc i w -> worker_inv n c m acc i w'.
Proof.
  unfold register_step. intros Hs [Hc Hn Hp]. repeat case_match; simplify_eq/=.
  split; unfold view, pending in *; simpl in *; [by rewrite <- app_assoc|auto|].
  intros Hm. by destruct (Hp Hm).
Qed.

Lemma pop_keeps n c m acc i w w' :
  pop_step w = Some w' -> worker_inv n c m acc i w -> worker_inv n c m acc i w'.
Proof.
  unfold pop_step. intros Hs [Hc Hn Hp]. case_match eqn:Hpc; try done.
  destruct (fq_view (w_queue w)) as [|x xs] eqn:Hv; unfold view, pending in *; rewrite Hv in *.
  - rewrite (fq_try_pop_nil _ _ _ Hv) in Hs. simplify_eq/=.
    split; unfold view, pending; simpl; rewrite ?Hv; [done|auto|].
    intros Hm. by destruct (Hp Hm).
  - destruct (fq_try_pop_cons _ _ cq_msg _ _ Hv) as (q' & Heq & Hv'). rewrite Heq in Hs. simplify_eq/=.
    split; unfold view, pending; simpl; rewrite ?Hv'; [done|auto|].
    intros Hm. by destruct (Hp Hm).
Qed.

Lemma recv_keeps n c m acc i w w' :
  recv_step w = Some w' -> worker_inv n c m acc i w -> worker_inv n c m acc i w'.
Proof.
  unfold recv_step. intros Hs [Hc Hn Hp]. case_match eqn:Hpc; try done.
  unfold view, pending in *; simpl in *.
  destruct (ch_view (w_chan w)) as [|b l] eqn:Hl.
  - rewrite (ch_recv_nil _ Hl) in Hs. simplify_eq/=.
    split; unfold view, pending; simpl; rewrite ?Hl; [done| |].
    + intuition congruence.
    + intros Hm. by destruct (Hp Hm).
  - destruct (ch_recv_cons _ _ _ Hl) as (c' & Heq & Hl'). rewrite Heq in Hs. simplify_eq/=.
    split; unfold view, pending; simpl; rewrite ?Hl'.
    + zcase; [done|]. by zcase.
    + zcase; [by auto|]. zcase; [by auto|].
      destruct Hn as [?|[?|[Hin|[?|?]]]]; auto.
      apply elem_of_cons in Hin as [?|?]; auto; congruence.
    + intros Hm. destruct (Hp Hm) as [Hall _]. inversion Hall; subst. by rewrite Z.eqb_refl.
Qed.

Lemma send_view b c : exists l, ch_view (default c (ch_send c b)) = ch_view c ++ l /\
  (l = [b] \/ l = [] /\ ch_view c <> []).
Proof.
  destruct (ch_send c b) as [c'|] eqn:E; simpl.
  - exists [b]. rewrite (ch_send_Some _ _ _ E). auto.
  - exists []. rewrite app_nil_r. eauto using ch_send_None.
Qed.

Lemma accept_keeps n s cfd s' :
  sys_inv n s -> act s (Accept_ cfd) = Some s' -> sys_inv n s'.
Proof.
  intros [Hlen Hcur Hnext Hw] Hs. simpl in Hs. destruct (main s) eqn:Hm; try done.
  unfold mbind, option_bind in Hs. case_match eqn:Hww; [|done]. injection Hs as <-.
  apply with_worker_Some in Hww as (w & w' & Hi & [= <-] & ->). simpl.
  split; simpl; [by rewrite length_insertZ|done| |].
  - rewrite length_app, Hnext; simpl. rewrite Zplus_mod_idemp_l. f_equal. lia.
  - intros j wj [[-> ->]|[Hne Hj]]%lookupZ_insertZ_Some; [| |by eauto].
    + destruct (Hw _ _ Hi) as [Hc Hn Hp]. unfold view, pending in *.
      split; unfold view, pending; simpl; [|by auto 10|done].
      rewrite fq_view_push, assigned_app, <- Hc; simpl. rewrite Z.add_0_l, <- Hnext, Z.eqb_refl.
      by rewrite map_app, <- !app_assoc.
    + destruct (Hw _ _ Hj) as [Hc Hn Hp]. split; [|by intuition (auto; congruence)|done].
      rewrite assigned_app, Hc; simpl. rewrite Z.add_0_l, <- Hnext.
      destruct (Z.eqb_spec (cur s) j); [congruence|]. by rewrite app_nil_r.
Qed.

Lemma notify_keeps n s s' : sys_inv n s -> act s Notify = Some s' -> sys_inv n s'.
Proof.
  intros [Hlen Hcur Hnext Hw] Hs. simpl in Hs. destruct (main s) eqn:Hm; try done.
  unfold mbind, option_bind in Hs. case_match eqn:Hww; [|done]. injection Hs as <-.
  apply with_worker_Some in Hww as (w & w' & Hi & [= <-] & ->).
  split; simpl; rewrite ?length_insertZ; [done| | |].
  - rewrite Hlen, next_worker by done. apply Z.mod_pos_bound. lia.
  - rewrite <- Hnext. rewrite Hlen, next_worker by done. done.
  - intros j wj [[-> ->]|[Hne Hj]]%lookupZ_insertZ_Some; [| |by eauto].
    + destruct (Hw _ _ Hi) as [Hc Hn Hp]. unfold view, pending in *.
      destruct (Hp eq_refl) as [Hall Hpc].
      destruct (send_view COMM_NEW_CONNECTED (w_chan w)) as (l & Hl & Hcase).
      split; unfold view, pending; simpl; rewrite ?Hl; [done| |].
      * right; right; left. rewrite elem_of_app. destruct Hcase as [->|[-> Hne]].
        -- right. by apply list_elem_of_singleton.
        -- left. destruct (ch_view (w_chan w)); [done|]. inversion Hall; subst. by left.
      * intros _. split; [|done]. apply Forall_app. split; [done|].
        destruct Hcase as [->|[-> _]]; by repeat constructor.
    + destruct (Hw _ _ Hj) as [Hc Hn Hp]. split; [done| |by auto].
      destruct Hn as [?|[?|[?|[?|[_ ?]]]]]; auto. congruence.
Qed.

Lemma worker_inv_shutdown n c m m' acc i w :
  worker_inv n c m acc i w -> m <> MSend -> dispatching m' = false -> worker_inv n c m' acc i w.
Proof. intros [Hc Hn Hp] Hm Hm'. split; [done|by intuition|congruence]. Qed.

Lemma terminate_keeps n s s' : sys_inv n s -> act s Terminate = Some s' -> sys_inv n s'.
Proof.
  intros [Hlen Hcur Hnext Hw] Hs. simpl in Hs. destruct (main s) as [| |k|] eqn:Hm; try done.
  destruct (Z.ltb_spec k (Z.of_nat (length (workers s)))).
  - unfold mbind, option_bind in Hs. case_match eqn:Hww; [|done]. injection Hs as <-.
    apply with_worker_Some in Hww as (w & w' & Hi & [= <-] & ->).
    split; simpl; rewrite ?length_insertZ; [done|done|done|].
    intros j wj [[-> ->]|[Hne Hj]]%lookupZ_insertZ_Some; [| |by eauto].
    + apply (worker_inv_shutdown _ _ (MTerm k)); [|done|done].
      destruct (Hw _ _ Hi) as [Hc Hn Hp]. unfold view, pending in *.
      destruct (send_view COMM_TERMINATE (w_chan w)) as (l & Hl & _).
      split; unfold view, pending; simpl; rewrite ?Hl; [done| |done].
      rewrite elem_of_app. by intuition.
    + apply (worker_inv_shutdown _ _ (MTerm k)); [by eauto|done|done].
  - simplify_eq. split; simpl; [done|done|done|]. intros j wj Hj.
    apply (worker_inv_shutdown _ _ (MTerm k)); [by eauto|done|done].
Qed.

Lemma act_keeps n s a s' : sys_inv n s -> act s a = Some s' -> sys_inv n s'.
Proof.
  intros Hinv Hs.
  destruct a; [by eapply accept_keeps|by eapply notify_keeps| |by eapply terminate_keeps|
    simpl in Hs; eapply sys_inv_worker; [done|done|];
      eauto using wake_keeps, recv_keeps, pop_keeps, register_keeps..].
  simpl in Hs. destruct (main s) eqn:Hm; simplify_eq. destruct Hinv as [Hlen Hcur Hnext Hw].
  split; simpl; [done|done|done|]. intros j wj Hj. eapply worker_inv_shutdown; [by eauto| |done].
  congruence.
Qed.

Lemma run_keeps n l s s' : sys_inv n s -> run s l = Some s' -> sys_inv n s'.
Proof.
  revert s. induction l as [|a l IH]; intros s Hinv Hs; [by simplify_eq/=|].
  cbn in Hs. destruct (act s a) as [s1|] eqn:Ha; simplify_eq/=. eauto using act_keeps.
Qed.

Lemma start_inv cs :
  cs <> [] -> Forall (fun c : C => ch_view c = []) cs ->
  sys_inv (Z.of_nat (length cs)) (start (Q:=Q) cs).
Proof.
  intros Hne Hall. split; simpl; [by rewrite length_map| |by rewrite Zmod_0_l|].
  - destruct cs; [done|]. simpl. lia.
  - intros i w [_ Hw]%lookupZ_Some. apply list_lookup_fmap_Some in Hw as (c & -> & Hc).
    eapply Forall_lookup in Hall; [|done]. simpl in Hall.
    split; unfold view, pending; simpl; rewrite ?fq_view_empty, ?Hall; [done|auto|by repeat split].
Qed.

Lemma reachable_inv cs s :
  cs <> [] -> reachable cs s -> sys_inv (Z.of_nat (length cs)) s.
Proof. intros Hne [Hall [l Hl]]. eapply run_keeps; [by apply start_inv|done]. Qed.
End invariant.

(** ** Properties *)

(** Work left for the workers. *)
Definition pc_work {C} `{ByteChannel C} (p : wpc) (c : C) : nat :=
  match p with
  | WIdle => match ch_view c with [] => 0 | _ => 2 end
  | WRecv => 1 | WPop _ => 2 | WReg _ => 3 | WDone => 0
  end.
Definition work {Q C} `{FifoQueue Q, ByteChannel C} (w : worker Q C) : nat :=
  2 * length (ch_view (w_chan w)) + 2 * length (fq_view (w_queue w)) + pc_work (w_pc w) (w_chan w).
Definition total_work {Q C} `{FifoQueue Q, ByteChannel C} (s : sys_state Q C) : nat :=
  sum_list_with work (workers s).

Definition worker_action (a : action) : bool :=
  match a with Wake _ | RecvByte _ | TryPop _ | Register _ => true | _ => false end.

Section properties.
Context {Q : Type -> Type} `{FifoQueue Q} {C : Type} `{ByteChannel C}.
Implicit Types (s : sys_state Q C) (w : worker Q C).

Lemma wake_work w w' : wake_step w = Some w' -> (work w' < work w)%nat.
Proof.
  unfold wake_step, work. intros Hs. destruct (w_pc w); simplify_eq.
  destruct (ch_view (w_chan w)) as [|b l] eqn:Hl; simplify_eq/=. rewrite Hl. simpl. lia.
Qed.

Lemma register_work w w' : register_step w = Some w' -> (work w' < work w)%nat.
Proof. unfold register_step, work. intros Hs. repeat case_match; simplify_eq/=. lia. Qed.

Lemma pop_work w w' : pop_step w = Some w' -> (work w' < work w)%nat.
Proof.
  unfold pop_step, work. intros Hs. case_match eqn:Hpc; try done.
  destruct (fq_view (w_queue w)) as [|x xs] eqn:Hv.
  - rewrite (fq_try_pop_nil _ _ _ Hv) in Hs. simplify_eq/=. rewrite Hv. simpl. lia.
  - destruct (fq_try_pop_cons _ _ cq_msg _ _ Hv) as (q' & Heq & Hv'). rewrite Heq in Hs.
    simplify_eq/=. lia.
Qed.

Lemma recv_work w w' : recv_step w = Some w' -> (work w' < work w)%nat.
Proof.
  unfold recv_step, work. intros Hs. case_match eqn:Hpc; try done.
  destruct (ch_view (w_chan w)) as [|b l] eqn:Hl.
  - rewrite (ch_recv_nil _ Hl) in Hs. simplify_eq/=. rewrite Hl. simpl. lia.
  - destruct (ch_recv_cons _ _ _ Hl) as (c' & Heq & Hl'). rewrite Heq in Hs. simplify_eq/=.
    zcase; simpl; [lia|]. zcase; simpl; lia.
Qed.

Lemma with_worker_work i s f s' :
  with_worker i s f = Some s' -> (forall w w', f w = Some w' -> (work w' < work w)%nat) ->
  (total_work s' < total_work s)%nat.
Proof.
  intros (w & w' & Hi & Hf & ->)%with_worker_Some Hlt. apply lookupZ_Some in Hi as [Hpos Hi].
  unfold total_work, insertZ; simpl. rewrite bool_decide_eq_true_2 by done.
  pose proof (sum_list_with_insert work _ _ _ w' Hi). specialize (Hlt _ _ Hf). lia.
Qed.

(** A worker action does some work and leaves the main thread alone. *)
Lemma worker_act_work s a s' :
  act s a = Some s' -> worker_action a = true ->
  (total_work s' < total_work s)%nat /\ main s' = main s /\ accepted s' = accepted s.
Proof.
  intros Ha Hw. destruct a; try done; simpl in Ha;
    (split; [eapply with_worker_work; [done|];
      eauto using wake_work, recv_work, pop_work, register_work|]);
    by apply with_worker_Some in Ha as (w & w' & _ & _ & ->).
Qed.

Lemma worker_run_work l : forall s s',
  run s l = Some s' -> forallb worker_action l = true ->
  (length l + total_work s' <= total_work s)%nat /\ main s' = main s /\ accepted s' = accepted s.
Proof.
  induction l as [|a l IH]; intros s s' Hs Hl; [by simplify_eq/=|].
  simpl in Hl. apply andb_true_iff in Hl as [Ha Hl]. cbn in Hs.
  destruct (act s a) as [s1|] eqn:Hact; simplify_eq/=.
  destruct (worker_act_work _ _ _ Hact Ha) as (? & Hm & Hacc).
  destruct (IH _ _ Hs Hl) as (? & Hm' & Hacc'). rewrite <- Hm, <- Hacc. split; [lia|done].
Qed.

(** A worker with nothing to do is in its event loop with an empty pipe. *)
Lemma stuck_worker s i w :
  lookupZ (workers s) i = Some w -> (forall a, worker_action a = true -> act s a = None) ->
  w_pc w = WDone \/ (w_pc w = WIdle /\ pending w = []).
Proof.
  intros Hi Hstuck.
  assert (Hno : forall f, with_worker i s f = None -> f w = None).
  { intros f Hf. unfold with_worker, mbind, option_bind in Hf. rewrite Hi in Hf. by destruct (f w). }
  pose proof (Hno _ (Hstuck (Wake i) eq_refl)) as Hwake.
  pose proof (Hno _ (Hstuck (RecvByte i) eq_refl)) as Hrecv.
  pose proof (Hno _ (Hstuck (TryPop i) eq_refl)) as Hpop.
  pose proof (Hno _ (Hstuck (Register i) eq_refl)) as Hreg.
  unfold wake_step, recv_step, pop_step, register_step, pending in *.
  destruct (w_pc w) as [| |v|x|]; [| | |done|by left].
  - right. by destruct (ch_view (w_chan w)).
  - by destruct (ch_recv (w_chan w)) as [[]|].
  - by destruct (fq_try_pop (w_queue w) v) as [[]].
Qed.

Lemma idle_worker_served n s i w :
  sys_inv n s -> main s <> MSend -> lookupZ (workers s) i = Some w ->
  w_pc w = WIdle -> pending w = [] ->
  view w = [] /\ w_conns w = assigned n i 0 (accepted s).
Proof.
  intros Hinv Hm Hi Hpc Hp. destruct (si_workers _ _ Hinv _ _ Hi) as [Hc Hn _].
  assert (Hv : view w = []).
  { rewrite Hpc, Hp in Hn. destruct Hn as [?|[?|[Hin|[?|[? _]]]]]; try done.
    by apply elem_of_nil in Hin. }
  split; [done|]. by rewrite Hpc, Hv, app_nil_r in Hc.
Qed.

(** C5. Conservation: at every point of every interleaving, shutdown included,
    the connections worker [i] has registered, the one it holds and those in its
    queue are, in order, exactly the accepted connections number [i], [i + n],
    [i + 2n], ...: none is lost, duplicated or served by two workers. *)
Theorem connections_conserved (cs : list C) s i w :
  cs <> [] -> reachable cs s -> lookupZ (workers s) i = Some w ->
  w_conns w ++ inflight (w_pc w) ++ map fd (view w) =
  assigned (Z.of_nat (length cs)) i 0 (accepted s).
Proof. intros Hne Hr Hi. by eapply wi_conns, si_workers, Hi; apply reachable_inv. Qed.

(** C6. Eventual service: whenever the main thread is back in its event loop, the
    workers can only take finitely many actions, bounded by the work left, and when
    they can take no more every accepted connection has been registered by the
    worker it was assigned to - although the program ignores the failure of the
    send that announces a connection when the pipe is full. *)
Theorem connections_eventually_served (cs : list C) s l s' :
  cs <> [] -> reachable cs s -> main s = MIdle ->
  run s l = Some s' -> forallb worker_action l = true ->
  (length l <= total_work s)%nat /\
  ((forall a, worker_action a = true -> act s' a = None) ->
   forall i w, lookupZ (workers s') i = Some w ->
     view w = [] /\ w_conns w = assigned (Z.of_nat (length cs)) i 0 (accepted s)).
Proof.
  intros Hne Hr Hm Hl Hall. pose proof (reachable_inv _ _ Hne Hr) as Hinv.
  pose proof (run_keeps _ _ _ _ Hinv Hl) as Hinv'.
  destruct (worker_run_work _ _ _ Hl Hall) as (Hlen & Hm' & Hacc). split; [lia|].
  intros Hstuck i w Hi. rewrite <- Hacc. rewrite Hm in Hm'.
  destruct (stuck_worker _ _ _ Hi Hstuck) as [Hd|[Hpc Hp]].
  - exfalso. by destruct (wi_pipe _ _ _ _ _ _ (si_workers _ _ Hinv' _ _ Hi)); rewrite ?Hm'.
  - apply idle_worker_served; [done|by rewrite Hm'|done..].
Qed.
End properties.

(** ** The callback of LibevThreadPool and the two actions of the main thread *)

(** The globals of the program and a state of the system agree. *)
Definition matches {C} (p : pool) (s : sys_state ThreadSafeQueue C) : Prop :=
  comm_queues p = map w_queue (workers s) /\ cur_worker_ind p = cur s.


(** ** A bounded pipe *)

(** A pipe that holds at most [S spare] unread bytes. *)
Record bchan := mkChan { spare : nat; bytes : list Z }.

#[export, program] Instance bchan_channel : ByteChannel bchan := {|
  ch_send c b := if (length (bytes c) <=? spare c)%nat
                 then Some (mkChan (spare c) (bytes c ++ [b])) else None;
  ch_recv c := match bytes c with
               | [] => None
               | b :: l => Some (b, mkChan (spare c) l)
               end;
  ch_view := bytes;
|}.
Next Obligation. intros [n l] b c' Hs. simpl in *. by destruct (_ <=? _)%nat; simplify_eq. Qed.
Next Obligation.
  intros [n l] b Hs Hl. simpl in *. subst. by destruct (Nat.leb_spec 0 n); [|lia].
Qed.
Next Obligation. intros [n l] Hl. simpl in *. by subst. Qed.
Next Obligation. intros [n l] b l' Hl. simpl in *. subst. by eexists. Qed.

Lemma run_app {Q C} `{FifoQueue Q, ByteChannel C} (l1 l2 : list action) (s s1 : sys_state Q C) :
  run s l1 = Some s1 -> run s (l1 ++ l2) = run s1 l2.
Proof.
  revert s. induction l1 as [|a l1 IH]; intros s Hs; [by simplify_eq/=|].
  cbn in *. destruct (act s a); [by apply IH|done].
Qed.

(** ** A lost termination request *)

(** One worker, with [k] items in its queue and the bytes [l] in its pipe. *)
Definition one (spare k : nat) (l : list Z) (p : wpc) (conns : list Z) (m : mpc) (acc : list Z)
  : sys_state ThreadSafeQueue bchan :=
  mkSys [mkWorker (mkTSQ (replicate k (mkItem 5))) (mkChan spare l) p conns] 0 m acc.

Lemma one_with_worker (w w' : worker ThreadSafeQueue bchan) c m acc f :
  f w = Some w' -> with_worker 0 (mkSys [w] c m acc) f = Some (mkSys [w'] c m acc).
Proof. intros Hf. apply with_worker_Some. by exists w, w'. Qed.

Lemma bchan_send n l b :
  default (mkChan n l) (ch_send (mkChan n l) b) =
  mkChan n (if (length l <=? n)%nat then l ++ [b] else l).
Proof. simpl. by destruct (length l <=? n)%nat. Qed.

Lemma one_accept n k l p conns acc :
  (length l <= n)%nat ->
  run (one n k l p conns MIdle acc) [Accept_ 5; Notify] =
  Some (one n (S k) (l ++ [COMM_NEW_CONNECTED]) p conns MIdle (acc ++ [5])).
Proof.
  intros Hl. unfold one. cbn [run act main cur].
  erewrite one_with_worker by reflexivity. cbn [mbind option_bind act main cur workers accepted].
  erewrite one_with_worker by reflexivity. cbn [mbind option_bind w_chan w_queue w_pc w_conns].
  rewrite bchan_send, (proj2 (Nat.leb_le _ _) Hl). cbn. unfold push; cbn.
  by rewrite <- replicate_cons_app.
Qed.

Lemma one_fill n m : (m <= S n)%nat ->
  run (one n 0 [] WIdle [] MIdle []) (concat (replicate m [Accept_ 5; Notify])) =
  Some (one n m (replicate m COMM_NEW_CONNECTED) WIdle [] MIdle (replicate m 5)).
Proof.
  induction m as [|m IH]; intros Hm; [done|].
  rewrite replicate_S_end, concat_app. erewrite run_app; [|apply IH; lia]. cbn [concat app].
  rewrite one_accept by (rewrite length_replicate; lia). by rewrite <- !replicate_S_end.
Qed.

Lemma one_terminate n :
  run (one n (S n) (replicate (S n) COMM_NEW_CONNECTED) WIdle [] MIdle (replicate (S n) 5))
    [SigInt; Terminate; Terminate; Wake 0; RecvByte 0] =
  Some (one n (S n) (replicate n COMM_NEW_CONNECTED) (WPop (mkItem (-1))) [] MExit
    (replicate (S n) 5)).
Proof.
  unfold one. cbn [run act main mbind option_bind]. unfold set_main.
  cbn [main workers cur accepted]. change (0 <? Z.of_nat (length [_])) with true. cbn iota.
  erewrite one_with_worker by reflexivity. cbn [mbind option_bind w_chan w_queue w_pc w_conns].
  rewrite bchan_send, length_replicate.
  destruct (Nat.leb_spec (S n) n); [lia|]. reflexivity.
Qed.

Lemma one_take n k l conns v acc : exists conns' v',
  run (one n k l (WPop v) conns MExit acc) (concat (replicate k [TryPop 0; Register 0])) =
  Some (one n 0 l (WPop v') conns' MExit acc).
Proof.
  revert conns v. induction k as [|k IH]; intros conns v; [by eexists _, _|].
  destruct (IH (conns ++ [5]) (mkItem 5)) as (conns' & v' & Hrun). exists conns', v'. exact Hrun.
Qed.

Lemma one_drain n k conns acc :
  run (one n 0 (replicate k COMM_NEW_CONNECTED) WRecv conns MExit acc)
    (concat (replicate k [RecvByte 0; TryPop 0])) =
  Some (one n 0 [] WRecv conns MExit acc).
Proof. induction k as [|k IH]; [done|exact IH]. Qed.

(** C38. A termination request can be lost: whatever the capacity of the pipe, if
    it is full of notifications when SIGINT arrives, the COMM_TERMINATE byte is
    dropped (the failed send is ignored), and the system reaches a state where the
    main thread has left its loop and the worker waits for ever in its own: no
    action is possible and the final join does not return. *)
Theorem termination_request_lost (n : nat) :
  exists l s w, run (start (Q:=ThreadSafeQueue) [mkChan n []]) l = Some s /\
    main s = MExit /\ lookupZ (workers s) 0 = Some w /\ w_pc w = WIdle /\
    forall a, act s a = None.
Proof.
  destruct (one_take n (S n) (replicate n COMM_NEW_CONNECTED) [] (mkItem (-1)) (replicate (S n) 5))
    as (conns & v & Htake).
  eexists (concat (replicate (S n) [Accept_ 5; Notify]) ++
    [SigInt; Terminate; Terminate; Wake 0; RecvByte 0] ++
    concat (replicate (S n) [TryPop 0; Register 0]) ++
    [TryPop 0] ++ concat (replicate n [RecvByte 0; TryPop 0]) ++ [RecvByte 0]), _, _.
  split.
  - change (start [mkChan n []]) with (one n 0 [] WIdle [] MIdle []).
    erewrite run_app; [|by apply one_fill].
    erewrite run_app.
    2: { by apply one_terminate. }
    erewrite run_app; [|exact Htake].
    erewrite run_app; [|reflexivity].
    erewrite run_app; [|apply one_drain]. reflexivity.
  - split_and!; [done|done|done|]. intros [cfd| | | |i|i|i|i]; try done; simpl;
      unfold with_worker; simpl;
      (destruct (lookupZ _ i) as [w|] eqn:Hi; [|done]; cbn;
       apply lookupZ_Some in Hi as [_ Hi]; destruct (Z.to_nat i) as [|j]; simplify_eq/=; done).
Qed.

(** ** The theorems at concrete inputs *)

(** Two workers; three connections, the third worker action sequence partly done. *)
Definition demo_chans : list bchan := [mkChan 0 []; mkChan 0 []].
Definition demo_dispatch : list action :=
  [Accept_ 5; Notify; Accept_ 6; Notify; Accept_ 7; Notify].
Definition demo_serve : list action :=
  [Wake 0; RecvByte 0; TryPop 0; Register 0; TryPop 0; Register 0; TryPop 0; RecvByte 0;
   Wake 1; RecvByte 1; TryPop 1; Register 1; TryPop 1; RecvByte 1].

Definition demo_state (l : list action) : sys_state ThreadSafeQueue bchan :=
  default (start demo_chans) (run (start demo_chans) l).

Lemma connections_conserved_witness :
  let s := demo_state (demo_dispatch ++ take 3 demo_serve) in
  exists w, lookupZ (workers s) 0 = Some w /\ w_pc w = WReg (mkItem 5) /\
    w_conns w ++ inflight (w_pc w) ++ map fd (view w) = assigned 2 0 0 (accepted s).
Proof.
  intros s. eexists. split; [reflexivity|]. split; [reflexivity|].
  apply (connections_conserved demo_chans s 0 _);
    [done | split; [by repeat constructor|exists (demo_dispatch ++ take 3 demo_serve)] | ];
    vm_compute; reflexivity.
Defined.

Lemma connections_eventually_served_witness :
  (length demo_serve <= total_work (demo_state demo_dispatch))%nat /\
  ((forall a, worker_action a = true -> act (demo_state (demo_dispatch ++ demo_serve)) a = None) ->
   forall i w, lookupZ (workers (demo_state (demo_dispatch ++ demo_serve))) i = Some w ->
     view w = [] /\ w_conns w = assigned 2 i 0 (accepted (demo_state demo_dispatch))).
Proof.
  apply (connections_eventually_served demo_chans (demo_state demo_dispatch) demo_serve
    (demo_state (demo_dispatch ++ demo_serve)));
    [done | split; [by repeat constructor|exists demo_dispatch] | ..];
    vm_compute; reflexivity.
Defined.

