(* ===== verification/PoolShutdown.v ===== *)
(** * The shutdown of the thread pool server

    The system of PoolSystem from the arrival of SIGINT on: the main thread sends
    COMM_TERMINATE to every worker and leaves its loop; a worker leaves its loop when
    it reads that byte.  Every execution in which the threads keep running and no
    termination request is dropped ends with all threads out of their loops - so that
    [pool.join()] returns - and by then each worker has taken over every connection
    it was given: the request is behind the notifications in its pipe. *)

From S2P Require Import Prelude Fairness Sys CLib ThreadSafeQueue LibevThreadPool PoolSystem.

(** The threads, and whether a thread of the server can act by itself. *)
Inductive thread := TMain | TWorker (i : Z).

Definition mine (p : thread) (a : action) : bool :=
  match p, a with
  | TMain, (Notify | Terminate) => true
  | TWorker i, (Wake j | RecvByte j | TryPop j | Register j) => i =? j
  | _, _ => false
  end.

Section shutdown.
Context {Q : Type -> Type} `{FifoQueue Q} {C : Type} `{ByteChannel C}.
Implicit Types (s : sys_state Q C) (w : worker Q C).

Definition worker_ready w : bool :=
  match w_pc w with
  | WIdle => match ch_view (w_chan w) with [] => false | _ => true end
  | WDone => false
  | _ => true
  end.

Definition ready (p : thread) s : bool :=
  match p with
  | TMain => match main s with MSend | MTerm _ => true | _ => false end
  | TWorker i => match lookupZ (workers s) i with Some w => worker_ready w | None => false end
  end.

Definition fair (tr : nat -> sys_state Q C) (lab : nat -> option action) : Prop :=
  forall p, weakly_fair (ready p) (on_action false (mine p)) tr lab.

(** The action is a send of COMM_TERMINATE that finds the pipe full. *)
Definition drops s (a : option action) : bool :=
  match a, main s with
  | Some Terminate, MTerm k =>
      match lookupZ (workers s) k with
      | Some w => match ch_send (w_chan w) COMM_TERMINATE with Some _ => false | None => true end
      | None => false
      end
  | _, _ => false
  end.

(** The server without that action. *)
Definition act_kept s (a : action) : option (sys_state Q C) :=
  if drops s (Some a) then None else act s a.

(** Fairness speaks of threads that can act. *)
Lemma with_worker_is_Some i s (f : worker Q C -> option (worker Q C)) :
  is_Some (with_worker i s f) <-> exists w, lookupZ (workers s) i = Some w /\ is_Some (f w).
Proof.
  split.
  - intros [s' (w & w' & Hi & Hf & _)%with_worker_Some]. exists w. split; [done|by eexists].
  - intros (w & Hi & [w' Hf]). eexists. apply with_worker_Some. eauto.
Qed.

Lemma worker_ready_act s i : ready (TWorker i) s = true <->
  exists a, mine (TWorker i) a = true /\ is_Some (act s a).
Proof.
  cbn [ready]. split.
  - destruct (lookupZ (workers s) i) as [w|] eqn:Hi; [|done]. intros Hw.
    assert (Hgen : forall f a, (forall s, act s a = with_worker i s f) -> mine (TWorker i) a = true ->
      is_Some (f w) -> exists a, mine (TWorker i) a = true /\ is_Some (act s a)).
    { intros f a Ha Hm Hf. exists a. split; [done|]. rewrite Ha. apply with_worker_is_Some. eauto. }
    unfold worker_ready in Hw. destruct (w_pc w) as [| |v|x|] eqn:Hpc; [| | | |done].
    + destruct (ch_view (w_chan w)) as [|b l] eqn:Hl; [done|].
      apply (Hgen wake_step (Wake i)); [done|apply Z.eqb_refl|]. unfold wake_step. rewrite Hpc, Hl. by eexists.
    + apply (Hgen recv_step (RecvByte i)); [done|apply Z.eqb_refl|]. unfold recv_step. rewrite Hpc.
      destruct (ch_recv (w_chan w)) as [[]|]; by eexists.
    + apply (Hgen pop_step (TryPop i)); [done|apply Z.eqb_refl|]. unfold pop_step. rewrite Hpc.
      destruct (fq_try_pop _ _) as [[]]; by eexists.
    + apply (Hgen register_step (Register i)); [done|apply Z.eqb_refl|]. unfold register_step. rewrite Hpc. by eexists.
  - intros (a & Hm & Ha). destruct a as [| | | |j|j|j|j]; try done; apply Z.eqb_eq in Hm; subst j;
      cbn [act] in Ha; apply with_worker_is_Some in Ha as (w & -> & [w' Hf]); revert Hf;
      unfold worker_ready, wake_step, recv_step, pop_step, register_step;
      destruct (w_pc w); try done. by destruct (ch_view (w_chan w)).
Qed.

(** ** The requests come last *)

(** Notifications, then requests to terminate. *)
Definition staged (l : list Z) : Prop :=
  exists p q, l = p ++ q /\ Forall (eq COMM_NEW_CONNECTED) p /\ Forall (eq COMM_TERMINATE) q.

(** What is in the pipe of a worker is staged; a worker that is done has an empty
    queue. *)
Record orderly w : Prop := {
  or_pipe : staged (pending w);
  or_done : w_pc w = WDone -> view w = [];
}.

Definition all_orderly s : Prop := forall i w, lookupZ (workers s) i = Some w -> orderly w.

Lemma all_orderly_worker i s f s' :
  all_orderly s -> with_worker i s f = Some s' ->
  (forall w w', lookupZ (workers s) i = Some w -> f w = Some w' -> orderly w -> orderly w') -> all_orderly s'.
Proof.
  intros Hall (w & w' & Hi & Hf & ->)%with_worker_Some Hkeep j wj. simpl.
  intros [[-> ->]|[_ Hj]]%lookupZ_insertZ_Some; eauto.
Qed.

(** The next byte is a notification, or there are no notifications any more. *)
Lemma staged_cons b l : staged (b :: l) ->
  staged l /\ (b = COMM_NEW_CONNECTED \/ b = COMM_TERMINATE /\ Forall (eq COMM_TERMINATE) l).
Proof.
  intros ([|x p] & q & Heq & Hp & Hq); simplify_eq/=.
  - inversion Hq; subst. split; [by exists [], l|by right].
  - inversion Hp; subst. split; [by exists p, q|by left].
Qed.

Lemma staged_terminate l l' : staged l -> Forall (eq COMM_TERMINATE) l' -> staged (l ++ l').
Proof.
  intros (p & q & -> & Hp & Hq) Hl. exists p, (q ++ l'). rewrite app_assoc.
  split_and!; [done|done|by apply Forall_app].
Qed.

Lemma recv_orderly n c m acc i w w' :
  worker_inv n c m acc i w -> recv_step w = Some w' -> orderly w -> orderly w'.
Proof.
  intros [_ Hn Hp] Hs [Hpipe Hd]. unfold recv_step in Hs. case_match eqn:Hpc; try done.
  unfold view, pending in *. destruct (ch_view (w_chan w)) as [|b l] eqn:Hl.
  - rewrite (ch_recv_nil _ Hl) in Hs. simplify_eq/=. split; unfold pending, view; simpl; [by rewrite Hl|done].
  - destruct (ch_recv_cons _ _ _ Hl) as (c' & Heq & Hl'). rewrite Heq in Hs.
    destruct (staged_cons _ _ Hpipe) as [Hst [->|[-> Hterm]]]; simplify_eq/=;
      split; unfold pending, view; simpl; rewrite ?Hl'; [done|done|done|].
    intros _. destruct Hn as [?|[?|[Hin|[?|[Hm _]]]]]; try done.
    + apply elem_of_cons in Hin as [?|Hin]; [done|]. rewrite Forall_forall in Hterm. by specialize (Hterm _ Hin).
    + rewrite Hm in Hp. destruct (Hp eq_refl) as [Hall _]. by inversion Hall.
Qed.

(** The other steps of a worker neither touch the pipe nor end it. *)
Lemma pc_orderly w w' :
  pending w' = pending w -> w_pc w' <> WDone -> orderly w -> orderly w'.
Proof. intros Hp Hpc [? ?]. split; [by rewrite Hp|done]. Qed.

Lemma wake_orderly w w' : wake_step w = Some w' -> orderly w -> orderly w'.
Proof. unfold wake_step. intros Hs. repeat case_match; simplify_eq. by apply pc_orderly. Qed.

Lemma pop_orderly w w' : pop_step w = Some w' -> orderly w -> orderly w'.
Proof.
  unfold pop_step. intros Hs. case_match; simplify_eq. destruct (fq_try_pop _ _) as [[b x] q].
  simplify_eq. apply pc_orderly; [done|]. by destruct b.
Qed.

Lemma register_orderly w w' : register_step w = Some w' -> orderly w -> orderly w'.
Proof. unfold register_step. intros Hs. case_match; simplify_eq. by apply pc_orderly. Qed.

Lemma main_orderly n s i w : sys_inv n s -> dispatching (main s) = true ->
  lookupZ (workers s) i = Some w -> Forall (eq COMM_NEW_CONNECTED) (pending w) /\ w_pc w <> WDone.
Proof. intros Hinv Hm Hi. by apply (wi_pipe _ _ _ _ _ _ (si_workers _ _ Hinv _ _ Hi)). Qed.

Lemma act_orderly n s a s' : sys_inv n s -> all_orderly s -> act s a = Some s' -> all_orderly s'.
Proof.
  intros Hinv Hall Hs. destruct a as [cfd| | | |i|i|i|i]; simpl in Hs;
    [| | | |eapply all_orderly_worker; [done..|]; intros w w' Hi Hf..].
  - destruct (main s) eqn:Hm; try done. unfold mbind, option_bind in Hs. case_match eqn:Hww; [|done].
    injection Hs as <-. apply (all_orderly_worker _ _ _ _ Hall Hww). intros w w' Hi [= <-] [Hpipe Hd].
    split; [done|]. simpl. intros Hdone. by destruct (main_orderly _ _ _ _ Hinv ltac:(by rewrite Hm) Hi).
  - destruct (main s) eqn:Hm; try done. unfold mbind, option_bind in Hs. case_match eqn:Hww; [|done].
    injection Hs as <-. apply (all_orderly_worker _ _ _ _ Hall Hww). intros w w' Hi [= <-] [Hpipe Hd].
    destruct (main_orderly _ _ _ _ Hinv ltac:(by rewrite Hm) Hi) as [Hnew _]. split; [|done].
    destruct (send_view COMM_NEW_CONNECTED (w_chan w)) as (l & Hl & Hcase). unfold pending in *. simpl.
    rewrite Hl. exists (ch_view (w_chan w) ++ l), []. split_and!; [by rewrite app_nil_r| |done].
    apply Forall_app. split; [done|]. destruct Hcase as [->|[-> _]]; by repeat constructor.
  - destruct (main s); simplify_eq. done.
  - destruct (main s) as [| |k|] eqn:Hm; try done. case_match; [|by simplify_eq].
    unfold mbind, option_bind in Hs. case_match eqn:Hww; [|done].
    injection Hs as <-. apply (all_orderly_worker _ _ _ _ Hall Hww). intros w w' Hi [= <-] [Hpipe Hd].
    split; [|done]. destruct (send_view COMM_TERMINATE (w_chan w)) as (l & Hl & Hcase).
    unfold pending in *. simpl. rewrite Hl. apply staged_terminate; [done|].
    destruct Hcase as [->|[-> _]]; by repeat constructor.
  - by eapply wake_orderly.
  - eapply recv_orderly; [by eapply si_workers|done].
  - by eapply pop_orderly.
  - by eapply register_orderly.
Qed.

Lemma reachable_orderly cs s : cs <> [] -> reachable cs s ->
  sys_inv (Z.of_nat (length cs)) s /\ all_orderly s.
Proof.
  intros Hne [Hall [l Hl]]. assert (Hs : sys_inv (Z.of_nat (length cs)) (start (Q:=Q) cs)) by by apply start_inv.
  assert (Ho : all_orderly (start (Q:=Q) cs)).
  { intros i w [_ Hw]%lookupZ_Some. apply list_lookup_fmap_Some in Hw as (c & -> & Hc).
    eapply Forall_lookup in Hall; [|done]. simpl in Hall. split; [|done]. exists [], [].
    unfold pending. simpl. by rewrite Hall. }
  revert Hs Ho Hl. generalize (start (Q:=Q) cs).
  induction l as [|a l IH]; intros s1 Hs Ho Hl; [by simplify_eq/=|].
  cbn in Hl. destruct (act s1 a) as [s2|] eqn:Ha; simplify_eq/=.
  eapply IH; [by eapply act_keeps|by eapply act_orderly|done].
Qed.

(** A worker that is done has taken over all its connections. *)
Lemma done_worker_served cs s i w : cs <> [] -> reachable cs s -> lookupZ (workers s) i = Some w ->
  w_pc w = WDone -> view w = [] /\ w_conns w = assigned (Z.of_nat (length cs)) i 0 (accepted s).
Proof.
  intros Hne Hr Hi Hpc. destruct (reachable_orderly _ _ Hne Hr) as [Hinv Hall].
  pose proof (or_done _ (Hall _ _ Hi) Hpc) as Hv. split; [done|].
  pose proof (wi_conns _ _ _ _ _ _ (si_workers _ _ Hinv _ _ Hi)) as Hc.
  by rewrite Hpc, Hv, app_nil_r in Hc.
Qed.

(** ** The way to the end *)

Definition requested (m : mpc) (i : Z) : bool :=
  match m with MTerm k => i <? k | MExit => true | _ => false end.
Definition stopping (m : mpc) : Prop := match m with MTerm k => 0 <= k | MExit => True | _ => False end.

(** The main thread is on its way out; a worker that was sent its request has it in
    its pipe or has followed it. *)
Record closing s : Prop := {
  cl_main : stopping (main s);
  cl_request : forall i w, lookupZ (workers s) i = Some w -> requested (main s) i = true ->
    w_pc w = WDone \/ COMM_TERMINATE ∈ pending w;
}.

(** The goal: no thread is in its loop any more. *)
Definition is_done w : bool := match w_pc w with WDone => true | _ => false end.
Definition finished s : bool := match main s with MExit => forallb is_done (workers s) | _ => false end.

(** What is left: sends of the main thread, then work of the workers. *)
Definition sends_left s : nat :=
  match main s with MTerm k => S (Z.to_nat (Z.of_nat (length (workers s)) - k)) | _ => 0%nat end.
Definition left_over s : nat * nat := (sends_left s, total_work s).

(** Who is to act: the main thread, and then the first worker that can. *)
Definition mover s : thread :=
  match main s with
  | MExit => match list_find (fun w => worker_ready w = true) (workers s) with
             | Some (i, _) => TWorker (Z.of_nat i)
             | None => TMain
             end
  | _ => TMain
  end.

Lemma mover_ready s : closing s -> finished s <> true -> ready (mover s) s = true.
Proof.
  intros [Hst Hreq] Hng. unfold mover, finished in *.
  destruct (main s) as [| |k|] eqn:Hm; [done..|by cbn; rewrite Hm|].
  destruct (list_find _ (workers s)) as [[i w]|] eqn:Hf; cbn [ready].
  - apply list_find_Some in Hf as (Hi & Hw & _).
    by rewrite lookupZ_of_nat, Hi.
  - exfalso. apply Hng. apply forallb_forall. intros w Hin%list_elem_of_In.
    apply list_find_None in Hf. rewrite Forall_forall in Hf. specialize (Hf _ Hin).
    apply list_elem_of_lookup in Hin as [i Hi].
    unfold is_done. destruct (Hreq _ _ (eq_trans (lookupZ_of_nat _ _) Hi) eq_refl) as [->|Hin]; [done|].
    unfold worker_ready, pending in *. destruct (w_pc w); try done.
    destruct (ch_view (w_chan w)); [by apply elem_of_nil in Hin|done].
Qed.

(** A worker's step keeps the request. *)
Lemma step_request w w' :
  wake_step w = Some w' \/ recv_step w = Some w' \/ pop_step w = Some w' \/ register_step w = Some w' ->
  w_pc w = WDone \/ COMM_TERMINATE ∈ pending w -> w_pc w' = WDone \/ COMM_TERMINATE ∈ pending w'.
Proof.
  unfold wake_step, recv_step, pop_step, register_step, pending.
  intros Hs [Hd|Hin]; [rewrite Hd in Hs; by destruct Hs as [?|[?|[?|?]]]|].
  destruct (w_pc w) as [| |v|x|]; destruct Hs as [Hs|[Hs|[Hs|Hs]]]; try done.
  - destruct (ch_view (w_chan w)) eqn:Hl; simplify_eq/=. rewrite Hl. by right.
  - destruct (ch_view (w_chan w)) as [|b l] eqn:Hl; [by apply elem_of_nil in Hin|].
    destruct (ch_recv_cons _ _ _ Hl) as (c' & Heq & Hl'). rewrite Heq in Hs.
    injection Hs as <-. simpl. rewrite Hl'.
    apply elem_of_cons in Hin as [<-|Hin]; [by left|by right].
  - destruct (fq_try_pop _ _) as [[]]. simplify_eq/=. auto.
  - simplify_eq/=. auto.
Qed.

Lemma worker_closing i s f s' : closing s -> with_worker i s f = Some s' ->
  (forall w w', f w = Some w' ->
    wake_step w = Some w' \/ recv_step w = Some w' \/ pop_step w = Some w' \/ register_step w = Some w') ->
  closing s'.
Proof.
  intros [Hst Hreq] (w & w' & Hi & Hf & ->)%with_worker_Some Hstep. split; [done|]. simpl.
  intros j wj [[-> ->]|[_ Hj]]%lookupZ_insertZ_Some Hr; [|by eauto|by eexists].
  eapply step_request; [by apply Hstep|by eapply Hreq].
Qed.

Lemma act_closing s a s' : closing s -> act_kept s a = Some s' -> closing s'.
Proof.
  unfold act_kept. intros Hcl Hs. destruct (drops s (Some a)) eqn:Hdr; [done|].
  pose proof Hcl as [Hst Hreq]. destruct a; simpl in Hs; [| | | |eapply worker_closing; eauto..];
    destruct (main s) as [| |k|] eqn:Hm; try done.
  destruct (Z.ltb_spec k (Z.of_nat (length (workers s)))) as [Hlt|Hge].
  - unfold mbind, option_bind in Hs. case_match eqn:Hww; [|done]. injection Hs as <-.
    apply with_worker_Some in Hww as (w & w' & Hi & [= <-] & ->). simpl in Hdr. rewrite Hm, Hi in Hdr.
    destruct (ch_send (w_chan w) COMM_TERMINATE) as [c'|] eqn:Hsend; [|done].
    split; simpl in *; [lia|]. intros j wj Hj Hr.
    apply lookupZ_insertZ_Some in Hj as [[-> ->]|[Hne Hj]]; [| |by eexists].
    + right. unfold pending. simpl. rewrite (ch_send_Some _ _ _ Hsend), elem_of_app.
      right. by apply list_elem_of_singleton.
    + eapply Hreq; [done|]. lia.
  - simplify_eq. split; [done|]. simpl. intros j wj Hj _. eapply Hreq; [done|]. simpl.
    apply lookupZ_Some in Hj as [Hpos Hj%lookup_lt_Some]. lia.
Qed.

Lemma act_length s a s' : act s a = Some s' -> length (workers s') = length (workers s).
Proof.
  intros Hs. assert (Hww : forall i f s', with_worker i s f = Some s' -> length (workers s') = length (workers s)).
  { intros i f s2 (w & w' & _ & _ & ->)%with_worker_Some. simpl. by rewrite length_insertZ. }
  destruct a; simpl in Hs; try by eapply Hww.
  all: destruct (main s); try done; unfold mbind, option_bind in Hs; repeat case_match; simplify_eq/=; eauto.
Qed.

(** Every action brings the end nearer. *)
Lemma act_left_over s a s' : closing s -> act s a = Some s' ->
  lex2 Nat.lt Nat.lt (left_over s') (left_over s).
Proof.
  intros [Hst _] Hs. apply lex2_intro. pose proof (act_length _ _ _ Hs) as Hlen.
  destruct (worker_action a) eqn:Hw.
  - right. destruct (worker_act_work _ _ _ Hs Hw) as (Hlt & Hm & _). split; [|done].
    unfold sends_left. by rewrite Hm, Hlen.
  - left. unfold sends_left in *. destruct a; try done; simpl in Hs; destruct (main s) as [| |k|] eqn:Hm; try done.
    simpl in Hst. destruct (Z.ltb_spec k (Z.of_nat (length (workers s)))).
    + unfold mbind, option_bind in Hs. case_match; simplify_eq/=. lia.
    + simplify_eq/=. lia.
Qed.

Lemma reachable_act (cs : list C) s a s' : reachable cs s -> act s a = Some s' -> reachable cs s'.
Proof.
  intros [Hcs [l Hl]] Ha. split; [done|]. exists (l ++ [a]). rewrite (run_app _ _ _ _ Hl). cbn. by rewrite Ha.
Qed.

(** C7. The shutdown completes.  Take any fair execution of the main thread and the
    workers, and SIGINT at some time [t0] of it.  If from then on no COMM_TERMINATE
    finds the pipe of its worker full, all threads leave their loops, so that
    [pool.join()] returns; and by then each worker has emptied its queue and taken
    over every connection it was given, in order - none is left behind. *)
Theorem thread_pool_shutdown_completes (cs : list C) tr lab t0 :
  infinite_run (stutter act) tr lab -> fair tr lab -> cs <> [] -> reachable cs (tr t0) ->
  lab t0 = Some SigInt -> (forall t, (t0 <= t)%nat -> drops (tr t) (lab t) = false) ->
  exists t, (t0 <= t)%nat /\ main (tr t) = MExit /\
    forall i w, lookupZ (workers (tr t)) i = Some w -> w_pc w = WDone /\ view w = [] /\
      w_conns w = assigned (Z.of_nat (length cs)) i 0 (accepted (tr t)).
Proof.
  intros Hrun Hfair Hne Hreach Hsig Hdr.
  set (tr' := fun t => tr (S t0 + t)%nat). set (lab' := fun t => lab (S t0 + t)%nat).
  assert (Hrun' : infinite_run (stutter act_kept) tr' lab').
  { intros t. pose proof (run_shift _ _ _ (S t0) Hrun t : stutter act (tr' t) (lab' t) = Some (tr' (S t))) as <-.
    specialize (Hdr (S t0 + t)%nat ltac:(lia)). fold (tr' t) (lab' t) in Hdr.
    destruct (lab' t); [|done]. cbn [stutter]. unfold act_kept. by rewrite Hdr. }
  assert (Hcl : closing (tr' 0%nat)).
  { pose proof (Hrun t0) as Hs. rewrite Hsig in Hs. unfold tr'. rewrite Nat.add_0_r. simpl in Hs.
    destruct (main (tr t0)); simplify_eq. rewrite <- Hs. split; simpl; [done|].
    intros i w [Hi _]%lookupZ_Some Hr. lia. }
  pose proof (stutter_invariant act_kept (fun _ => true) closing tr' lab' 0 Hrun') as Hinv.
  destruct (stutter_leads_to act_kept mine ready mover (lex2 Nat.lt Nat.lt) left_over (fun _ => true)
    closing (fun s => finished s = true) tr' lab' 0) as (t & _ & Hfin).
  - apply lex2_wf; apply lt_wf.
  - split; [apply mover_ready|]. intros s a s' Hc _ _ Hs. right; left.
    unfold act_kept in Hs. case_match; [done|]. by apply act_left_over with a.
  - done.
  - intros t _. by destruct (lab' t).
  - intros t _. apply Hinv; [|intros s a s' Hc _ Hs; by eapply act_closing|done|lia].
    intros t' _. by destruct (lab' t').
  - intros p. by apply (fair_shift _ _ tr lab (S t0)).
  - exists (S t0 + t)%nat. split; [lia|]. fold (tr' t). unfold finished in Hfin.
    assert (Hr : reachable cs (tr' t)).
    { apply (stutter_invariant act (fun _ => true) (reachable cs) tr lab t0 Hrun);
        [|intros s a s' Hs _ Ha; by eapply reachable_act|done|lia].
      intros t' _. by destruct (lab t'). }
    destruct (main (tr' t)); try done. split; [done|]. intros i w Hi.
    assert (Hd : w_pc w = WDone).
    { rewrite forallb_forall in Hfin. apply lookupZ_Some in Hi as [_ Hi].
      specialize (Hfin w ltac:(by eapply list_elem_of_In, list_elem_of_lookup_2)).
      unfold is_done in Hfin. by destruct (w_pc w). }
    split; [done|]. by apply done_worker_served.
Qed.
End shutdown.

(** ** The theorem at a concrete input *)

(** Two workers and two connections; SIGINT arrives before either worker has looked
    into its pipe, and the requests end up behind the notifications. *)
Definition demo_cs : list bchan := [mkChan 3 []; mkChan 3 []].
Definition demo_run : list action :=
  [Accept_ 5; Notify; Accept_ 6; Notify; SigInt; Terminate; Terminate; Terminate;
   Wake 0; RecvByte 0; TryPop 0; Register 0; TryPop 0; RecvByte 0;
   Wake 1; RecvByte 1; TryPop 1; Register 1; TryPop 1; RecvByte 1].
Definition demo_end : sys_state ThreadSafeQueue bchan :=
  default (start demo_cs) (run (start demo_cs) demo_run).
Definition demo_at : nat -> sys_state ThreadSafeQueue bchan :=
  lasso_state (stutter act) (start demo_cs) demo_end (map Some demo_run) [None].
Definition demo_lab : nat -> option action := lasso_lab None (map Some demo_run) [None].

Lemma pool_demo_fair : fair demo_at demo_lab.
Proof.
  intros p. apply (lasso_fair _ _ _ _ _ _ _ _ 0); [simpl; lia|]. right.
  assert (Hend : main demo_end = MExit /\ Forall (fun w => worker_ready w = false) (workers demo_end)).
  { split; [vm_compute; reflexivity|]. repeat (constructor; [vm_compute; reflexivity|]). constructor. }
  cbn [take exec from_option]. destruct Hend as [Hm Hw]. destruct p as [|i]; cbn [ready]; unfold id.
  - by rewrite Hm.
  - destruct (lookupZ _ i) as [w|] eqn:Hi; [|done]. apply lookupZ_Some in Hi as [_ Hi].
    exact (Forall_lookup_1 _ _ _ _ Hw Hi).
Qed.

Lemma thread_pool_shutdown_completes_witness :
  exists t, (4 <= t)%nat /\ main (demo_at t) = MExit /\
    forall i w, lookupZ (workers (demo_at t)) i = Some w -> w_pc w = WDone /\ view w = [] /\
      w_conns w = assigned 2 i 0 (accepted (demo_at t)).
Proof.
  apply (thread_pool_shutdown_completes demo_cs demo_at demo_lab 4).
  - apply lasso_run; [done|vm_compute; reflexivity..].
  - apply pool_demo_fair.
  - done.
  - split; [by repeat constructor|]. exists (take 4 demo_run). vm_compute. reflexivity.
  - vm_compute. reflexivity.
  - intros t Ht. destruct (decide (t < 20)%nat) as [Hlt|Hge].
    + assert (Hall : forallb (fun t => negb (drops (demo_at t) (demo_lab t))) (seq 0 20) = true)
        by (vm_compute; reflexivity).
      rewrite forallb_forall in Hall. apply negb_true_iff, Hall, in_seq. lia.
    + assert (Hlab : demo_lab t = None).
      { unfold demo_lab, lasso_lab. rewrite (proj2 (Nat.ltb_ge _ _)) by (simpl; lia).
        cbn [length]. by rewrite Nat.mod_1_r. }
      by rewrite Hlab.
Defined.
