(* ===== verification/PoolRefine.v ===== *)
(** * The callbacks of the thread pool server are the actions of its threads

    PoolSystem shows it of [conn_listener_cb].  Here it is shown of [main_msg_cb],
    whose run is a sequence of actions of its worker that the bytes in the pipe and
    the connections in the queue determine, and of [signal_event_cb]. *)

From S2P Require Import Prelude Sys CLib ThreadSafeQueue LibevThreadPool PoolSystem PoolShutdown.

Section refine.
Context {C : Type} `{ByteChannel C}.
Implicit Types (s : sys_state ThreadSafeQueue C) (wk : worker ThreadSafeQueue C).

(** The system with worker [i] replaced. *)
Definition with_at (i : Z) wk s : sys_state ThreadSafeQueue C :=
  mkSys (insertZ i wk (workers s)) (cur s) (main s) (accepted s).

Definition in_range (i : Z) s : Prop := 0 <= i < Z.of_nat (length (workers s)).

Lemma with_at_step i s wk wk' (f : worker ThreadSafeQueue C -> option (worker ThreadSafeQueue C)) :
  in_range i s -> f wk = Some wk' -> with_worker i (with_at i wk s) f = Some (with_at i wk' s).
Proof.
  intros Hi Hf. apply with_worker_Some. exists wk, wk'. split_and!; [by apply lookupZ_insertZ_eq|done|].
  unfold with_at. simpl. f_equal. unfold insertZ. case_bool_decide; [|done]. by rewrite list_insert_insert_eq.
Qed.

Lemma with_at_id i s wk : lookupZ (workers s) i = Some wk -> with_at i wk s = s.
Proof.
  intros [Hpos Hi]%lookupZ_Some. unfold with_at, insertZ. rewrite bool_decide_eq_true_2 by done.
  rewrite list_insert_id by done. by destruct s.
Qed.

(** Emptying the queue: what [take_connections] does, as actions. *)
Definition take_actions (i : Z) (items : list CommQueueItem) : list action :=
  concat (map (fun _ => [TryPop i; Register i]) items) ++ [TryPop i].

Lemma take_run i s items : forall v c conns, in_range i s ->
  run (with_at i (mkWorker (mkTSQ items) c (WPop v) conns) s) (take_actions i items) =
  Some (with_at i (mkWorker (mkTSQ []) c WRecv (conns ++ map fd items)) s).
Proof.
  unfold take_actions. induction items as [|it items IH]; intros v c conns Hi; cbn [map concat app run act].
  - erewrite with_at_step by done. cbn. by rewrite app_nil_r.
  - erewrite with_at_step by done. cbn [mbind option_bind run act].
    erewrite with_at_step by done. cbn [mbind option_bind].
    rewrite IH by done. simpl. by rewrite <- app_assoc.
Qed.

(** ** One run of main_msg_cb *)

Section main_msg.
Context `{Env} (Hret : returns) (mfd : Z) (l : list Z) (ctx : CommContex).
#[local] Set Default Proof Using "Type*".

(** The pipe holds the bytes [l], and no more come while the callback runs. *)
Definition pipe_holds : Prop := forall h, env h (Recv mfd 1 0) =
  Some (match l !! length (received mfd h) with Some b => ret_data [b] | None => ret_err EAGAIN end).
Context (Hpipe : pipe_holds).

Lemma main_msg_turn_pipe items w : worker_has ctx items (w_st w) ->
  wp (main_msg_turn mfd ctx tt) (fun x w' => exists L, w_log w' = w_log w ++ L /\
    match l !! length (received mfd (w_log w)) with
    | Some b => received mfd L = [b] /\
        if b =? COMM_NEW_CONNECTED
        then x = Ok (inl tt) /\ delivered L = items /\
             w_st w' = set_queue (worker_id ctx) (mkTSQ []) (w_st w)
        else x = Ok (if b =? COMM_TERMINATE then inr tt else inl tt) /\ delivered L = [] /\ w_st w' = w_st w
    | None => received mfd L = [] /\ x = Ok (inr tt) /\ delivered L = [] /\ w_st w' = w_st w
    end) w.
Proof.
  intros Hhas. unfold main_msg_turn. wp_step. apply wp_sys; [rewrite Hpipe; done|].
  intros r Hr. rewrite Hpipe in Hr. injection Hr as <-. cbn [bind_post].
  destruct (l !! _) as [b|] eqn:Hb.
  - change (wrap_s 32 (r_ret (ret_data [b]))) with 1. cbn [Z.ltb Z.compare r_data ret_data].
    assert (Hrcv : received mfd [(Recv mfd 1 0, ret_data [b])] = [b]) by (cbn; by rewrite Z.eqb_refl).
    destruct (Z.eqb_spec b COMM_NEW_CONNECTED) as [->|Hnew].
    + apply wp_bind, (take_connections_wp _ items); [done|done|].
      intros w' L HL Hst Hlog _; simpl in Hst, Hlog. apply wp_ret. eexists. split; [by rewrite Hlog, <- app_assoc|].
      rewrite received_app, Hrcv, (reg_events_received _ _ _ _ HL). split_and!; [done|done| |done].
      apply (reg_events_delivered _ _ _ HL).
    + destruct (b =? COMM_TERMINATE); wp_steps_ret Hret; eexists;
        (split; [simpl; by rewrite <- ?app_assoc|]); (split_and!; [|done..]).
      * by rewrite received_app, Hrcv.
      * done.
  - change (wrap_s 32 (r_ret (ret_err EAGAIN))) with (-1). cbn [Z.ltb Z.compare].
    wp_steps_ret Hret. eexists. split; [done|]. split_and!; [|done..]. cbn. by rewrite Z.eqb_refl.
Qed.

Lemma matches_with_at p s i wk wk' q :
  matches p (with_at i wk s) -> in_range i s -> w_queue wk' = q ->
  matches (set_queue i q p) (with_at i wk' s).
Proof.
  intros [Hq Hc] Hi <-. split; [|done]. simpl in *. rewrite Hq. unfold insertZ.
  rewrite bool_decide_eq_true_2 by (destruct Hi; lia).
  by rewrite <- list_fmap_insert, list_insert_insert_eq.
Qed.

Lemma matches_has p s wk : matches p (with_at (worker_id ctx) wk s) -> in_range (worker_id ctx) s ->
  worker_has ctx (view wk) p.
Proof.
  intros [Hq _] Hi. unfold worker_has, view. rewrite Hq. simpl. unfold insertZ.
  rewrite bool_decide_eq_true_2 by (destruct Hi; lia). rewrite list_fmap_insert.
  apply lookupZ_Some. split; [destruct Hi; lia|]. cbn. destruct (w_queue wk) as [q]. cbn.
  apply list_lookup_insert_eq. rewrite length_map. destruct Hi. lia.
Qed.

(** The same queue under another position, pipe or set of connections. *)
Lemma matches_same p s i wk wk' : matches p (with_at i wk s) -> w_queue wk' = w_queue wk ->
  matches p (with_at i wk' s).
Proof.
  intros [Hq Hc] Hw. split; [|done]. rewrite Hq. simpl. unfold insertZ. case_bool_decide; [|done].
  by rewrite !list_fmap_insert, Hw.
Qed.

Lemma mine_all i acts : (forall a, a ∈ acts -> mine (TWorker i) a = true) ->
  forallb (mine (TWorker i)) acts = true.
Proof. intros Hall. apply forallb_forall. intros a Ha. apply Hall. by apply list_elem_of_In. Qed.

Lemma take_actions_mine i items : forallb (mine (TWorker i)) (take_actions i items) = true.
Proof.
  unfold take_actions. rewrite forallb_app. apply andb_true_iff. split; [|cbn; by rewrite Z.eqb_refl].
  induction items as [|it items IH]; [done|]. cbn. by rewrite Z.eqb_refl.
Qed.

(** From [w] to [w'] the code has done what the actions [acts] of its worker do. *)
Record refines (w w' : world pool) s (wk wk' : worker ThreadSafeQueue C) (acts : list action) : Prop := {
  rf_run : run (with_at (worker_id ctx) wk s) acts = Some (with_at (worker_id ctx) wk' s);
  rf_mine : forallb (mine (TWorker (worker_id ctx))) acts = true;
  rf_matches : matches (w_st w') (with_at (worker_id ctx) wk' s);
  rf_log : exists L, w_log w' = w_log w ++ L /\ w_conns wk' = w_conns wk ++ map fd (delivered L) /\
    pending wk = received mfd L ++ pending wk';
}.

Lemma refines_trans w w1 w2 s wk wk1 wk2 acts1 acts2 :
  refines w w1 s wk wk1 acts1 -> refines w1 w2 s wk1 wk2 acts2 -> refines w w2 s wk wk2 (acts1 ++ acts2).
Proof.
  intros [Hr1 Hm1 _ (L1 & Hl1 & Hc1 & Hp1)] [Hr2 Hm2 Hma (L2 & Hl2 & Hc2 & Hp2)]. split.
  - by rewrite (run_app _ _ _ _ Hr1).
  - by rewrite forallb_app, Hm1, Hm2.
  - done.
  - exists (L1 ++ L2). rewrite Hl2, Hl1, Hc2, Hc1, Hp1, Hp2, delivered_app, received_app, map_app, <- !app_assoc. done.
Qed.

(** One turn, with the position of the worker after it. *)
Lemma main_msg_turn_refines (w : world pool) s wk :
  matches (w_st w) (with_at (worker_id ctx) wk s) -> in_range (worker_id ctx) s ->
  w_pc wk = WRecv -> pending wk = drop (length (received mfd (w_log w))) l ->
  wp (main_msg_turn mfd ctx tt) (fun x w' => exists wk' acts, refines w w' s wk wk' acts /\
    pending wk' = drop (length (received mfd (w_log w'))) l /\
    match x with
    | Ok (inl _) => w_pc wk' = WRecv /\ (length (pending wk') < length (pending wk))%nat
    | Ok (inr _) => w_pc wk' = WIdle /\ pending wk' = [] \/ w_pc wk' = WDone
    | Stop _ => False
    end) w.
Proof.
  intros Hm Hi Hpc Hp. eapply wp_mono; [by apply main_msg_turn_pipe, (matches_has _ s wk)|].
  intros x w1 (L & Hlog & Hx). rewrite <- (Nat.add_0_r (length _)), <- lookup_drop, <- Hp in Hx.
  assert (Hp1 : drop (length (received mfd (w_log w1))) l = drop (length (received mfd L)) (pending wk)).
  { by rewrite Hlog, received_app, length_app, Hp, drop_drop. }
  rewrite Hp1. unfold pending in *. destruct (ch_view (w_chan wk)) as [|b bs] eqn:Hv; cbn [lookup list_lookup] in Hx.
  - destruct Hx as (Hr & -> & Hd & Hst). rewrite Hr. cbn [length drop].
    assert (Hf : recv_step wk = Some (mkWorker (w_queue wk) (w_chan wk) WIdle (w_conns wk))).
    { unfold recv_step. by rewrite Hpc, (ch_recv_nil _ Hv). }
    exists (mkWorker (w_queue wk) (w_chan wk) WIdle (w_conns wk)), [RecvByte (worker_id ctx)].
    split; [|split; [exact Hv|left; by split]]. split.
    + cbn [run act]. by erewrite with_at_step by done.
    + cbn. by rewrite Z.eqb_refl.
    + rewrite Hst. by apply (matches_same _ _ _ wk).
    + exists L. unfold pending. simpl. rewrite Hd, Hr, Hv. cbn. by rewrite app_nil_r.
  - destruct (ch_recv_cons _ _ _ Hv) as (c' & Hrecv & Hv').
    destruct Hx as (Hr & Hx). rewrite Hr. cbn [length drop].
    assert (Hf : forall pc, pc = (if b =? COMM_NEW_CONNECTED then WPop (mkItem (-1))
                    else if b =? COMM_TERMINATE then WDone else WRecv) ->
      recv_step wk = Some (mkWorker (w_queue wk) c' pc (w_conns wk))).
    { intros pc ->. unfold recv_step. by rewrite Hpc, Hrecv. }
    destruct (b =? COMM_NEW_CONNECTED).
    + destruct Hx as (-> & Hd & Hst). destruct wk as [[items] c pc conns]; simpl in *. subst pc.
      exists (mkWorker (mkTSQ []) c' WRecv (conns ++ map fd items)),
        (RecvByte (worker_id ctx) :: take_actions (worker_id ctx) items). split; [split|].
      * cbn [run act]. erewrite with_at_step by eauto. cbn [mbind option_bind]. by apply take_run.
      * simpl. by rewrite Z.eqb_refl, take_actions_mine.
      * rewrite Hst. eapply matches_with_at; [exact Hm|done|done].
      * exists L. unfold pending. simpl. rewrite Hd, Hr, Hv, Hv'. done.
      * simpl. rewrite Hv'. split; [done|]. split; [done|]. simpl. lia.
    + destruct Hx as (-> & Hd & Hst).
      exists (mkWorker (w_queue wk) c' (if b =? COMM_TERMINATE then WDone else WRecv) (w_conns wk)),
        [RecvByte (worker_id ctx)]. split; [split|].
      * cbn [run act]. by erewrite with_at_step by (first [exact Hi|by apply Hf]).
      * cbn. by rewrite Z.eqb_refl.
      * rewrite Hst. by apply (matches_same _ _ _ wk).
      * exists L. unfold pending. simpl. rewrite Hd, Hr, Hv, Hv'. cbn. by rewrite app_nil_r.
      * simpl. rewrite Hv'. split; [done|]. destruct (b =? COMM_TERMINATE); [by right|]. split; [done|]. simpl. lia.
Qed.

(** From the point before recv on. *)
Lemma main_msg_loop_refines fuel : forall (w : world pool) s wk,
  matches (w_st w) (with_at (worker_id ctx) wk s) -> in_range (worker_id ctx) s ->
  w_pc wk = WRecv -> pending wk = drop (length (received mfd (w_log w))) l ->
  (length (pending wk) < fuel)%nat ->
  wp (main_msg_cb fuel mfd ctx) (fun r w' => r = Ok tt /\ exists wk' acts, refines w w' s wk wk' acts /\
    (w_pc wk' = WIdle /\ pending wk' = [] \/ w_pc wk' = WDone)) w.
Proof.
  unfold main_msg_cb. induction fuel as [|fuel IH]; intros w s wk Hm Hi Hpc Hp Hf; [lia|].
  apply wp_while_S. eapply wp_mono; [by apply main_msg_turn_refines|].
  intros [[[]|[]]|h] w1 (wk1 & acts1 & Href & Hp1 & Hx); [|apply wp_ret; by eauto 10|done].
  destruct Hx as [Hpc1 Hlt]. pose proof (rf_matches _ _ _ _ _ _ Href) as Hm1. cbn [bind_post].
  eapply wp_mono; [apply (IH _ _ _ Hm1 Hi Hpc1 Hp1); lia|].
  intros r w2 (-> & wk2 & acts2 & Href2 & Hend). split; [done|]. exists wk2, (acts1 ++ acts2).
  split; [by eapply refines_trans|done].
Qed.
End main_msg.

(** C23. Refinement: when libevent calls [main_msg_cb] with the bytes [l] in the pipe, of
    which those not yet received are in the pipe of the worker of a matching state, the
    run is a sequence of actions of that worker in the interleaved system: it is woken,
    and then every recv, every try_pop and every connection handed to libevent is one
    of them, and nothing else happens.  The states match again; the callback returns;
    the worker is back in its event loop with an empty pipe, or done. *)
Theorem main_msg_cb_refines `{Env} mfd l ctx fuel (w : world pool) s wk :
  returns -> pipe_holds mfd l -> matches (w_st w) s -> lookupZ (workers s) (worker_id ctx) = Some wk ->
  w_pc wk = WIdle -> pending wk <> [] -> pending wk = drop (length (received mfd (w_log w))) l ->
  (length (pending wk) < fuel)%nat ->
  wp (main_msg_cb fuel mfd ctx) (fun r w' => r = Ok tt /\ exists acts s' wk' L,
    run s (Wake (worker_id ctx) :: acts) = Some s' /\
    forallb (mine (TWorker (worker_id ctx))) acts = true /\
    matches (w_st w') s' /\ lookupZ (workers s') (worker_id ctx) = Some wk' /\ main s' = main s /\
    w_log w' = w_log w ++ L /\ w_conns wk' = w_conns wk ++ map fd (delivered L) /\
    pending wk = received mfd L ++ pending wk' /\
    (w_pc wk' = WIdle /\ pending wk' = [] \/ w_pc wk' = WDone)) w.
Proof.
  intros Hret Hpipe Hm Hwk Hpc Hne Hp Hf. set (wk1 := mkWorker (w_queue wk) (w_chan wk) WRecv (w_conns wk)).
  assert (Hi : in_range (worker_id ctx) s) by (apply lookupZ_is_Some; by eexists).
  assert (Hwake : act s (Wake (worker_id ctx)) = Some (with_at (worker_id ctx) wk1 s)).
  { cbn [act]. apply with_worker_Some. exists wk, wk1. split_and!; [done| |done].
    unfold wake_step, pending in *. rewrite Hpc. by destruct (ch_view (w_chan wk)). }
  rewrite <- (with_at_id _ _ _ Hwk) in Hm.
  eapply wp_mono; [apply (main_msg_loop_refines Hret mfd l ctx Hpipe fuel w s wk1); try done|].
  { by apply (matches_same _ _ _ wk). }
  intros r w' (-> & wk' & acts & [Hrun Hmine Hm' (L & Hlog & Hc & Hpend)] & Hend). split; [done|].
  exists acts, (with_at (worker_id ctx) wk' s), wk', L. split_and!; try done.
  - cbn [run]. by rewrite Hwake.
  - by apply lookupZ_insertZ_eq.
Qed.

(** The requests to terminate, one after the other. *)
Lemma terminate_run m : forall k s, main s = MTerm k -> 0 <= k ->
  k + Z.of_nat m = Z.of_nat (length (workers s)) -> exists s',
    run s (replicate (S m) Terminate) = Some s' /\ main s' = MExit /\ cur s' = cur s /\
    map w_queue (workers s') = map w_queue (workers s).
Proof.
  induction m as [|m IH]; intros k s Hm Hk Hn.
  - exists (set_main MExit s). split_and!; [|done..]. cbn. by rewrite Hm, (proj2 (Z.ltb_ge _ _)) by lia.
  - destruct (lookupZ (workers s) k) as [wk|] eqn:Hwk; [|apply lookupZ_None in Hwk; lia].
    set (wk' := mkWorker (w_queue wk) (default (w_chan wk) (ch_send (w_chan wk) COMM_TERMINATE))
      (w_pc wk) (w_conns wk)).
    assert (Hact : act s Terminate = Some (set_main (MTerm (k + 1)) (with_at k wk' s))).
    { cbn [act]. rewrite Hm, (proj2 (Z.ltb_lt _ _)) by lia.
      rewrite (proj2 (with_worker_Some k s _ (with_at k wk' s))); [done|]. by exists wk, wk'. }
    destruct (IH (k + 1) (set_main (MTerm (k + 1)) (with_at k wk' s))) as (s' & Hrun & Hme & Hc & Hq);
      [done|lia|simpl; rewrite length_insertZ; lia|].
    exists s'. split_and!; [|done|done|].
    + change (replicate (S (S m)) Terminate) with (Terminate :: replicate (S m) Terminate).
      by rewrite (run_app [Terminate] _ s _ ltac:(cbn [run]; rewrite Hact; reflexivity) : run s (_ :: _) = _).
    + rewrite Hq. simpl. apply lookupZ_Some in Hwk as [Hpos Hwk].
      unfold insertZ. rewrite bool_decide_eq_true_2 by done. rewrite list_fmap_insert. simpl.
      apply list_insert_id. by rewrite list_lookup_fmap, Hwk.
Qed.

(** [signal_event_cb]: from its event loop the main thread takes the action that starts
    the callback, one for each worker and the one that leaves the loop. *)
Theorem signal_event_cb_refines `{Env} base (w : world pool) s :
  returns -> matches (w_st w) s -> main s = MIdle ->
  wp (signal_event_cb SIGINT base) (fun r w' => r = Ok tt /\ exists s',
    run s (SigInt :: replicate (S (length (workers s))) Terminate) = Some s' /\
    matches (w_st w') s' /\ main s' = MExit /\
    map fst (w_log w') = map fst (w_log w) ++
      map (fun p => Send p [COMM_TERMINATE] 0) (comm_pipes (w_st w)) ++ [EventBaseLoopexit base]) w.
Proof.
  intros Hret [Hq Hc] Hm. eapply wp_mono; [by apply signal_event_cb_terminates_workers|].
  intros r w' (-> & Hst & _ & Hlog). split; [done|].
  destruct (terminate_run (length (workers s)) 0 (set_main (MTerm 0) s)) as (s' & Hrun & Hme & Hcur & Hqs);
    [done|lia|simpl; lia|].
  exists s'. cbn [run act]. rewrite Hm. split_and!; [exact Hrun| |done|auto].
  rewrite Hst. split; [by rewrite Hqs|by rewrite Hcur].
Qed.
End refine.

(** ** The theorem at a concrete input *)

(** Worker 1 of two, with two connections in its queue and a notification, a byte
    of no meaning and a request to terminate in its pipe. *)
Definition demo_bytes : list Z := [COMM_NEW_CONNECTED; 77; COMM_TERMINATE].
Definition demo_piped : Env := fun h c => match c with
  | Recv f 1 0 => Some (match demo_bytes !! length (received f h) with
      | Some b => ret_data [b]
      | None => ret_err EAGAIN
      end)
  | _ => Some (ret_ok 0)
  end.
Definition demo_items : list CommQueueItem := [mkItem 8; mkItem 9].
Definition demo_two : sys_state ThreadSafeQueue bchan :=
  mkSys [new_worker (mkChan 3 []);
         mkWorker (mkTSQ demo_items) (mkChan 3 demo_bytes) WIdle []] 0 MIdle [].
Definition demo_two_pool : pool := mkPool [11; 12] [mkTSQ []; mkTSQ demo_items] 0 0.

Lemma main_msg_cb_refines_witness :
  let wk := mkWorker (mkTSQ demo_items) (mkChan 3 demo_bytes) WIdle [] in
  wp (@main_msg_cb demo_piped 4 7 (mkCtx 1 3)) (fun r w' => r = Ok tt /\ exists acts s' wk' L,
    run demo_two (Wake 1 :: acts) = Some s' /\ forallb (mine (TWorker 1)) acts = true /\
    matches (w_st w') s' /\ lookupZ (workers s') 1 = Some wk' /\ main s' = MIdle /\
    w_log w' = [] ++ L /\ w_conns wk' = w_conns wk ++ map fd (delivered L) /\
    pending wk = received 7 L ++ pending wk' /\
    (w_pc wk' = WIdle /\ pending wk' = [] \/ w_pc wk' = WDone)) (World demo_two_pool 0 [] []).
Proof.
  intros wk. apply (@main_msg_cb_refines bchan _ demo_piped 7 demo_bytes (mkCtx 1 3) 4
    (World demo_two_pool 0 [] []) demo_two wk).
  - intros h c. unfold env, demo_piped. destruct c; try by eexists. repeat case_match; by eexists.
  - intros h. reflexivity.
  - by split.
  - reflexivity.
  - reflexivity.
  - done.
  - reflexivity.
  - simpl. lia.
Defined.
