(* ===== verification/PoolSafe.v ===== *)
(** * The thread pool server has no undefined behaviour

    The rules of Safe applied to LibevThreadPool, for the main thread and for every
    worker: the vectors of pipes and queues have one entry per worker, every index
    stays inside them and inside the message array.  The main thread needs at least
    one worker: with none, the first connection indexes an empty vector. *)

From S2P Require Import Prelude Sys CLib Safe ThreadSafeQueue LibevThreadPool.

(** The vectors have [n] entries each. *)
Definition vectors_ok (n : Z) (p : pool) : Prop :=
  Z.of_nat (length (comm_pipes p)) = n /\ Z.of_nat (length (comm_queues p)) = n.

(** What the two kinds of threads register with libevent. *)
Definition main_registered (cb : string) (args : list Z) : Prop :=
  (cb = "conn_listener_cb" \/ cb = "signal_event_cb") /\ exists a, args = [a].
Definition worker_registered (cb : string) (args : list Z) : Prop :=
  ((cb = "main_msg_cb" \/ cb = "client_msg_cb") /\ exists a, args = [a]) \/
  (cb = "client_event_cb" /\ exists a e, args = [a; e]).

Section worker.
Context `{Env} (n : Z).
#[local] Set Default Proof Using "Type*".
Abbreviation ok m := (safe (S := pool) (vectors_ok n) defined m) (only parsing).

(** An update that leaves the lengths of the vectors alone. *)
Lemma pool_update_safe (f : pool -> pool) :
  (forall p, length (comm_pipes (f p)) = length (comm_pipes p) /\
    length (comm_queues (f p)) = length (comm_queues p)) -> ok (modify f) (fun _ => True).
Proof.
  intros Hf. apply safe_modify. intros p [Hp Hq]. destruct (Hf p) as [H1 H2].
  by split; rewrite ?H1, ?H2.
Qed.

Lemma queue_safe (p : pool) i : vectors_ok n p -> 0 <= i < n ->
  ok (index (comm_queues p) i) (fun _ => True).
Proof. intros [_ Hq] Hi. eapply safe_mono; [apply safe_index; lia|done]. Qed.

Lemma set_queue_safe i q : ok (modify (set_queue i q)) (fun _ => True).
Proof. apply pool_update_safe. intros p. simpl. by rewrite length_insertZ. Qed.

Lemma client_msg_cb_safe fuel buf be ctx : bev_read_contract -> length buf = Z.to_nat BUF_SIZE ->
  ok (client_msg_cb fuel buf be ctx) (fun _ => True).
Proof.
  intros Hbev Hbuf. unfold client_msg_cb. eapply safe_bind; [by apply safe_sys_|]. intros fd _.
  safe_seq.
  - apply (safe_while _ _ (fun b => length b = Z.to_nat BUF_SIZE) (fun _ => True)); [done|done|].
    intros b Hb. unfold client_msg_turn.
    eapply safe_bind; [apply safe_bufferevent_read; [done|unfold BUF_SIZE in *; lia]|].
    intros [size b'] [Hs Hl]. unfold BUF_SIZE in *. rewrite wrap_s32_id by lia.
    apply safe_if; [intros _; by apply safe_ret|]. intros Hpos%Z.leb_gt.
    apply (safe_bind _ _ _ _ (fun b2 => b2 = insertZ size 0 b')).
    { unfold store. safe_seq; [apply safe_index; lia|]. by apply safe_ret. }
    intros b2 ->. safe_seq; [apply pool_update_safe; done|].
    apply (safe_bind _ _ _ _ (fun _ => True)); [apply string_of_safe; lia|]. intros msg _.
    safe_seq; [apply safe_print|]. apply safe_ret. rewrite length_insertZ. lia.
  - do 2 safe_call. by apply safe_ret.
Qed.

Lemma client_event_cb_safe be events ctx : ok (client_event_cb be events ctx) (fun _ => True).
Proof.
  unfold client_event_cb. safe_call. repeat (apply safe_if; intros _); [safe_call|safe_call|]; by apply safe_ret.
Qed.

Lemma register_safe ctx item : ok (register ctx item) (fun _ => True).
Proof. unfold register. do 3 safe_call. by apply safe_ret. Qed.

Lemma take_connections_safe ctx : 0 <= worker_id ctx < n -> ok (take_connections ctx) (fun _ => True).
Proof.
  intros Hi. unfold take_connections. safe_get p Hp. eapply safe_bind; [by apply queue_safe|]. intros q _.
  apply (safe_while _ _ (fun _ => True) (fun _ => True)); [done|done|]. intros v _. unfold take_turn.
  safe_get p' Hp'. eapply safe_bind; [by apply queue_safe|]. intros q' _.
  destruct (try_pop q' v) as [[b v'] q'']. safe_seq; [apply set_queue_safe|].
  apply safe_if; intros _; [safe_seq; [apply register_safe|]|]; by apply safe_ret.
Qed.

Lemma main_msg_cb_safe fuel mfd ctx : recv_contract -> 0 <= worker_id ctx < n ->
  ok (main_msg_cb fuel mfd ctx) (fun _ => True).
Proof.
  intros Hrecv Hi. unfold main_msg_cb.
  apply (safe_while _ _ (fun _ => True) (fun _ => True)); [done|done|]. intros [] _. unfold main_msg_turn.
  eapply safe_bind; [by apply safe_sys|]. intros r [h Hr].
  destruct (Hrecv _ _ _ _ _ Hr ltac:(lia)) as [Hle Hlen]. rewrite wrap_s32_id by lia.
  apply safe_if; intros Hpos.
  - apply Z.ltb_lt in Hpos. destruct (r_data r) as [|b l]; [simpl in Hlen; lia|].
    apply safe_if; intros _; [safe_seq; [by apply take_connections_safe|]; by apply safe_ret|].
    apply safe_if; intros _; [safe_call|]; by apply safe_ret.
  - safe_seq; [apply safe_get_errno|]. apply safe_if; intros _; [safe_call|]; by apply safe_ret.
Qed.
End worker.

(** ** The main thread *)

(** At least one worker, the next one in range. *)
Definition main_ok (n : Z) (p : pool) : Prop := vectors_ok n p /\ 0 <= cur_worker_ind p < n.

Section main_thread.
Context `{Env} (n : Z) (Hint : n < 2 ^ 31).
#[local] Set Default Proof Using "All".
Abbreviation ok m := (safe (S := pool) (main_ok n) defined m) (only parsing).

Lemma conn_listener_cb_safe cfd : ok (conn_listener_cb cfd) (fun _ => True).
Proof.
  unfold conn_listener_cb. safe_call. safe_get p Hp. destruct Hp as [[Hpipes Hqueues] Hcur].
  rewrite wrap_s32_id by lia. eapply safe_bind; [apply safe_index; lia|]. intros q _.
  safe_seq.
  { apply safe_modify. intros p' [[Hp' Hq'] Hc']. split; [|done]. split; simpl; [done|].
    by rewrite length_insertZ. }
  eapply safe_bind; [apply safe_index; lia|]. intros pipe _. safe_call.
  apply safe_modify. intros p' [Hv _]. split; [done|]. simpl. zcase; lia.
Qed.

Lemma signal_event_cb_safe sig base : ok (signal_event_cb sig base) (fun _ => True).
Proof.
  unfold signal_event_cb. apply safe_if; intros _; [|by apply safe_ret].
  apply (safe_bind _ _ _ _ (fun _ => True)); [by intros w Hw|]. intros pipes _.
  safe_seq; [apply safe_for_each; intros pfd _; safe_call; by apply safe_ret|].
  safe_call. by apply safe_ret.
Qed.

Lemma main_callback_safe base cb args : main_registered cb args ->
  ok (main_callback base cb args) (fun _ => True).
Proof.
  intros [[-> | ->] [a ->]]; simpl; [apply conn_listener_cb_safe|apply signal_event_cb_safe].
Qed.
End main_thread.

(** One more worker. *)
Lemma start_worker_defined `{Env} i w : socketpair_contract ->
  vectors_ok i (w_st w) -> cur_worker_ind (w_st w) = 0 ->
  wp (start_worker i) (fun r w' => match r with
    | Ok _ => vectors_ok (i + 1) (w_st w') /\ cur_worker_ind (w_st w') = 0
    | Stop h => defined h
    end) w.
Proof.
  intros Hsp [Hp Hq] Hc. unfold start_worker. wp_step. apply wp_sys; [done|]. intros r Hr. simpl.
  wp_step. apply wp_assert; [|done]. intros H0%Z.eqb_eq.
  destruct (Hsp _ _ _ _ _ Hr H0) as (a & b & ->). simpl. wp_steps; try done.
  unfold vectors_ok; simpl. rewrite !length_app. simpl. split_and!; lia || done.
Qed.

Lemma start_libev_adv_server_safe `{Env, InetPton} fuel ip port concur w :
  socketpair_contract -> dispatches main_registered -> 0 < concur < 2 ^ 31 -> w_st w = pool_init ->
  wp (start_libev_adv_server fuel ip port concur) (fun r w' => match r with
    | Ok _ => main_ok concur (w_st w')
    | Stop h => defined h
    end) w.
Proof.
  intros Hsp Hdisp Hc Hst. unfold start_libev_adv_server. wp_steps; [done|].
  apply (wp_for_each_range (fun i w' => vectors_ok i (w_st w') /\ cur_worker_ind (w_st w') = 0)); [lia| | |].
  - intros w1 [Hv Hcur]. cbn [bind_post].
    assert (Hok : main_ok concur (w_st w1)) by (split; [done|lia]).
    eapply wp_mono; [eapply (safe_bind (main_ok concur) defined _ _ (fun _ => True) (fun _ => True));
      [by apply safe_sys_| |exact Hok]|].
    + intros base _. do 3 safe_call. safe_seq.
      { eapply safe_event_loop; [done|]. intros cb args Hreg. apply main_callback_safe; [lia|done]. }
      do 4 safe_call. by apply safe_ret.
    + intros [[]|h] w'; [by intros [_ ?]|done].
  - intros i w1 Hi [Hv Hcur]. eapply wp_mono; [by apply start_worker_defined|]. by intros [[]|h] w2.
  - simpl. rewrite Hst. by split.
Qed.

(** ** The workers *)

Lemma worker_func_safe `{Env} n fuel buf i mfd :
  recv_contract -> bev_read_contract -> dispatches worker_registered ->
  length buf = Z.to_nat BUF_SIZE -> 0 <= i < n ->
  safe (vectors_ok n) defined (worker_func fuel buf i mfd) (fun _ => True).
Proof.
  intros Hrecv Hbev Hdisp Hbuf Hi. unfold worker_func. do 4 safe_call. safe_seq.
  { eapply safe_event_loop; [done|]. intros cb args [[[-> | ->] [be ->]]|[-> (be & ev & ->)]]; simpl.
    - by apply main_msg_cb_safe.
    - by apply client_msg_cb_safe.
    - apply client_event_cb_safe. }
  do 3 safe_call. by apply safe_ret.
Qed.

(** ** Concrete environments *)

(** Two workers; the main loop gets a connection and then SIGINT, a worker a
    message of the main thread and a message of a client. *)
Definition demo_dispatch (cbs : list (string * list Z)) : Env := fun h c => match c with
  | EventBaseDispatch _ =>
      let n := countb (fun e => match fst e with EventBaseDispatch _ => true | _ => false end) h in
      Some (match cbs !! n with Some (cb, args) => ret_cb cb args | None => ret_ok 0 end)
  | _ => demo_env h c
  end.

Lemma demo_dispatch_registered cbs (registered : string -> list Z -> Prop) :
  (forall cb args, (cb, args) ∈ cbs -> registered cb args) -> @dispatches (demo_dispatch cbs) registered.
Proof.
  intros Hcbs h base r cb args. unfold env, demo_dispatch. cbv zeta.
  generalize (countb (fun e : event => match fst e with EventBaseDispatch _ => true | _ => false end) h).
  intros n. destruct (cbs !! n) as [[cb' args']|] eqn:E; intros [= <-]; [|done].
  intros [= <- <-]. apply Hcbs. by eapply list_elem_of_lookup_2.
Qed.

Definition demo_main : Env := demo_dispatch [("conn_listener_cb", [5]); ("signal_event_cb", [SIGINT])].
Definition demo_worker : Env :=
  demo_dispatch [("main_msg_cb", [7]); ("client_msg_cb", [30]); ("client_event_cb", [30; BEV_EVENT_EOF])].

Lemma demo_dispatch_recv cbs : @recv_contract (demo_dispatch cbs).
Proof. intros h fd len fl r Hr. by eapply demo_recv. Qed.

Lemma demo_dispatch_bev_read cbs : @bev_read_contract (demo_dispatch cbs).
Proof. intros h be size r Hr. by eapply demo_bev_read. Qed.

Lemma demo_main_dispatches : @dispatches demo_main main_registered.
Proof.
  apply demo_dispatch_registered. intros cb args Hin. unfold main_registered.
  repeat (apply elem_of_cons in Hin as [[= -> ->]|Hin]; [eauto|]). by apply elem_of_nil in Hin.
Qed.

Lemma demo_worker_dispatches : @dispatches demo_worker worker_registered.
Proof.
  apply demo_dispatch_registered. intros cb args Hin. unfold worker_registered.
  repeat (apply elem_of_cons in Hin as [[= -> ->]|Hin]; [naive_solver eauto|]). by apply elem_of_nil in Hin.
Qed.
