(* ===== verification/ProcPool.v ===== *)
(** * The process pool server
      (server/include/epoll_half_sync_reactive_proc_pool_server.hpp)

    [SrvProcessPool<T>]: the parent accepts no connection itself, it tells one of
    its children, chosen round robin, that one is waiting; each child accepts and
    serves its own.  Each process runs alone on its own copy of the state, so its
    code is run to completion against the environment.  The template parameter [T]
    is the interface [UserConn]; [TestConn] implements it. *)

From S2P Require Import Prelude Sys CLib.

(** ** Helpers *)

Section helpers.
Context `{Env} {S : Type}.

Definition setnonblocking (fd : Z) : M S Z :=
  old_option ← sys_ (FcntlGetfl fd);
  let new_option := Z.lor old_option O_NONBLOCK in
  sys_ (FcntlSetfl fd new_option);;
  mret old_option.

Definition addfd (epollfd fd : Z) (edge_trigger : bool) : M S unit :=
  let events := if edge_trigger then Z.lor EPOLLIN EPOLLET else EPOLLIN in
  sys_ (EpollCtlAdd epollfd fd events);;
  setnonblocking fd;;
  mret tt.

Definition removefd (epollfd fd : Z) : M S unit :=
  sys_ (EpollCtlDel epollfd fd);;
  sys_ (Close fd);;
  mret tt.

Definition addsig (sig : Z) (handler : string) (restart : bool) : M S unit :=
  let sa_flags := if restart then SA_RESTART else 0 in
  ret ← sys_ (Sigaction sig handler sa_flags);
  assert_ (negb (ret =? -1)).
End helpers.

(** [Process] *)
Record Process := mkProcess { m_pid : Z; m_pipefd : Z * Z }.
Definition new_Process : Process := mkProcess (-1) (0, 0).

Definition MAX_PROCESS_NUMBER : Z := 16.
Definition USER_PER_PROCESS : Z := 65536.
Definition MAX_EVENT_NUMBER : Z := 10000.

(** [SrvProcessPool<T>] in one process, with the static [sig_pipefd] and the
    local array [users] of [run_child]: the objects of the array that were
    assigned to, the others being as the default constructor made them. *)
Record SrvProcessPool (T : Type) := mkPool {
  sig_pipefd : Z * Z;
  _process_number : Z;
  _idx : Z;
  _epollfd : Z;
  _listenfd : Z;
  _stop : bool;
  _sub_process : list Process;
  users : gmap Z T;
}.
Arguments mkPool {T}.
Arguments sig_pipefd {T}.
Arguments _process_number {T}.
Arguments _idx {T}.
Arguments _epollfd {T}.
Arguments _listenfd {T}.
Arguments _stop {T}.
Arguments _sub_process {T}.
Arguments users {T}.

Section setters.
Context {T : Type}.
Implicit Types p : SrvProcessPool T.

Definition set_sig_pipefd v p := mkPool v (_process_number p) (_idx p) (_epollfd p)
  (_listenfd p) (_stop p) (_sub_process p) (users p).
Definition set_idx v p := mkPool (sig_pipefd p) (_process_number p) v (_epollfd p)
  (_listenfd p) (_stop p) (_sub_process p) (users p).
Definition set_epollfd v p := mkPool (sig_pipefd p) (_process_number p) (_idx p) v
  (_listenfd p) (_stop p) (_sub_process p) (users p).
Definition set_stop v p := mkPool (sig_pipefd p) (_process_number p) (_idx p) (_epollfd p)
  (_listenfd p) v (_sub_process p) (users p).
Definition set_sub_process v p := mkPool (sig_pipefd p) (_process_number p) (_idx p)
  (_epollfd p) (_listenfd p) (_stop p) v (users p).
Definition set_users (v : gmap Z T) p := mkPool (sig_pipefd p) (_process_number p) (_idx p) (_epollfd p)
  (_listenfd p) (_stop p) (_sub_process p) v.
End setters.

(** The constructor; [_epollfd] and [_sub_process] are left uninitialised and are
    assigned before they are used. *)
Definition SrvProcessPool_ctor (T : Type) (listenfd process_number : Z) : SrvProcessPool T :=
  mkPool (0, 0) process_number (-1) 0 listenfd false [] ∅.

(** What the pool asks of its template parameter. *)
Class UserConn `{Env} (T : Type) := {
  user_new : T;
  user_init : forall {S}, Z -> Z -> list Z -> T -> M S T;
  user_process : forall {S}, nat -> T -> M S T;
}.

(** [delete]d fds and the like: what a call does to the set of fds an epoll
    instance watches. *)
Definition adds_fd (epfd : Z) (c : call) : option Z :=
  match c with EpollCtlAdd e fd _ => if e =? epfd then Some fd else None | _ => None end.

(** [sig_handler], which runs between any two instructions. *)
Definition sig_handler `{Env} {T} (sig : Z) : M (SrvProcessPool T) unit :=
  save_errno ← get_errno;
  p ← get;
  sys_ (Send (snd (sig_pipefd p)) [wrap_u 8 sig] 0);;
  set_errno save_errno.

Section pool.
Context `{Env} {T : Type} `{!UserConn T}.
(** The contents of uninitialised local arrays, and the bound on loops that the
    environment alone ends. *)
Variables (junk : list Z) (fuel : nat).
Abbreviation MP := (M (SrvProcessPool T)).

Definition setup_sig_pipe : MP unit :=
  epfd ← sys_ (EpollCreate 5);
  modify (set_epollfd epfd);;
  assert_ (negb (epfd =? -1));;
  r ← sys (SocketPair AF_UNIX SOCK_STREAM 0);
  assert_ (negb (r_ret r =? -1));;
  fd0 ← index (r_data r) 0;
  fd1 ← index (r_data r) 1;
  modify (set_sig_pipefd (fd0, fd1));;
  setnonblocking fd1;;
  addfd epfd fd0 false;;
  addsig SIGCHLD "sig_handler" true;;
  addsig SIGTERM "sig_handler" true;;
  addsig SIGINT "sig_handler" true;;
  addsig SIGPIPE "SIG_IGN" true.

(** *** The child *)

(** [users[i]] *)
Definition user_at (i : Z) : MP T :=
  p ← get;
  if (0 <=? i) && (i <? USER_PER_PROCESS) then mret (default user_new (users p !! i))
  else stop HUB.

Definition set_user (i : Z) (u : T) : MP unit :=
  modify (fun p => set_users (<[i := u]> (users p)) p).

(** The notification of the parent; [inr] is the [break] out of the loop over the
    events. *)
Definition child_new_con (sockfd : Z) : MP (unit + unit) :=
  '(ret, _) ← recv sockfd [0; 0; 0; 0] 4 0;
  if wrap_s 32 ret <=? 0 then mret (inl tt)
  else
    p ← get;
    r ← sys (Accept (_listenfd p));
    let connfd := r_ret r in
    if connfd <? 0 then mret (inr tt)
    else
      addfd (_epollfd p) connfd false;;
      u ← user_at connfd;
      u ← user_init (_epollfd p) connfd (r_data r) u;
      set_user connfd u;;
      mret (inl tt).

(** [while ((pid = waitpid(-1, &stat, WNOHANG)) > 0) body] *)
Definition reap (body : Z -> MP unit) : MP unit :=
  while_ fuel (fun _ =>
    pid ← sys_ (Waitpid (-1) WNOHANG);
    if 0 <? pid then body pid;; mret (inl tt) else mret (inr tt)) tt.

Definition child_signal (sig : Z) : MP unit :=
  if sig =? SIGCHLD then reap (fun _ => mret tt)
  else if (sig =? SIGTERM) || (sig =? SIGINT) then modify (set_stop true)
  else mret tt.

(** The loop over the bytes received, each a [char]. *)
Definition each_signal (signals : list Z) (ret : Z) (body : Z -> MP unit) : MP unit :=
  for_each (range 0 ret) (fun j => sig ← index signals j; body (wrap_s 8 sig)).

(** One turn of the loop that empties the signal pipe. *)
Definition child_signals_turn (_ : unit) : MP (unit + unit) :=
  p ← get;
  '(ret, signals) ← recv (fst (sig_pipefd p)) junk 1024 0;
  let ret := wrap_s 32 ret in
  if ret <=? 0 then mret (inr tt)
  else each_signal signals ret child_signal;; mret (inl tt).

Definition child_signals : MP unit := while_ fuel child_signals_turn tt.

Definition child_event (pipefd : Z) (ev : Z * Z) : MP (unit + unit) :=
  let '(sockfd, events) := ev in
  p ← get;
  if (sockfd =? pipefd) && has_flag events EPOLLIN then child_new_con sockfd
  else if (sockfd =? fst (sig_pipefd p)) && has_flag events EPOLLIN then
    child_signals;; mret (inl tt)
  else if has_flag events EPOLLIN then
    u ← user_at sockfd;
    u ← user_process fuel u;
    set_user sockfd u;;
    mret (inl tt)
  else mret (inl tt).

(** One turn of [while (!_stop)]. *)
Definition child_turn (pipefd : Z) (_ : unit) : MP (unit + unit) :=
  p ← get;
  if _stop p then mret (inr tt)
  else
    r ← sys (EpollWait (_epollfd p) MAX_EVENT_NUMBER (-1));
    let number := r_ret r in
    e ← get_errno;
    if (number <? 0) && negb (e =? EINTR) then mret (inr tt)
    else
      for_ (range 0 number) (fun i _ => ev ← index (r_evs r) i; child_event pipefd ev) tt;;
      mret (inl tt).

Definition run_child : MP unit :=
  sys_ Getpid;;
  setup_sig_pipe;;
  p ← get;
  me ← index (_sub_process p) (_idx p);
  let pipefd := snd (m_pipefd me) in
  addfd (_epollfd p) pipefd false;;
  modify (set_users ∅);;
  while_ fuel (child_turn pipefd) tt;;
  modify (set_users ∅);;
  sys_ (Close pipefd);;
  p ← get;
  sys_ (Close (_epollfd p));;
  mret tt.

(** *** The parent *)

(** One turn of the [do .. while (j != sub_process_counter)] that looks for a
    child that has not exited. *)
Definition pick_turn (sub_process_counter j : Z) : MP (Z + Z) :=
  p ← get;
  sub ← index (_sub_process p) j;
  if negb (m_pid sub =? -1) then mret (inr j)
  else
    j ← c_mod (j + 1) (_process_number p);
    mret (if negb (j =? sub_process_counter) then inl j else inr j).

(** A new connection: [inl] is the new counter, [inr] the [break]. The search
    makes at most one turn per child. *)
Definition parent_new_con (sub_process_counter : Z) : MP (Z + Z) :=
  p ← get;
  j ← while_ (Z.to_nat (_process_number p)) (pick_turn sub_process_counter) sub_process_counter;
  sub ← index (_sub_process p) j;
  if m_pid sub =? -1 then modify (set_stop true);; mret (inr sub_process_counter)
  else
    counter ← c_mod (j + 1) (_process_number p);
    sys_ (Send (fst (m_pipefd sub)) [1; 0; 0; 0] 0);;
    mret (inl counter).

(** The inner loop of SIGCHLD: close the pipe of the child [pid] and mark it. *)
Definition bury (pid : Z) : MP unit :=
  p ← get;
  for_each (range 0 (_process_number p)) (fun k =>
    p ← get;
    sub ← index (_sub_process p) k;
    if m_pid sub =? pid then
      sys_ (Close (fst (m_pipefd sub)));;
      modify (fun p => set_sub_process
        (insertZ k (mkProcess (-1) (m_pipefd sub)) (_sub_process p)) p)
    else mret tt).

Definition parent_signal (sig : Z) : MP unit :=
  p ← get;
  if sig =? SIGCHLD then
    reap bury;;
    modify (set_stop true);;
    for_each (range 0 (_process_number p)) (fun k =>
      p ← get;
      sub ← index (_sub_process p) k;
      if negb (m_pid sub =? -1) then modify (set_stop false) else mret tt)
  else if (sig =? SIGTERM) || (sig =? SIGINT) then
    for_each (range 0 (_process_number p)) (fun k =>
      p ← get;
      sub ← index (_sub_process p) k;
      let pid := m_pid sub in
      if negb (pid =? -1) then sys_ (Kill pid SIGTERM);; mret tt else mret tt)
  else mret tt.

Definition parent_event (sub_process_counter : Z) (ev : Z * Z) : MP (Z + Z) :=
  let '(sockfd, events) := ev in
  p ← get;
  if sockfd =? _listenfd p then parent_new_con sub_process_counter
  else if (sockfd =? fst (sig_pipefd p)) && has_flag events EPOLLIN then
    '(ret, signals) ← recv (fst (sig_pipefd p)) junk 1024 0;
    let ret := wrap_s 32 ret in
    if ret <=? 0 then mret (inl sub_process_counter)
    else each_signal signals ret parent_signal;; mret (inl sub_process_counter)
  else mret (inl sub_process_counter).

(** One turn of [while (!_stop)]. *)
Definition parent_turn (sub_process_counter : Z) : MP (Z + unit) :=
  p ← get;
  if _stop p then mret (inr tt)
  else
    r ← sys (EpollWait (_epollfd p) MAX_EVENT_NUMBER (-1));
    let number := r_ret r in
    e ← get_errno;
    if (number <? 0) && negb (e =? EINTR) then mret (inr tt)
    else
      counter ← for_ (range 0 number)
        (fun i counter => ev ← index (r_evs r) i; parent_event counter ev) sub_process_counter;
      mret (inl counter).

Definition run_parent : MP unit :=
  setup_sig_pipe;;
  p ← get;
  addfd (_epollfd p) (_listenfd p) false;;
  while_ fuel parent_turn 0;;
  p ← get;
  sys_ (Close (_epollfd p));;
  mret tt.

(** *** Both *)

(** One turn of the loop of [run] that creates the children: the parent goes on,
    a child leaves the loop. *)
Definition fork_turn (i : Z) (_ : unit) : MP (unit + unit) :=
  r ← sys (SocketPair AF_UNIX SOCK_STREAM 0);
  assert_ (r_ret r =? 0);;
  fd0 ← index (r_data r) 0;
  fd1 ← index (r_data r) 1;
  pid ← sys_ Fork;
  modify (fun p => set_sub_process (insertZ i (mkProcess pid (fd0, fd1)) (_sub_process p)) p);;
  assert_ (0 <=? pid);;
  if 0 <? pid then
    sys_ (Close fd1);; setnonblocking fd0;; mret (inl tt)
  else
    sys_ (Close fd0);; setnonblocking fd1;; modify (set_idx i);; mret (inr tt).

Definition fork_children : MP unit :=
  p ← get;
  assert_ ((0 <? _process_number p) && (_process_number p <=? MAX_PROCESS_NUMBER));;
  modify (set_sub_process (replicate (Z.to_nat (_process_number p)) new_Process));;
  for_ (range 0 (_process_number p)) fork_turn tt.

Definition run : MP unit :=
  fork_children;;
  p ← get;
  if negb (_idx p =? -1) then run_child else run_parent.
End pool.

(** ** [TestConn] *)

Record TestConn := mkTestConn { tc_epollfd : Z; tc_cli_fd : Z; tc_cli_addr : list Z }.
Definition new_TestConn : TestConn := mkTestConn (-1) (-1) (replicate 16 0).

Section testconn.
Context `{Env}.

Definition TestConn_init {S} (epollfd cli_fd : Z) (cli_addr : list Z) (_ : TestConn) : M S TestConn :=
  setnonblocking cli_fd;;
  mret (mkTestConn epollfd cli_fd cli_addr).

(** One turn of the read loop: [inr true] is the [break], [inr false] the
    [goto CLOSE_FD]. *)
Definition process_turn {S} (cli_fd : Z) (_ : unit) : M S (unit + bool) :=
  len ← receive_message cli_fd;
  if 0 <? len then mret (inl tt)
  else if len =? 0 then mret (inr false)
  else
    e ← get_errno;
    mret (inr ((e =? EAGAIN) || (e =? EWOULDBLOCK))).

Definition TestConn_process {S} (fuel : nat) (c : TestConn) : M S TestConn :=
  sys_ Getpid;;
  answer ← while_ fuel (process_turn (tc_cli_fd c)) tt;
  if answer : bool then
    sys_ (Sleep 100);;
    sys_ (Send (tc_cli_fd c) OK 0);;
    mret c
  else
    removefd (tc_epollfd c) (tc_cli_fd c);;
    mret c.

#[export] Instance TestConn_conn : UserConn TestConn := {|
  user_new := new_TestConn;
  user_init := @TestConn_init;
  user_process := @TestConn_process;
|}.
End testconn.

Definition start_process_pool_server `{Env, InetPton} (junk : list Z) (fuel : nat) (ip : string)
    (port concur : Z) : M (SrvProcessPool TestConn) unit :=
  let srv_addr := sockaddr_in ip port in
  srv_fd ← sys_ (Socket AF_INET SOCK_STREAM 0);
  assert_ (0 <=? srv_fd);;
  sys_ (SetSockOpt srv_fd SOL_SOCKET SO_REUSEADDR 1);;
  ret ← sys_ (Bind srv_fd srv_addr);
  assert_ (negb (ret =? -1));;
  ret ← sys_ (Listen srv_fd 1024);
  assert_ (negb (ret =? -1));;
  modify (fun _ => SrvProcessPool_ctor TestConn srv_fd concur);;
  run junk fuel;;
  sys_ (Close srv_fd);;
  mret tt.

(** ** The parent: distribution *)

Definition live (p : Process) : bool := negb (m_pid p =? -1).

(** The pool has [n] children, dead or alive. *)
Definition procs_ok {T} (n : Z) (p : SrvProcessPool T) : Prop :=
  _process_number p = n /\ length (_sub_process p) = Z.to_nat n /\ 0 < n <= MAX_PROCESS_NUMBER.

(** The child [k] of the pool. *)
Definition child {T} (p : SrvProcessPool T) (k : Z) : Process :=
  default new_Process (lookupZ (_sub_process p) k).

Lemma child_lookup {T} n (p : SrvProcessPool T) k :
  procs_ok n p -> 0 <= k < n -> lookupZ (_sub_process p) k = Some (child p k).
Proof.
  intros (_ & Hlen & _) Hk. unfold child.
  destruct (lookupZ _ k) eqn:E; [done|]. apply lookupZ_None in E. lia.
Qed.

Lemma wp_child {T} n k (Q : res Process -> world (SrvProcessPool T) -> Prop) w :
  procs_ok n (w_st w) -> 0 <= k < n ->
  Q (Ok (child (w_st w) k)) w -> wp (index (_sub_process (w_st w)) k) Q w.
Proof.
  intros Hok Hk HQ. apply wp_index; intros; pose proof (child_lookup _ _ _ Hok Hk); congruence.
Qed.

Section parent.
Context `{Env} {T : Type} `{!UserConn T}.
Implicit Types w : world (SrvProcessPool T).

(** The child [d] places after [c]. *)
Definition after_child (n c d : Z) : Z := (c + d) mod n.

Lemma after_child_range n c d : 0 < n -> 0 <= after_child n c d < n.
Proof. intros. by apply Z.mod_pos_bound. Qed.

Lemma after_child_next n c d : 0 < n -> (after_child n c d + 1) mod n = after_child n c (d + 1).
Proof. intros. unfold after_child. rewrite Zplus_mod_idemp_l. f_equal. lia. Qed.

Lemma after_child_0 n c : 0 <= c < n -> after_child n c 0 = c.
Proof. intros. unfold after_child. rewrite Z.add_0_r. by apply Z.mod_small. Qed.

Lemma after_child_back n c d : 0 <= c < n -> 0 < d <= n -> after_child n c d = c <-> d = n.
Proof.
  intros Hc Hd. unfold after_child. destruct (decide (c + d < n)).
  - rewrite Z.mod_small by lia. lia.
  - replace (c + d) with (c + d - n + 1 * n) by lia. rewrite Z.mod_add by lia.
    destruct (decide (d = n)) as [->|]; rewrite Z.mod_small by lia; lia.
Qed.

(** The children from [c] on, up to [d] places further, have all exited. *)
Definition all_dead n (p : SrvProcessPool T) (c d : Z) : Prop :=
  forall e, 0 <= e < d -> live (child p (after_child n c e)) = false.

Lemma all_dead_S n p c d : 0 <= d -> all_dead n p c d ->
  live (child p (after_child n c d)) = false -> all_dead n p c (d + 1).
Proof.
  intros Hd Hall Hlast e He. destruct (decide (e = d)) as [->|]; [done|]. apply Hall. lia.
Qed.

Lemma pick_wp n c w : procs_ok n (w_st w) -> 0 <= c < n ->
  forall (m : nat) d, d + Z.of_nat m = n -> 0 <= d < n -> all_dead n (w_st w) c d ->
  wp (while_ m (pick_turn c) (after_child n c d)) (fun r w' => w' = w /\
    ((exists e, d <= e < n /\ all_dead n (w_st w) c e /\ r = Ok (after_child n c e) /\
       live (child (w_st w) (after_child n c e)) = true) \/
     (all_dead n (w_st w) c n /\ r = Ok c))) w.
Proof.
  intros Hok Hc m. induction m as [|m IH]; intros d Hm Hd Hall; [lia|].
  apply wp_while_S. unfold pick_turn. do 3 wp_step.
  apply (wp_child n); [done|by apply after_child_range; lia|]. cbn [bind_post].
  fold (live (child (w_st w) (after_child n c d))).
  destruct (live _) eqn:Hlive.
  - wp_steps. split; [done|]. left. exists d. split_and!; [lia|lia|done|done|done].
  - pose proof (after_child_range n c d ltac:(lia)) as Hj. destruct Hok as (Hn & Hlen & Hn16).
    wp_step. apply wp_c_mod; [lia|lia|]. cbn [bind_post].
    rewrite Hn, after_child_next by lia.
    pose proof (all_dead_S n (w_st w) c d ltac:(lia) Hall Hlive) as Hall'.
    pose proof (after_child_back n c (d + 1) Hc ltac:(lia)) as Hback.
    destruct (Z.eqb_spec (after_child n c (d + 1)) c) as [He|He]; simpl; wp_steps.
    + split; [done|]. right. rewrite He. apply Hback in He. by rewrite He in Hall'.
    + eapply wp_mono; [apply IH; [lia| |done]|].
      * assert (d + 1 <> n) by (by intros ?%Hback). lia.
      * intros r w' (-> & [(e & He' & Hx)|Hx]); (split; [done|]); [left|by right].
        exists e. split; [lia|done].
Qed.

Lemma parent_new_con_wp n c w :
  returns -> procs_ok n (w_st w) -> 0 <= c < n ->
  wp (parent_new_con c) (fun r w' =>
    (exists d, 0 <= d < n /\ all_dead n (w_st w) c d /\
       live (child (w_st w) (after_child n c d)) = true /\
       r = Ok (inl (after_child n c (d + 1))) /\ w_st w' = w_st w /\
       map fst (w_log w') = map fst (w_log w) ++
         [Send (fst (m_pipefd (child (w_st w) (after_child n c d)))) [1; 0; 0; 0] 0]) \/
    (all_dead n (w_st w) c n /\ r = Ok (inr c) /\
       w_st w' = set_stop true (w_st w) /\ w_log w' = w_log w)) w.
Proof.
  intros Hret Hok Hc. pose proof Hok as (Hn & Hlen & Hn16). unfold parent_new_con. do 3 wp_step.
  rewrite Hn. rewrite <- (after_child_0 n c Hc) at 2.
  eapply wp_mono; [apply (pick_wp n); [done|done|lia|lia|intros ? ?; lia]|].
  intros r w' (-> & [(d & Hd & Hall & -> & Hlive)|(Hall & ->)]); cbn [bind_post].
  - pose proof (after_child_range n c d ltac:(lia)) as Hj.
    wp_step. apply (wp_child n); [done|done|]. cbn [bind_post].
    unfold live in Hlive. destruct (Z.eqb_spec (m_pid (child (w_st w) (after_child n c d))) (-1)); [done|].
    wp_step. apply wp_c_mod; [lia|lia|]. cbn [bind_post]. rewrite after_child_next by lia.
    wp_steps_ret Hret. left. exists d. split_and!; [lia|lia|done| |done|done|by rewrite map_app].
    unfold live. by apply negb_true_iff, Z.eqb_neq.
  - wp_step. apply (wp_child n); [done|done|]. cbn [bind_post].
    pose proof (Hall 0 ltac:(lia)) as H0. rewrite after_child_0 in H0 by done.
    unfold live in H0. apply negb_false_iff in H0. rewrite H0. wp_steps. right. done.
Qed.
(** C25. Distribution: the parent gives a new connection to the first child that
    has not exited, going round from the counter, by one notification on that
    child's pipe, and moves the counter behind it; when every child has exited it
    stops instead.  The search always ends. *)
Theorem parent_new_con_round_robin n c w :
  returns -> procs_ok n (w_st w) -> 0 <= c < n ->
  wp (parent_new_con c) (fun r w' =>
    (exists d, 0 <= d < n /\ all_dead n (w_st w) c d /\
       live (child (w_st w) (after_child n c d)) = true /\
       r = Ok (inl (after_child n c (d + 1))) /\ w_st w' = w_st w /\
       map fst (w_log w') = map fst (w_log w) ++
         [Send (fst (m_pipefd (child (w_st w) (after_child n c d)))) [1; 0; 0; 0] 0]) \/
    (all_dead n (w_st w) c n /\ r = Ok (inr c) /\
       w_st w' = set_stop true (w_st w) /\ w_log w' = w_log w)) w.
Proof. apply parent_new_con_wp. Qed.

(** Fairness: while no child has exited, a run of connection events sends
    them to consecutive children, going round: event number [i], counted from 0,
    goes to child [(c + i) mod n], whatever the number of events. *)
Theorem parent_connections_fair junk fuel n c evs w :
  returns -> procs_ok n (w_st w) -> 0 <= c < n ->
  Forall (fun ev => fst ev = _listenfd (w_st w)) evs ->
  (forall k, 0 <= k < n -> live (child (w_st w) k) = true) ->
  wp (for_ evs (fun ev c => parent_event junk fuel c ev) c) (fun r w' =>
    r = Ok (after_child n c (Z.of_nat (length evs))) /\ w_st w' = w_st w /\
    map fst (w_log w') = map fst (w_log w) ++ map (fun i =>
      Send (fst (m_pipefd (child (w_st w) (after_child n c (Z.of_nat i))))) [1; 0; 0; 0] 0)
      (seq 0 (length evs))) w.
Proof.
  intros Hret Hok Hc Hevs Hlive. pose proof Hok as (_ & _ & Hn16).
  apply (wp_for (fun rest c' w' => exists past, evs = past ++ rest /\
    c' = after_child n c (Z.of_nat (length past)) /\ w_st w' = w_st w /\
    map fst (w_log w') = map fst (w_log w) ++ map (fun i =>
      Send (fst (m_pipefd (child (w_st w) (after_child n c (Z.of_nat i))))) [1; 0; 0; 0] 0)
      (seq 0 (length past)))).
  - intros c' w' (past & -> & -> & Hst & Hlog). by rewrite app_nil_r in *.
  - intros [fd ev] rest c' w' (past & -> & -> & Hst & Hlog).
    apply Forall_app in Hevs as [_ Hevs]. apply Forall_cons in Hevs as [Hfd _]. simpl in Hfd.
    unfold parent_event. do 2 wp_step. cbn [bind_post]. rewrite Hst, Hfd, Z.eqb_refl.
    pose proof (after_child_range n c (Z.of_nat (length past)) ltac:(lia)) as Hj.
    eapply wp_mono; [apply (parent_new_con_wp n); [done|by rewrite Hst|done]|].
    intros r w'' [(d & Hd & Hdead & _ & -> & Hst' & Hlog')|(Hdead & _)].
    + destruct (decide (d = 0)) as [->|Hd0].
      2: { specialize (Hdead 0 ltac:(lia)). rewrite Hst, Hlive in Hdead; [done|].
           apply after_child_range. lia. }
      exists (past ++ [(_listenfd (w_st w), ev)]). rewrite length_app. cbn [length].
      split_and!; [by rewrite <- app_assoc| |by rewrite Hst'|].
      * rewrite <- (after_child_next n _ 0), after_child_0, after_child_next by lia. f_equal. lia.
      * rewrite Hlog', Hlog, Hst, after_child_0, Nat.add_1_r, seq_S, map_app, <- app_assoc by done. done.
    + specialize (Hdead 0 ltac:(lia)). rewrite Hst, Hlive in Hdead; [done|].
      apply after_child_range. lia.
  - exists []. split_and!; [done|by rewrite after_child_0|done|by rewrite app_nil_r].
Qed.
End parent.

(** ** Exited children *)

(** The children reaped, according to a log. *)
Definition reaped_of (e : event) : option Z :=
  match e with (Waitpid _ _, r) => if 0 <? r_ret r then Some (r_ret r) else None | _ => None end.
Definition reaped (L : list event) : list Z := omap reaped_of L.

Lemma reaped_app L1 L2 : reaped (L1 ++ L2) = reaped L1 ++ reaped L2.
Proof. apply omap_app. Qed.
#[export] Hint Rewrite reaped_app : server.

(** waitpid(2) reports each child once: a process with at most [m] children gets
    fewer than [m] reports before any given one. *)
Definition reaped_below `{Env} (m : nat) : Prop :=
  forall h r, env h (Waitpid (-1) WNOHANG) = Some r -> 0 < r_ret r -> (length (reaped h) < m)%nat.

(** [_sub_process] after the children [pids] have been reaped. *)
Definition mark (pids : list Z) (p : Process) : Process :=
  if bool_decide (m_pid p ∈ pids) then mkProcess (-1) (m_pipefd p) else p.

Lemma mark_nil p : mark [] p = p.
Proof. unfold mark. rewrite bool_decide_eq_false_2; [done|]. apply not_elem_of_nil. Qed.

Lemma mark_snoc pids pid p : 0 < pid -> mark (pids ++ [pid]) p = mark [pid] (mark pids p).
Proof.
  intros Hpid. unfold mark. destruct (decide (m_pid p ∈ pids)) as [Hin|Hin].
  - rewrite (bool_decide_eq_true_2 (m_pid p ∈ pids ++ [pid])) by (rewrite elem_of_app; auto).
    rewrite (bool_decide_eq_true_2 (m_pid p ∈ pids)) by done.
    rewrite bool_decide_eq_false_2; [done|]. rewrite list_elem_of_singleton. simpl. lia.
  - rewrite (bool_decide_eq_false_2 (m_pid p ∈ pids)) by done.
    rewrite (bool_decide_ext (m_pid p ∈ pids ++ [pid]) (m_pid p ∈ [pid])); [done|].
    rewrite elem_of_app. intuition.
Qed.

Lemma map_mark_nil l : map (mark []) l = l.
Proof. induction l; simpl; rewrite ?mark_nil; congruence. Qed.

Lemma map_mark_snoc pids pid l : 0 < pid ->
  map (mark (pids ++ [pid])) l = map (mark [pid]) (map (mark pids) l).
Proof. intros Hpid. rewrite map_map. apply map_ext. intros p. by apply mark_snoc. Qed.

(** The pipes of the children [pids]. *)
Definition pipes_of (pids : list Z) (l : list Process) : list Z :=
  map (fun p => fst (m_pipefd p)) (filter (fun p => m_pid p ∈ pids) l).

Lemma pipes_of_nil l : pipes_of [] l = [].
Proof.
  unfold pipes_of. induction l as [|p l IH]; [done|]. by rewrite filter_cons_False by apply not_elem_of_nil.
Qed.

Lemma pipes_of_end pids : pipes_of pids [] = [].
Proof. done. Qed.

Lemma pipes_of_app pids l1 l2 : pipes_of pids (l1 ++ l2) = pipes_of pids l1 ++ pipes_of pids l2.
Proof. unfold pipes_of. by rewrite filter_app, map_app. Qed.

Lemma pipes_of_cons pids p l :
  pipes_of pids (p :: l) =
  (if bool_decide (m_pid p ∈ pids) then [fst (m_pipefd p)] else []) ++ pipes_of pids l.
Proof.
  unfold pipes_of. case_bool_decide; [by rewrite filter_cons_True|by rewrite filter_cons_False].
Qed.

Lemma pipes_of_snoc pids pid l : 0 < pid ->
  pipes_of (pids ++ [pid]) l ≡ₚ pipes_of pids l ++ pipes_of [pid] (map (mark pids) l).
Proof.
  intros Hpid. induction l as [|p l IH]; [done|]. cbn [map].
  rewrite !pipes_of_cons, IH. destruct (decide (m_pid p ∈ pids)) as [Hin|Hin].
  - rewrite !(bool_decide_eq_true_2 (m_pid p ∈ _)) by (rewrite ?elem_of_app; auto).
    rewrite (bool_decide_eq_false_2 (_ ∈ [pid])); [done|].
    unfold mark. rewrite bool_decide_eq_true_2 by done. rewrite list_elem_of_singleton. simpl. lia.
  - replace (mark pids p) with p by (unfold mark; by rewrite bool_decide_eq_false_2).
    rewrite (bool_decide_eq_false_2 (m_pid p ∈ pids)) by done.
    rewrite (bool_decide_ext (m_pid p ∈ pids ++ [pid]) (m_pid p ∈ [pid]))
      by (rewrite elem_of_app; intuition).
    case_bool_decide; simpl; [by rewrite Permutation_middle|done].
Qed.

Section exits.
Context `{Env} {T : Type} `{!UserConn T}.
Implicit Types w : world (SrvProcessPool T).

(** The loop around waitpid calls its body once for each child reported. *)
Lemma reap_wp (I : list Z -> world (SrvProcessPool T) -> Prop) m fuel body
    (Q : res unit -> world (SrvProcessPool T) -> Prop) w :
  returns -> reaped_below m ->
  (forall ps r w, I ps w -> 0 < r_ret r ->
    wp (body (r_ret r)) (fun x w' => x = Ok tt /\ I (ps ++ [r_ret r]) w' /\
      reaped (w_log w') = reaped (w_log w) ++ [r_ret r]) (after (Waitpid (-1) WNOHANG) r w)) ->
  (forall ps r w, I ps w -> r_ret r <= 0 -> Q (Ok tt) (after (Waitpid (-1) WNOHANG) r w)) ->
  (m - length (reaped (w_log w)) < fuel)%nat -> I [] w -> wp (reap fuel body) Q w.
Proof.
  intros Hret Hm Hbody Hend. unfold reap. generalize (@nil Z) as ps. revert w.
  induction fuel as [|fuel IH]; intros w ps Hfuel HI; [lia|].
  apply wp_while_S. wp_step. wp_step_ret Hret. zcase.
  - pose proof (Hm _ _ ltac:(done) ltac:(done)). wp_step.
    eapply wp_mono; [by apply (Hbody ps)|].
    intros x w' (-> & HI' & Hr); simpl. wp_steps. apply (IH _ (ps ++ [r_ret r])); [|done].
    rewrite Hr, length_app; simpl. lia.
  - wp_steps. by eapply Hend.
Qed.

Lemma map_take_insert (f : Process -> Process) l k p : l !! k = Some p ->
  <[k := f p]> (map f (take k l) ++ drop k l) = map f (take (S k) l) ++ drop (S k) l.
Proof.
  intros Hp. rewrite (take_S_r _ _ _ Hp), (drop_S _ _ _ Hp), map_app, <- app_assoc.
  pose proof (lookup_lt_Some _ _ _ Hp).
  rewrite insert_app_r_alt by (rewrite length_map, length_take; lia).
  by rewrite length_map, length_take, Nat.min_l, Nat.sub_diag by lia.
Qed.

Lemma lookup_map_take (f : Process -> Process) l k p : l !! k = Some p ->
  (map f (take k l) ++ drop k l) !! k = Some p.
Proof.
  intros Hp. pose proof (lookup_lt_Some _ _ _ Hp).
  rewrite lookup_app_r by (rewrite length_map, length_take; lia).
  rewrite length_map, length_take, Nat.min_l, Nat.sub_diag by lia. by rewrite (drop_S _ _ _ Hp).
Qed.

(** One reaped child: its pipe is closed and it is marked. *)
Lemma bury_wp n pid (Q : res unit -> world (SrvProcessPool T) -> Prop) w :
  returns -> procs_ok n (w_st w) ->
  (forall w', w_st w' = set_sub_process (map (mark [pid]) (_sub_process (w_st w))) (w_st w) ->
    closed (w_log w') = closed (w_log w) ++ pipes_of [pid] (_sub_process (w_st w)) ->
    reaped (w_log w') = reaped (w_log w) -> Q (Ok tt) w') ->
  wp (bury pid) Q w.
Proof.
  intros Hret (Hn & Hlen & Hn16) HQ. unfold bury. do 2 wp_step. cbn [bind_post]. rewrite Hn.
  set (l := _sub_process (w_st w)) in *.
  apply (wp_for_each_range (fun k w' =>
    w_st w' = set_sub_process (map (mark [pid]) (take (Z.to_nat k) l) ++ drop (Z.to_nat k) l) (w_st w) /\
    closed (w_log w') = closed (w_log w) ++ pipes_of [pid] (take (Z.to_nat k) l) /\
    reaped (w_log w') = reaped (w_log w))); [lia| | |].
  - intros w' (Hst & Hc & Hr). rewrite <- Hlen, firstn_all, drop_all, app_nil_r in *. by apply HQ.
  - intros k w' Hk (Hst & Hc & Hr). do 2 wp_step. cbn [bind_post]. rewrite Hst at 1. cbn.
    destruct (lookup_lt_is_Some_2 l (Z.to_nat k) ltac:(lia)) as [p Hp]. wp_step.
    unfold index. rewrite (proj2 (lookupZ_Some _ _ p)) by (split; [lia|by apply lookup_map_take]).
    wp_step. replace (Z.to_nat (k + 1)) with (S (Z.to_nat k)) by lia.
    rewrite <- (map_take_insert _ _ _ _ Hp). rewrite (take_S_r _ _ _ Hp), pipes_of_app, pipes_of_cons, pipes_of_end, app_nil_r.
    assert (Hmark : mark [pid] p = if m_pid p =? pid then mkProcess (-1) (m_pipefd p) else p).
    { unfold mark. rewrite (bool_decide_ext _ (m_pid p = pid)) by apply list_elem_of_singleton.
      by destruct (Z.eqb_spec (m_pid p) pid); case_bool_decide. }
    rewrite (bool_decide_ext _ (m_pid p = pid)) by apply list_elem_of_singleton.
    rewrite Hmark.
    destruct (Z.eqb_spec (m_pid p) pid) as [He|He]; case_bool_decide; try done; wp_steps_ret Hret.
    + rewrite Hst. split_and!; [|rewrite closed_app, Hc, app_assoc|rewrite reaped_app, Hr, app_nil_r]; try done.
      unfold set_sub_process, insertZ; simpl. by rewrite bool_decide_eq_true_2 by lia.
    + rewrite app_nil_r, list_insert_id by (by apply lookup_map_take). done.
  - split_and!; [|by rewrite app_nil_r|done]. simpl. by destruct (w_st w).
Qed.

(** The check that ends SIGCHLD: the parent stops when no child is left. *)
Lemma stop_check_wp n (p : SrvProcessPool T) (Q : res unit -> world (SrvProcessPool T) -> Prop) w :
  procs_ok n p -> w_st w = set_stop true p ->
  (forall w', w_st w' = set_stop (forallb (fun p => negb (live p)) (_sub_process p)) p ->
    w_log w' = w_log w -> Q (Ok tt) w') ->
  wp (for_each (range 0 n) (fun k =>
    p ← get;
    sub ← index (_sub_process p) k;
    if negb (m_pid sub =? -1) then modify (set_stop false) else mret tt)) Q w.
Proof.
  intros Hok Hst HQ. pose proof Hok as (Hn & Hlen & Hn16).
  apply (wp_for_each_range (fun k w' => w_log w' = w_log w /\
    w_st w' = set_stop (forallb (fun p => negb (live p)) (take (Z.to_nat k) (_sub_process p))) p));
    [lia| | |done].
  - intros w' (Hlog & Hst'). rewrite <- Hlen, firstn_all in Hst'. by apply HQ.
  - intros k w' Hk (Hlog & Hst'). do 3 wp_step. rewrite Hst'.
    destruct (lookup_lt_is_Some_2 (_sub_process p) (Z.to_nat k) ltac:(lia)) as [sub Hsub].
    apply wp_index; cbn [_sub_process set_stop]; [|rewrite lookupZ_None; lia].
    intros sub' [_ Hsub']%lookupZ_Some. simplify_eq. cbn [bind_post].
    replace (Z.to_nat (k + 1)) with (S (Z.to_nat k)) by lia.
    rewrite (take_S_r _ _ _ Hsub), forallb_app. cbn [forallb]. unfold live.
    destruct (m_pid sub =? -1); simpl; wp_steps; rewrite ?Hst', ?andb_true_r, ?andb_false_r; done.
Qed.

Lemma procs_ok_marked n pids (p : SrvProcessPool T) :
  procs_ok n p -> procs_ok n (set_sub_process (map (mark pids) (_sub_process p)) p).
Proof. intros (Hn & Hlen & Hn16). split_and!; simpl; rewrite ?length_map; done || lia. Qed.

Lemma parent_sigchld_wp n m w :
  returns -> reaped_below m -> procs_ok n (w_st w) ->
  wp (parent_signal (S m) SIGCHLD) (fun r w' => r = Ok tt /\ exists pids,
    reaped (w_log w') = reaped (w_log w) ++ pids /\
    closed (w_log w') ≡ₚ closed (w_log w) ++ pipes_of pids (_sub_process (w_st w)) /\
    let procs := map (mark pids) (_sub_process (w_st w)) in
    w_st w' = set_stop (forallb (fun p => negb (live p)) procs)
      (set_sub_process procs (w_st w))) w.
Proof.
  intros Hret Hm Hok. unfold parent_signal. do 3 wp_step. cbn [bind_post].
  change (SIGCHLD =? SIGCHLD) with true. cbn iota.
  apply (reap_wp (fun ps w' => Forall (Z.lt 0) ps /\ reaped (w_log w') = reaped (w_log w) ++ ps /\
    closed (w_log w') ≡ₚ closed (w_log w) ++ pipes_of ps (_sub_process (w_st w)) /\
    w_st w' = set_sub_process (map (mark ps) (_sub_process (w_st w))) (w_st w)) m);
    [done|done| | |lia|].
  - intros ps r w' (Hps & Hr & Hc & Hst) Hpos. apply (bury_wp n); [done| |].
    { simpl. rewrite Hst. by apply procs_ok_marked. }
    intros w'' Hst'' Hc'' Hr''. split; [done|].
    assert (Hreap : reaped (w_log w' ++ [(Waitpid (-1) WNOHANG, r)]) =
      reaped (w_log w') ++ [r_ret r]).
    { rewrite reaped_app. f_equal. cbn. by rewrite (proj2 (Z.ltb_lt _ _)) by done. }
    simpl in *. rewrite Hr'', Hreap, Hst'', Hst, Hr, Hc'', closed_app, app_nil_r, Hc, Hst, <- !app_assoc.
    simpl. rewrite map_mark_snoc, pipes_of_snoc by done.
    split_and!; [|done..]. apply Forall_app. by repeat constructor.
  - intros ps r w' (Hps & Hr & Hc & Hst) Hneg. cbn [bind_post]. wp_steps.
    pose proof Hok as (Hn & _). rewrite Hn.
    apply (stop_check_wp n (set_sub_process (map (mark ps) (_sub_process (w_st w))) (w_st w)));
      [by apply procs_ok_marked|by rewrite Hst|].
    intros w'' Hst'' Hlog''. split; [done|]. exists ps.
    rewrite Hlog'', Hst''. simpl. rewrite reaped_app, closed_app, Hr, !app_nil_r.
    cbn. rewrite (proj2 (Z.ltb_ge _ _)), app_nil_r by done. done.
  - split_and!; [done|by rewrite app_nil_r|by rewrite pipes_of_nil, app_nil_r|].
    rewrite map_mark_nil. by destruct (w_st w).
Qed.

(** C24. SIGCHLD in the parent: with fewer than [m] children to report it ends;
    every child reported by waitpid, and no other, is marked as exited and has its
    pipe closed exactly once, and the parent stops exactly when no child is left. *)
Theorem parent_sigchld n m w :
  returns -> reaped_below m -> procs_ok n (w_st w) ->
  wp (parent_signal (S m) SIGCHLD) (fun r w' => r = Ok tt /\ exists pids,
    reaped (w_log w') = reaped (w_log w) ++ pids /\
    closed (w_log w') ≡ₚ closed (w_log w) ++ pipes_of pids (_sub_process (w_st w)) /\
    let procs := map (mark pids) (_sub_process (w_st w)) in
    w_st w' = set_stop (forallb (fun p => negb (live p)) procs)
      (set_sub_process procs (w_st w))) w.
Proof. apply parent_sigchld_wp. Qed.

(** SIGTERM and SIGINT in the parent: every child that has not exited, and no
    other, is sent SIGTERM, once; the state does not change. *)
Theorem parent_sigterm n sig fuel w :
  returns -> procs_ok n (w_st w) -> sig = SIGTERM \/ sig = SIGINT ->
  wp (parent_signal fuel sig) (fun r w' => r = Ok tt /\ w_st w' = w_st w /\
    map fst (w_log w') = map fst (w_log w) ++
      map (fun p => Kill (m_pid p) SIGTERM) (List.filter live (_sub_process (w_st w)))) w.
Proof.
  intros Hret (Hn & Hlen & Hn16) Hsig. unfold parent_signal. do 2 wp_step. cbn [bind_post].
  replace (sig =? SIGCHLD) with false by (destruct Hsig; subst; done).
  replace ((sig =? SIGTERM) || (sig =? SIGINT)) with true by (destruct Hsig; subst; done).
  rewrite Hn. set (l := _sub_process (w_st w)) in *.
  apply (wp_for_each_range (fun k w' => w_st w' = w_st w /\
    map fst (w_log w') = map fst (w_log w) ++
      map (fun p => Kill (m_pid p) SIGTERM) (List.filter live (take (Z.to_nat k) l)))); [lia| | |].
  - intros w' (Hst & Hlog). rewrite <- Hlen, firstn_all in Hlog. done.
  - intros k w' Hk (Hst & Hlog). do 3 wp_step. rewrite Hst. fold l.
    destruct (lookup_lt_is_Some_2 l (Z.to_nat k) ltac:(lia)) as [sub Hsub].
    apply wp_index; [|rewrite lookupZ_None; lia].
    intros sub' [_ Hsub']%lookupZ_Some. simplify_eq. cbn [bind_post].
    replace (Z.to_nat (k + 1)) with (S (Z.to_nat k)) by lia.
    rewrite (take_S_r _ _ _ Hsub), List.filter_app. cbn [List.filter]. fold (live sub).
    destruct (live sub); wp_steps_ret Hret; rewrite ?map_app, Hlog, ?app_nil_r, ?map_app, ?app_assoc; done.
  - by rewrite app_nil_r.
Qed.
End exits.

(** ** [TestConn] and the signal handler *)

(** A call that does not change what an epoll instance watches. *)
Definition no_add (e : event) : Prop := match fst e with EpollCtlAdd _ _ _ => False | _ => True end.

Definition quiet {S} (w w' : world S) : Prop :=
  w_st w' = w_st w /\ exists L, w_log w' = w_log w ++ L /\ Forall no_add L.

Lemma quiet_refl {S} (w : world S) : quiet w w.
Proof. split; [done|]. exists []. by rewrite app_nil_r. Qed.

Lemma quiet_trans {S} (w1 w2 w3 : world S) : quiet w1 w2 -> quiet w2 w3 -> quiet w1 w3.
Proof.
  intros (Hs & L & HL & HF) (Hs' & L' & HL' & HF'). split; [congruence|].
  exists (L ++ L'). rewrite HL', HL, app_assoc. split; [done|]. by apply Forall_app.
Qed.

Lemma quiet_after {S} c r (w w' : world S) : no_add (c, r) -> quiet w w' -> quiet w (after c r w').
Proof.
  intros Hc Hq. apply (quiet_trans _ w'); [done|]. split; [done|]. exists [(c, r)]. by repeat constructor.
Qed.

Lemma quiet_same {S} e o (w w' : world S) :
  quiet w w' -> quiet w (World (w_st w') e (w_log w') o).
Proof. done. Qed.

#[export] Hint Resolve quiet_refl quiet_after quiet_trans : server.
#[export] Hint Extern 0 (no_add _) => exact I : server.

(** What the pool relies on of its template parameter: its methods do not touch
    the pool or what the epoll instances watch. *)
Class UserConnOk `{Env} (T : Type) `{!UserConn T} := {
  user_init_quiet : forall {S} e fd a (u : T) (w : world S),
    wp (user_init e fd a u) (fun _ w' => quiet w w') w;
  user_process_quiet : forall {S} fuel (u : T) (w : world S),
    wp (user_process fuel u) (fun _ w' => quiet w w') w;
}.

Section testconn_props.
Context `{Env} {S : Type}.
Implicit Types w : world S.

Lemma receive_message_quiet fd w : wp (receive_message fd) (fun _ w' => quiet w w') w.
Proof.
  unfold receive_message, recv, fill, string_of. wp_steps; [by apply quiet_refl|].
  assert (quiet w (after (Recv fd (BUF_SIZE - 1) 0) r w)) by (by apply quiet_after, quiet_refl).
  case_bool_decide; wp_steps; [|done]. zcase; [|by wp_step].
  wp_step. case_match; wp_steps; done.
Qed.

Lemma process_turn_quiet fd w : wp (process_turn fd tt) (fun _ w' => quiet w w') w.
Proof.
  unfold process_turn. wp_step. eapply wp_mono; [apply receive_message_quiet|].
  intros [len|h] w' Hq; cbn [bind_post]; [|done]. repeat case_match; wp_steps; done.
Qed.

Lemma TestConn_init_quiet e fd a c w : wp (TestConn_init e fd a c) (fun _ w' => quiet w w') w.
Proof. unfold TestConn_init, setnonblocking. wp_steps; eauto with server. Qed.

Lemma TestConn_process_quiet fuel c w : wp (TestConn_process fuel c) (fun _ w' => quiet w w') w.
Proof.
  unfold TestConn_process, removefd. wp_steps; [by apply quiet_refl|].
  apply (wp_while (fun _ w' => quiet w w')); [done| |by apply quiet_after, quiet_refl].
  intros [] w' Hq. eapply wp_mono; [apply process_turn_quiet|].
  intros [[[]|b]|h] w'' Hq'; cbn [bind_post]; eauto with server.
  pose proof (quiet_trans _ _ _ Hq Hq'). destruct b; wp_steps; eauto 10 with server.
Qed.
End testconn_props.

#[export] Instance TestConn_ok `{Env} : UserConnOk TestConn := {|
  user_init_quiet := @TestConn_init_quiet _;
  user_process_quiet := @TestConn_process_quiet _;
|}.

Section testconn_serves.
Context `{Env} {S : Type}.
Implicit Types w : world S.

(** Serving a client of a child: if the socket holds the chunks [rs] and then
    gives [r], [TestConn::process] reads them all, prints each up to its first NUL,
    and then answers once with "OK" when the socket would block, or removes it
    from the epoll instance and closes it when the client is gone or in error. *)
Theorem testconn_process_serves fuel (c : TestConn) rp rs r w :
  returns -> recv_contract -> env (w_log w) Getpid = Some rp ->
  drains (Recv (tc_cli_fd c) (BUF_SIZE - 1) 0) (w_log w ++ [(Getpid, rp)]) rs r ->
  (length rs < fuel)%nat ->
  wp (TestConn_process fuel c) (fun x w' => x = Ok c /\ w_st w' = w_st w /\
    w_out w' = w_out w ++ concat (map (message_out (tc_cli_fd c)) rs) /\
    calls w' = calls w ++ [Getpid] ++
      replicate (Datatypes.S (length rs)) (Recv (tc_cli_fd c) (BUF_SIZE - 1) 0) ++
      (if negb (r_ret r =? 0) && ((r_errno r =? EAGAIN) || (r_errno r =? EWOULDBLOCK))
       then [Sleep 100; Send (tc_cli_fd c) OK 0]
       else [EpollCtlDel (tc_epollfd c) (tc_cli_fd c); Close (tc_cli_fd c)])) w.
Proof.
  intros Hret Hrecv Hpid Hd Hfuel. unfold TestConn_process. wp_steps_ret Hret. simplify_eq.
  set (rc := Recv (tc_cli_fd c) (BUF_SIZE - 1) 0) in *.
  apply (wp_while_drains rc _ (fun ps _ w' => w_st w' = w_st w /\
    w_out w' = w_out w ++ concat (map (message_out (tc_cli_fd c)) ps) /\
    calls w' = calls w ++ [Getpid] ++ replicate (length ps) rc) _ fuel tt _ rs r);
    [| |done|done|].
  - intros ps [] w' r' (Hst & Hout & Hlog) Hr Hpos. unfold process_turn.
    wp_step. apply (receive_message_wp _ r'); [done|done|].
    intros w'' Hst' Hlog' Hout' _. cbn [bind_post]. rewrite (proj2 (Z.ltb_lt _ _)) by done. wp_step.
    exists tt. unfold calls in *. rewrite Hst', Hlog', Hout', Hout, !map_app, Hlog, concat_app,
      length_app, replicate_add; simpl. rewrite app_nil_r, <- !app_assoc. done.
  - intros [] w' (Hst & Hout & Hlog) Hr Hneg. unfold process_turn.
    destruct (Hrecv _ _ _ _ _ Hr ltac:(done)) as [Hle _].
    wp_step. apply (receive_message_wp _ r); [done|done|].
    intros w'' Hst' Hlog' Hout' He. cbn [bind_post]. rewrite (proj2 (Z.ltb_ge _ _)) by done.
    unfold message_out in Hout'. rewrite (proj2 (Z.ltb_ge _ _)), app_nil_r in Hout' by done.
    unfold calls in *. destruct (Z.eqb_spec (r_ret r) 0) as [H0|H0]; simpl.
    + wp_steps. unfold removefd. wp_steps_ret Hret.
      rewrite Hst', Hout', Hlog', !map_app, Hlog, app_comm_cons, replicate_cons_app, <- !app_assoc. done.
    + rewrite (proj2 (Z.ltb_lt _ _)) in He by lia. wp_steps. rewrite He.
      destruct ((r_errno r =? EAGAIN) || (r_errno r =? EWOULDBLOCK)); unfold removefd; wp_steps_ret Hret;
      rewrite Hst', Hout', Hlog', !map_app, Hlog, app_comm_cons, replicate_cons_app, <- !app_assoc; done.
  - unfold calls; simpl. rewrite map_app, !app_nil_r. done.
Qed.
End testconn_serves.

Section handler.
Context `{Env} {T : Type}.

Lemma wrap_s_u sig : 0 <= sig < 128 -> wrap_s 8 (wrap_u 8 sig) = sig.
Proof. intros Hs. rewrite wrap_u_id by lia. apply wrap_s_id; lia. Qed.

(** The signal handler interrupts any instruction without being noticed: it
    changes neither the state nor errno, it sends one byte to the signal pipe, and
    the main loop, which reads that byte as a [char], gets the signal back. *)
Theorem sig_handler_transparent sig (w : world (SrvProcessPool T)) :
  returns -> 0 <= sig < 128 ->
  wp (sig_handler sig) (fun r w' => r = Ok tt /\ w_st w' = w_st w /\ w_errno w' = w_errno w /\
    exists b, calls w' = calls w ++ [Send (snd (sig_pipefd (w_st w))) [b] 0] /\
      wrap_s 8 b = sig) w.
Proof.
  intros Hret Hsig. unfold sig_handler. wp_steps_ret Hret. unfold set_errno, wp. simpl.
  split_and!; [done..|]. exists (wrap_u 8 sig). unfold calls. simpl.
  rewrite map_app, wrap_s_u by done. done.
Qed.
End handler.

(** ** The child *)

Section child_props.
Context `{Env} {T : Type} `{!UserConn T}.
Implicit Types w : world (SrvProcessPool T).

Lemma child_new_con_wp `{!UserConnOk T} fd r w :
  returns -> recv_contract -> env (w_log w) (Recv fd 4 0) = Some r ->
  wp (child_new_con fd) (fun x w' =>
    let w1 := after (Recv fd 4 0) r w in
    if r_ret r <=? 0 then x = Ok (inl tt) /\ w' = w1
    else exists ra, env (w_log w1) (Accept (_listenfd (w_st w))) = Some ra /\
      let cfd := r_ret ra in
      if cfd <? 0 then x = Ok (inr tt) /\ w_st w' = w_st w
      else if cfd <? USER_PER_PROCESS then
        exists w2 y w3, w_st w2 = w_st w /\
          (exists fl, calls w2 = calls w1 ++ [Accept (_listenfd (w_st w));
            EpollCtlAdd (_epollfd (w_st w)) cfd EPOLLIN; FcntlGetfl cfd;
            FcntlSetfl cfd (Z.lor fl O_NONBLOCK)]) /\
          user_init (_epollfd (w_st w)) cfd (r_data ra)
            (default user_new (users (w_st w) !! cfd)) w2 = (y, w3) /\
          match y with
          | Ok u => x = Ok (inl tt) /\ w_log w' = w_log w3 /\
              w_st w' = set_users (<[cfd := u]> (users (w_st w))) (w_st w)
          | Stop h => x = Stop h
          end
      else x = Stop HUB) w.
Proof.
  intros Hret Hrecv Hr. unfold child_new_con. wp_step. apply (recv_wp _ _ _ _ r); [done|done|simpl; lia|].
  intros [Hle Hdl]. cbn [bind_post]. rewrite wrap_s32_id by lia. destruct (Z.leb_spec (r_ret r) 0); [by wp_step|].
  wp_steps_ret Hret. rename H1 into Ha.
  destruct (Z.ltb_spec (r_ret r0) 0) as [Hneg|Hpos].
  { wp_step. exists r0. split; [done|]. by rewrite (proj2 (Z.ltb_lt _ _)). }
  unfold addfd, setnonblocking, user_at.
  wp_steps_ret Hret. rewrite (proj2 (Z.leb_le _ _)) by done. cbn [andb].
  assert (Hfd : (r_ret r0 <? 0) = false) by lia.
  destruct (r_ret r0 <? USER_PER_PROCESS) eqn:Hmax.
  2: { wp_step. exists r0. by rewrite Hfd, Hmax. }
  wp_step. cbn [bind_post]. wp_step.
  match goal with |- wp (user_init _ _ _ ?u) _ ?w' =>
    set (w2 := w'); pose proof (user_init_quiet (_epollfd (w_st w)) (r_ret r0) (r_data r0) u w2) as Hq
  end.
  unfold wp in *. destruct (user_init _ _ _ _ w2) as [y w3] eqn:Hinit. destruct Hq as [Hst _].
  assert (Hcalls : exists fl, calls w2 = calls (after (Recv fd 4 0) r w) ++
    [Accept (_listenfd (w_st w)); EpollCtlAdd (_epollfd (w_st w)) (r_ret r0) EPOLLIN;
     FcntlGetfl (r_ret r0); FcntlSetfl (r_ret r0) (Z.lor fl O_NONBLOCK)]).
  { eexists. unfold calls, w2; simpl. by rewrite !map_app, <- !app_assoc. }
  destruct y as [u|h]; cbn [bind_post].
  - unfold set_user. wp_steps. exists r0. split; [done|]. rewrite Hfd, Hmax.
    exists w2, (Ok u), w3. split_and!; [done|done|done|done|done|].
    by rewrite Hst.
  - exists r0. split; [done|]. rewrite Hfd, Hmax. by exists w2, (Stop h), w3.
Qed.

(** A notification in the child: nothing happens if the pipe had no byte; a
    failed accept only leaves the loop over the events; otherwise the new
    connection is watched for input, level triggered, made non-blocking and
    handed to the object of its fd - and an fd beyond the table of
    USER_PER_PROCESS objects is an access out of range. *)
Theorem child_new_con_branches `{!UserConnOk T} fd r w :
  returns -> recv_contract -> env (w_log w) (Recv fd 4 0) = Some r ->
  wp (child_new_con fd) (fun x w' =>
    let w1 := after (Recv fd 4 0) r w in
    if r_ret r <=? 0 then x = Ok (inl tt) /\ w' = w1
    else exists ra, env (w_log w1) (Accept (_listenfd (w_st w))) = Some ra /\
      let cfd := r_ret ra in
      if cfd <? 0 then x = Ok (inr tt) /\ w_st w' = w_st w
      else if cfd <? USER_PER_PROCESS then
        exists w2 y w3, w_st w2 = w_st w /\
          (exists fl, calls w2 = calls w1 ++ [Accept (_listenfd (w_st w));
            EpollCtlAdd (_epollfd (w_st w)) cfd EPOLLIN; FcntlGetfl cfd;
            FcntlSetfl cfd (Z.lor fl O_NONBLOCK)]) /\
          user_init (_epollfd (w_st w)) cfd (r_data ra)
            (default user_new (users (w_st w) !! cfd)) w2 = (y, w3) /\
          match y with
          | Ok u => x = Ok (inl tt) /\ w_log w' = w_log w3 /\
              w_st w' = set_users (<[cfd := u]> (users (w_st w))) (w_st w)
          | Stop h => x = Stop h
          end
      else x = Stop HUB) w.
Proof. apply child_new_con_wp. Qed.
End child_props.

(** ** Signals in the child *)

Definition is_term (sig : Z) : bool := (sig =? SIGTERM) || (sig =? SIGINT).

Section child_signal_props.
Context `{Env} {T : Type} `{!UserConn T}.
Implicit Types w : world (SrvProcessPool T).

Definition stop_if (b : bool) (p : SrvProcessPool T) : SrvProcessPool T :=
  if b then set_stop true p else p.

Lemma stop_if_twice b b' p : stop_if b (stop_if b' p) = stop_if (b' || b) p.
Proof. by destruct b, b'. Qed.

Lemma child_signal_wp m sig (Q : res unit -> world (SrvProcessPool T) -> Prop) w :
  returns -> reaped_below m ->
  (forall w', w_st w' = stop_if (is_term sig) (w_st w) -> Q (Ok tt) w') ->
  wp (child_signal (S m) sig) Q w.
Proof.
  intros Hret Hm HQ. unfold child_signal. destruct (Z.eqb_spec sig SIGCHLD) as [->|Hne].
  - apply (reap_wp (fun _ w' => w_st w' = w_st w) m); [done|done| | |lia|done].
    + intros ps r w' Hst Hpos. wp_step. split_and!; [done|done|]. rewrite reaped_app. f_equal.
      cbn. by rewrite (proj2 (Z.ltb_lt _ _)).
    + intros ps r w' Hst _. by apply HQ.
  - fold (is_term sig). unfold stop_if in HQ. destruct (is_term sig); wp_step; by apply HQ.
Qed.

Lemma each_signal_wp m signals (k : nat) (Q : res unit -> world (SrvProcessPool T) -> Prop) w :
  returns -> reaped_below m -> (k <= length signals)%nat ->
  (forall w', w_st w' = stop_if (existsb is_term (map (wrap_s 8) (take k signals))) (w_st w) ->
    Q (Ok tt) w') ->
  wp (each_signal signals (Z.of_nat k) (child_signal (S m))) Q w.
Proof.
  intros Hret Hm Hk HQ. unfold each_signal.
  apply (wp_for_each_range (fun i w' => w_st w' =
    stop_if (existsb is_term (map (wrap_s 8) (take (Z.to_nat i) signals))) (w_st w)));
    [lia| | |done].
  - intros w' Hst. apply HQ. by rewrite Nat2Z.id in Hst.
  - intros i w' Hi Hst. wp_step.
    destruct (lookup_lt_is_Some_2 signals (Z.to_nat i) ltac:(lia)) as [sig Hsig].
    apply wp_index; [|rewrite lookupZ_None; lia].
    intros sig' [_ Hsig']%lookupZ_Some. simplify_eq. cbn [bind_post].
    apply (child_signal_wp m); [done|done|]. intros w'' Hst''. rewrite Hst'', Hst.
    replace (Z.to_nat (i + 1)) with (S (Z.to_nat i)) by lia.
    rewrite (take_S_r _ _ _ Hsig), map_app, existsb_app. cbn [map existsb]. rewrite orb_false_r.
    apply stop_if_twice.
Qed.

(** Signals of the child: a batch of bytes from the signal pipe sets the stop
    flag when one of them is SIGTERM or SIGINT, wherever it is in the batch, and
    changes nothing else; an empty pipe ends the loop; and once the flag is set
    the main loop ends without waiting again. *)
Theorem child_signals_stop junk m r pipefd w :
  returns -> recv_contract -> reaped_below m -> length junk = 1024%nat ->
  env (w_log w) (Recv (fst (sig_pipefd (w_st w))) 1024 0) = Some r ->
  wp (child_signals_turn junk (S m) tt) (fun x w' =>
    if r_ret r <=? 0 then x = Ok (inr tt) /\ w_st w' = w_st w
    else x = Ok (inl tt) /\
      w_st w' = stop_if (existsb is_term (map (wrap_s 8) (r_data r))) (w_st w) /\
      (existsb is_term (map (wrap_s 8) (r_data r)) = true ->
       wp (child_turn junk (S m) pipefd tt) (fun y w'' => y = Ok (inr tt) /\ w'' = w') w')) w.
Proof.
  intros Hret Hrecv Hm Hjunk Hr. unfold child_signals_turn. do 2 wp_step. cbn [bind_post]. wp_step.
  apply (recv_wp _ _ _ _ r); [done|done|lia|]. intros [Hle Hdl]. cbn [bind_post].
  rewrite wrap_s32_id by lia. destruct (Z.leb_spec (r_ret r) 0) as [Hn|Hp]; [by wp_step|].
  assert (Htake : take (length (r_data r)) (buf_write junk (r_data r)) = r_data r).
  { unfold buf_write. apply take_app_length. }
  wp_step. replace (r_ret r) with (Z.of_nat (length (r_data r))) by lia.
  apply (each_signal_wp m); [done|done| |].
  { rewrite length_buf_write by lia. lia. }
  intros w' Hst. cbn [bind_post]. wp_step. rewrite Htake in Hst.
  split_and!; [done|done|]. intros Hterm. rewrite Hterm in Hst. unfold child_turn.
  wp_step. wp_step. rewrite Hst. simpl. wp_step. done.
Qed.
End child_signal_props.

(** ** Connections of the child *)

Definition added (epfd : Z) (L : list event) : list Z := omap (adds_fd epfd) (map fst L).

Lemma added_app e L1 L2 : added e (L1 ++ L2) = added e L1 ++ added e L2.
Proof. unfold added. by rewrite map_app, omap_app. Qed.

Lemma added_quiet e L : Forall no_add L -> added e L = [].
Proof.
  induction 1 as [|[c r] L Hc HL IH]; [done|]. unfold added in *. simpl. destruct c; simpl in *; done.
Qed.

(** epoll_wait(2) reports only fds that were added to the instance. *)
Definition epoll_contract `{Env} : Prop :=
  forall h epfd n t r fd ev, env h (EpollWait epfd n t) = Some r ->
    (fd, ev) ∈ r_evs r -> fd ∈ added epfd h.

Section users_invariant.
Context `{Env} {T : Type} `{!UserConn T}.
Implicit Types w : world (SrvProcessPool T).

(** Every fd the child watches is the pipe of the parent, its signal pipe, or a
    connection whose object has been initialised; [e] is its epoll instance and
    [s] its signal pipe. *)
Definition users_ok (e s pipefd : Z) w : Prop :=
  _epollfd (w_st w) = e /\ fst (sig_pipefd (w_st w)) = s /\
  forall fd, fd ∈ added e (w_log w) -> fd = pipefd \/ fd = s \/ is_Some (users (w_st w) !! fd).

Lemma users_ok_quiet e s pipefd w w' : users_ok e s pipefd w -> quiet w w' -> users_ok e s pipefd w'.
Proof.
  intros (He & Hs & Hu) (Hst & L & HL & HF). split_and!; [by rewrite Hst..|].
  intros fd. rewrite Hst, HL, added_app, (added_quiet _ _ HF), app_nil_r. auto.
Qed.

Lemma users_ok_log e s pipefd w w' L : users_ok e s pipefd w ->
  w_log w' = w_log w ++ L -> Forall no_add L ->
  _epollfd (w_st w') = _epollfd (w_st w) -> sig_pipefd (w_st w') = sig_pipefd (w_st w) ->
  (forall fd, is_Some (users (w_st w) !! fd) -> is_Some (users (w_st w') !! fd)) ->
  users_ok e s pipefd w'.
Proof.
  intros (He & Hs & Hu) HL HF He' Hs' Hu'. split_and!; [congruence..|].
  intros fd. rewrite HL, added_app, (added_quiet _ _ HF), app_nil_r. intros [?|[?|?]]%Hu; auto.
Qed.

(** Code that, where it completes, keeps the invariant. *)
Definition keeps e s pipefd {A} (m : M (SrvProcessPool T) A) : Prop :=
  forall w, users_ok e s pipefd w ->
    wp m (fun r w' => match r with Ok _ => users_ok e s pipefd w' | Stop _ => True end) w.

Lemma keeps_ret e s p {A} (a : A) : keeps e s p (mret a).
Proof. by intros w Hu. Qed.

Lemma keeps_stop e s p {A} h : keeps e s p (stop h : M (SrvProcessPool T) A).
Proof. by intros w Hu. Qed.

Lemma keeps_get e s p : keeps e s p get.
Proof. by intros w Hu. Qed.

Lemma keeps_bind e s p {A B} (m : M (SrvProcessPool T) A) (k : A -> M (SrvProcessPool T) B) :
  keeps e s p m -> (forall a, keeps e s p (k a)) -> keeps e s p (m ≫= k).
Proof.
  intros Hm Hk w Hu. apply wp_bind. eapply wp_mono; [by apply Hm|].
  intros [a|h] w' Hw; cbn [bind_post]; [by apply Hk|done].
Qed.

Lemma keeps_index e s p {A} (l : list A) i : keeps e s p (index l i).
Proof. intros w Hu. by apply wp_index. Qed.

Lemma keeps_if e s p {A} (b : bool) (m1 m2 : M (SrvProcessPool T) A) :
  keeps e s p m1 -> keeps e s p m2 -> keeps e s p (if b then m1 else m2).
Proof. by destruct b. Qed.

Lemma keeps_sys e s p c : (forall r, no_add (c, r)) -> keeps e s p (sys c).
Proof.
  intros Hc w Hu. apply wp_sys; [done|]. intros r _. eapply users_ok_quiet; [done|].
  by apply quiet_after, quiet_refl.
Qed.

Lemma keeps_sys_ e s p c : (forall r, no_add (c, r)) -> keeps e s p (sys_ c).
Proof. intros Hc. apply keeps_bind; [by apply keeps_sys|]. intros r. apply keeps_ret. Qed.

Lemma keeps_while e s p {A B} n (body : A -> M (SrvProcessPool T) (A + B)) a :
  (forall a, keeps e s p (body a)) -> keeps e s p (while_ n body a).
Proof.
  intros Hbody w Hu. apply (wp_while (fun _ w' => users_ok e s p w')); [done| |done].
  intros a' w' Hu'. eapply wp_mono; [by apply Hbody|]. by intros [[a''|b]|h] w''.
Qed.

Lemma keeps_for e s p {I A} (l : list I) (body : I -> A -> M (SrvProcessPool T) (A + A)) a :
  (forall i a, keeps e s p (body i a)) -> keeps e s p (for_ l body a).
Proof.
  intros Hbody w Hu. apply (wp_for (fun _ _ w' => users_ok e s p w')); [done| |done].
  intros i l' a' w' Hu'. eapply wp_mono; [by apply Hbody|]. by intros [[a''|b]|h] w''.
Qed.

Lemma keeps_for_each e s p {I} (l : list I) (body : I -> M (SrvProcessPool T) unit) :
  (forall i, keeps e s p (body i)) -> keeps e s p (for_each l body).
Proof.
  intros Hbody. apply keeps_for. intros i a. apply keeps_bind; [done|]. intros b. apply keeps_ret.
Qed.

Lemma keeps_set_stop e s p b : keeps e s p (modify (set_stop b)).
Proof.
  intros w Hu. apply wp_modify. eapply (users_ok_log _ _ _ w _ []); try done. by rewrite app_nil_r.
Qed.

Lemma keeps_get_errno e s p : keeps e s p get_errno.
Proof. by intros w Hu. Qed.

Lemma keeps_set_user e s p i (u : T) : keeps e s p (set_user i u).
Proof.
  intros w Hu. apply wp_modify. eapply (users_ok_log _ _ _ w _ []); try done; simpl.
  - by rewrite app_nil_r.
  - intros j Hj. destruct (decide (i = j)) as [->|]; by rewrite ?lookup_insert_eq, ?lookup_insert_ne.
Qed.
End users_invariant.

#[export] Hint Resolve keeps_ret keeps_stop keeps_get keeps_bind keeps_index keeps_if keeps_sys
  keeps_sys_ keeps_while keeps_for keeps_for_each keeps_set_stop keeps_get_errno keeps_set_user : server.

Section users_keep.
Context `{Env} {T : Type} `{!UserConn T}.
Implicit Types w : world (SrvProcessPool T).

Lemma keeps_recv e s p fd buf len fl : keeps (T:=T) e s p (recv fd buf len fl).
Proof.
  unfold recv, fill. apply keeps_bind; [by apply keeps_sys|]. intros r.
  apply keeps_bind; [case_bool_decide|]; eauto with server.
Qed.

Lemma keeps_user_at e s p i : keeps e s p (user_at (T:=T) i).
Proof. unfold user_at. eauto 10 with server. Qed.

Lemma keeps_child_signals e s p junk fuel : keeps e s p (child_signals (T:=T) junk fuel).
Proof.
  unfold child_signals. apply keeps_while. intros []. unfold child_signals_turn.
  apply keeps_bind; [apply keeps_get|]. intros st. apply keeps_bind; [apply keeps_recv|].
  intros [ret signals]. apply keeps_if; [apply keeps_ret|].
  apply keeps_bind; [|eauto with server]. unfold each_signal. apply keeps_for_each. intros i.
  apply keeps_bind; [apply keeps_index|]. intros sig. unfold child_signal, reap.
  repeat apply keeps_if; [|apply keeps_set_stop|apply keeps_ret]. apply keeps_while. intros _.
  apply keeps_bind; [by apply keeps_sys_|]. intros pid. apply keeps_if; eauto with server.
Qed.

(** A new connection is watched only together with an initialised object. *)
Lemma keeps_child_new_con `{!UserConnOk T} e s p fd : keeps e s p (child_new_con (T:=T) fd).
Proof.
  unfold child_new_con. apply keeps_bind; [apply keeps_recv|]. intros [ret buf].
  apply keeps_if; [apply keeps_ret|]. apply keeps_bind; [apply keeps_get|]. intros st.
  apply keeps_bind; [by apply keeps_sys|]. intros r. apply keeps_if; [apply keeps_ret|].
  intros w Hu. unfold addfd, setnonblocking, user_at. wp_steps; try done. repeat case_match; [|by wp_step].
  wp_steps. eapply wp_mono; [apply user_init_quiet|]. intros [u|h] w' [Hst (L & HL & HF)]; [|done].
  cbn [bind_post]. unfold set_user. wp_steps. destruct Hu as (He & Hs & Hus).
  split_and!; simpl in *; rewrite ?Hst; [done..|]. intros fd'.
  rewrite HL, !added_app, (added_quiet _ _ HF), !app_nil_r. intros [Hin|Hin]%elem_of_app.
  - destruct (Hus _ Hin) as [?|[?|?]]; auto. right; right.
    destruct (decide (r_ret r = fd')) as [->|]; by rewrite ?lookup_insert_eq, ?lookup_insert_ne.
  - right; right. unfold added in Hin. simpl in Hin. destruct (_ =? e); [|by apply elem_of_nil in Hin].
    apply list_elem_of_singleton in Hin as ->. by rewrite lookup_insert_eq.
Qed.

Lemma keeps_user_process `{!UserConnOk T} e s p fuel (u : T) : keeps (T:=T) e s p (user_process fuel u).
Proof.
  intros w Hu. eapply wp_mono; [apply user_process_quiet|].
  intros [u'|h] w' Hq; [|done]. by eapply users_ok_quiet.
Qed.

Lemma keeps_child_turn `{!UserConnOk T} e s p junk fuel : keeps e s p (child_turn (T:=T) junk fuel p tt).
Proof.
  unfold child_turn. apply keeps_bind; [apply keeps_get|]. intros st. apply keeps_if; [apply keeps_ret|].
  apply keeps_bind; [by apply keeps_sys|]. intros r. apply keeps_bind; [apply keeps_get_errno|]. intros en.
  apply keeps_if; [apply keeps_ret|]. apply keeps_bind; [|intros ?; apply keeps_ret].
  apply keeps_for. intros i _. apply keeps_bind; [apply keeps_index|]. intros [fd ev].
  unfold child_event. apply keeps_bind; [apply keeps_get|]. intros st'.
  repeat apply keeps_if; [by apply keeps_child_new_con| | |apply keeps_ret];
    apply keeps_bind; try (intros ?; apply keeps_ret);
    [apply keeps_child_signals|apply keeps_user_at|].
  intros u. apply keeps_bind; [by apply keeps_user_process|]. eauto 10 with server.
Qed.

(** C32. The child serves only connections it has initialised: if every fd it
    watches is the pipe of the parent, its signal pipe or a connection whose
    object was initialised, then so is every fd epoll reports, and the same holds
    after a turn of the main loop, whatever the turn does. *)
Theorem child_serves_initialised `{!UserConnOk T} e s pipefd junk fuel w :
  epoll_contract -> users_ok e s pipefd w ->
  (forall r fd ev, env (w_log w) (EpollWait e MAX_EVENT_NUMBER (-1)) = Some r ->
    (fd, ev) ∈ r_evs r -> fd = pipefd \/ fd = s \/ is_Some (users (w_st w) !! fd)) /\
  wp (child_turn junk fuel pipefd tt) (fun r w' =>
    match r with Ok _ => users_ok e s pipefd w' | Stop _ => True end) w.
Proof.
  intros Hep Hu. split; [|by apply keeps_child_turn].
  intros r fd ev Hr Hin. destruct Hu as (He & Hs & Hus). apply Hus. by eapply Hep.
Qed.
End users_keep.

(** ** Creating the children *)

Definition fork_of (e : event) : option Z :=
  match e with (Fork, r) => Some (r_ret r) | _ => None end.
Definition forks (L : list event) : list Z := omap fork_of L.
Definition pairs (L : list event) : list (Z * Z) := omap pair_of L.

Lemma forks_app L1 L2 : forks (L1 ++ L2) = forks L1 ++ forks L2.
Proof. apply omap_app. Qed.
Lemma pairs_app L1 L2 : pairs (L1 ++ L2) = pairs L1 ++ pairs L2.
Proof. apply omap_app. Qed.

Section fork_props.
Context `{Env} {T : Type} `{!UserConn T}.
Implicit Types w : world (SrvProcessPool T).

(** The table of [n] children of which [ps] have been created, and what the
    calls of the log say: the fds and the pids of [ps], and the fds closed. *)
Definition created (n : Z) (ps : list Process) (idx : Z) (closes : list Z)
    (w w' : world (SrvProcessPool T)) : Prop :=
  (length ps <= Z.to_nat n)%nat /\
  w_st w' = set_idx idx (set_sub_process
    (ps ++ replicate (Z.to_nat n - length ps) new_Process) (w_st w)) /\
  forks (w_log w') = forks (w_log w) ++ map m_pid ps /\
  pairs (w_log w') = pairs (w_log w) ++ map m_pipefd ps /\
  closed (w_log w') = closed (w_log w) ++ closes.

(** The fd of the pipe that the parent, resp. the child, does not use. *)
Definition child_end (p : Process) : Z := snd (m_pipefd p).
Definition parent_end (p : Process) : Z := fst (m_pipefd p).

Lemma insert_next (ps : list Process) m p :
  <[length ps := p]> (ps ++ replicate (S m) new_Process) = (ps ++ [p]) ++ replicate m new_Process.
Proof. rewrite insert_app_r_alt, Nat.sub_diag, <- app_assoc by lia. done. Qed.

(** One turn: either the process is still the parent, or it is the new child. *)
Lemma fork_turn_wp n ps w0 w (Q : res (unit + unit) -> world (SrvProcessPool T) -> Prop) :
  returns -> socketpair_contract ->
  created n ps (-1) (map child_end ps) w0 w -> (length ps < Z.to_nat n)%nat ->
  (forall w', Q (Stop HAssert) w') ->
  (forall p w', 0 < m_pid p -> created n (ps ++ [p]) (-1) (map child_end (ps ++ [p])) w0 w' ->
    Q (Ok (inl tt)) w') ->
  (forall p w', m_pid p = 0 ->
    created n (ps ++ [p]) (Z.of_nat (length ps)) (map child_end ps ++ [parent_end p]) w0 w' ->
    Q (Ok (inr tt)) w') ->
  wp (fork_turn (Z.of_nat (length ps)) tt) Q w.
Proof.
  intros Hret Hsp (Hlen & Hst & Hf & Hp & Hc) Hlt Hassert Hparent Hchild. unfold fork_turn.
  wp_step. apply wp_sys_returns; [done|]. intros r Hr. cbn [bind_post]. wp_step.
  apply wp_assert; [|intros; by apply Hassert]. intros H0%Z.eqb_eq.
  destruct (Hsp _ _ _ _ _ Hr H0) as (a & b & Hdata). rewrite Hdata. cbn [bind_post]. unfold index. simpl.
  wp_steps_ret Hret; [|done]. rename r0 into rf.
  match goal with |- wp _ _ ?w' => set (w1 := w') end.
  set (p := mkProcess (r_ret rf) (a, b)).
  assert (Hw1 : created n (ps ++ [p]) (-1) (map child_end ps) w0 w1).
  { split_and!; simpl.
    - rewrite length_app; simpl; lia.
    - rewrite Hst. unfold set_idx, set_sub_process; simpl. f_equal. rewrite insertZ_of_nat.
      destruct (Z.to_nat n - length ps)%nat as [|m] eqn:Hm; [lia|].
      rewrite insert_next, length_app; simpl. do 2 f_equal. lia.
    - rewrite !forks_app, Hf, map_app, app_nil_r, <- app_assoc. done.
    - rewrite !pairs_app, Hp, map_app, app_nil_r, <- app_assoc. cbn. by rewrite Hdata.
    - rewrite !closed_app, Hc, !app_nil_r. done. }
  assert (Hends : m_pid p = r_ret rf /\ child_end p = b /\ parent_end p = a) by done.
  destruct Hw1 as (Hlen1 & Hst1 & Hf1 & Hp1 & Hc1), Hends as (Hpid & Hb & Ha).
  clearbody w1 p. unfold setnonblocking.
  destruct (Z.ltb_spec 0 (r_ret rf)) as [Hpos|Hneg]; wp_steps_ret Hret.
  - apply (Hparent p); [lia|]. split_and!; [done|done|..]; simpl;
      rewrite ?forks_app, ?pairs_app, ?closed_app, ?Hf1, ?Hp1, ?Hc1, !app_nil_r; [done|done|].
    rewrite map_app, <- app_assoc. simpl. by rewrite Hb.
  - apply (Hchild p); [lia|]. split_and!; [done|by rewrite Hst1|..]; simpl;
      rewrite ?forks_app, ?pairs_app, ?closed_app, ?Hf1, ?Hp1, ?Hc1, !app_nil_r; [done|done|].
    rewrite <- app_assoc. by rewrite Ha.
Qed.

(** C34. Creating the pool: for an admissible number [n] of children, either a
    socketpair or fork failed and the assertion stops the program, or the process
    is the parent of [n] children, holding one end of each pipe and having closed
    the other, or it is a child number [i] = the number of earlier siblings, with
    its table filled up to itself - which has closed only its own parent end: the
    parent ends of all earlier siblings' pipes stay open in it. *)
Theorem fork_children_roles n w :
  returns -> socketpair_contract -> _process_number (w_st w) = n -> 0 < n <= MAX_PROCESS_NUMBER ->
  _idx (w_st w) = -1 ->
  wp fork_children (fun r w' => match r with
    | Stop h => h = HAssert
    | Ok _ =>
        (exists ps, Z.of_nat (length ps) = n /\ Forall (fun p => 0 < m_pid p) ps /\
           created n ps (-1) (map child_end ps) w w') \/
        (exists ps p, Z.of_nat (length ps) < n /\ Forall (fun p => 0 < m_pid p) ps /\ m_pid p = 0 /\
           created n (ps ++ [p]) (Z.of_nat (length ps)) (map child_end ps ++ [parent_end p]) w w')
    end) w.
Proof.
  intros Hret Hsp Hn Hn16 Hidx. unfold fork_children. do 3 wp_step. rewrite Hn.
  apply wp_assert; [|unfold MAX_PROCESS_NUMBER in *; lia]. intros _. cbn [bind_post]. do 2 wp_step.
  cbn [bind_post].
  apply (wp_for_range (fun i _ w' => exists ps, Z.of_nat (length ps) = i /\
    Forall (fun p => 0 < m_pid p) ps /\ created n ps (-1) (map child_end ps) w w')); [lia| | |].
  - intros [] w' (ps & Hlen & Hpos & Hc). left. by exists ps.
  - intros i [] w' Hi (ps & <- & Hpos & Hc). apply (fork_turn_wp n ps w); [done|done|done|lia|done| |].
    + intros p w'' Hp Hc'. exists (ps ++ [p]). rewrite length_app; simpl.
      split_and!; [lia| |done]. apply Forall_app. by repeat constructor.
    + intros p w'' Hp Hc'. right. exists ps, p. split_and!; [lia|done..].
  - exists []. split_and!; [done|done|]. split_and!; simpl; rewrite ?app_nil_r; [lia| |done..].
    rewrite Nat.sub_0_r, <- Hidx. by destruct (w_st w).
Qed.

(** The size of the pool is checked: with a number of children that is not
    positive or exceeds MAX_PROCESS_NUMBER the assertion in [run] stops the
    program before any process is created. *)
Lemma run_rejects_size junk fuel w :
  ~ (0 < _process_number (w_st w) <= MAX_PROCESS_NUMBER) ->
  run junk fuel w = (Stop HAssert, w).
Proof.
  intros Hn. unfold run, fork_children, mbind, M_bind, get. simpl. unfold assert_.
  destruct ((0 <? _process_number (w_st w)) && (_process_number (w_st w) <=? MAX_PROCESS_NUMBER)) eqn:E;
    [lia|done].
Qed.
End fork_props.

(** ** The theorems at concrete inputs *)

(** An environment in which every call returns: sockets hold one chunk "hi",
    the signal pipe 9 one SIGTERM among other bytes, waitpid reports child 102
    once, epoll reports nothing. *)
Definition count_calls (f : call -> bool) (h : list event) : nat := countb (fun e => f (fst e)) h.
Definition is_recv (c : call) : bool := match c with Recv _ _ _ => true | _ => false end.
Definition is_waitpid (c : call) : bool := match c with Waitpid _ _ => true | _ => false end.

Definition demo_env : Env := fun h c => Some (match c with
  | Recv f len _ =>
      if bool_decide (count_calls is_recv h = 0%nat) then
        if (f =? 9) && (3 <=? len) then ret_data [17; 15; 2]
        else if (len =? 4) then ret_data [1; 0; 0; 0]
        else if (2 <=? len) then ret_data [104; 105] else ret_err EAGAIN
      else ret_err EAGAIN
  | Waitpid _ _ => if bool_decide (count_calls is_waitpid h = 0%nat) then ret_ok 102 else ret_ok 0
  | Accept _ => Reply 30 0 [2; 0] [] None
  | SocketPair _ _ _ => Reply 0 0 [40 + Z.of_nat (length h); 41 + Z.of_nat (length h)] [] None
  | Fork => ret_ok (100 + Z.of_nat (length h))
  | _ => ret_ok 0
  end).

Lemma pp_returns : @returns demo_env.
Proof. intros h c. by eexists. Qed.

Lemma pp_recv : @recv_contract demo_env.
Proof. intros h f len fl r [= <-] Hlen. repeat case_match; split; simpl; lia. Qed.

Lemma pp_socketpair : @socketpair_contract demo_env.
Proof. intros h d t p r [= <-] _. by do 2 eexists. Qed.

Lemma demo_epoll : @epoll_contract demo_env.
Proof. intros h e n t r fd ev [= <-] Hin. by apply elem_of_nil in Hin. Qed.

Lemma demo_reaped : @reaped_below demo_env 1.
Proof.
  intros h r [= <-]. case_bool_decide as E; [|done]. intros _. revert E. unfold count_calls, reaped.
  induction h as [|[c r] h IH]; simpl; [lia|]. by destruct c.
Qed.

(** Three children, of which the second has exited; the signal pipe is (9, 10). *)
Definition demo_procs : list Process :=
  [mkProcess 101 (21, 0); mkProcess (-1) (22, 0); mkProcess 102 (23, 0)].
Definition demo_pool (procs : list Process) : SrvProcessPool TestConn :=
  mkPool (9, 10) 3 (-1) 8 7 false procs ∅.
Definition demo_world (procs : list Process) : world (SrvProcessPool TestConn) :=
  World (demo_pool procs) 0 [] [].
Definition demo_alive : list Process :=
  [mkProcess 101 (21, 0); mkProcess 103 (22, 0); mkProcess 102 (23, 0)].

Lemma demo_ok procs : length procs = 3%nat -> procs_ok 3 (demo_pool procs).
Proof. by intros Hlen. Qed.

Lemma parent_new_con_round_robin_witness :
  wp (@parent_new_con demo_env _ 1) (fun r w' =>
    (exists d, 0 <= d < 3 /\ all_dead 3 (demo_pool demo_procs) 1 d /\
       live (child (demo_pool demo_procs) (after_child 3 1 d)) = true /\
       r = Ok (inl (after_child 3 1 (d + 1))) /\ w_st w' = demo_pool demo_procs /\
       map fst (w_log w') = map fst ([] : list event) ++
         [Send (fst (m_pipefd (child (demo_pool demo_procs) (after_child 3 1 d)))) [1; 0; 0; 0] 0]) \/
    (all_dead 3 (demo_pool demo_procs) 1 3 /\ r = Ok (inr 1) /\
       w_st w' = set_stop true (demo_pool demo_procs) /\ w_log w' = []))
    (demo_world demo_procs).
Proof.
  apply (@parent_new_con_round_robin demo_env _ 3 1 (demo_world demo_procs));
    [apply pp_returns | by apply demo_ok | done].
Defined.

Lemma parent_connections_fair_witness :
  wp (for_ [(7, 1); (7, 1); (7, 1); (7, 1)] (fun ev c => @parent_event demo_env _ [] 2 c ev) 2)
    (fun r w' => r = Ok (after_child 3 2 4) /\ w_st w' = demo_pool demo_alive /\
      map fst (w_log w') = map fst ([] : list event) ++ map (fun i =>
        Send (fst (m_pipefd (child (demo_pool demo_alive) (after_child 3 2 (Z.of_nat i))))) [1; 0; 0; 0] 0)
        (seq 0 4)) (demo_world demo_alive).
Proof.
  apply (@parent_connections_fair demo_env TestConn [] 2 3 2 [(7, 1); (7, 1); (7, 1); (7, 1)]
    (demo_world demo_alive));
    [apply pp_returns | by apply demo_ok | done | by repeat constructor |].
  intros k Hk. assert (k = 0 \/ k = 1 \/ k = 2) as [->|[->| ->]] by lia; reflexivity.
Defined.

Lemma parent_sigchld_witness :
  wp (@parent_signal demo_env TestConn 2 SIGCHLD) (fun r w' => r = Ok tt /\ exists pids,
    reaped (w_log w') = reaped [] ++ pids /\
    closed (w_log w') ≡ₚ closed [] ++ pipes_of pids demo_procs /\
    let procs := map (mark pids) demo_procs in
    w_st w' = set_stop (forallb (fun p => negb (live p)) procs)
      (set_sub_process procs (demo_pool demo_procs))) (demo_world demo_procs).
Proof.
  apply (@parent_sigchld demo_env TestConn 3 1 (demo_world demo_procs));
    [apply pp_returns | apply demo_reaped | by apply demo_ok].
Defined.

Lemma parent_sigterm_witness :
  wp (@parent_signal demo_env TestConn 2 SIGINT) (fun r w' => r = Ok tt /\
    w_st w' = demo_pool demo_procs /\
    map fst (w_log w') = map fst ([] : list event) ++ [Kill 101 SIGTERM; Kill 102 SIGTERM])
    (demo_world demo_procs).
Proof.
  apply (@parent_sigterm demo_env TestConn 3 SIGINT 2 (demo_world demo_procs));
    [apply pp_returns | by apply demo_ok | by right].
Defined.

Lemma sig_handler_transparent_witness :
  wp (@sig_handler demo_env TestConn SIGTERM) (fun r w' => r = Ok tt /\
    w_st w' = demo_pool demo_procs /\ w_errno w' = 0 /\
    exists b, calls w' = [] ++ [Send 10 [b] 0] /\ wrap_s 8 b = SIGTERM) (demo_world demo_procs).
Proof.
  apply (@sig_handler_transparent demo_env TestConn SIGTERM (demo_world demo_procs));
    [apply pp_returns | done].
Defined.

Lemma testconn_process_serves_witness :
  wp (@TestConn_process demo_env _ 2 (mkTestConn 8 30 [])) (fun x w' =>
    x = Ok (mkTestConn 8 30 []) /\ w_st w' = demo_pool demo_procs /\
    w_out w' = [] ++ [OutMsg 30 2 [104; 105]] /\
    calls w' = [] ++ [Getpid] ++ [Recv 30 (BUF_SIZE - 1) 0; Recv 30 (BUF_SIZE - 1) 0] ++
      [Sleep 100; Send 30 OK 0]) (demo_world demo_procs).
Proof.
  apply (@testconn_process_serves demo_env _ 2 (mkTestConn 8 30 []) (ret_ok 0) [ret_data [104; 105]]
    (ret_err EAGAIN) (demo_world demo_procs));
    [apply pp_returns | apply pp_recv | reflexivity | by repeat econstructor | simpl; lia].
Defined.

Lemma child_new_con_branches_witness :
  let r := ret_data [1; 0; 0; 0] in let w := demo_world demo_procs in
  wp (@child_new_con demo_env TestConn _ 12) (fun x w' =>
    let w1 := after (Recv 12 4 0) r w in
    if r_ret r <=? 0 then x = Ok (inl tt) /\ w' = w1
    else exists ra, @env demo_env (w_log w1) (Accept (_listenfd (w_st w))) = Some ra /\
      let cfd := r_ret ra in
      if cfd <? 0 then x = Ok (inr tt) /\ w_st w' = w_st w
      else if cfd <? USER_PER_PROCESS then
        exists w2 y w3, w_st w2 = w_st w /\
          (exists fl, calls w2 = calls w1 ++ [Accept (_listenfd (w_st w));
            EpollCtlAdd (_epollfd (w_st w)) cfd EPOLLIN; FcntlGetfl cfd;
            FcntlSetfl cfd (Z.lor fl O_NONBLOCK)]) /\
          user_init (UserConn:=@TestConn_conn demo_env) (_epollfd (w_st w)) cfd (r_data ra)
            (default (user_new (UserConn:=@TestConn_conn demo_env)) (users (w_st w) !! cfd)) w2 = (y, w3) /\
          match y with
          | Ok u => x = Ok (inl tt) /\ w_log w' = w_log w3 /\
              w_st w' = set_users (<[cfd := u]> (users (w_st w))) (w_st w)
          | Stop h => x = Stop h
          end
      else x = Stop HUB) w.
Proof.
  intros r w. apply (@child_new_con_branches demo_env TestConn _ _ 12 r w);
    [apply pp_returns | apply pp_recv | reflexivity].
Defined.

Definition demo_junk : list Z := replicate 1024 7.

Lemma child_signals_stop_witness :
  wp (@child_signals_turn demo_env _ demo_junk 2 tt) (fun x w' =>
    if r_ret (ret_data [17; 15; 2]) <=? 0 then x = Ok (inr tt) /\ w_st w' = demo_pool demo_procs
    else x = Ok (inl tt) /\
      w_st w' = stop_if (existsb is_term (map (wrap_s 8) [17; 15; 2])) (demo_pool demo_procs) /\
      (existsb is_term (map (wrap_s 8) [17; 15; 2]) = true ->
       wp (@child_turn demo_env _ _ demo_junk 2 12 tt)
         (fun y w'' => y = Ok (inr tt) /\ w'' = w') w')) (demo_world demo_procs).
Proof.
  apply (@child_signals_stop demo_env TestConn _ demo_junk 1 (ret_data [17; 15; 2]) 12
    (demo_world demo_procs));
    [apply pp_returns | apply pp_recv | apply demo_reaped | by apply length_replicate | reflexivity].
Defined.

Definition demo_child : world (SrvProcessPool TestConn) :=
  World (set_users {[30 := mkTestConn 8 30 []]} (demo_pool [])) 0
    [(EpollCtlAdd 8 9 1, ret_ok 0); (EpollCtlAdd 8 12 1, ret_ok 0); (EpollCtlAdd 8 30 1, ret_ok 0)] [].

Lemma child_serves_initialised_witness :
  (forall r fd ev, @env demo_env (w_log demo_child) (EpollWait 8 MAX_EVENT_NUMBER (-1)) = Some r ->
    (fd, ev) ∈ r_evs r -> fd = 12 \/ fd = 9 \/ is_Some (users (w_st demo_child) !! fd)) /\
  wp (@child_turn demo_env TestConn _ [] 2 12 tt) (fun r w' =>
    match r with Ok _ => users_ok 8 9 12 w' | Stop _ => True end) demo_child.
Proof.
  apply (@child_serves_initialised demo_env TestConn _ _ 8 9 12 [] 2 demo_child); [apply demo_epoll|].
  split; [done|]. split; [done|]. intros fd Hin. cbn in Hin.
  apply elem_of_cons in Hin as [->|Hin]; [by right; left|].
  apply elem_of_cons in Hin as [->|Hin]; [by left|].
  apply list_elem_of_singleton in Hin as ->. right; right. by eexists.
Defined.

Lemma fork_children_roles_witness :
  let w := World (SrvProcessPool_ctor TestConn 7 2) 0 [] [] in
  wp (@fork_children demo_env TestConn) (fun r w' => match r with
    | Stop h => h = HAssert
    | Ok _ =>
        (exists ps, Z.of_nat (length ps) = 2 /\ Forall (fun p => 0 < m_pid p) ps /\
           created 2 ps (-1) (map child_end ps) w w') \/
        (exists ps p, Z.of_nat (length ps) < 2 /\ Forall (fun p => 0 < m_pid p) ps /\ m_pid p = 0 /\
           created 2 (ps ++ [p]) (Z.of_nat (length ps)) (map child_end ps ++ [parent_end p]) w w')
    end) w.
Proof.
  intros w. apply (@fork_children_roles demo_env TestConn 2 w);
    [apply pp_returns | apply pp_socketpair | done..].
Defined.
