(* ===== verification/ProcSafe.v ===== *)
(** * The process pool has no undefined behaviour

    The rules of Safe applied to the whole of ProcPool: the fork loop, the parent
    and the children.  A pool is well formed when its table has one entry per
    process and its index is in the table; every operation keeps this, and stays
    inside its arrays - the table of processes, the signals received, the events
    reported, the objects of the users - and divides by the positive number of
    processes. *)

From S2P Require Import Prelude Sys CLib Safe ProcPool.

(** What the code relies on: the results of recv, socketpair and epoll_wait as
    documented, and descriptors below the number of user objects - main sets the
    limit of descriptors, to 4096 by default. *)
Record kernel_ok `{Env} : Prop := {
  ko_recv : recv_contract;
  ko_pair : socketpair_contract;
  ko_pair_ret h d t p r : env h (SocketPair d t p) = Some r -> r_ret r = 0 \/ r_ret r = -1;
  ko_epoll h e n t r : env h (EpollWait e n t) = Some r -> r_ret r <= Z.of_nat (length (r_evs r));
  ko_fds h e n t r fd ev : env h (EpollWait e n t) = Some r -> (fd, ev) ∈ r_evs r ->
    0 <= fd < USER_PER_PROCESS;
  ko_accept h fd r : env h (Accept fd) = Some r -> r_ret r < USER_PER_PROCESS;
}.

(** The methods of the template parameter are safe, on any state. *)
Class UserConnSafe `{Env} (T : Type) `{!UserConn T} := {
  user_init_safe {S} (I : S -> Prop) e fd a (u : T) :
    safe I defined (user_init e fd a u) (fun _ => True);
  user_process_safe {S} (I : S -> Prop) fuel (u : T) :
    safe I defined (user_process fuel u) (fun _ => True);
}.

Section helpers.
Context `{Env} {S : Type} (I : S -> Prop).

Lemma setnonblocking_safe fd : safe I defined (setnonblocking fd) (fun _ => True).
Proof. unfold setnonblocking. do 2 safe_call. by apply safe_ret. Qed.

Lemma addfd_safe e fd b : safe I defined (addfd e fd b) (fun _ => True).
Proof.
  unfold addfd. safe_call. safe_seq; [apply setnonblocking_safe|]. by apply safe_ret.
Qed.

Lemma removefd_safe e fd : safe I defined (removefd e fd) (fun _ => True).
Proof. unfold removefd. do 2 safe_call. by apply safe_ret. Qed.

Lemma addsig_safe sig h b : safe I defined (addsig sig h b) (fun _ => True).
Proof. unfold addsig. safe_call. eapply safe_mono; [by apply safe_assert|done]. Qed.

End helpers.

#[export] Hint Resolve setnonblocking_safe addfd_safe removefd_safe addsig_safe : safe.

Section testconn.
Context `{Env} {S : Type} (I : S -> Prop).

Lemma TestConn_init_safe e fd a c : safe I defined (TestConn_init e fd a c) (fun _ => True).
Proof. unfold TestConn_init. safe_seq; [eauto with safe|]. by apply safe_ret. Qed.

Lemma TestConn_process_safe fuel c : recv_contract ->
  safe I defined (TestConn_process fuel c) (fun _ => True).
Proof.
  intros Hrecv. unfold TestConn_process. safe_call.
  eapply safe_bind.
  - apply (safe_while _ _ (fun _ => True) (fun _ => True)); [done|done|]. intros [] _.
    unfold process_turn. safe_seq; [by apply receive_message_safe|].
    repeat (apply safe_if; intros _); try by apply safe_ret.
    safe_seq; [apply safe_get_errno|]. by apply safe_ret.
  - intros b _. apply safe_if; intros _.
    + do 2 safe_call. by apply safe_ret.
    + safe_seq; [eauto with safe|]. by apply safe_ret.
Qed.
End testconn.

Definition TestConn_safe `{Env} (Hrecv : recv_contract) : UserConnSafe TestConn := {|
  user_init_safe S I e fd a u := TestConn_init_safe I e fd a u;
  user_process_safe S I fuel u := TestConn_process_safe I fuel u Hrecv;
|}.

(** ** The pool *)

(** A table of [n] processes and an index in it; [lo] is 0 in a child, and -1
    where the parent, whose index is -1, may run. *)
Definition pool_ok {T} (lo n : Z) (p : SrvProcessPool T) : Prop :=
  procs_ok n p /\ lo <= _idx p < n.

Section pool.
Context `{Env} {T : Type} `{!UserConn T} `{!UserConnSafe T}.
Context (Hk : kernel_ok) (lo n : Z) (junk : list Z) (Hjunk : length junk = 1024%nat) (fuel : nat).
#[local] Set Default Proof Using "All".
Abbreviation ok m := (safe (S := SrvProcessPool T) (pool_ok lo n) defined m) (only parsing).

Lemma pool_ok_same (p p' : SrvProcessPool T) :
  pool_ok lo n p -> _process_number p' = _process_number p -> _sub_process p' = _sub_process p ->
  _idx p' = _idx p -> pool_ok lo n p'.
Proof. unfold pool_ok, procs_ok. intros Hp -> -> ->. done. Qed.

(** An update of a field outside the table. *)
Lemma update_safe (f : SrvProcessPool T -> SrvProcessPool T) :
  (forall p, _process_number (f p) = _process_number p /\ _sub_process (f p) = _sub_process p /\
    _idx (f p) = _idx p) -> ok (modify f) (fun _ => True).
Proof.
  intros Hf. apply safe_modify. intros p Hp. destruct (Hf p) as (? & ? & ?). by apply (pool_ok_same p).
Qed.

Lemma sub_safe (p : SrvProcessPool T) k : pool_ok lo n p -> 0 <= k < n ->
  ok (index (_sub_process p) k) (fun _ => True).
Proof.
  intros [(_ & Hlen & _) _] Hi. eapply safe_mono; [apply safe_index; lia|done].
Qed.

Lemma table_safe k pid fds : ok (modify (fun p : SrvProcessPool T => set_sub_process
  (insertZ k (mkProcess pid fds) (_sub_process p)) p)) (fun _ => True).
Proof.
  apply safe_modify. intros p [(Hn & Hlen & Hn16) Hidx]. split; [|done].
  split_and!; simpl; [done|by rewrite length_insertZ|lia..].
Qed.

Lemma setup_sig_pipe_safe : ok setup_sig_pipe (fun _ => True).
Proof.
  unfold setup_sig_pipe. safe_call. safe_seq; [by apply update_safe|].
  safe_seq; [by apply safe_assert|].
  eapply safe_bind; [by apply safe_sys|]. intros r [h Hr].
  eapply safe_bind; [by apply safe_assert|]. intros [] Ha%negb_true_iff%Z.eqb_neq.
  destruct (ko_pair_ret Hk _ _ _ _ _ Hr) as [H0|]; [|done].
  destruct (ko_pair Hk _ _ _ _ _ Hr H0) as (x & y & ->).
  do 2 (safe_seq; [apply safe_index; simpl; lia|]).
  safe_seq; [by apply update_safe|].
  do 5 (safe_seq; [eauto with safe|]). eauto with safe.
Qed.

(** The loop over the signals received. *)
Lemma each_signal_safe signals ret body : ret <= Z.of_nat (length signals) ->
  (forall sig, ok (body sig) (fun _ => True)) -> ok (each_signal signals ret body) (fun _ => True).
Proof.
  intros Hlen Hbody. unfold each_signal. apply safe_for_each. intros j Hj%elem_of_range.
  safe_seq; [apply safe_index; lia|]. done.
Qed.

Lemma reap_safe body : (forall pid, ok (body pid) (fun _ => True)) -> ok (reap fuel body) (fun _ => True).
Proof.
  intros Hbody. unfold reap. apply (safe_while _ _ (fun _ => True)); [done|done|]. intros [] _.
  eapply safe_bind; [by apply safe_sys_|]. intros pid _. apply safe_if; intros _; [|by apply safe_ret].
  safe_seq; [done|]. by apply safe_ret.
Qed.

(** *** The children *)

Lemma user_at_safe i : 0 <= i < USER_PER_PROCESS -> ok (user_at i) (fun _ => True).
Proof.
  intros Hi. unfold user_at. safe_get p Hp. apply safe_if; [intros _; by apply safe_ret|]. lia.
Qed.

Lemma set_user_safe i u : ok (set_user i u) (fun _ => True).
Proof. by apply update_safe. Qed.

Lemma child_new_con_safe fd : ok (child_new_con fd) (fun _ => True).
Proof.
  unfold child_new_con. eapply safe_bind; [apply safe_recv; [apply Hk|done|simpl; lia]|].
  intros [ret buf] _. apply safe_if; intros _; [by apply safe_ret|]. safe_get p Hp.
  eapply safe_bind; [by apply safe_sys|]. intros r [h Hr].
  apply safe_if; [intros _; by apply safe_ret|]. intros Hge%Z.ltb_ge.
  pose proof (ko_accept Hk _ _ _ Hr). safe_seq; [eauto with safe|].
  safe_seq; [by apply user_at_safe|]. safe_seq; [apply user_init_safe|].
  safe_seq; [apply set_user_safe|]. by apply safe_ret.
Qed.

Lemma child_signal_safe sig : ok (child_signal fuel sig) (fun _ => True).
Proof.
  unfold child_signal. apply safe_if; intros _; [apply reap_safe; intros; by apply safe_ret|].
  apply safe_if; intros _; [|by apply safe_ret].
  by apply update_safe.
Qed.

Lemma child_signals_safe : ok (child_signals junk fuel) (fun _ => True).
Proof.
  unfold child_signals. apply (safe_while _ _ (fun _ => True)); [done|done|]. intros [] _.
  unfold child_signals_turn. safe_get p Hp.
  eapply safe_bind; [apply safe_recv; [apply Hk|done|lia]|]. intros [ret signals] [Hret Hlen].
  rewrite wrap_s32_id by lia. apply safe_if; intros _; [by apply safe_ret|].
  safe_seq; [apply each_signal_safe; [lia|apply child_signal_safe]|]. by apply safe_ret.
Qed.

Lemma child_event_safe pipefd ev : 0 <= fst ev < USER_PER_PROCESS ->
  ok (child_event junk fuel pipefd ev) (fun _ => True).
Proof.
  intros Hfd. unfold child_event. destruct ev as [sockfd events]. safe_get p Hp.
  apply safe_if; intros _; [apply child_new_con_safe|].
  apply safe_if; intros _; [safe_seq; [apply child_signals_safe|]; by apply safe_ret|].
  apply safe_if; intros _; [|by apply safe_ret].
  safe_seq; [by apply user_at_safe|]. safe_seq; [apply user_process_safe|].
  safe_seq; [apply set_user_safe|]. by apply safe_ret.
Qed.

(** A loop over the events that epoll_wait reported. *)
Lemma events_safe {A} (Inv : A -> Prop) e t (body : Z * Z -> A -> M (SrvProcessPool T) (A + A)) h r a :
  env h (EpollWait e MAX_EVENT_NUMBER t) = Some r -> Inv a ->
  (forall ev a, 0 <= fst ev < USER_PER_PROCESS -> Inv a ->
    ok (body ev a) (fun x => match x with inl a' | inr a' => Inv a' end)) ->
  ok (for_ (range 0 (r_ret r)) (fun i a => ev ← index (r_evs r) i; body ev a) a) Inv.
Proof.
  intros Hr Ha Hbody. pose proof (ko_epoll Hk _ _ _ _ _ Hr).
  apply safe_for; [done|]. intros i a' Hi%elem_of_range Ha'.
  eapply safe_bind; [apply safe_index; lia|]. intros [fd ev] [_ Hin%list_elem_of_lookup_2]%lookupZ_Some.
  apply Hbody; [|done]. by eapply (ko_fds Hk).
Qed.

Lemma child_turn_safe pipefd : ok (child_turn junk fuel pipefd tt) (fun _ => True).
Proof.
  unfold child_turn. safe_get p Hp. apply safe_if; intros _; [by apply safe_ret|].
  eapply safe_bind; [by apply safe_sys|]. intros r [h Hr].
  safe_seq; [apply safe_get_errno|]. apply safe_if; intros _; [by apply safe_ret|].
  eapply safe_bind; [|intros ? _; by apply safe_ret].
  eapply (events_safe (fun _ => True)); [done|done|]. intros ev [] Hev _.
  eapply safe_mono; [by apply child_event_safe|]. by intros [[]|[]].
Qed.


(** *** The parent *)

Definition counter_ok (c : Z) : Prop := 0 <= c < n.

Lemma c_mod_safe (p : SrvProcessPool T) a : pool_ok lo n p -> 0 <= a -> ok (c_mod a (_process_number p)) counter_ok.
Proof.
  intros [(Hn & _ & Hn16) _] Ha. rewrite Hn. eapply safe_mono; [apply safe_c_mod; lia|].
  intros x ->. unfold counter_ok. rewrite Z.rem_mod_nonneg by lia. apply Z.mod_pos_bound. lia.
Qed.

Lemma parent_new_con_safe c : counter_ok c ->
  ok (parent_new_con c) (fun r => match r with inl c | inr c => counter_ok c end).
Proof.
  intros Hc. unfold parent_new_con. safe_get p Hp.
  eapply (safe_bind _ _ _ _ counter_ok).
  - apply (safe_while _ _ counter_ok); [done|done|]. intros j Hj. unfold pick_turn. safe_get q Hq.
    safe_seq; [by apply sub_safe|]. apply safe_if; intros _; [by apply safe_ret|].
    eapply safe_bind; [apply (c_mod_safe q); [done|unfold counter_ok in *; lia]|]. intros j' Hj'.
    apply safe_ret. by destruct (negb _).
  - intros j Hj. safe_seq; [by apply sub_safe|]. apply safe_if; intros _.
    + safe_seq; [by apply update_safe|]. by apply safe_ret.
    + eapply safe_bind; [apply (c_mod_safe p); [done|unfold counter_ok in *; lia]|]. intros c' Hc'.
      safe_call. by apply safe_ret.
Qed.

(** A loop over the table of processes. *)
Lemma table_loop_safe (p : SrvProcessPool T) body : pool_ok lo n p ->
  (forall k, counter_ok k -> ok (body k) (fun _ => True)) ->
  ok (for_each (range 0 (_process_number p)) body) (fun _ => True).
Proof.
  intros [(-> & _) _] Hbody. apply safe_for_each. intros k Hk'%elem_of_range. by apply Hbody.
Qed.

Lemma parent_signal_safe sig : ok (parent_signal fuel sig) (fun _ => True).
Proof.
  unfold parent_signal. safe_get p Hp. apply safe_if; intros _; [|apply safe_if; intros _].
  - safe_seq.
    { apply reap_safe. intros pid. unfold bury. safe_get q Hq. apply table_loop_safe; [done|].
      intros k Hkr. safe_get q' Hq'. safe_seq; [by apply sub_safe|].
      apply safe_if; intros _; [|by apply safe_ret]. safe_call. apply table_safe. }
    safe_seq; [by apply update_safe|]. apply table_loop_safe; [done|]. intros k Hkr.
    safe_get q Hq. safe_seq; [by apply sub_safe|].
    apply safe_if; intros _; [by apply update_safe|by apply safe_ret].
  - apply table_loop_safe; [done|]. intros k Hkr. safe_get q Hq. safe_seq; [by apply sub_safe|].
    apply safe_if; intros _; [safe_call|]; by apply safe_ret.
  - by apply safe_ret.
Qed.

Lemma parent_event_safe c ev : counter_ok c ->
  ok (parent_event junk fuel c ev) (fun r => match r with inl c | inr c => counter_ok c end).
Proof.
  intros Hc. unfold parent_event. destruct ev as [sockfd events]. safe_get p Hp.
  apply safe_if; intros _; [by apply parent_new_con_safe|].
  apply safe_if; intros _; [|by apply safe_ret].
  eapply safe_bind; [apply safe_recv; [apply Hk|done|lia]|]. intros [ret signals] [Hret Hlen].
  rewrite wrap_s32_id by lia. apply safe_if; intros _; [by apply safe_ret|].
  safe_seq; [apply each_signal_safe; [lia|apply parent_signal_safe]|]. by apply safe_ret.
Qed.

Lemma parent_turn_safe c : counter_ok c ->
  ok (parent_turn junk fuel c) (fun r => match r with inl c => counter_ok c | inr _ => True end).
Proof.
  intros Hc. unfold parent_turn. safe_get p Hp. apply safe_if; intros _; [by apply safe_ret|].
  eapply safe_bind; [by apply safe_sys|]. intros r [h Hr].
  safe_seq; [apply safe_get_errno|]. apply safe_if; intros _; [by apply safe_ret|].
  eapply (safe_bind _ _ _ _ counter_ok); [|intros c' Hc'; by apply safe_ret].
  eapply events_safe; [done|done|]. intros ev c' _ Hc'. by apply parent_event_safe.
Qed.

Lemma run_parent_safe : 0 < n -> ok (run_parent junk fuel) (fun _ => True).
Proof.
  intros Hn. unfold run_parent. safe_seq; [apply setup_sig_pipe_safe|]. safe_get p Hp.
  safe_seq; [eauto with safe|].
  safe_seq; [apply (safe_while _ _ counter_ok (fun _ => True));
    [done|unfold counter_ok; lia|apply parent_turn_safe]|].
  safe_get q Hq. safe_call. by apply safe_ret.
Qed.

Lemma run_child_safe : lo = 0 -> ok (run_child junk fuel) (fun _ => True).
Proof.
  intros Hlo. unfold run_child. safe_call. safe_seq; [apply setup_sig_pipe_safe|]. safe_get p Hp.
  safe_seq; [apply sub_safe; [done|]; destruct Hp; lia|]. safe_seq; [eauto with safe|].
  safe_seq; [by apply update_safe|].
  safe_seq; [apply (safe_while _ _ (fun _ => True) (fun _ => True)); [done|done|]|].
  { intros [] _. eapply safe_mono; [apply child_turn_safe|]. by intros [[]|[]]. }
  safe_seq; [by apply update_safe|]. safe_call. safe_get q Hq. safe_call. by apply safe_ret.
Qed.

(** *** The fork loop *)

Lemma fork_turn_safe i : lo = -1 -> 0 <= i < n -> ok (fork_turn i tt) (fun _ => True).
Proof.
  intros Hlo Hi. unfold fork_turn. eapply safe_bind; [by apply safe_sys|]. intros r [h Hr].
  eapply safe_bind; [by apply safe_assert|]. intros [] H0%Z.eqb_eq.
  destruct (ko_pair Hk _ _ _ _ _ Hr H0) as (x & y & ->).
  do 2 (safe_seq; [apply safe_index; simpl; lia|]). safe_call.
  safe_seq; [apply table_safe|]. safe_seq; [by apply safe_assert|]. apply safe_if; intros _.
  - safe_call. safe_seq; [eauto with safe|]. by apply safe_ret.
  - safe_call. safe_seq; [eauto with safe|].
    safe_seq; [apply safe_modify; intros p [Hp _]; split; [done|simpl; lia]|]. by apply safe_ret.
Qed.
End pool.

(** ** The whole server *)

Section server.
Context `{Env} {T : Type} `{!UserConn T} `{!UserConnSafe T}.

Lemma run_safe junk fuel (w : world (SrvProcessPool T)) :
  kernel_ok -> length junk = 1024%nat -> _idx (w_st w) = -1 ->
  wp (run junk fuel) (fun r w' => match r with
    | Ok _ => procs_ok (_process_number (w_st w)) (w_st w')
    | Stop h => defined h
    end) w.
Proof using Type*.
  intros Hk Hjunk Hidx. unfold run, fork_children. set (n := _process_number (w_st w)).
  do 4 wp_step. apply wp_assert; [|done]. intros Hn. assert (0 < n <= MAX_PROCESS_NUMBER) by (unfold n; lia).
  do 3 wp_step. cbn [bind_post].
  eapply wp_mono.
  - apply (safe_for (pool_ok (-1) n) defined (fun _ => True)); [done| |].
    + intros i [] Hi%elem_of_range _. eapply safe_mono; [by apply (fork_turn_safe Hk (-1) n junk Hjunk 0)|].
      by intros [[]|[]].
    + split; [split_and!; simpl; [done|by rewrite length_replicate|lia..]|simpl; lia].
  - intros [[]|h] w'; cbn [bind_post]; [|done]. intros [_ [Hp Hi]]. wp_step. wp_step. cbn [bind_post].
    destruct (Z.eqb_spec (_idx (w_st w')) (-1)) as [He|He]; cbn [negb].
    + eapply wp_mono; [apply (run_parent_safe Hk (-1) n junk Hjunk fuel); [lia|done]|].
      intros [[]|h] w''; [|done]. by intros [_ [? _]].
    + eapply wp_mono; [apply (run_child_safe Hk 0 n junk Hjunk fuel); [done|split; [done|lia]]|].
      intros [[]|h] w''; [|done]. by intros [_ [? _]].
Qed.
End server.


(** ** The theorem at a concrete input *)

Lemma demo_kernel_ok : @kernel_ok demo_env.
Proof.
  split.
  - apply pp_recv.
  - apply pp_socketpair.
  - intros h d t p r [= <-]. by left.
  - by intros h e n t r [= <-].
  - intros h e n t r fd ev [= <-] Hin. by apply elem_of_nil in Hin.
  - by intros h fd r [= <-].
Qed.

