(* ===== verification/ProcSystem.v ===== *)
(** * The processes of the pool, interleaved

    ProcPool has the code each process runs.  Here the parent and its children run
    at the same time on what they share: the queue of the listening socket, the
    pipe from the parent to each child, signals, and the fact that a process has
    ended.  One action is what one process does between two points where another
    can intervene.  The state is the one after every process has run
    [setup_sig_pipe]; each process has its own descriptors, so a connection is
    followed by the child that accepted it.  The theorems: every client is in the
    queue or with one child, in order of arrival; the parent stops only when all
    its children have ended and been reaped. *)

From S2P Require Import Prelude Fairness.

(** ** State *)

(** A byte of the parent's signal pipe: SIGCHLD, or SIGTERM and SIGINT. *)
Inductive psig := SChld | STerm.

(** Where a child is: in [run_child]'s loop; in the notification, between [recv]
    and [accept]; ended and not yet reaped; reaped. *)
Inductive kpc := KLoop | KAccept | KZombie | KReaped.

(** A child: the unread bytes of its pipe; whether its signal pipe holds a SIGTERM
    or SIGINT; [_stop]; the rest of the batch of events epoll_wait reported - its
    pipe, its signal pipe and a number of clients -; the connections it accepted. *)
Record kid := mkKid {
  k_pc : kpc;
  k_bytes : nat;
  k_term : bool;
  k_stop : bool;
  k_pipe : bool;
  k_sig : bool;
  k_users : nat;
  k_conns : list Z;
}.

(** Where the parent is: in [run_parent]'s loop; going through the signals it has
    read; in the waitpid loop of SIGCHLD; in the loop of SIGTERM, before child
    [k]; out of its loop. *)
Inductive ppc :=
| PLoop | PSigs (l : list psig) | PReaping (l : list psig) | PKilling (k : nat) (l : list psig)
| PExited.

(** The parent: [sub_process_counter], [_stop], the rest of its batch of events -
    the listening socket and its signal pipe - and the contents of that pipe. *)
Record parent := mkParent {
  p_pc : ppc;
  p_counter : nat;
  p_stop : bool;
  p_listen : bool;
  p_sig : bool;
  p_sigs : list psig;
}.

(** The system: [backlog] are the clients waiting in the listening socket, [chld]
    says that a SIGCHLD is pending for the parent (signals do not queue up), and
    [dropped] that its handler found the pipe full.  [arrived] and [accepted]
    record the clients that have come and who accepted which. *)
Record psys := mkSys {
  kids : list kid;
  par : parent;
  backlog : list Z;
  chld : bool;
  dropped : bool;
  arrived : list Z;
  accepted : list (nat * Z);
}.

Definition is_zombie (x : kid) : bool := match k_pc x with KZombie => true | _ => false end.
Definition is_reaped (x : kid) : bool := match k_pc x with KReaped => true | _ => false end.
Definition running (x : kid) : bool := match k_pc x with KLoop | KAccept => true | _ => false end.
Definition nonempty {A} (l : list A) : bool := match l with [] => false | _ => true end.

(** ** A child's steps *)

Definition set_kpc (pc : kpc) (x : kid) : kid :=
  mkKid pc (k_bytes x) (k_term x) (k_stop x) (k_pipe x) (k_sig x) (k_users x) (k_conns x).
Definition set_batch (pipe sig : bool) (users : nat) (x : kid) : kid :=
  mkKid (k_pc x) (k_bytes x) (k_term x) (k_stop x) pipe sig users (k_conns x).
Definition set_bytes (n : nat) (x : kid) : kid :=
  mkKid (k_pc x) n (k_term x) (k_stop x) (k_pipe x) (k_sig x) (k_users x) (k_conns x).
Definition set_kterm (term stop : bool) (x : kid) : kid :=
  mkKid (k_pc x) (k_bytes x) term stop (k_pipe x) (k_sig x) (k_users x) (k_conns x).
Definition add_conn (c : Z) (x : kid) : kid :=
  mkKid (k_pc x) (k_bytes x) (k_term x) (k_stop x) (k_pipe x) (k_sig x) (k_users x) (k_conns x ++ [c]).

(** Nothing left in the batch. *)
Definition batch_done (x : kid) : bool := negb (k_pipe x) && negb (k_sig x) && (k_users x =? 0)%nat.

Definition guard_ (b : bool) : option unit := if b then Some tt else None.

(** epoll_wait reports everything that is ready (fewer than MAX_EVENT_NUMBER
    descriptors): the pipes, and [m] of the child's clients. *)
Definition kid_poll (m : nat) (x : kid) : option kid :=
  _ ← guard_ (match k_pc x with KLoop => true | _ => false end);
  _ ← guard_ (negb (k_stop x) && batch_done x);
  _ ← guard_ ((0 <? k_bytes x)%nat || k_term x || (0 <? m)%nat);
  _ ← guard_ (m <=? length (k_conns x))%nat;
  Some (set_batch (0 <? k_bytes x)%nat (k_term x) m x).

(** child_new_con up to its accept: [recv] of four bytes. *)
Definition kid_recv (x : kid) : option kid :=
  match k_pc x, k_pipe x with
  | KLoop, true =>
      let x := set_batch false (k_sig x) (k_users x) x in
      if (0 <? k_bytes x)%nat then Some (set_kpc KAccept (set_bytes (k_bytes x - 4) x)) else Some x
  | _, _ => None
  end.

(** accept succeeded. *)
Definition kid_accepted (c : Z) (x : kid) : option kid :=
  match k_pc x with KAccept => Some (set_kpc KLoop (add_conn c x)) | _ => None end.

(** accept failed: the [break] gives up the rest of the batch. *)
Definition kid_failed (x : kid) : option kid :=
  match k_pc x with KAccept => Some (set_kpc KLoop (set_batch false false 0 x)) | _ => None end.

(** [users[sockfd].process()] *)
Definition kid_user (x : kid) : option kid :=
  match k_pc x, k_users x with
  | KLoop, S m => Some (set_batch (k_pipe x) (k_sig x) m x)
  | _, _ => None
  end.

(** child_signals: the signal pipe is emptied. *)
Definition kid_signals (x : kid) : option kid :=
  match k_pc x, k_sig x with
  | KLoop, true => Some (set_kterm false (k_stop x || k_term x) (set_batch (k_pipe x) false (k_users x) x))
  | _, _ => None
  end.

(** The loop of run_child ends. *)
Definition kid_exit (x : kid) : option kid :=
  match k_pc x with
  | KLoop => _ ← guard_ (k_stop x && batch_done x); Some (set_kpc KZombie x)
  | _ => None
  end.

(** epoll_wait failed, or something kills the process. *)
Definition kid_die (x : kid) : option kid :=
  _ ← guard_ (running x); Some (set_kpc KZombie x).

Definition kid_reap (x : kid) : option kid :=
  _ ← guard_ (is_zombie x); Some (set_kpc KReaped x).

(** A signal has no effect on a process that has ended. *)
Definition kid_signalled (x : kid) : kid :=
  if running x then set_kterm true (k_stop x) x else x.

(** A notification of which [m] of its four bytes are written; fewer than four
    when the pipe is full, none of any use when the child has ended. *)
Definition kid_notified (m : nat) (x : kid) : option kid :=
  _ ← guard_ ((m =? 4)%nat || (m <? 4)%nat && ((0 <? k_bytes x)%nat || is_zombie x));
  Some (set_bytes (k_bytes x + m) x).

(** ** The system's actions *)

Inductive paction :=
| Arrive (c : Z)       (* a client connects *)
| TermParent           (* the parent gets SIGTERM or SIGINT: its sig_handler runs *)
| TermKid (k : nat)    (* a child gets SIGTERM or SIGINT from outside *)
| Deliver              (* the pending SIGCHLD: the parent's sig_handler runs *)
| PPoll                (* run_parent: epoll_wait *)
| PNotify (m : nat)    (* parent_new_con *)
| PSigRead             (* parent_event: recv of the signal pipe *)
| PSigNext             (* the loop over the signals received *)
| PReap (k : nat)      (* SIGCHLD: waitpid reports child [k] *)
| PReapEnd             (* SIGCHLD: waitpid has no more, the check for the stop *)
| PKill                (* SIGTERM: one turn of the loop over the children, or its end *)
| PExit                (* run_parent: _stop is seen *)
| KPoll (k m : nat)    (* run_child: epoll_wait *)
| KRecv (k : nat)      (* child_new_con: recv *)
| KTake (k : nat)      (* child_new_con: accept *)
| KFail (k : nat)      (* child_new_con: accept fails although a client waits *)
| KUser (k : nat)      (* a client's process() *)
| KSignals (k : nat)   (* child_signals *)
| KExit (k : nat)      (* run_child: _stop is seen *)
| KDie (k : nat).      (* run_child: epoll_wait fails, or the process is killed *)

Definition set_kids (l : list kid) (s : psys) : psys :=
  mkSys l (par s) (backlog s) (chld s) (dropped s) (arrived s) (accepted s).
Definition set_par (p : parent) (s : psys) : psys :=
  mkSys (kids s) p (backlog s) (chld s) (dropped s) (arrived s) (accepted s).
Definition set_chld (b : bool) (s : psys) : psys :=
  mkSys (kids s) (par s) (backlog s) b (dropped s) (arrived s) (accepted s).
Definition set_ppc (pc : ppc) (p : parent) : parent :=
  mkParent pc (p_counter p) (p_stop p) (p_listen p) (p_sig p) (p_sigs p).

Definition with_kid (k : nat) (s : psys) (f : kid -> option kid) : option psys :=
  x ← kids s !! k; y ← f x; Some (set_kids (<[k := y]> (kids s)) s).

(** A child ends: the kernel makes a SIGCHLD pending for the parent. *)
Definition ends (k : nat) (s : psys) (f : kid -> option kid) : option psys :=
  s' ← with_kid k s f; Some (set_chld true s').

(** The search of parent_new_con: the first child, going round from [c], that the
    parent has not reaped. *)
Definition next_live (l : list kid) (c : nat) : option nat :=
  List.find (fun j => negb (default true (is_reaped <$> l !! j)))
    (map (fun d => (c + d) mod length l)%nat (seq 0 (length l))).

Section system.
(** What the parent's signal pipe has room for. *)
Context (cap : nat).

(** The parent's sig_handler: its send is dropped when the pipe is full. *)
Definition handler (g : psig) (s : psys) : psys :=
  let p := par s in
  if (length (p_sigs p) <? cap)%nat then
    set_par (mkParent (p_pc p) (p_counter p) (p_stop p) (p_listen p) (p_sig p) (p_sigs p ++ [g])) s
  else mkSys (kids s) p (backlog s) (chld s) true (arrived s) (accepted s).

Definition parent_step (s : psys) (a : paction) : option psys :=
  let p := par s in
  match a, p_pc p with
  | PPoll, PLoop =>
      _ ← guard_ (negb (p_stop p) && negb (p_listen p) && negb (p_sig p));
      _ ← guard_ (nonempty (backlog s) || nonempty (p_sigs p));
      Some (set_par (mkParent PLoop (p_counter p) (p_stop p)
        (nonempty (backlog s)) (nonempty (p_sigs p)) (p_sigs p)) s)
  | PNotify m, PLoop =>
      _ ← guard_ (p_listen p);
      match next_live (kids s) (p_counter p) with
      | None => Some (set_par (mkParent PLoop (p_counter p) true false false (p_sigs p)) s)
      | Some j =>
          s' ← with_kid j s (kid_notified m);
          Some (set_par (mkParent PLoop ((j + 1) mod length (kids s)) (p_stop p) false
            (p_sig p) (p_sigs p)) s')
      end
  | PSigRead, PLoop =>
      _ ← guard_ (p_sig p);
      Some (set_par (mkParent (PSigs (take 1024 (p_sigs p))) (p_counter p) (p_stop p)
        (p_listen p) false (drop 1024 (p_sigs p))) s)
  | PSigNext, PSigs [] => Some (set_par (set_ppc PLoop p) s)
  | PSigNext, PSigs (SChld :: l) => Some (set_par (set_ppc (PReaping l) p) s)
  | PSigNext, PSigs (STerm :: l) => Some (set_par (set_ppc (PKilling 0 l) p) s)
  | PReap k, PReaping _ => with_kid k s kid_reap
  | PReapEnd, PReaping l =>
      _ ← guard_ (negb (existsb is_zombie (kids s)));
      Some (set_par (mkParent (PSigs l) (p_counter p) (forallb is_reaped (kids s))
        (p_listen p) (p_sig p) (p_sigs p)) s)
  | PKill, PKilling k l =>
      if (k <? length (kids s))%nat then
        s' ← with_kid k s (fun x => Some (kid_signalled x));
        Some (set_par (set_ppc (PKilling (S k) l) p) s')
      else Some (set_par (set_ppc (PSigs l) p) s)
  | PExit, PLoop =>
      _ ← guard_ (p_stop p && negb (p_listen p) && negb (p_sig p));
      Some (set_par (set_ppc PExited p) s)
  | _, _ => None
  end.

(** One action; [None] when it is not possible in the state. *)
Definition act (s : psys) (a : paction) : option psys :=
  match a with
  | Arrive c => Some (mkSys (kids s) (par s) (backlog s ++ [c]) (chld s) (dropped s)
                        (arrived s ++ [c]) (accepted s))
  | TermParent => Some (handler STerm s)
  | TermKid k => with_kid k s (fun x => Some (kid_signalled x))
  | Deliver => _ ← guard_ (chld s); Some (handler SChld (set_chld false s))
  | KPoll k m => with_kid k s (kid_poll m)
  | KRecv k => with_kid k s kid_recv
  | KTake k =>
      match backlog s with
      | [] => with_kid k s kid_failed
      | c :: rest =>
          s' ← with_kid k s (kid_accepted c);
          Some (mkSys (kids s') (par s') rest (chld s') (dropped s') (arrived s')
            (accepted s' ++ [(k, c)]))
      end
  | KFail k => _ ← guard_ (nonempty (backlog s)); with_kid k s kid_failed
  | KUser k => with_kid k s kid_user
  | KSignals k => with_kid k s kid_signals
  | KExit k => ends k s kid_exit
  | KDie k => ends k s kid_die
  | _ => parent_step s a
  end.

Definition run : psys -> list paction -> option psys := exec act.
End system.

(** Start: [n] children in their loops, nothing shared yet. *)
Definition new_kid : kid := mkKid KLoop 0 false false false false 0 [].
Definition new_parent : parent := mkParent PLoop 0 false false false [].
Definition start (n : nat) : psys := mkSys (replicate n new_kid) new_parent [] false false [] [].

Definition reachable (cap n : nat) (s : psys) : Prop := exists l, run cap (start n) l = Some s.

(** ** The same as a relation, one rule per outcome *)

(** The actions that only change child [k]. *)
Definition own_step (a : paction) : option (nat * (kid -> option kid)) :=
  match a with
  | TermKid k => Some (k, fun x => Some (kid_signalled x))
  | KPoll k m => Some (k, kid_poll m)
  | KRecv k => Some (k, kid_recv)
  | KUser k => Some (k, kid_user)
  | KSignals k => Some (k, kid_signals)
  | _ => None
  end.
Definition end_step (a : paction) : option (nat * (kid -> option kid)) :=
  match a with KExit k => Some (k, kid_exit) | KDie k => Some (k, kid_die) | _ => None end.

Section relation.
Context (cap : nat).
Implicit Types s : psys.

Definition put (k : nat) (y : kid) s : psys := set_kids (<[k := y]> (kids s)) s.

Inductive pstep s : paction -> psys -> Prop :=
| ps_arrive c : pstep s (Arrive c) (mkSys (kids s) (par s) (backlog s ++ [c]) (chld s) (dropped s)
    (arrived s ++ [c]) (accepted s))
| ps_term : pstep s TermParent (handler cap STerm s)
| ps_deliver : chld s = true -> pstep s Deliver (handler cap SChld (set_chld false s))
| ps_own a k f x y :
    own_step a = Some (k, f) -> kids s !! k = Some x -> f x = Some y -> pstep s a (put k y s)
| ps_end a k f x y :
    end_step a = Some (k, f) -> kids s !! k = Some x -> f x = Some y ->
    pstep s a (set_chld true (put k y s))
| ps_take k c rest x y :
    backlog s = c :: rest -> kids s !! k = Some x -> kid_accepted c x = Some y ->
    pstep s (KTake k) (mkSys (<[k := y]> (kids s)) (par s) rest (chld s) (dropped s) (arrived s)
      (accepted s ++ [(k, c)]))
| ps_empty k x y :
    backlog s = [] -> kids s !! k = Some x -> kid_failed x = Some y -> pstep s (KTake k) (put k y s)
| ps_fail k x y :
    nonempty (backlog s) = true -> kids s !! k = Some x -> kid_failed x = Some y ->
    pstep s (KFail k) (put k y s)
| ps_poll :
    p_pc (par s) = PLoop -> p_stop (par s) = false -> p_listen (par s) = false ->
    p_sig (par s) = false -> nonempty (backlog s) || nonempty (p_sigs (par s)) = true ->
    pstep s PPoll (set_par (mkParent PLoop (p_counter (par s)) false
      (nonempty (backlog s)) (nonempty (p_sigs (par s))) (p_sigs (par s))) s)
| ps_none m :
    p_pc (par s) = PLoop -> p_listen (par s) = true -> next_live (kids s) (p_counter (par s)) = None ->
    pstep s (PNotify m) (set_par (mkParent PLoop (p_counter (par s)) true false false (p_sigs (par s))) s)
| ps_notify m j x y :
    p_pc (par s) = PLoop -> p_listen (par s) = true ->
    next_live (kids s) (p_counter (par s)) = Some j ->
    kids s !! j = Some x -> kid_notified m x = Some y ->
    pstep s (PNotify m) (set_par (mkParent PLoop ((j + 1) mod length (kids s))%nat
      (p_stop (par s)) false (p_sig (par s)) (p_sigs (par s))) (put j y s))
| ps_read :
    p_pc (par s) = PLoop -> p_sig (par s) = true ->
    pstep s PSigRead (set_par (mkParent (PSigs (take 1024 (p_sigs (par s)))) (p_counter (par s))
      (p_stop (par s)) (p_listen (par s)) false (drop 1024 (p_sigs (par s)))) s)
| ps_next_nil :
    p_pc (par s) = PSigs [] -> pstep s PSigNext (set_par (set_ppc PLoop (par s)) s)
| ps_next_chld l :
    p_pc (par s) = PSigs (SChld :: l) -> pstep s PSigNext (set_par (set_ppc (PReaping l) (par s)) s)
| ps_next_term l :
    p_pc (par s) = PSigs (STerm :: l) -> pstep s PSigNext (set_par (set_ppc (PKilling 0 l) (par s)) s)
| ps_reap k l x y :
    p_pc (par s) = PReaping l -> kids s !! k = Some x -> kid_reap x = Some y ->
    pstep s (PReap k) (put k y s)
| ps_reap_end l :
    p_pc (par s) = PReaping l -> existsb is_zombie (kids s) = false ->
    pstep s PReapEnd (set_par (mkParent (PSigs l) (p_counter (par s)) (forallb is_reaped (kids s))
      (p_listen (par s)) (p_sig (par s)) (p_sigs (par s))) s)
| ps_kill k l x :
    p_pc (par s) = PKilling k l -> kids s !! k = Some x ->
    pstep s PKill (set_par (set_ppc (PKilling (S k) l) (par s)) (put k (kid_signalled x) s))
| ps_kill_end k l :
    p_pc (par s) = PKilling k l -> (length (kids s) <= k)%nat ->
    pstep s PKill (set_par (set_ppc (PSigs l) (par s)) s)
| ps_exit :
    p_pc (par s) = PLoop -> p_stop (par s) = true -> p_listen (par s) = false ->
    p_sig (par s) = false -> pstep s PExit (set_par (set_ppc PExited (par s)) s).

Lemma guard_Some b u : guard_ b = Some u <-> b = true.
Proof. destruct b, u; done. Qed.

Lemma with_kid_Some k s f s' :
  with_kid k s f = Some s' <-> exists x y, kids s !! k = Some x /\ f x = Some y /\ s' = put k y s.
Proof.
  unfold with_kid, mbind, option_bind. split.
  - intros Hs. repeat case_match; simplify_eq. eauto.
  - by intros (x & y & -> & -> & ->).
Qed.

Ltac split_act := repeat match goal with
  | H : (_ ≫= _) = Some _ |- _ => apply bind_Some in H as (? & ? & ?)
  | H : guard_ _ = Some _ |- _ => apply guard_Some in H
  | H : with_kid _ _ _ = Some _ |- _ => apply with_kid_Some in H as (? & ? & ? & ? & ->)
  | H : _ && _ = true |- _ => apply andb_true_iff in H as []
  | H : negb _ = true |- _ => apply negb_true_iff in H
  | H : Some _ = Some _ |- _ => injection H as <-
  | H : None = Some _ |- _ => discriminate H
  end.

Lemma parent_pstep s a s' : parent_step s a = Some s' -> pstep s a s'.
Proof.
  unfold parent_step. intros Ha. destruct a; try done; destruct (p_pc (par s)) eqn:Hpc; try done.
  - split_act. match goal with Hs : p_stop _ = false |- _ => rewrite Hs end. by constructor.
  - split_act. destruct (next_live _ _) eqn:Hn; split_act; [|by constructor].
    by eapply ps_notify.
  - split_act. by constructor.
  - destruct l as [|[] l]; split_act; by constructor.
  - by split_act; econstructor.
  - split_act. by constructor.
  - destruct (Nat.ltb_spec k (length (kids s))); split_act.
    + simplify_eq. by constructor.
    + by apply ps_kill_end with k.
  - split_act. by constructor.
Qed.

Lemma act_pstep s a s' : act cap s a = Some s' -> pstep s a s'.
Proof.
  intros Ha. destruct a; cbn [act] in Ha; try (by apply parent_pstep);
    try (by split_act; eapply ps_own); try (by unfold ends in Ha; split_act; eapply ps_end);
    try (split_act; by econstructor).
  destruct (backlog s) eqn:Hb; split_act; by econstructor.
Qed.
End relation.

(** A property every action keeps holds of every state an execution reaches. *)
Lemma run_ind (cap : nat) (P : psys -> Prop) l s s' :
  (forall s a s', P s -> pstep cap s a s' -> P s') -> P s -> run cap s l = Some s' -> P s'.
Proof.
  intros Hstep. revert s. induction l as [|a l IH]; intros s Hs Hl; [by simplify_eq/=|].
  cbn in Hl. destruct (act cap s a) as [s1|] eqn:Ha; simplify_eq/=. eauto using act_pstep.
Qed.

(** ** What the steps of a child change *)

Ltac kid_cases := unfold kid_poll, kid_recv, kid_accepted, kid_failed, kid_user, kid_signals,
  kid_exit, kid_die, kid_reap, kid_notified, kid_signalled, guard_, mbind, option_bind,
  set_kpc, set_batch, set_bytes, set_kterm, add_conn, is_reaped, is_zombie, running in *;
  intros; repeat case_match; simplify_eq/=; try done.

Lemma own_step_keeps a k f x y :
  own_step a = Some (k, f) -> f x = Some y ->
  k_conns y = k_conns x /\ is_reaped y = is_reaped x /\ is_zombie y = is_zombie x.
Proof. intros Ha Hf. destruct a; simplify_eq/=; kid_cases. Qed.

Lemma end_step_keeps a k f x y :
  end_step a = Some (k, f) -> f x = Some y ->
  k_conns y = k_conns x /\ is_reaped y = false /\ is_reaped x = false /\ is_zombie y = true /\
  running x = true.
Proof. intros Ha Hf. destruct a; simplify_eq/=; kid_cases. Qed.

Lemma kid_accepted_keeps c x y : kid_accepted c x = Some y ->
  k_conns y = k_conns x ++ [c] /\ is_reaped y = is_reaped x /\ is_zombie y = is_zombie x.
Proof. kid_cases. Qed.

Lemma kid_failed_keeps x y : kid_failed x = Some y ->
  k_conns y = k_conns x /\ is_reaped y = is_reaped x /\ is_zombie y = is_zombie x.
Proof. kid_cases. Qed.

Lemma kid_notified_keeps m x y : kid_notified m x = Some y ->
  k_conns y = k_conns x /\ k_pc y = k_pc x.
Proof. kid_cases. Qed.

Lemma kid_reap_keeps x y : kid_reap x = Some y -> k_conns y = k_conns x /\ is_reaped y = true.
Proof. kid_cases. Qed.

Lemma kid_signalled_keeps x : k_conns (kid_signalled x) = k_conns x /\
  k_pc (kid_signalled x) = k_pc x.
Proof. kid_cases. Qed.

Lemma is_reaped_pc x y : k_pc y = k_pc x -> is_reaped y = is_reaped x.
Proof. unfold is_reaped. by intros ->. Qed.

(** ** Conservation *)

(** The clients child [k] accepted, in order. *)
Definition taken_by (k : nat) (l : list (nat * Z)) : list Z :=
  map snd (List.filter (fun e => (fst e =? k)%nat) l).

Lemma taken_by_app k l1 l2 : taken_by k (l1 ++ l2) = taken_by k l1 ++ taken_by k l2.
Proof. unfold taken_by. by rewrite List.filter_app, map_app. Qed.

Definition conserved (s : psys) : Prop :=
  map snd (accepted s) ++ backlog s = arrived s /\
  forall k x, kids s !! k = Some x -> k_conns x = taken_by k (accepted s).

Lemma lookup_put (l : list kid) k x y j z :
  l !! k = Some x -> <[k := y]> l !! j = Some z -> (j = k /\ z = y) \/ (j <> k /\ l !! j = Some z).
Proof.
  intros Hk Hj. destruct (decide (j = k)) as [->|Hne].
  - rewrite list_lookup_insert_eq in Hj by (by eapply lookup_lt_Some). left. by simplify_eq.
  - rewrite list_lookup_insert_ne in Hj by done. by right.
Qed.

Lemma conserved_put s k x y :
  conserved s -> kids s !! k = Some x -> k_conns y = k_conns x -> conserved (put k y s).
Proof.
  intros [Hl Hk] Hx Hy. split; [done|]. intros j z [[-> ->]|[_ Hj]]%(lookup_put _ _ _ _ _ _ Hx); [|by eauto].
  rewrite Hy. by eapply Hk.
Qed.

Lemma pstep_conserved cap s a s' : conserved s -> pstep cap s a s' -> conserved s'.
Proof.
  intros Hc Ha. pose proof Hc as [Hl Hk].
  destruct Ha as [c| |Hchld|a k f x y Ho Hx Hf|a k f x y Ho Hx Hf|k c rest x y Hb Hx Hf
    |k x y Hb Hx Hf|k x y Hb Hx Hf| | |m j x y Hpc Hli Hn Hx Hf| | | | |k l x y Hpc Hx Hf| |k l x Hpc Hx| |];
    try exact Hc.
  - split; simpl; [by rewrite app_assoc, Hl|done].
  - unfold handler. by case_match.
  - unfold handler. by case_match.
  - eapply conserved_put; [done..|]. by eapply own_step_keeps.
  - refine (conserved_put _ _ _ _ Hc Hx _). by eapply end_step_keeps.
  - split; simpl.
    + rewrite map_app, <- app_assoc, <- Hl, Hb. done.
    + intros j z Hz. rewrite taken_by_app. unfold taken_by at 2. simpl.
      destruct (lookup_put _ _ _ _ _ _ Hx Hz) as [[-> ->]|[Hne Hj]].
      * rewrite Nat.eqb_refl. simpl. rewrite <- (Hk _ _ Hx). by eapply kid_accepted_keeps.
      * rewrite (proj2 (Nat.eqb_neq _ _)) by done. simpl. rewrite app_nil_r. by apply Hk.
  - eapply conserved_put; [done..|]. by eapply kid_failed_keeps.
  - eapply conserved_put; [done..|]. by eapply kid_failed_keeps.
  - refine (conserved_put _ _ _ _ Hc Hx _). by eapply kid_notified_keeps.
  - eapply conserved_put; [done..|]. by eapply kid_reap_keeps.
  - refine (conserved_put _ _ _ _ Hc Hx _). by apply kid_signalled_keeps.
Qed.

Lemma start_conserved n : conserved (start n).
Proof. split; [done|]. intros k x [-> _]%lookup_replicate. done. Qed.


(** ** The parent stops last *)

Definition all_reaped (s : psys) : bool := forallb is_reaped (kids s).

Definition stops_last (s : psys) : Prop :=
  (p_stop (par s) = true -> all_reaped s = true) /\ (p_pc (par s) = PExited -> p_stop (par s) = true).

Lemma forallb_put (f : kid -> bool) l k x y :
  l !! k = Some x -> (f x = true -> f y = true) -> forallb f l = true -> forallb f (<[k := y]> l) = true.
Proof.
  revert k. induction l as [|z l IH]; intros [|k] Hk Hxy Hall; simplify_eq/=; try done;
    apply andb_true_iff in Hall as [Hz Hall]; apply andb_true_iff; eauto.
Qed.

Lemma all_reaped_put s k x y :
  kids s !! k = Some x -> is_reaped y = is_reaped x \/ is_reaped y = true ->
  all_reaped s = true -> all_reaped (put k y s) = true.
Proof. intros Hx Hy. unfold all_reaped. simpl. eapply forallb_put; [done|]. naive_solver. Qed.

Lemma all_reaped_lookup s k x : all_reaped s = true -> kids s !! k = Some x -> is_reaped x = true.
Proof.
  intros Hall Hx. unfold all_reaped in Hall. rewrite forallb_forall in Hall.
  by apply Hall, list_elem_of_In, list_elem_of_lookup_2 with k.
Qed.

(** The parent's search fails only when every child has been reaped. *)
Lemma next_live_None l c : next_live l c = None -> forallb is_reaped l = true.
Proof.
  intros Hn. apply forallb_forall. intros x (k & Hk)%list_elem_of_In%list_elem_of_lookup.
  pose proof (lookup_lt_Some _ _ _ Hk) as Hlt.
  set (n := length l) in *. set (d := ((k + n - c mod n) mod n)%nat).
  pose proof (Nat.mod_upper_bound c n ltac:(lia)).
  assert (Hd : ((c + d) mod n = k)%nat).
  { unfold d. rewrite Nat.Div0.add_mod_idemp_r, <- Nat.Div0.add_mod_idemp_l.
    replace (c mod n + (k + n - c mod n))%nat with (k + 1 * n)%nat by lia.
    rewrite Nat.Div0.mod_add. by apply Nat.mod_small. }
  pose proof (List.find_none _ _ Hn k) as Hf. cbv beta in Hf. rewrite Hk in Hf. simpl in Hf.
  apply negb_false_iff, Hf. rewrite <- Hd. apply in_map_iff. exists d. split; [done|].
  apply in_seq. pose proof (Nat.mod_upper_bound (k + n - c mod n) n ltac:(lia)). lia.
Qed.

Lemma next_live_Some l c j : next_live l c = Some j ->
  exists x, l !! j = Some x /\ is_reaped x = false.
Proof.
  intros [_ Hj]%List.find_some. destruct (l !! j) as [x|]; [|done]. exists x.
  split; [done|]. by apply negb_true_iff in Hj.
Qed.

Lemma handler_keeps cap g s : kids (handler cap g s) = kids s /\
  p_stop (par (handler cap g s)) = p_stop (par s) /\ p_pc (par (handler cap g s)) = p_pc (par s).
Proof. unfold handler. by case_match. Qed.

Lemma pstep_stops_last cap s a s' : stops_last s -> pstep cap s a s' -> stops_last s'.
Proof.
  intros Hst Ha. pose proof Hst as [Hs He].
  assert (Hput : forall k x y s1, kids s !! k = Some x -> is_reaped y = is_reaped x \/ is_reaped y = true ->
    kids s1 = <[k := y]> (kids s) -> par s1 = par s -> stops_last s1).
  { intros k x y s1 Hx Hy Hk Hp. unfold stops_last, all_reaped. rewrite Hk, Hp. split; [|done].
    intros Hstop. by eapply forallb_put; [done|naive_solver|apply Hs]. }
  assert (Hhandler : forall g s1, kids s1 = kids s -> par s1 = par s -> stops_last (handler cap g s1)).
  { intros g s1 Hk Hp. unfold stops_last, all_reaped. destruct (handler_keeps cap g s1) as (-> & -> & ->).
    by rewrite Hk, Hp. }
  destruct Ha as [c| |Hchld|a k f x y Ho Hx Hf|a k f x y Ho Hx Hf|k c rest x y Hb Hx Hf
    |k x y Hb Hx Hf|k x y Hb Hx Hf|Hpc|m Hpc Hli Hn|m j x y Hpc Hli Hn Hx Hf|Hpc|Hpc|l Hpc|l Hpc
    |k l x y Hpc Hx Hf|l Hpc|k l x Hpc Hx|k l Hpc|Hpc]; try exact Hst; try (by apply Hhandler).
  - by eapply Hput; [done|left; eapply own_step_keeps|..].
  - by eapply Hput; [done|left; destruct (end_step_keeps _ _ _ _ _ Ho Hf) as (_ & -> & -> & _)|..].
  - by eapply Hput; [done|left; eapply kid_accepted_keeps|..].
  - by eapply Hput; [done|left; eapply kid_failed_keeps|..].
  - by eapply Hput; [done|left; eapply kid_failed_keeps|..].
  - split; simpl; [done|]. intros; congruence.
  - split; simpl; [|done]. intros _. by eapply next_live_None.
  - destruct (kid_notified_keeps _ _ _ Hf) as [_ Hpc'].
    split; simpl; [|by intros; congruence]. intros Hstop.
    by eapply all_reaped_put; [done|left; apply is_reaped_pc|apply Hs].
  - split; simpl; [done|by intros]. 
  - split; simpl; [done|by intros].
  - split; simpl; [done|by intros].
  - split; simpl; [done|by intros].
  - by eapply Hput; [done|right; eapply kid_reap_keeps|..].
  - split; simpl; [done|by intros].
  - split; simpl; [|by intros]. intros Hstop.
    by eapply all_reaped_put; [done|left; apply is_reaped_pc, kid_signalled_keeps|apply Hs].
  - split; simpl; [done|by intros].
  - split; simpl; [done|by intros].
Qed.

Lemma start_stops_last n : stops_last (start n).
Proof. by split. Qed.


(** ** The theorems at concrete inputs *)

(** Two children and two clients: the first child takes one of them. *)
Definition demo_clients : list paction :=
  [Arrive 7; PPoll; PNotify 4; Arrive 8; PPoll; PNotify 4; KPoll 0 0; KRecv 0; KTake 0].
(** Both children end; the parent reaps them and stops. *)
Definition demo_ends : list paction :=
  [KDie 1; KDie 0; Deliver; PPoll; PSigRead; PSigNext; PReap 1; PReap 0; PReapEnd].
Definition demo_sys (l : list paction) : psys := default (start 2) (run 1 (start 2) l).


