(* ===== verification/ProcLiveness.v ===== *)
(** * Progress of the process pool

    Fairness says that a process of ProcSystem that has something to do
    eventually does something.  Under it, every client that arrives is accepted,
    although the parent may notify too many children or one that has ended; and
    after SIGTERM the parent stops once all its children have been reaped,
    although signals merge.  Without the assumption that accept succeeds while a
    client waits, neither a signal nor a client of a child need ever be looked
    at. *)

From S2P Require Import Prelude Fairness ProcSystem.

(** ** Processes *)

(** The parent, the delivery of its pending signal, and the children. *)
Inductive proc := PrParent | PrSignal | PrKid (k : nat).

Definition mine (p : proc) (a : paction) : bool :=
  match p, a with
  | PrParent, (PPoll | PNotify _ | PSigRead | PSigNext | PReap _ | PReapEnd | PKill | PExit) => true
  | PrSignal, Deliver => true
  | PrKid k, (KPoll j _ | KRecv j | KTake j | KFail j | KUser j | KSignals j | KExit j) => (k =? j)%nat
  | _, _ => false
  end.

(** Something to do, whatever the clients of a child send. *)
Definition parent_ready (s : psys) : bool :=
  let p := par s in
  match p_pc p with
  | PExited => false
  | PLoop => p_stop p || p_listen p || p_sig p || nonempty (backlog s) || nonempty (p_sigs p)
  | _ => true
  end.
Definition kid_ready (x : kid) : bool :=
  match k_pc x with
  | KLoop => k_stop x || negb (batch_done x) || (0 <? k_bytes x)%nat || k_term x
  | KAccept => true
  | _ => false
  end.
Definition ready (p : proc) (s : psys) : bool :=
  match p with
  | PrParent => parent_ready s
  | PrSignal => chld s
  | PrKid k => default false (kid_ready <$> kids s !! k)
  end.

(** Every process is treated fairly. *)
Definition fair (tr : nat -> psys) (lab : nat -> option paction) : Prop :=
  forall p, weakly_fair (ready p) (on_action false (mine p)) tr lab.

Lemma with_kid_is_Some k s f x :
  kids s !! k = Some x -> is_Some (f x) -> is_Some (with_kid k s f).
Proof. intros Hx [y Hf]. unfold with_kid. rewrite Hx. simpl. rewrite Hf. by eexists. Qed.

Lemma kid_notified_4 x : is_Some (kid_notified 4 x).
Proof. by eexists. Qed.

Lemma not_done x : batch_done x = false -> k_pipe x = true \/ k_sig x = true \/ exists m, k_users x = S m.
Proof. unfold batch_done. destruct (k_pipe x), (k_sig x), (k_users x); naive_solver. Qed.

(** A kid that is ready can act. *)
Lemma kid_ready_enabled cap s k x : kids s !! k = Some x -> kid_ready x = true ->
  exists a, mine (PrKid k) a = true /\ is_Some (act cap s a).
Proof.
  intros Hx Hr. unfold kid_ready in Hr. destruct (k_pc x) eqn:Hpc; try done.
  - destruct (batch_done x) eqn:Hb.
    + destruct (k_stop x) eqn:Hs.
      * exists (KExit k). split; [simpl; by rewrite Nat.eqb_refl|].
        cbn [act ends]. unfold ends, with_kid, kid_exit. rewrite Hx. simpl. rewrite Hpc, Hs, Hb. by eexists.
      * exists (KPoll k 0). split; [simpl; by rewrite Nat.eqb_refl|].
        apply with_kid_is_Some with x; [done|]. unfold kid_poll. rewrite Hpc, Hs, Hb. simpl in *.
        rewrite orb_false_r, Hr. by eexists.
    + destruct (not_done _ Hb) as [Hp|[Hp|[m Hp]]].
      * exists (KRecv k). split; [simpl; by rewrite Nat.eqb_refl|].
        apply with_kid_is_Some with x; [done|]. unfold kid_recv. rewrite Hpc, Hp. case_match; by eexists.
      * exists (KSignals k). split; [simpl; by rewrite Nat.eqb_refl|].
        apply with_kid_is_Some with x; [done|]. unfold kid_signals. rewrite Hpc, Hp. by eexists.
      * exists (KUser k). split; [simpl; by rewrite Nat.eqb_refl|].
        apply with_kid_is_Some with x; [done|]. unfold kid_user. rewrite Hpc, Hp. by eexists.
  - exists (KTake k). split; [simpl; by rewrite Nat.eqb_refl|]. cbn [act].
    destruct (backlog s) as [|c rest].
    + apply with_kid_is_Some with x; [done|]. unfold kid_failed. rewrite Hpc. by eexists.
    + unfold with_kid. rewrite Hx. simpl. unfold kid_accepted. rewrite Hpc. by eexists.
Qed.

Lemma notify_enabled cap s : p_pc (par s) = PLoop -> p_listen (par s) = true ->
  is_Some (act cap s (PNotify 4)).
Proof.
  intros Hpc Hl. cbn [act]. unfold parent_step. rewrite Hpc, Hl. simpl.
  destruct (next_live _ _) as [j|] eqn:Hn; [|by eexists].
  destruct (next_live_Some _ _ _ Hn) as (x & Hx & _).
  destruct (with_kid_is_Some j s (kid_notified 4) x Hx (kid_notified_4 x)) as [s' ->]. by eexists.
Qed.

(** A ready process can act: fairness asks nothing impossible. *)
Lemma ready_enabled cap p s : ready p s = true -> exists a, mine p a = true /\ is_Some (act cap s a).
Proof.
  destruct p as [| |k]; cbn [ready]; intros Hr.
  - unfold parent_ready in Hr. destruct (p_pc (par s)) as [|[|[] l]|l|k l|] eqn:Hpc; try done.
    + destruct (p_listen (par s)) eqn:Hl; [exists (PNotify 4); split; [done|by apply notify_enabled]|].
      destruct (p_sig (par s)) eqn:Hsig.
      { exists PSigRead. split; [done|]. simpl. unfold parent_step. rewrite Hpc, Hsig. by eexists. }
      destruct (p_stop (par s)) eqn:Hst.
      * exists PExit. split; [done|]. simpl. unfold parent_step. rewrite Hpc, Hst, Hl, Hsig. by eexists.
      * exists PPoll. split; [done|]. simpl in *. unfold parent_step. rewrite Hpc, Hst, Hl, Hsig.
        simpl. rewrite Hr. by eexists.
    + exists PSigNext. split; [done|]. simpl. unfold parent_step. rewrite Hpc. by eexists.
    + exists PSigNext. split; [done|]. simpl. unfold parent_step. rewrite Hpc. by eexists.
    + exists PSigNext. split; [done|]. simpl. unfold parent_step. rewrite Hpc. by eexists.
    + destruct (existsb is_zombie (kids s)) eqn:Hz.
      * apply existsb_exists in Hz as (x & (k & Hx)%list_elem_of_In%list_elem_of_lookup & Hz).
        exists (PReap k). split; [done|]. simpl. unfold parent_step. rewrite Hpc.
        apply with_kid_is_Some with x; [done|]. unfold kid_reap. rewrite Hz. by eexists.
      * exists PReapEnd. split; [done|]. simpl. unfold parent_step. rewrite Hpc, Hz. by eexists.
    + exists PKill. split; [done|]. simpl. unfold parent_step. rewrite Hpc.
      destruct (Nat.ltb_spec k (length (kids s))) as [Hlt|]; [|by eexists].
      apply lookup_lt_is_Some in Hlt as [x Hx].
      destruct (with_kid_is_Some k s (fun x => Some (kid_signalled x)) x Hx) as [s' ->]; by eexists.
  - exists Deliver. split; [done|]. simpl. rewrite Hr. by eexists.
  - destruct (kids s !! k) as [x|] eqn:Hx; [|done]. by eapply kid_ready_enabled.
Qed.

(** ** Going round *)

(** How far the child [k] is from the counter [c], going round. *)
Definition dist (n c k : nat) : nat := ((k + n - c mod n) mod n)%nat.

Lemma dist_unique n c d : (d < n)%nat -> dist n c ((c + d) mod n) = d.
Proof.
  intros Hd. unfold dist. pose proof (Nat.mod_upper_bound c n ltac:(lia)).
  rewrite <- Nat.Div0.add_mod_idemp_l. set (c' := (c mod n)%nat) in *.
  destruct (decide (c' + d < n)%nat).
  - rewrite (Nat.mod_small (c' + d)) by lia.
    replace (c' + d + n - c')%nat with (d + 1 * n)%nat by lia.
    rewrite Nat.Div0.mod_add. by apply Nat.mod_small.
  - replace (c' + d)%nat with (c' + d - n + 1 * n)%nat by lia.
    rewrite Nat.Div0.mod_add, (Nat.mod_small (c' + d - n)) by lia.
    replace (c' + d - n + n - c')%nat with d by lia. by apply Nat.mod_small.
Qed.

Lemma dist_spec n c k : (k < n)%nat -> (dist n c k < n)%nat /\ ((c + dist n c k) mod n = k)%nat.
Proof.
  intros Hk. unfold dist. pose proof (Nat.mod_upper_bound c n ltac:(lia)).
  split; [apply Nat.mod_upper_bound; lia|].
  rewrite Nat.Div0.add_mod_idemp_r, <- Nat.Div0.add_mod_idemp_l.
  replace (c mod n + (k + n - c mod n))%nat with (k + 1 * n)%nat by lia.
  rewrite Nat.Div0.mod_add. by apply Nat.mod_small.
Qed.

(** Each notification goes to the child wanted or brings the counter nearer. *)
Lemma next_live_nearer l c j k x :
  next_live l c = Some j -> l !! k = Some x -> is_reaped x = false ->
  j = k \/ (dist (length l) ((j + 1) mod length l) k < dist (length l) c k)%nat.
Proof.
  intros Hn Hk Hx. pose proof (lookup_lt_Some _ _ _ Hk) as Hlt. set (n := length l) in *.
  destruct (find_map_seq _ _ _ _ _ Hn) as (d & Hd & -> & _ & Hbefore). fold n in Hd, Hbefore.
  destruct (dist_spec n c k Hlt) as [HD HDk]. set (D := dist n c k) in *.
  destruct (decide (D < d)%nat) as [HDd|HDd].
  { exfalso. specialize (Hbefore D ltac:(lia)). rewrite HDk, Hk in Hbefore. simpl in Hbefore.
    by rewrite Hx in Hbefore. }
  destruct (decide (D = d)) as [->|Hne]; [by left|right].
  assert (Hk2 : k = ((((c + d) mod n + 1) mod n + (D - d - 1)) mod n)%nat).
  { rewrite <- HDk at 1. rewrite Nat.Div0.add_mod_idemp_l.
    replace ((c + d) mod n + 1 + (D - d - 1))%nat with ((c + d) mod n + (D - d))%nat by lia.
    rewrite Nat.Div0.add_mod_idemp_l. f_equal. lia. }
  rewrite Hk2, dist_unique by lia. lia.
Qed.

(** ** Every client is accepted *)

Section serving.
Context (cap : nat) (star : nat).

(** The actions of a time without signals, without a child that ends, and without
    an accept that fails while a client waits. *)
Definition calm_action (a : paction) : bool :=
  match a with
  | Arrive _ | PPoll | PNotify _ | KPoll _ _ | KRecv _ | KTake _ | KUser _ => true
  | _ => false
  end.

Definition calm_kid (x : kid) : bool :=
  is_reaped x || (running x && negb (k_term x) && negb (k_stop x) && negb (k_sig x)).

(** No signal is under way, every child is running or reaped, and [star] runs. *)
Definition calm (s : psys) : Prop :=
  p_pc (par s) = PLoop /\ p_stop (par s) = false /\ p_sig (par s) = false /\ p_sigs (par s) = [] /\
  chld s = false /\ (forall k x, kids s !! k = Some x -> calm_kid x = true) /\
  exists x, kids s !! star = Some x /\ running x = true.

(** A child's batch has its pipe only when there is something in it. *)
Definition pipe_ok (x : kid) : bool := implb (k_pipe x) (0 <? k_bytes x)%nat.
Definition pipes_ok (s : psys) : Prop := forall k x, kids s !! k = Some x -> pipe_ok x = true.

Lemma pipes_ok_put s k x y :
  pipes_ok s -> kids s !! k = Some x -> pipe_ok y = true -> pipes_ok (put k y s).
Proof. intros Hp Hx Hy j z [[-> ->]|[_ Hj]]%(lookup_put _ _ _ _ _ _ Hx); eauto. Qed.

Ltac kid_bytes := unfold pipe_ok, calm_kid in *; kid_cases;
  repeat match goal with H : context [(_ <? _)%nat] |- _ => destruct (Nat.ltb_spec 0 _) end; try done; try lia.

Lemma own_step_pipe a k f x y : own_step a = Some (k, f) -> f x = Some y ->
  pipe_ok x = true -> pipe_ok y = true.
Proof.
  intros Ha Hf. destruct a; simplify_eq/=; unfold pipe_ok; kid_cases; by destruct (k_pipe x), (k_bytes x).
Qed.

Lemma pstep_pipes_ok s a s' : pipes_ok s -> pstep cap s a s' -> pipes_ok s'.
Proof.
  intros Hp Ha.
  destruct Ha as [c| |Hchld|a k f x y Ho Hx Hf|a k f x y Ho Hx Hf|k c rest x y Hb Hx Hf
    |k x y Hb Hx Hf|k x y Hb Hx Hf|Hpc|m Hpc Hli Hn|m j x y Hpc Hli Hn Hx Hf|Hpc|Hpc|l Hpc|l Hpc
    |k l x y Hpc Hx Hf|l Hpc|k l x Hpc Hx|k l Hpc|Hpc]; try exact Hp;
    try (unfold handler, pipes_ok; by case_match);
    refine (pipes_ok_put _ _ _ _ Hp Hx _); pose proof (Hp _ _ Hx) as Hok.
  - by eapply own_step_pipe.
  - destruct a; simplify_eq/=; unfold pipe_ok in *; kid_cases.
  - unfold pipe_ok in *; kid_cases.
  - unfold pipe_ok in *; kid_cases.
  - unfold pipe_ok in *; kid_cases.
  - unfold pipe_ok, kid_notified, mbind, option_bind in *. case_match; simplify_eq/=.
    destruct (k_pipe x); [|done]. simpl in *. apply Nat.ltb_lt in Hok. apply Nat.ltb_lt. lia.
  - unfold pipe_ok in *; kid_cases.
  - unfold pipe_ok in *; kid_cases.
Qed.

Lemma own_step_calm a k f x y : own_step a = Some (k, f) -> calm_action a = true -> f x = Some y ->
  calm_kid x = true -> calm_kid y = true /\ running y = running x.
Proof.
  intros Ha Hok Hf. destruct a; simplify_eq/=; unfold calm_kid; kid_cases;
    by destruct (k_term x), (k_stop x), (k_sig x).
Qed.

Lemma calm_put s k x y : calm s -> kids s !! k = Some x ->
  calm_kid y = true -> running y = running x -> calm (put k y s).
Proof.
  intros (Hpc & Hst & Hsig & Hsigs & Hch & Hk & z & Hz & Hrun) Hx Hy Hr. split_and!; try done.
  - intros j u [[-> ->]|[_ Hj]]%(lookup_put _ _ _ _ _ _ Hx); eauto.
  - simpl. destruct (decide (star = k)) as [<-|Hne].
    + exists y. rewrite list_lookup_insert_eq by (by eapply lookup_lt_Some). split; [done|]. simplify_eq. congruence.
    + exists z. by rewrite list_lookup_insert_ne.
Qed.

Lemma calm_not_reaped s : calm s -> next_live (kids s) (p_counter (par s)) <> None.
Proof.
  intros (_ & _ & _ & _ & _ & _ & x & Hx & Hr) Hn%next_live_None.
  pose proof (all_reaped_lookup s _ _ Hn Hx) as Hreap. unfold is_reaped, running in *. by destruct (k_pc x).
Qed.

Lemma kid_accepted_calm c x y : kid_accepted c x = Some y ->
  calm_kid y = calm_kid x /\ running y = running x.
Proof. unfold calm_kid; kid_cases. Qed.

Lemma kid_failed_calm x y : kid_failed x = Some y -> calm_kid x = true ->
  calm_kid y = true /\ running y = running x.
Proof. unfold calm_kid; kid_cases. by destruct (k_term x), (k_stop x), (k_sig x). Qed.

Lemma kid_notified_calm m x y : kid_notified m x = Some y ->
  calm_kid y = calm_kid x /\ running y = running x.
Proof. unfold calm_kid; kid_cases. Qed.

Lemma pstep_calm s a s' : calm s -> calm_action a = true -> pstep cap s a s' -> calm s'.
Proof.
  intros Hc Hok Ha. pose proof Hc as (Hpc0 & Hst & Hsig & Hsigs & Hch & Hk & z & Hz & Hrun).
  destruct Ha as [c| |Hchld|a k f x y Ho Hx Hf|a k f x y Ho Hx Hf|k c rest x y Hb Hx Hf
    |k x y Hb Hx Hf|k x y Hb Hx Hf|Hpc|m Hpc Hli Hn|m j x y Hpc Hli Hn Hx Hf|Hpc|Hpc|l Hpc|l Hpc
    |k l x y Hpc Hx Hf|l Hpc|k l x Hpc Hx|k l Hpc|Hpc]; try done; try (by destruct a).
  - destruct (own_step_calm _ _ _ _ _ Ho Hok Hf (Hk _ _ Hx)). by eapply calm_put.
  - destruct (kid_accepted_calm _ _ _ Hf) as [Hy Hr].
    refine (calm_put _ _ _ _ Hc Hx _ Hr). rewrite Hy. eauto.
  - destruct (kid_failed_calm _ _ Hf (Hk _ _ Hx)). by eapply calm_put.
  - rewrite Hsigs. split_and!; try done. by exists z.
  - by apply calm_not_reaped in Hn.
  - destruct (kid_notified_calm _ _ _ Hf) as [Hy Hr].
    destruct (calm_put _ _ _ y Hc Hx) as (_ & _ & _ & _ & _ & Hk' & Hstar); [rewrite Hy; eauto|done|].
    split_and!; try done.
Qed.

Lemma prefix_length_eq_app {A} (l1 l2 k1 k2 : list A) :
  l1 ++ l2 = k1 ++ k2 -> (length k1 <= length l1)%nat -> k1 `prefix_of` l1.
Proof.
  intros He Hl. destruct (app_eq_inv _ _ _ _ He) as [(k & -> & ->)|(k & -> & ->)]; [by exists k|].
  rewrite length_app in Hl. destruct k; simpl in *; [|lia]. rewrite app_nil_r. done.
Qed.

(** *** The measure *)

(** [x] has been notified and is on its way to accept. *)
Definition busy (x : kid) : bool :=
  match k_pc x with KAccept => true | _ => k_pipe x || (0 <? k_bytes x)%nat end.

(** How far it still is: behind [recv]; with the pipe in its batch; before its next
    epoll_wait. *)
Definition kid_mu (x : kid) : nat * nat :=
  match k_pc x with
  | KAccept => (0, 0)%nat
  | _ => (if k_pipe x then 1 else 2, k_users x)%nat
  end.

(** How far the parent is from notifying [star]. *)
Definition par_mu (s : psys) : nat * nat :=
  (dist (length (kids s)) (p_counter (par s)) star, if p_listen (par s) then 0 else 1)%nat.

Definition star_busy (s : psys) : bool := default false (busy <$> kids s !! star).
Definition helper (s : psys) : proc := if star_busy s then PrKid star else PrParent.

Definition serve_lt := lex2 nlt (lex2 nlt (lex2 nlt nlt)).
Lemma serve_wf : well_founded serve_lt.
Proof. repeat apply lex2_wf; apply lt_wf. Qed.

Definition serve_mu (N : nat) (s : psys) : nat * (nat * (nat * nat)) :=
  ((N - length (accepted s))%nat,
   if star_busy s then (0%nat, default (0, 0)%nat (kid_mu <$> kids s !! star)) else (1%nat, par_mu s)).

Definition served (N : nat) (s : psys) : Prop := (N <= length (accepted s))%nat.
Definition serving (N : nat) (s : psys) : Prop :=
  calm s /\ pipes_ok s /\ conserved s /\ (N <= length (arrived s))%nat.

Lemma own_step_busy a k f x y :
  own_step a = Some (k, f) -> calm_action a = true -> f x = Some y -> pipe_ok x = true ->
  busy x = true -> busy y = true /\ lex2 nlt nlt (kid_mu y) (kid_mu x).
Proof.
  intros Ha Hok Hf Hp Hb.
  destruct a; simplify_eq/=; unfold busy, kid_mu, pipe_ok in *; kid_cases;
    unfold batch_done in *; destruct (k_pipe x), (0 <? k_bytes x)%nat; simplify_eq/=; try done;
    (split; [done|apply lex2_intro; lia]).
Qed.

Lemma own_step_idle a k f x y :
  own_step a = Some (k, f) -> calm_action a = true -> f x = Some y -> busy x = false -> busy y = false.
Proof.
  intros Ha Hok Hf Hb. destruct a; simplify_eq/=; unfold busy in *; kid_cases;
    destruct (k_pipe x), (0 <? k_bytes x)%nat; simplify_eq/=; done.
Qed.

Lemma star_busy_put_ne s k y : k <> star -> star_busy (put k y s) = star_busy s.
Proof. intros Hne. unfold star_busy. simpl. by rewrite list_lookup_insert_ne. Qed.

Lemma put_star s x y : kids s !! star = Some x -> kids (put star y s) !! star = Some y.
Proof. intros Hx. simpl. apply list_lookup_insert_eq. by eapply lookup_lt_Some. Qed.

(** A step that is not the star's leaves its measure alone. *)
Lemma serve_mu_other N s k y : k <> star -> serve_mu N (put k y s) = serve_mu N s.
Proof.
  intros Hne. unfold serve_mu. rewrite star_busy_put_ne by done. simpl.
  rewrite list_lookup_insert_ne by done. unfold par_mu. simpl. by rewrite length_insert.
Qed.

Lemma serving_backlog N s : serving N s -> ~ served N s -> nonempty (backlog s) = true.
Proof.
  intros (_ & _ & [Hl _] & HN) Hng. unfold served in Hng.
  apply (f_equal length) in Hl. rewrite length_app, length_map in Hl.
  destruct (backlog s); simpl in *; [lia|done].
Qed.

Lemma serving_ready N s : serving N s -> ~ served N s -> ready (helper s) s = true.
Proof.
  intros Hs Hng. pose proof (serving_backlog N s Hs Hng) as Hb.
  destruct Hs as ((Hpc & Hst & Hsig & Hsigs & Hch & _ & x & Hx & Hrun) & _).
  unfold helper, star_busy. rewrite Hx. simpl. destruct (busy x) eqn:Hbx; cbn [ready].
  - rewrite Hx. simpl. unfold kid_ready, busy, running, batch_done in *.
    destruct (k_pc x); try done. destruct (k_pipe x); simpl in *; [by rewrite orb_true_r|].
    by rewrite Hbx, !orb_true_r.
  - unfold parent_ready. rewrite Hpc, Hb. by rewrite orb_true_r.
Qed.

(** What a step of a child means for the measure. *)
Lemma own_step_serves N s a k f x y :
  serving N s -> own_step a = Some (k, f) -> calm_action a = true -> kids s !! k = Some x ->
  f x = Some y ->
  serve_lt (serve_mu N (put k y s)) (serve_mu N s) \/
  (serve_mu N (put k y s) = serve_mu N s /\ helper (put k y s) = helper s /\
   mine (helper s) a = false).
Proof.
  intros (Hcalm & Hp & _ & _) Ha Hok Hx Hf.
  destruct (decide (k = star)) as [->|Hne].
  - destruct (busy x) eqn:Hb.
    + destruct (own_step_busy _ _ _ _ _ Ha Hok Hf (Hp _ _ Hx) Hb) as [Hb' Hlt]. left.
      unfold serve_mu, star_busy. rewrite (put_star _ _ _ Hx), Hx. simpl. rewrite Hb, Hb'.
      apply lex2_intro; right; split; [done|]. apply lex2_intro. by right.
    + pose proof (own_step_idle _ _ _ _ _ Ha Hok Hf Hb) as Hb'. right.
      unfold serve_mu, helper, star_busy. rewrite (put_star _ _ _ Hx), Hx. simpl. rewrite Hb, Hb'.
      unfold par_mu. simpl. rewrite length_insert. split_and!; [done|done|]. by destruct a.
  - right. rewrite serve_mu_other by done. unfold helper. rewrite star_busy_put_ne by done.
    split_and!; [done|done|]. destruct a; simplify_eq/=; destruct (star_busy s); simpl; try done;
      by apply Nat.eqb_neq.
Qed.

(** What a notification means for the measure. *)
Lemma notify_serves N s m j x y p' :
  serving N s -> next_live (kids s) (p_counter (par s)) = Some j -> kids s !! j = Some x ->
  kid_notified m x = Some y -> p_counter p' = ((j + 1) mod length (kids s))%nat ->
  let s' := set_par p' (put j y s) in
  serve_lt (serve_mu N s') (serve_mu N s) \/
  (serve_mu N s' = serve_mu N s /\ helper s' = helper s /\ mine (helper s) (PNotify m) = false).
Proof.
  intros ((_ & _ & _ & _ & _ & _ & z & Hz & Hrun) & _) Hn Hx Hf Hc s'.
  assert (Hzr : is_reaped z = false) by (unfold is_reaped, running in *; by destruct (k_pc z)).
  assert (Hkids : kids s' = <[j := y]> (kids s)) by done.
  destruct (decide (j = star)) as [->|Hne].
  - simplify_eq. unfold serve_mu, helper, star_busy. rewrite Hkids.
    rewrite list_lookup_insert_eq, Hz by (by eapply lookup_lt_Some). simpl.
    assert (Hb : busy y = true).
    { unfold busy, kid_notified, is_zombie, running, mbind, option_bind in *.
      case_match eqn:Hg; simplify_eq/=. unfold guard_ in Hg. case_match eqn:Hm; simplify_eq.
      destruct (k_pc z); try done. apply orb_true_iff. right. apply Nat.ltb_lt.
      rewrite orb_false_r in Hm. apply orb_true_iff in Hm as [?%Nat.eqb_eq|[_ ?%Nat.ltb_lt]%andb_true_iff]; lia. }
    assert (Hk : kid_mu y = kid_mu z).
    { unfold kid_mu. destruct (kid_notified_keeps _ _ _ Hf) as [_ ->].
      unfold kid_notified, mbind, option_bind in Hf. case_match; simplify_eq/=. done. }
    rewrite Hb, Hk. destruct (busy z); [by right|left].
    apply lex2_intro; right; split; [done|]. apply lex2_intro. left. lia.
  - unfold serve_mu, helper, star_busy. rewrite Hkids, list_lookup_insert_ne, Hz by done. simpl.
    destruct (busy z); [by right|]. left.
    apply lex2_intro; right; split; [done|]. apply lex2_intro; right; split; [done|].
    apply lex2_intro. left. unfold par_mu. rewrite Hkids, length_insert. simpl. rewrite Hc.
    by destruct (next_live_nearer _ _ _ _ _ Hn Hz Hzr).
Qed.

Lemma serve_helps N s a s' :
  serving N s -> ~ served N s -> calm_action a = true -> pstep cap s a s' ->
  served N s' \/ serve_lt (serve_mu N s') (serve_mu N s) \/
  (serve_mu N s' = serve_mu N s /\ helper s' = helper s /\ mine (helper s) a = false).
Proof.
  intros Hs Hng Hok Ha. pose proof (serving_backlog _ _ Hs Hng) as Hback.
  pose proof Hs as (Hcalm & _). pose proof Hcalm as (_ & Hst & Hsig & Hsigs & Hch & _).
  destruct Ha as [c| |Hchld|a k f x y Ho Hx Hf|a k f x y Ho Hx Hf|k c rest x y Hb Hx Hf
    |k x y Hb Hx Hf|k x y Hb Hx Hf|Hpc _ Hli _ _|m Hpc Hli Hn|m j x y Hpc Hli Hn Hx Hf|Hpc|Hpc|l Hpc
    |l Hpc|k l x y Hpc Hx Hf|l Hpc|k l x Hpc Hx|k l Hpc|Hpc]; try done; try (by destruct a).
  - right; right. split_and!; [done|done|]. unfold helper. by destruct (star_busy s).
  - right. by eapply own_step_serves.
  - right; left. apply lex2_intro. left. simpl. rewrite length_app. simpl.
    unfold served in Hng. lia.
  - by rewrite Hb in Hback.
  - right. unfold helper, serve_mu, star_busy. simpl. destruct (_ <$> _) as [[]|] eqn:Hbx; simpl.
    + right. done.
    + left. apply lex2_intro; right; split; [done|]. apply lex2_intro; right; split; [done|].
      apply lex2_intro; right. unfold par_mu. simpl. rewrite Hback, Hli. split; [done|lia].
    + left. apply lex2_intro; right; split; [done|]. apply lex2_intro; right; split; [done|].
      apply lex2_intro; right. unfold par_mu. simpl. rewrite Hback, Hli. split; [done|lia].
  - by apply (calm_not_reaped s Hcalm) in Hn.
  - right. by eapply notify_serves.
Qed.

#[local] Instance served_dec N s : Decision (served N s).
Proof. unfold served. apply _. Defined.

(** C9. Every client is accepted.  Take any fair execution that from some time on is
    calm: no signals, no child that ends, no accept that fails while a client
    waits, and at least one child, [star], running - whatever children have been
    reaped before, however many notifications are sent for one client, however
    the processes interleave.  Then at every later time, each client that has
    arrived by then is, in order of arrival, eventually accepted. *)
Theorem clients_accepted n tr lab t0 :
  infinite_run (stutter (act cap)) tr lab -> fair tr lab -> reachable cap n (tr t0) -> calm (tr t0) ->
  (forall t, (t0 <= t)%nat -> on_action true calm_action (lab t) = true) ->
  forall t, (t0 <= t)%nat -> exists t', (t <= t')%nat /\
    arrived (tr t) `prefix_of` map snd (accepted (tr t')).
Proof.
  intros Hrun Hfair [l Hl] Hcalm Hok t Ht.
  set (N := length (arrived (tr t))).
  set (I s := calm s /\ pipes_ok s /\ conserved s /\ exists rest, arrived s = arrived (tr t) ++ rest).
  assert (Hstep : forall s a s', (calm s /\ pipes_ok s /\ conserved s) -> calm_action a = true ->
    act cap s a = Some s' -> calm s' /\ pipes_ok s' /\ conserved s').
  { intros s a s' (H1 & H2 & H3) Ha Hs%act_pstep.
    split_and!; [by eapply pstep_calm|by eapply pstep_pipes_ok|by eapply pstep_conserved]. }
  assert (H0 : calm (tr t) /\ pipes_ok (tr t) /\ conserved (tr t)).
  { apply (stutter_invariant (act cap) calm_action _ tr lab t0 Hrun Hok Hstep); [|done]. split_and!; [done| |].
    - apply (run_ind cap pipes_ok l _ _ pstep_pipes_ok) in Hl; [done|].
      intros k x [-> _]%lookup_replicate. done.
    - by apply (run_ind cap conserved l _ _ (pstep_conserved cap) (start_conserved n)). }
  assert (HI : forall t', (t <= t')%nat -> I (tr t')).
  { apply (stutter_invariant (act cap) calm_action I tr lab t Hrun); [intros; apply Hok; lia| |].
    - intros s a s' (H1 & H2 & H3 & rest & Hr) Ha Hs.
      destruct (Hstep s a s' ltac:(done) Ha Hs) as (H1' & H2' & H3'). split_and!; [done..|].
      apply act_pstep in Hs. destruct Hs; try (by exists rest); try (unfold handler; case_match; by exists rest).
      simpl. rewrite Hr, <- app_assoc. by eexists.
    - destruct H0 as (? & ? & ?). split_and!; [done..|]. exists []. by rewrite app_nil_r. }
  destruct (stutter_leads_to (act cap) mine ready helper serve_lt (serve_mu N) calm_action
    (serving N) (served N) tr lab t) as (t' & Ht' & Hs).
  - apply serve_wf.
  - split; [apply serving_ready|]. intros s a s' Hs Hng Ha Hact%act_pstep. by apply serve_helps.
  - done.
  - intros. apply Hok. lia.
  - intros t' Ht'. destruct (HI _ Ht') as (H1 & H2 & H3 & rest & Hr). split_and!; [done..|].
    rewrite Hr, length_app. unfold N. lia.
  - done.
  - exists t'. split; [done|]. destruct (HI _ Ht') as (_ & _ & [Hc _] & rest & Hr).
    rewrite Hr in Hc. unfold served, N in Hs.
    apply (prefix_length_eq_app _ _ _ _ Hc). by rewrite length_map.
Qed.
End serving.

(** ** The theorem at concrete inputs *)

(** Two children and a client; the second child gets a notification for nothing. *)
Definition demo_run : list paction :=
  [Arrive 7; PPoll; PNotify 4; PPoll; PNotify 4; KPoll 0 0; KRecv 0; KTake 0;
   KPoll 1 0; KRecv 1; KTake 1].
Definition demo_end : psys := default (start 2) (run 1 (start 2) demo_run).
Definition demo_state : nat -> psys :=
  lasso_state (stutter (act 1)) (start 2) demo_end (map Some demo_run) [None].
Definition demo_lab : nat -> option paction := lasso_lab None (map Some demo_run) [None].

Lemma demo_fair : fair demo_state demo_lab.
Proof.
  intros [| |[|[|k]]]; (apply (lasso_fair _ _ _ _ _ _ _ _ 0); [simpl; lia|right; vm_compute; done]).
Qed.

Lemma clients_accepted_witness :
  exists t', (1 <= t')%nat /\ [7] `prefix_of` map snd (accepted (demo_state t')).
Proof.
  apply (clients_accepted 1 0 2 demo_state demo_lab 0).
  - apply lasso_run; [done|vm_compute; reflexivity..].
  - apply demo_fair.
  - exists []. vm_compute. reflexivity.
  - split_and!; [vm_compute; reflexivity..| |exists new_kid; split; vm_compute; reflexivity].
    intros k x Hx. change (replicate 2 new_kid !! k = Some x) in Hx.
    by apply lookup_replicate in Hx as [-> _].
  - intros t Ht. apply (lasso_all (stutter (act 1)) (start 2) demo_end None (map Some demo_run) [None]
      (on_action true calm_action) (fun _ => true) 0); [vm_compute; reflexivity..|done|done].
  - lia.
Defined.
