(* ===== verification/ProcShutdown.v ===== *)
(** * The shutdown of the process pool

    SIGTERM or SIGINT to the parent: it signals its children, which leave their
    loops and end; each end makes a SIGCHLD pending, signals merge, the parent
    reaps and stops.  The theorems: in every fair execution this comes to its end;
    and it need never come when accept keeps failing while a client waits, because
    that makes a child drop the rest of its batch of events. *)

From S2P Require Import Prelude Fairness ProcSystem ProcLiveness.

(** ** What is still to come *)

Definition is_schld (g : psig) : bool := match g with SChld => true | STerm => false end.
Definition is_sterm (g : psig) : bool := match g with STerm => true | SChld => false end.

(** A SIGCHLD that the parent has not dealt with; its waitpid loop counts. *)
Definition chld_ahead (s : psys) : bool :=
  chld s || existsb is_schld (p_sigs (par s)) ||
  match p_pc (par s) with
  | PSigs l | PKilling _ l => existsb is_schld l
  | PReaping _ => true
  | _ => false
  end.

(** The parent will still signal child [k]. *)
Definition kill_ahead (s : psys) (k : nat) : bool :=
  existsb is_sterm (p_sigs (par s)) ||
  match p_pc (par s) with
  | PSigs l | PReaping l => existsb is_sterm l
  | PKilling j l => (j <=? k)%nat || existsb is_sterm l
  | _ => false
  end.

Definition is_reaping (s : psys) : bool := match p_pc (par s) with PReaping _ => true | _ => false end.

(** As long as no signal byte was dropped, every zombie will be reaped; when the
    last one has been, the parent is about to stop; a signal event is reported
    only when there is a signal. *)
Definition accountable (s : psys) : Prop :=
  (dropped s = false -> existsb is_zombie (kids s) = true -> chld_ahead s = true) /\
  (all_reaped s = true -> p_stop (par s) = true \/ is_reaping s = true) /\
  (p_sig (par s) = true -> nonempty (p_sigs (par s)) = true).

(** Every child that runs has been told to stop, or will be. *)
Definition doomed (s : psys) : Prop := forall k x, kids s !! k = Some x -> running x = true ->
  k_term x = true \/ k_stop x = true \/ kill_ahead s k = true.

Lemma existsb_put (f : kid -> bool) l k x y :
  l !! k = Some x -> f y = f x -> existsb f (<[k := y]> l) = existsb f l.
Proof.
  intros Hx Hf. revert k Hx. induction l as [|z l IH]; intros [|k] Hx; simplify_eq/=; [by rewrite Hf|].
  by rewrite IH.
Qed.

Lemma forallb_put_eq (f : kid -> bool) l k x y :
  l !! k = Some x -> f y = f x -> forallb f (<[k := y]> l) = forallb f l.
Proof.
  intros Hx Hf. revert k Hx. induction l as [|z l IH]; intros [|k] Hx; simplify_eq/=; [by rewrite Hf|].
  by rewrite IH.
Qed.

Lemma existsb_take_drop {A} (f : A -> bool) n l :
  existsb f (take n l) || existsb f (drop n l) = existsb f l.
Proof. by rewrite <- existsb_app, take_drop. Qed.

(** A step of a child that neither ends nor is reaped keeps the account. *)
Lemma accountable_put s k x y : accountable s -> kids s !! k = Some x ->
  is_zombie y = is_zombie x -> is_reaped y = is_reaped x -> accountable (put k y s).
Proof.
  intros (Hz & Hr & Hs) Hx Hyz Hyr. unfold accountable, chld_ahead, all_reaped in *. simpl.
  rewrite (existsb_put _ _ _ _ _ Hx Hyz), (forallb_put_eq _ _ _ _ _ Hx Hyr). done.
Qed.

Lemma accountable_handler cap g s : accountable s -> accountable (handler cap g s).
Proof.
  intros (Hz & Hr & Hs). unfold handler. destruct (_ <? _)%nat; [|done]. split_and!; [|done|].
  - intros Hd Hzo. specialize (Hz Hd Hzo). unfold chld_ahead in *. simpl. rewrite existsb_app.
    destruct (chld s), (existsb is_schld (p_sigs (par s))); try done. simpl in *. by rewrite Hz, orb_true_r.
  - simpl. intros _. by destruct (p_sigs (par s)).
Qed.

Lemma accountable_deliver cap s : accountable s -> accountable (handler cap SChld (set_chld false s)).
Proof.
  intros (Hz & Hr & Hs). unfold handler, set_chld. simpl.
  destruct (_ <? _)%nat; (split_and!; [|done|]); try done; simpl.
  - intros Hd Hzo. unfold chld_ahead. simpl. by rewrite existsb_app, orb_true_r.
  - intros _. by destruct (p_sigs (par s)).
Qed.

Lemma same_pc x y : k_pc y = k_pc x -> is_zombie y = is_zombie x /\ is_reaped y = is_reaped x /\
  running y = running x.
Proof. unfold is_zombie, is_reaped, running. by intros ->. Qed.

Lemma pstep_accountable cap s a s' : accountable s -> pstep cap s a s' -> accountable s'.
Proof.
  intros Hacc Ha. pose proof Hacc as (Hz & Hr & Hs).
  destruct Ha as [c| |Hchld|a k f x y Ho Hx Hf|a k f x y Ho Hx Hf|k c rest x y Hb Hx Hf
    |k x y Hb Hx Hf|k x y Hb Hx Hf|Hpc Hst Hli Hsig Hb|m Hpc Hli Hn|m j x y Hpc Hli Hn Hx Hf
    |Hpc Hsig|Hpc|l Hpc|l Hpc|k l x y Hpc Hx Hf|l Hpc Hnz|k l x Hpc Hx|k l Hpc|Hpc Hst Hli Hsig];
    try exact Hacc.
  - by apply accountable_handler.
  - by apply accountable_deliver.
  - destruct (own_step_keeps _ _ _ _ _ Ho Hf) as (_ & ? & ?). by eapply accountable_put.
  - destruct (end_step_keeps _ _ _ _ _ Ho Hf) as (_ & Hy & Hxr & _). split_and!; [done| |done].
    unfold all_reaped. simpl. rewrite (forallb_put_eq _ _ _ _ _ Hx) by congruence. done.
  - destruct (kid_accepted_keeps _ _ _ Hf) as (_ & ? & ?). by refine (accountable_put _ _ _ _ Hacc Hx _ _).
  - destruct (kid_failed_keeps _ _ Hf) as (_ & ? & ?). by eapply accountable_put.
  - destruct (kid_failed_keeps _ _ Hf) as (_ & ? & ?). by eapply accountable_put.
  - unfold accountable, chld_ahead, all_reaped, is_reaping in *. simpl. by rewrite Hpc, ?Hst in *.
  - unfold accountable, chld_ahead, all_reaped, is_reaping in *. simpl. rewrite Hpc in *.
    split_and!; [done|by left|done].
  - destruct (kid_notified_keeps _ _ _ Hf) as (_ & Hk). destruct (same_pc _ _ Hk) as (? & ? & _).
    pose proof (accountable_put _ _ _ y Hacc Hx ltac:(done) ltac:(done)) as Hput.
    unfold accountable, chld_ahead, all_reaped, is_reaping in *. simpl in *. by rewrite Hpc in *.
  - unfold accountable, chld_ahead, all_reaped, is_reaping in *. simpl. rewrite Hpc in *. split_and!; [|done|done].
    intros Hd Hzo. specialize (Hz Hd Hzo). rewrite orb_false_r in Hz.
    rewrite <- (existsb_take_drop _ 1024) in Hz.
    by destruct (chld s), (existsb _ (take _ _)), (existsb _ (drop _ _)).
  - unfold accountable, chld_ahead, all_reaped, is_reaping in *. simpl. by rewrite Hpc in *.
  - unfold accountable, chld_ahead, all_reaped, is_reaping in *. simpl. rewrite Hpc in *.
    split_and!; [intros; by rewrite orb_true_r|by right|done].
  - unfold accountable, chld_ahead, all_reaped, is_reaping in *. simpl. by rewrite Hpc in *.
  - unfold accountable, chld_ahead, all_reaped, is_reaping in *. simpl. rewrite Hpc in *.
    split_and!; [intros; by rewrite orb_true_r|by right|done].
  - unfold accountable, chld_ahead, all_reaped, is_reaping in *. simpl. rewrite Hnz in *.
    split_and!; [done|by left|done].
  - destruct (kid_signalled_keeps x) as (_ & Hk). destruct (same_pc _ _ Hk) as (? & ? & _).
    pose proof (accountable_put _ _ _ _ Hacc Hx ltac:(done) ltac:(done)) as Hput.
    unfold accountable, chld_ahead, all_reaped, is_reaping in *. simpl in *. by rewrite Hpc in *.
  - unfold accountable, chld_ahead, all_reaped, is_reaping in *. simpl. by rewrite Hpc in *.
  - unfold accountable, chld_ahead, all_reaped, is_reaping in *. simpl. rewrite Hpc in *.
    split_and!; [done|by left|done].
Qed.

(** ** The measure *)

Section shutdown.
Context (cap : nat).

(** No client comes, no signal comes from outside, and accept does not fail while
    a client waits.  Children may end at any time. *)
Definition no_news (a : paction) : bool :=
  match a with Arrive _ | TermParent | TermKid _ | KFail _ => false | _ => true end.

Lemma doomed_put s k x y : doomed s -> kids s !! k = Some x ->
  (running y = true -> running x = true /\
    (k_term x = true \/ k_stop x = true -> k_term y = true \/ k_stop y = true)) ->
  doomed (put k y s).
Proof.
  intros Hd Hx Hy j z [[-> ->]|[_ Hj]]%(lookup_put _ _ _ _ _ _ Hx) Hrun; [|by eapply Hd].
  destruct (Hy Hrun) as [Hrx Himp]. destruct (Hd _ _ Hx Hrx) as [Ht|[Hs|Hka]]; [| |by right; right];
    destruct Himp as [?|?]; auto.
Qed.

Lemma own_step_doomed a k f x y : own_step a = Some (k, f) -> f x = Some y ->
  running y = running x /\ (k_term x = true \/ k_stop x = true -> k_term y = true \/ k_stop y = true).
Proof.
  intros Ha Hf. destruct a; simplify_eq/=; kid_cases; split; try done; try tauto.
  intros [->| ->]; [rewrite orb_true_r|]; by right.
Qed.

Lemma kill_ahead_incl s s' : par s' = par s -> forall k, kill_ahead s' k = kill_ahead s k.
Proof. unfold kill_ahead. by intros ->. Qed.

Lemma pstep_doomed s a s' : doomed s -> no_news a = true -> pstep cap s a s' -> doomed s'.
Proof.
  intros Hd Hok Ha.
  assert (Hpar : forall s1, kids s1 = kids s -> (forall k, (k < length (kids s))%nat ->
    kill_ahead s k = true -> kill_ahead s1 k = true) -> doomed s1).
  { intros s1 Hk Hka k x Hx Hrun. rewrite Hk in Hx. pose proof (lookup_lt_Some _ _ _ Hx).
    destruct (Hd _ _ Hx Hrun) as [?|[?|?]]; auto. }
  destruct Ha as [c| |Hchld|a k f x y Ho Hx Hf|a k f x y Ho Hx Hf|k c rest x y Hb Hx Hf
    |k x y Hb Hx Hf|k x y Hb Hx Hf|Hpc Hst Hli Hsig Hb|m Hpc Hli Hn|m j x y Hpc Hli Hn Hx Hf
    |Hpc Hsig|Hpc|l Hpc|l Hpc|k l x y Hpc Hx Hf|l Hpc Hnz|k l x Hpc Hx|k l Hpc Hlen|Hpc Hst Hli Hsig];
    try done.
  - apply Hpar; [unfold handler; by case_match|]. intros k _. unfold kill_ahead, handler, set_chld. simpl.
    destruct (_ <? cap)%nat; [|done]. simpl. rewrite existsb_app. simpl. by rewrite orb_false_r.
  - destruct (own_step_doomed _ _ _ _ _ Ho Hf) as [Hr Himp]. eapply doomed_put; [done..|].
    intros Hrun. split; [congruence|done].
  - refine (doomed_put _ _ _ _ Hd Hx _). intros Hrun. exfalso. destruct a; simplify_eq/=; by kid_cases.
  - refine (doomed_put _ _ _ _ Hd Hx _). kid_cases.
  - refine (doomed_put _ _ _ _ Hd Hx _). kid_cases.
  - apply Hpar; [done|]. intros k _. unfold kill_ahead. simpl. by rewrite Hpc.
  - apply Hpar; [done|]. intros k _. unfold kill_ahead. simpl. by rewrite Hpc.
  - assert (Hput : doomed (put j y s)) by (refine (doomed_put _ _ _ _ Hd Hx _); kid_cases).
    intros k z Hz Hrun. destruct (Hput k z Hz Hrun) as [?|[?|Hka]]; [by left|by right; left|].
    right; right. unfold kill_ahead in *. simpl in *. by rewrite Hpc in Hka.
  - apply Hpar; [done|]. intros k _. unfold kill_ahead. simpl. rewrite Hpc.
    rewrite <- (existsb_take_drop _ 1024 (p_sigs _)), orb_false_r. by rewrite orb_comm.
  - apply Hpar; [done|]. intros k _. unfold kill_ahead. simpl. by rewrite Hpc.
  - apply Hpar; [done|]. intros k _. unfold kill_ahead. simpl. by rewrite Hpc.
  - apply Hpar; [done|]. intros k _. unfold kill_ahead. simpl. rewrite Hpc. intros _. by rewrite orb_true_r.
  - refine (doomed_put _ _ _ _ Hd Hx _). kid_cases.
  - apply Hpar; [done|]. intros k _. unfold kill_ahead. simpl. by rewrite Hpc.
  - intros j z Hz Hrun. simpl in Hz.
    destruct (lookup_put _ _ _ _ _ _ Hx Hz) as [[-> ->]|[Hne Hj]].
    + left. unfold kid_signalled in *. by destruct (running x) eqn:E; simpl; [|rewrite E in Hrun].
    + destruct (Hd _ _ Hj Hrun) as [?|[?|Hka]]; [by left|by right; left|]. right; right.
      unfold kill_ahead in *. simpl. rewrite Hpc in Hka.
      destruct (existsb is_sterm (p_sigs (par s))), (existsb is_sterm l); try done; simpl in *;
        rewrite ?orb_true_r, ?orb_false_r in *; try done. apply Nat.leb_le in Hka. destruct j; [lia|]. apply Nat.leb_le. lia.
  - apply Hpar; [done|]. intros j Hj. unfold kill_ahead. simpl. rewrite Hpc.
    rewrite (proj2 (Nat.leb_gt _ _)) by lia. done.
  - apply Hpar; [done|]. intros k _. unfold kill_ahead. simpl. by rewrite Hpc.
Qed.

(** The children left: a running one has to end and to be reaped. *)
Definition weight (x : kid) : nat := if running x then 2 else if is_zombie x then 1 else 0.

(** The work the signals under way still make for the parent. *)
Definition pc_work (n : nat) (pc : ppc) : nat :=
  match pc with
  | PSigs l => 1 + (n + 4) * length l
  | PReaping l => 2 + (n + 4) * length l
  | PKilling k l => 2 + (n - k) + (n + 4) * length l
  | _ => 0
  end.
Definition sig_work (s : psys) : nat :=
  let n := length (kids s) in
  (if chld s then n + 7 else 0) + length (p_sigs (par s)) * (n + 6) + pc_work n (p_pc (par s)).

(** Once the queue of clients is empty: the notifications still under way. *)
Definition kid_notes (x : kid) : nat :=
  2 * k_bytes x + match k_pc x with KAccept => 1 | _ => 0 end.
Definition notes (s : psys) : nat :=
  if nonempty (backlog s) then 0
  else (if p_listen (par s) then 9 else 0) + sum_list_with kid_notes (kids s).

Fixpoint first_running (l : list kid) : nat :=
  match l with [] => 0 | x :: l => if running x then 0 else S (first_running l) end.

#[local] Instance proc_eq_dec : EqDecision proc.
Proof. solve_decision. Defined.

(** Who is to act: the parent while it has signals or is to stop, then the pending
    signal, then a child. *)
Definition mover (s : psys) : proc :=
  match p_pc (par s) with
  | PLoop =>
      if p_stop (par s) || nonempty (p_sigs (par s)) then PrParent
      else if chld s then PrSignal else PrKid (first_running (kids s))
  | _ => PrParent
  end.

Definition b2n (b : bool) : nat := if b then 1 else 0.

(** How far it is from what it is to do: first whether it must call epoll_wait
    again, then the rest of its batch. *)
Definition kid_local (x : kid) : nat * nat :=
  (if k_stop x || k_sig x then 0 else 1,
   2 * b2n (k_pipe x) + b2n (k_sig x) + k_users x + match k_pc x with KAccept => 1 | _ => 0 end)%nat.
Definition par_local (p : parent) : nat * nat :=
  match p_pc p with
  | PLoop => (if p_stop p || p_sig p then 0 else 1, b2n (p_listen p) + b2n (p_sig p))%nat
  | _ => (0, 0)%nat
  end.
Definition local (s : psys) : nat * nat :=
  match mover s with
  | PrParent => par_local (par s)
  | PrSignal => (0, 0)%nat
  | PrKid k => default (0, 0)%nat (kid_local <$> kids s !! k)
  end.

Definition stop_mu (s : psys) : nat * (nat * (nat * (nat * (nat * nat)))) :=
  (sum_list_with weight (kids s), (sig_work s, (length (backlog s), (notes s, local s)))).
Definition stop_lt := lex2 nlt (lex2 nlt (lex2 nlt (lex2 nlt (lex2 nlt nlt)))).
Lemma stop_wf : well_founded stop_lt.
Proof. repeat apply lex2_wf; apply lt_wf. Qed.

(** *** What a step means for it *)

Definition advances (s : psys) (a : paction) (s' : psys) : Prop :=
  stop_lt (stop_mu s') (stop_mu s) \/
  (stop_mu s' = stop_mu s /\ mover s' = mover s /\ mine (mover s) a = false).

Lemma lt_weight s s' : (sum_list_with weight (kids s') < sum_list_with weight (kids s))%nat ->
  stop_lt (stop_mu s') (stop_mu s).
Proof. intros H. apply lex2_intro. by left. Qed.

Lemma lt_work s s' : sum_list_with weight (kids s') = sum_list_with weight (kids s) ->
  (sig_work s' < sig_work s)%nat -> stop_lt (stop_mu s') (stop_mu s).
Proof. intros H1 H2. apply lex2_intro; right; split; [done|]. apply lex2_intro. by left. Qed.

Lemma lt_backlog s s' : sum_list_with weight (kids s') = sum_list_with weight (kids s) ->
  sig_work s' = sig_work s -> (length (backlog s') < length (backlog s))%nat ->
  stop_lt (stop_mu s') (stop_mu s).
Proof.
  intros H1 H2 H3. apply lex2_intro; right; split; [done|]. apply lex2_intro; right; split; [done|].
  apply lex2_intro. by left.
Qed.

Lemma lt_local s s' : sum_list_with weight (kids s') = sum_list_with weight (kids s) ->
  sig_work s' = sig_work s -> backlog s' = backlog s ->
  (notes s' < notes s)%nat \/ ((notes s' <= notes s)%nat /\ lex2 nlt nlt (local s') (local s)) ->
  stop_lt (stop_mu s') (stop_mu s).
Proof.
  intros H1 H2 H3 H4. apply lex2_intro; right; split; [done|]. apply lex2_intro; right; split; [done|].
  apply lex2_intro; right; split; [by rewrite H3|]. apply lex2_intro.
  destruct H4 as [?|[Hle Hlt]]; [by left|]. destruct (decide (notes s' < notes s)%nat); [by left|].
  right. split; [lia|done].
Qed.

Lemma sum_put (f : kid -> nat) s k x y : kids s !! k = Some x ->
  (sum_list_with f (kids (put k y s)) + f x = sum_list_with f (kids s) + f y)%nat.
Proof. intros Hx. by apply sum_list_with_insert. Qed.

Lemma sum_put_eq (f : kid -> nat) s k x y : kids s !! k = Some x -> f y = f x ->
  sum_list_with f (kids (put k y s)) = sum_list_with f (kids s).
Proof. intros Hx Hf. pose proof (sum_put f s k x y Hx). lia. Qed.

Lemma weight_same x y : is_zombie y = is_zombie x -> running y = running x -> weight y = weight x.
Proof. unfold weight. by intros -> ->. Qed.

Lemma first_running_put l k x y : l !! k = Some x -> running y = running x ->
  first_running (<[k := y]> l) = first_running l.
Proof.
  intros Hx Hr. revert k Hx. induction l as [|z l IH]; intros [|k] Hx; simplify_eq/=; [by rewrite Hr|].
  by rewrite (IH _ Hx).
Qed.

Lemma first_running_spec l : existsb running l = true ->
  exists x, l !! first_running l = Some x /\ running x = true.
Proof.
  induction l as [|z l IH]; [done|]. simpl. destruct (running z) eqn:Hz; [by exists z|]. by intros ?%IH.
Qed.

Lemma mover_put s k x y : kids s !! k = Some x -> running y = running x -> mover (put k y s) = mover s.
Proof. intros Hx Hr. unfold mover. simpl. by rewrite (first_running_put _ _ _ _ Hx Hr). Qed.

Lemma sig_work_put s k y : sig_work (put k y s) = sig_work s.
Proof. unfold sig_work. simpl. by rewrite length_insert. Qed.

Lemma local_put_other s k x y : kids s !! k = Some x -> running y = running x ->
  mover s <> PrKid k -> local (put k y s) = local s.
Proof.
  intros Hx Hr Hm. unfold local. rewrite (mover_put _ _ _ _ Hx Hr).
  destruct (mover s) as [| |j]; [done|done|]. simpl. rewrite list_lookup_insert_ne by congruence. done.
Qed.

Lemma local_put s k x y : kids s !! k = Some x -> running y = running x ->
  mover s = PrKid k -> local s = kid_local x /\ local (put k y s) = kid_local y.
Proof.
  intros Hx Hr Hm. unfold local. rewrite (mover_put _ _ _ _ Hx Hr), Hm. simpl.
  by rewrite list_lookup_insert_eq, Hx by (by eapply lookup_lt_Some).
Qed.

Lemma notes_put s k x y : kids s !! k = Some x -> (kid_notes y <= kid_notes x)%nat ->
  (notes (put k y s) <= notes s)%nat.
Proof.
  intros Hx Hle. unfold notes. pose proof (sum_put kid_notes s k x y Hx) as Hs. simpl in *.
  destruct (nonempty (backlog s)); lia.
Qed.

Lemma own_step_notes a k f x y : own_step a = Some (k, f) -> f x = Some y ->
  (kid_notes y <= kid_notes x)%nat.
Proof.
  intros Ha Hf. destruct a; simplify_eq/=; unfold kid_notes; kid_cases;
    try (destruct (Nat.ltb_spec 0 (k_bytes x)); [|done]); lia.
Qed.

Lemma own_step_local a k f x y : own_step a = Some (k, f) -> no_news a = true -> f x = Some y ->
  running x = true -> k_term x = true \/ k_stop x = true -> lex2 nlt nlt (kid_local y) (kid_local x).
Proof.
  intros Ha Hok Hf Hrun Hd. destruct a; simplify_eq/=; unfold kid_local, batch_done in *; kid_cases;
    apply lex2_intro; unfold batch_done in *;
    destruct (k_term x), (k_stop x), (k_sig x), (k_pipe x), (0 <? k_bytes x)%nat; simpl in *; try done;
    try (destruct Hd; done); try lia; try (destruct (k_users x); simpl in *; [|done]; lia).
Qed.

Lemma own_step_running a k f x y : own_step a = Some (k, f) -> no_news a = true -> f x = Some y ->
  running x = true.
Proof. intros Ha Hok Hf. destruct a; simplify_eq/=; kid_cases. Qed.

Lemma own_step_mine a k f s : own_step a = Some (k, f) -> mover s <> PrKid k -> mine (mover s) a = false.
Proof.
  intros Ha Hm. destruct (mover s) as [| |j]; destruct a; simplify_eq/=; try done;
    apply Nat.eqb_neq; congruence.
Qed.

Lemma own_step_advances s a k f x y :
  doomed s -> (forall j, mover s = PrKid j -> kill_ahead s j = false) ->
  own_step a = Some (k, f) -> no_news a = true -> kids s !! k = Some x -> f x = Some y ->
  advances s a (put k y s).
Proof.
  intros Hd Hka Ha Hok Hx Hf. destruct (own_step_doomed _ _ _ _ _ Ha Hf) as [Hr _].
  destruct (own_step_keeps _ _ _ _ _ Ha Hf) as (_ & _ & Hz).
  pose proof (notes_put s k x y Hx (own_step_notes _ _ _ _ _ Ha Hf)) as Hn.
  pose proof (sum_put_eq weight s k x y Hx (weight_same _ _ Hz Hr)) as Hw.
  destruct (decide (mover s = PrKid k)) as [Hm|Hm].
  - left. apply lt_local; [done|apply sig_work_put|done|right; split; [done|]].
    destruct (local_put s k x y Hx Hr Hm) as [-> ->]. pose proof (own_step_running _ _ _ _ _ Ha Hok Hf).
    eapply own_step_local; [done..|]. destruct (Hd _ _ Hx) as [?|[?|Hk]]; [done|by left|by right|].
    by rewrite (Hka _ Hm) in Hk.
  - pose proof (local_put_other s k x y Hx Hr Hm) as Hl.
    destruct (decide (notes (put k y s) < notes s)%nat) as [Hlt|Hge].
    + left. apply lt_local; [done|apply sig_work_put|done|by left].
    + right. split_and!; [|by eapply mover_put|by eapply own_step_mine]. unfold stop_mu.
      rewrite Hw, sig_work_put, Hl. by replace (notes (put k y s)) with (notes s) by lia.
Qed.

(** *** The rule's two conditions *)

Definition over (s : psys) : Prop := p_pc (par s) = PExited.
#[local] Instance over_dec s : Decision (over s).
Proof. unfold over. destruct (p_pc (par s)); (by left) || (by right). Defined.

Definition ending (s : psys) : Prop := accountable s /\ doomed s /\ dropped s = false.

(** When the mover is a child, no signal is under way and every other child has
    been reaped or runs. *)
Lemma mover_kid s k : mover s = PrKid k ->
  k = first_running (kids s) /\ p_pc (par s) = PLoop /\ p_stop (par s) = false /\
  p_sigs (par s) = [] /\ chld s = false.
Proof.
  unfold mover. destruct (p_pc (par s)); try done. destruct (p_stop (par s)); [done|].
  destruct (p_sigs (par s)); [|done]. destruct (chld s); [done|]. simpl. by intros [= <-].
Qed.

Lemma mover_kid_quiet s k : mover s = PrKid k -> chld_ahead s = false /\ forall j, kill_ahead s j = false.
Proof.
  intros (_ & Hpc & _ & Hs & Hc)%mover_kid. unfold chld_ahead, kill_ahead. by rewrite Hpc, Hs, Hc.
Qed.

Lemma some_running s : existsb is_zombie (kids s) = false -> all_reaped s = false ->
  existsb running (kids s) = true.
Proof.
  unfold all_reaped. induction (kids s) as [|[[] ? ? ? ? ? ? ?] l IH]; simpl; done.
Qed.

Lemma ending_ready s : ending s -> ~ over s -> ready (mover s) s = true.
Proof.
  intros ((Hz & Hr & _) & Hd & Hdr) Hno. unfold over in Hno. destruct (mover s) as [| |k] eqn:Hm.
  - unfold mover in Hm. cbn [ready]. unfold parent_ready. destruct (p_pc (par s)); try done.
    destruct (p_stop (par s)); [done|]. destruct (p_sigs (par s)); simpl in *; [by destruct (chld s)|].
    by rewrite orb_true_r.
  - unfold mover in Hm. cbn [ready]. destruct (p_pc (par s)); try done.
    destruct (_ || _); [done|]. by destruct (chld s).
  - destruct (mover_kid_quiet _ _ Hm) as [Hch Hk].
    destruct (mover_kid _ _ Hm) as (-> & Hpc & Hst & _).
    assert (Hnz : existsb is_zombie (kids s) = false).
    { apply not_true_is_false. intros Hzo. by rewrite (Hz Hdr Hzo) in Hch. }
    assert (Hnr : all_reaped s = false).
    { apply not_true_is_false. intros Hall. unfold is_reaping in Hr. rewrite Hpc, Hst in Hr.
      by destruct (Hr Hall). }
    destruct (first_running_spec _ (some_running s Hnz Hnr)) as (x & Hx & Hrun).
    cbn [ready]. rewrite Hx. simpl. unfold kid_ready.
    destruct (Hd _ _ Hx Hrun) as [Ht|[Hs|Hka]]; [| |by rewrite Hk in Hka];
      unfold running in Hrun; destruct (k_pc x); try done; [rewrite Ht|rewrite Hs]; by rewrite ?orb_true_r.
Qed.

Lemma none_all_reaped s : ending s -> p_pc (par s) = PLoop ->
  next_live (kids s) (p_counter (par s)) = None -> p_stop (par s) = true.
Proof.
  intros ((_ & Hr & _) & _) Hpc Hn%next_live_None. unfold is_reaping in Hr. rewrite Hpc in Hr.
  by destruct (Hr Hn).
Qed.

Lemma handler_work s : chld s = true ->
  (sig_work (handler cap SChld (set_chld false s)) < sig_work s)%nat.
Proof.
  intros Hc. unfold sig_work, handler. simpl. rewrite Hc. destruct (_ <? cap)%nat; simpl; [|lia].
  rewrite length_app. simpl. lia.
Qed.

Lemma kid_notified_notes m x y : kid_notified m x = Some y -> (kid_notes y <= kid_notes x + 8)%nat.
Proof.
  unfold kid_notified. intros Hf. apply bind_Some in Hf as ([] & Hg%guard_Some & [= <-]).
  unfold kid_notes. simpl.
  apply orb_true_iff in Hg as [?%Nat.eqb_eq|[?%Nat.ltb_lt _]%andb_true_iff]; lia.
Qed.

Lemma read_work s : p_pc (par s) = PLoop -> nonempty (p_sigs (par s)) = true ->
  (sig_work (set_par (mkParent (PSigs (take 1024 (p_sigs (par s)))) (p_counter (par s))
    (p_stop (par s)) (p_listen (par s)) false (drop 1024 (p_sigs (par s)))) s) < sig_work s)%nat.
Proof.
  intros Hpc Hs. unfold sig_work. cbn [set_par par kids chld p_sigs p_pc]. rewrite Hpc.
  cbn [pc_work]. rewrite length_take, length_drop.
  set (n := length (kids s)). destruct (p_sigs (par s)) as [|g l]; [done|].
  set (L := length (g :: l)). assert (0 < L)%nat by (unfold L; simpl; lia).
  destruct (decide (L <= 1024)%nat).
  - rewrite Nat.min_r by done. replace (L - 1024)%nat with 0%nat by lia. nia.
  - rewrite Nat.min_l by lia. replace L with (L - 1024 + 1024)%nat at 2 by lia.
    rewrite Nat.mul_add_distr_r. lia.
Qed.

(** A notification. *)
Lemma notify_advances s m j x y : ending s -> p_pc (par s) = PLoop -> p_listen (par s) = true ->
  kids s !! j = Some x -> kid_notified m x = Some y ->
  advances s (PNotify m) (set_par (mkParent PLoop ((j + 1) mod length (kids s))%nat
    (p_stop (par s)) false (p_sig (par s)) (p_sigs (par s))) (put j y s)).
Proof.
  intros Hend Hpc Hli Hx Hf. destruct (kid_notified_keeps _ _ _ Hf) as [_ Hk].
  destruct (same_pc _ _ Hk) as (Hz & _ & Hr).
  set (s' := set_par _ _).
  pose proof (sum_put_eq weight s j x y Hx (weight_same _ _ Hz Hr)) as Hw.
  assert (Hsw : sig_work s' = sig_work s).
  { unfold sig_work, s'. simpl. by rewrite Hpc, length_insert. }
  assert (Hm : mover s' = mover s).
  { unfold mover, s'. simpl. by rewrite Hpc, (first_running_put _ _ _ _ Hx Hr). }
  assert (Hmine : forall k, mover s = PrKid k -> local s' = local s).
  { intros k Hmk. unfold local. rewrite Hm, Hmk. unfold s'. simpl.
    destruct (decide (k = j)) as [->|Hne]; [|by rewrite list_lookup_insert_ne].
    rewrite list_lookup_insert_eq, Hx by (by eapply lookup_lt_Some). simpl.
    unfold kid_notified, mbind, option_bind in Hf. case_match; simplify_eq/=. done. }
  unfold advances. destruct (nonempty (backlog s)) eqn:Hb.
  - assert (Hn : notes s' = notes s) by (unfold notes, s'; simpl; by rewrite Hb).
    destruct (mover s) as [| |k] eqn:Hms.
    + left. apply lt_local; [done|done|done|right; split; [lia|]]. unfold local. rewrite Hm, Hms.
      unfold par_local, s'. simpl. rewrite Hpc, Hli. apply lex2_intro. right. simpl. split; [done|lia].
    + right. split_and!; [|done|done]. unfold stop_mu. rewrite Hsw, Hn. unfold local. rewrite Hm, Hms.
      unfold s'. simpl in *. by rewrite Hw.
    + right. split_and!; [|done|done]. unfold stop_mu. rewrite Hsw, Hn, (Hmine k) by done.
      unfold s'. simpl in *. by rewrite Hw.
  - left. apply lt_local; [done|done|done|left]. unfold notes, s'. simpl. rewrite Hb, Hli.
    pose proof (sum_put kid_notes s j x y Hx) as Hs. simpl in Hs.
    pose proof (kid_notified_notes _ _ _ Hf). lia.
Qed.

(** The parent's epoll_wait. *)
Lemma poll_advances s : p_pc (par s) = PLoop -> p_stop (par s) = false ->
  p_listen (par s) = false -> p_sig (par s) = false ->
  advances s PPoll (set_par (mkParent PLoop (p_counter (par s)) false
      (nonempty (backlog s)) (nonempty (p_sigs (par s))) (p_sigs (par s))) s).
Proof.
  intros Hpc Hst Hli Hsig. set (s' := set_par _ _).
  assert (Hw : sig_work s' = sig_work s) by (unfold sig_work, s'; simpl; by rewrite Hpc).
  assert (Hn : notes s' = notes s).
  { unfold notes, s'. simpl. rewrite Hli. by destruct (nonempty (backlog s)). }
  assert (Hm : mover s' = mover s) by (unfold mover, s'; simpl; by rewrite Hpc, Hst).
  destruct (nonempty (p_sigs (par s))) eqn:Hs.
  - left. apply lt_local; [done|done|done|right; split; [lia|]]. unfold local. rewrite Hm.
    unfold mover. rewrite Hpc, Hst, Hs. simpl. unfold par_local, s'. simpl. rewrite Hpc, Hst, Hli, Hsig.
    apply lex2_intro. left. simpl. lia.
  - right. unfold stop_mu, local. rewrite Hw, Hn, Hm. unfold mover. rewrite Hpc, Hst, Hs. simpl.
    destruct (chld s); (split_and!; [done|by rewrite Hm; unfold mover; rewrite Hpc, Hst, Hs|done]) || done.
Qed.

(** The last of its batch, when there is no child to notify. *)
Lemma none_advances s : p_pc (par s) = PLoop -> p_stop (par s) = true -> p_listen (par s) = true ->
  stop_lt (stop_mu (set_par (mkParent PLoop (p_counter (par s)) true false false (p_sigs (par s))) s))
    (stop_mu s).
Proof.
  intros Hpc Hst Hli. apply lt_local; [done|by unfold sig_work; simpl; rewrite Hpc|done|right]. split.
  - unfold notes. simpl. destruct (nonempty (backlog s)); [done|]. rewrite Hli. lia.
  - unfold local, mover. simpl. rewrite Hpc, Hst. simpl. unfold par_local. simpl. rewrite Hpc, Hst, Hli.
    simpl. apply lex2_intro. right. split; [done|]. lia.
Qed.

Lemma ending_advances s a s' : ending s -> ~ over s -> no_news a = true -> pstep cap s a s' ->
  over s' \/ advances s a s'.
Proof.
  intros Hend Hno Hok Ha. pose proof Hend as ((Hz & Hr & Hps) & Hd & Hdr).
  assert (Hsend : forall k x y, kids s !! k = Some x -> (weight y < weight x)%nat -> forall s1,
    kids s1 = <[k := y]> (kids s) -> advances s a s1).
  { intros k x y Hx Hlt s1 Hk. left. apply lt_weight. rewrite Hk.
    pose proof (sum_put weight s k x y Hx) as Hs. simpl in Hs. lia. }
  destruct Ha as [c| |Hchld|a k f x y Ho Hx Hf|a k f x y Ho Hx Hf|k c rest x y Hb Hx Hf
    |k x y Hb Hx Hf|k x y Hb Hx Hf|Hpc Hst Hli Hsig Hb|m Hpc Hli Hn|m j x y Hpc Hli Hn Hx Hf
    |Hpc Hsig|Hpc|l Hpc|l Hpc|k l x y Hpc Hx Hf|l Hpc Hnz|k l x Hpc Hx|k l Hpc Hlen|Hpc Hst Hli Hsig];
    try done; try (right; left; apply lt_work; [done|]; unfold sig_work; simpl; rewrite Hpc; simpl; lia).
  - right; left. apply lt_work; [unfold handler; by case_match|]. by apply handler_work.
  - right. eapply own_step_advances; [done| |done..]. intros j Hm. by destruct (mover_kid_quiet _ _ Hm).
  - right. eapply Hsend; [done| |done]. destruct (end_step_keeps _ _ _ _ _ Ho Hf) as (_ & _ & _ & Hy & Hrun).
    unfold weight. rewrite Hrun, Hy. unfold running, is_zombie in *. by destruct (k_pc y); simpl; lia.
  - right; left. destruct (kid_accepted_keeps _ _ _ Hf) as (_ & _ & Hzy).
    apply lt_backlog; [|by unfold sig_work; simpl; rewrite length_insert|by rewrite Hb; simpl; lia].
    refine (sum_put_eq weight s k x y Hx _). apply weight_same; [done|]. by kid_cases.
  - right; left. destruct (kid_failed_keeps _ _ Hf) as (_ & _ & Hzy).
    apply lt_local; [|apply sig_work_put|done|left].
    + refine (sum_put_eq weight s k x y Hx _). apply weight_same; [done|]. by kid_cases.
    + unfold notes. simpl. rewrite Hb. simpl.
      pose proof (sum_put kid_notes s k x y Hx) as Hs. simpl in Hs.
      assert (kid_notes y < kid_notes x)%nat; [|lia]. clear -Hf. unfold kid_notes. kid_cases. lia.
  - right. by apply poll_advances.
  - right; left. apply none_advances; [done| |done]. by apply none_all_reaped.
  - right. by eapply notify_advances.
  - right; left. apply lt_work; [done|]. apply read_work; [done|by apply Hps].
  - right. eapply Hsend; [done| |done]. clear -Hf. unfold weight. kid_cases; lia.
  - right; left. apply lt_work.
    + refine (sum_put_eq weight s k x _ Hx _). destruct (kid_signalled_keeps x) as [_ Hk].
      destruct (same_pc _ _ Hk) as (? & _ & ?). by apply weight_same.
    + pose proof (lookup_lt_Some _ _ _ Hx). unfold sig_work. simpl. rewrite Hpc, length_insert. simpl. lia.
  - by left.
Qed.

(** C10. The shutdown completes.  Take any fair execution in which the parent has an
    unread SIGTERM or SIGINT and from then on no client comes, no signal comes from
    outside and accept does not fail while a client waits; children may end by
    themselves at any time, and no byte is dropped for want of room in the parent's
    signal pipe.  Then the parent leaves its loop, and by then every child has ended
    and been reaped - although the SIGCHLDs of children that end at the same time
    merge into one. *)
Theorem shutdown_completes n tr lab t0 :
  infinite_run (stutter (act cap)) tr lab -> fair tr lab -> reachable cap n (tr t0) -> (0 < n)%nat ->
  STerm ∈ p_sigs (par (tr t0)) -> (forall t, (t0 <= t)%nat -> on_action true no_news (lab t) = true) ->
  (forall t, (t0 <= t)%nat -> dropped (tr t) = false) ->
  exists t, (t0 <= t)%nat /\ p_pc (par (tr t)) = PExited /\
    forall k x, kids (tr t) !! k = Some x -> k_pc x = KReaped.
Proof.
  intros Hrun Hfair [l Hl] Hn Hterm Hok Hdr.
  set (I s := accountable s /\ doomed s /\ stops_last s).
  assert (HI : forall t, (t0 <= t)%nat -> I (tr t)).
  { apply (stutter_invariant (act cap) no_news I tr lab t0 Hrun Hok).
    - intros s a s' (H1 & H2 & H3) Ha Hs%act_pstep.
      split_and!; [by eapply pstep_accountable|by eapply pstep_doomed|by eapply pstep_stops_last].
    - split_and!.
      + apply (run_ind cap accountable l _ _ (pstep_accountable cap)) in Hl; [done|].
        split_and!; [|by destruct n; [lia|]|done]. intros _ Hzo.
        apply existsb_exists in Hzo as (x & (k & [-> _]%lookup_replicate)%list_elem_of_In%list_elem_of_lookup & Hz).
        done.
      + intros k x _ _. right; right. unfold kill_ahead. apply orb_true_iff. left.
        apply existsb_exists. exists STerm. by rewrite <- list_elem_of_In.
      + by apply (run_ind cap stops_last l _ _ (pstep_stops_last cap) (start_stops_last n)). }
  destruct (stutter_leads_to (act cap) mine ready mover stop_lt stop_mu no_news ending over tr lab t0)
    as (t & Ht & Hover).
  - apply stop_wf.
  - split; [apply ending_ready|]. intros s a s' Hs Hng Ha Hact%act_pstep. by apply ending_advances.
  - done.
  - done.
  - intros t Ht. destruct (HI _ Ht) as (H1 & H2 & _). split_and!; [done..|by apply Hdr].
  - done.
  - exists t. split_and!; [done|done|]. intros k x Hx. destruct (HI _ Ht) as (_ & _ & Hs & He).
    pose proof (all_reaped_lookup _ _ _ (Hs (He Hover)) Hx) as Hreap.
    unfold is_reaped in Hreap. by destruct (k_pc x).
Qed.
End shutdown.

(** ** Starvation *)

(** One child; a client waits that it cannot accept (its descriptors are used up),
    its SIGTERM is in its signal pipe and eight bytes of notifications are in its
    other pipe. *)
Definition starving : psys :=
  mkSys [mkKid KLoop 8 true false false false 0 []] (mkParent PLoop 0 false false false [])
    [7] false false [7] [].

(** It sees both events and looks at the notification first; accept fails and the
    rest of the batch is given up; meanwhile the parent, which still sees the
    client, has notified it again. *)
Definition starve : list (option paction) :=
  map Some [KPoll 0 0; KRecv 0; PPoll; PNotify 4; KFail 0].

Definition starving_at (cap : nat) : nat -> psys :=
  lasso_state (stutter (act cap)) starving starving [] starve.
Definition starve_at : nat -> option paction := lasso_lab None [] starve.

Lemma starving_run cap : infinite_run (stutter (act cap)) (starving_at cap) starve_at.
Proof. by apply lasso_run. Qed.

Lemma starving_fair cap : fair (starving_at cap) starve_at.
Proof.
  intros [| |[|k]].
  - apply (lasso_fair _ _ _ _ _ _ _ _ 2); [simpl; lia|by left].
  - apply (lasso_fair _ _ _ _ _ _ _ _ 0); [simpl; lia|by right].
  - apply (lasso_fair _ _ _ _ _ _ _ _ 0); [simpl; lia|by left].
  - apply (lasso_fair _ _ _ _ _ _ _ _ 0); [simpl; lia|by right].
Qed.

(** What the starved child is like. *)
Definition starved (s : psys) : bool :=
  match p_pc (par s), kids s with
  | PLoop, [x] => negb (dropped s) && k_term x && running x
  | _, _ => false
  end.

(** The parent is at work and child 0 runs with a SIGTERM or SIGINT unread, no byte
    having been dropped. *)
Definition unheeded (s : psys) : Prop :=
  p_pc (par s) = PLoop /\ dropped s = false /\
  exists x, kids s !! 0%nat = Some x /\ k_term x = true /\ running x = true.

(** C28. Without the assumption on accept the shutdown need not complete: there is a
    fair execution, reachable with one child and any room in the pipes, in which
    the child has its SIGTERM unread for ever.  Each time it sees the event, it
    sees the notification as well and deals with that first; accept fails while
    the client still waits, and the [break] gives up the rest of the batch. *)
Theorem accept_failure_starves_signals cap :
  exists tr lab, infinite_run (stutter (act (S cap))) tr lab /\ fair tr lab /\ reachable (S cap) 1 (tr 0%nat) /\
    (exists t, lab t = Some (KFail 0)) /\ forall t, unheeded (tr t).
Proof.
  exists (starving_at (S cap)), starve_at. split_and!; [apply starving_run|apply starving_fair| |by exists 4%nat|].
  - exists [Arrive 7; PPoll; PNotify 4; TermParent; PPoll; PSigRead; PSigNext; PKill; PKill; PSigNext;
      PNotify 4]. reflexivity.
  - intros t. destruct (lasso_all (stutter (act (S cap))) starving starving None [] starve (fun _ => true) starved 0
      eq_refl eq_refl eq_refl ltac:(done) t ltac:(lia)) as [_ Hs].
    fold (starving_at (S cap) t) in Hs. unfold starved, unheeded in *.
    destruct (p_pc _), (kids _) as [|x [|]]; try done.
    apply andb_true_iff in Hs as [[Hd%negb_true_iff Ht]%andb_true_iff Hr]. split_and!; [done|done|by exists x].
Qed.

(** ** The theorem at concrete inputs *)

(** Two children; a client; SIGTERM; both children end before the parent reaps
    them, so that one SIGCHLD stands for both; then nothing is left to do. *)
Definition demo_run : list paction :=
  [Arrive 7; PPoll; PNotify 4; KPoll 0 0; KRecv 0; KTake 0; TermParent;
   PPoll; PSigRead; PSigNext; PKill; PKill; PKill; PSigNext;
   KPoll 0 1; KUser 0; KSignals 0; KExit 0; KPoll 1 0; KSignals 1; KExit 1; Deliver;
   PPoll; PSigRead; PSigNext; PReap 0; PReap 1; PReapEnd; PSigNext; PExit].
Definition demo_end : psys := default (start 2) (run 4 (start 2) demo_run).
Definition demo_state : nat -> psys :=
  lasso_state (stutter (act 4)) (start 2) demo_end (map Some demo_run) [None].
Definition demo_lab : nat -> option paction := lasso_lab None (map Some demo_run) [None].

Lemma shutdown_demo_fair : fair demo_state demo_lab.
Proof.
  intros [| |[|[|k]]]; (apply (lasso_fair _ _ _ _ _ _ _ _ 0); [simpl; lia|right; vm_compute; done]).
Qed.

Lemma shutdown_completes_witness :
  exists t, (7 <= t)%nat /\ p_pc (par (demo_state t)) = PExited /\
    forall k x, kids (demo_state t) !! k = Some x -> k_pc x = KReaped.
Proof.
  assert (Hall : forall t, (7 <= t)%nat -> on_action true no_news (demo_lab t) = true /\
    negb (dropped (demo_state t)) = true).
  { apply (lasso_all (stutter (act 4)) (start 2) demo_end None (map Some demo_run) [None]
      (on_action true no_news) (fun s => negb (dropped s)) 7); [vm_compute; reflexivity..|done]. }
  apply (shutdown_completes 4 2 demo_state demo_lab 7).
  - apply lasso_run; [done|vm_compute; reflexivity..].
  - apply shutdown_demo_fair.
  - exists (take 7 demo_run). vm_compute. reflexivity.
  - lia.
  - vm_compute. left.
  - intros t Ht. by apply Hall.
  - intros t Ht. by apply negb_true_iff, Hall.
Defined.
