(* ===== verification/ProcRefine.v ===== *)
(** * The code of the process pool and the actions of its processes

    Run alone, the functions of ProcPool that touch what the processes share do
    the actions of ProcSystem: parent_new_con is the notification, the handling of
    SIGCHLD is one reaping per zombie followed by the check for the stop, and
    child_new_con is the receipt of the notification followed by the accept. *)

From S2P Require Import Prelude Sys CLib Fairness ProcPool ProcSystem.

(** The parent's table of children and a state of the system agree: a child is
    marked as exited exactly when it has been reaped. *)
Record agrees {T} (p : SrvProcessPool T) (s : psys) : Prop := {
  ag_ok : procs_ok (Z.of_nat (length (kids s))) p;
  ag_live : forall k x, kids s !! k = Some x -> live (child p (Z.of_nat k)) = negb (is_reaped x);
  ag_stop : _stop p = p_stop (par s);
}.

(** ** The search for a child *)

Lemma after_child_nat n c d : 0 <= d ->
  Z.to_nat (after_child (Z.of_nat n) (Z.of_nat c) d) = ((c + Z.to_nat d) mod n)%nat.
Proof.
  intros Hd. unfold after_child. rewrite <- (Z2Nat.id d) at 1 by done.
  rewrite <- Nat2Z.inj_add, <- Nat2Z.inj_mod. apply Nat2Z.id.
Qed.

Lemma find_skip {A} (f : A -> bool) l1 y l2 :
  forallb (fun x => negb (f x)) l1 = true -> f y = true -> List.find f (l1 ++ y :: l2) = Some y.
Proof.
  intros Hl1 Hy. induction l1 as [|x l1 IH]; simpl in *; [by rewrite Hy|].
  apply andb_true_iff in Hl1 as [->%negb_true_iff Hl1]. by apply IH.
Qed.

(** The child found by [next_live]: the first not reaped, going round. *)
Lemma next_live_first l c d : (d < length l)%nat ->
  (forall e, (e < d)%nat -> default true (is_reaped <$> l !! ((c + e) mod length l)%nat) = true) ->
  default true (is_reaped <$> l !! ((c + d) mod length l)%nat) = false ->
  next_live l c = Some ((c + d) mod length l)%nat.
Proof.
  intros Hd Hbefore Hlive. unfold next_live.
  assert (Hs : seq 0 (length l) = seq 0 d ++ d :: seq (S d) (length l - d - 1)).
  { replace (length l) with (d + S (length l - d - 1))%nat at 1 by lia. by rewrite seq_app. }
  rewrite Hs, map_app. cbn [map]. apply find_skip; [|by rewrite Hlive].
  apply forallb_forall. intros j (e & <- & He%in_seq)%in_map_iff. rewrite negb_involutive.
  apply Hbefore. lia.
Qed.

Lemma next_live_none l c :
  (forall e, (e < length l)%nat -> default true (is_reaped <$> l !! ((c + e) mod length l)%nat) = true) ->
  next_live l c = None.
Proof.
  intros Hall. unfold next_live. destruct (List.find _ _) as [j|] eqn:Hf; [|done].
  apply List.find_some in Hf as [(e & <- & He%in_seq)%in_map_iff Hj].
  rewrite Hall in Hj by lia. done.
Qed.

Section parent.
Context `{Env} {T : Type} `{!UserConn T}.
Implicit Types w : world (SrvProcessPool T).

Lemma agrees_live (p : SrvProcessPool T) s k : agrees p s -> (k < length (kids s))%nat ->
  default true (is_reaped <$> kids s !! k) = negb (live (child p (Z.of_nat k))).
Proof.
  intros Ha [x Hx]%lookup_lt_is_Some. rewrite Hx, (ag_live _ _ Ha _ _ Hx). simpl.
  by rewrite negb_involutive.
Qed.

(** What the code's search looks at, in terms of the system. *)
Lemma agrees_after (p : SrvProcessPool T) s c d : agrees p s -> (0 < length (kids s))%nat -> 0 <= d ->
  default true (is_reaped <$> kids s !! ((c + Z.to_nat d) mod length (kids s))%nat) =
  negb (live (child p (after_child (Z.of_nat (length (kids s))) (Z.of_nat c) d))).
Proof.
  intros Ha Hn Hd. rewrite <- after_child_nat by done.
  pose proof (after_child_range (Z.of_nat (length (kids s))) (Z.of_nat c) d ltac:(lia)).
  rewrite (agrees_live p) by (done || lia). by rewrite Z2Nat.id by lia.
Qed.

(** parent_new_con, run when the listening socket is next in the batch, is the
    action PNotify, whatever part [m] of the notification the pipe takes: it
    notifies the child the action chooses and moves the counter as the action
    does, or stops when no child is left. *)
Theorem parent_new_con_refines cap m s w :
  returns -> agrees (w_st w) s -> p_pc (par s) = PLoop -> p_listen (par s) = true ->
  (p_counter (par s) < length (kids s))%nat ->
  (forall x, x ∈ kids s -> is_Some (kid_notified m x)) ->
  wp (parent_new_con (Z.of_nat (p_counter (par s)))) (fun r w' => exists s',
    act cap s (PNotify m) = Some s' /\ agrees (w_st w') s' /\
    ((exists j, next_live (kids s) (p_counter (par s)) = Some j /\
      r = Ok (inl (Z.of_nat (p_counter (par s')))) /\
      calls w' = calls w ++ [Send (fst (m_pipefd (child (w_st w) (Z.of_nat j)))) [1; 0; 0; 0] 0]) \/
     (r = Ok (inr (Z.of_nat (p_counter (par s)))) /\ p_stop (par s') = true /\ calls w' = calls w))) w.
Proof.
  intros Hret Ha Hpc Hli Hc Hm. set (n := length (kids s)) in *. set (c := p_counter (par s)) in *.
  pose proof (ag_ok _ _ Ha) as Hok. fold n in Hok.
  eapply wp_mono; [apply (parent_new_con_wp (Z.of_nat n)); [done|done|lia]|].
  intros r w' [(d & Hd & Hdead & Hlive & -> & Hst & Hlog)|(Hdead & -> & Hst & Hlog)].
  - assert (Hnext : next_live (kids s) c = Some ((c + Z.to_nat d) mod n)%nat).
    { apply next_live_first; [lia| |rewrite (agrees_after (w_st w)) by (done || lia); fold n; by rewrite Hlive].
      intros e He. rewrite <- (Nat2Z.id e), (agrees_after (w_st w)) by (done || lia). fold n.
      by rewrite Hdead by lia. }
    set (j := ((c + Z.to_nat d) mod n)%nat) in *.
    destruct (next_live_Some _ _ _ Hnext) as (x & Hx & Hxr).
    destruct (Hm x) as [y Hy]; [by apply list_elem_of_lookup_2 with j|].
    destruct (kid_notified_keeps _ _ _ Hy) as [_ Hk].
    eexists. split_and!.
    + cbn [act]. unfold parent_step. fold c. rewrite Hpc, Hli, Hnext. cbn.
      rewrite (proj2 (with_kid_Some j s _ _)) by (by exists x, y). cbn. done.
    + split; simpl; rewrite ?length_insert; fold n; [by rewrite Hst| |by rewrite Hst, (ag_stop _ _ Ha)].
      intros k z [[-> ->]|[_ Hz]]%(lookup_put _ _ _ _ _ _ Hx); rewrite Hst.
      * rewrite (ag_live _ _ Ha _ _ Hx). by rewrite (is_reaped_pc _ _ Hk).
      * by apply (ag_live _ _ Ha).
    + left. exists j. split_and!; [done| |].
      * do 2 f_equal. simpl. fold n.
        pose proof (after_child_range (Z.of_nat n) (Z.of_nat c) (d + 1) ltac:(lia)).
        rewrite <- (Z2Nat.id (after_child _ _ _)) by lia. f_equal. rewrite after_child_nat by lia.
        unfold j. rewrite Nat.Div0.add_mod_idemp_l. f_equal. lia.
      * unfold calls. rewrite Hlog. do 4 f_equal.
        pose proof (after_child_range (Z.of_nat n) (Z.of_nat c) d ltac:(lia)).
        rewrite <- (Z2Nat.id (after_child _ _ _)) by lia. by rewrite after_child_nat by lia.
  - assert (Hnext : next_live (kids s) c = None).
    { apply next_live_none. intros e He. rewrite <- (Nat2Z.id e), (agrees_after (w_st w)) by (done || lia).
      fold n. by rewrite Hdead by lia. }
    eexists. split_and!.
    + cbn [act]. unfold parent_step. fold c. rewrite Hpc, Hli, Hnext. done.
    + rewrite Hst. split; [done| |done]. intros k z Hz. by apply (ag_live _ _ Ha).
    + right. unfold calls. by rewrite Hlog.
Qed.
End parent.

(** ** The child's notification *)

Section child.
Context `{Env} {T : Type} `{!UserConn T}.
Implicit Types w : world (SrvProcessPool T).

(** The steps of the system when the pipe has something. *)
Lemma recv_some s k x : kids s !! k = Some x -> k_pc x = KLoop -> k_pipe x = true ->
  (0 < k_bytes x)%nat -> exists y, kid_recv x = Some y /\ k_pc y = KAccept /\
    forall cap, act cap s (KRecv k) = Some (put k y s).
Proof.
  intros Hx Hpc Hp Hb%Nat.ltb_lt. eexists. split_and!.
  - unfold kid_recv. rewrite Hpc, Hp. simpl. by rewrite Hb.
  - done.
  - intros cap. cbn [act]. apply with_kid_Some. eexists _, _. split_and!; [done| |done].
    unfold kid_recv. rewrite Hpc, Hp. simpl. by rewrite Hb.
Qed.

Lemma lookup_put_eq s k x y : kids s !! k = Some x -> kids (put k y s) !! k = Some y.
Proof. intros Hx. simpl. apply list_lookup_insert_eq. by eapply lookup_lt_Some. Qed.

(** The accept, according to whether it succeeds. *)
Lemma accept_some s k x : kids s !! k = Some x -> k_pc x = KAccept -> nonempty (backlog s) = true ->
  forall cap, exists s', act cap s (KTake k) = Some s' /\ length (accepted s') = S (length (accepted s)).
Proof.
  intros Hx Hpc Hb cap. cbn [act]. destruct (backlog s) as [|c rest]; [done|].
  assert (Hk : with_kid k s (kid_accepted c) = Some (put k (set_kpc KLoop (add_conn c x)) s)).
  { apply with_kid_Some. eexists _, _. split_and!; [done| |done]. unfold kid_accepted. by rewrite Hpc. }
  rewrite Hk. eexists. split; [reflexivity|]. simpl. rewrite length_app. simpl. lia.
Qed.

Lemma accept_none s k x : kids s !! k = Some x -> k_pc x = KAccept -> forall cap, exists a s',
  (a = KTake k \/ a = KFail k) /\ act cap s a = Some s' /\ accepted s' = accepted s /\
  exists y, kids s' !! k = Some y /\ batch_done y = true.
Proof.
  intros Hx Hpc cap.
  assert (Hf : with_kid k s kid_failed = Some (put k (set_kpc KLoop (set_batch false false 0 x)) s)).
  { apply with_kid_Some. eexists _, _. split_and!; [done| |done]. unfold kid_failed. by rewrite Hpc. }
  exists (if nonempty (backlog s) then KFail k else KTake k).
  exists (put k (set_kpc KLoop (set_batch false false 0 x)) s). split_and!; [by case_match; auto| |done|].
  - destruct (backlog s) eqn:Hb; cbn [nonempty act]; rewrite Hb; [done|]. by simpl.
  - eexists. split; [by eapply lookup_put_eq|done].
Qed.

(** The system's answers to a child [x] with the pipe [fd] are those of the state:
    recv gives something exactly when the pipe has something, and accept succeeds
    only when a client waits, with a descriptor that is in the table of users. *)
Definition answers_as (fd : Z) (x : kid) (s : psys) w : Prop :=
  (forall r, env (w_log w) (Recv fd 4 0) = Some r -> 0 < r_ret r <-> (0 < k_bytes x)%nat) /\
  (forall h r, env h (Accept (_listenfd (w_st w))) = Some r -> 0 <= r_ret r ->
    nonempty (backlog s) = true /\ r_ret r < USER_PER_PROCESS).

End child.

(** ** Reaping *)

Section reaping.
Context `{Env} {T : Type} `{!UserConn T}.
Implicit Types w : world (SrvProcessPool T).

(** The waitpid loop of the system: the zombies [ks], in any order. *)
Lemma run_reaps cap l ks : forall s, p_pc (par s) = PReaping l -> NoDup ks ->
  (forall k, k ∈ ks -> exists x, kids s !! k = Some x /\ is_zombie x = true) ->
  exists s', run cap s (map PReap ks) = Some s' /\ par s' = par s /\
    length (kids s') = length (kids s) /\
    forall k x, kids s !! k = Some x ->
      kids s' !! k = Some (if decide (k ∈ ks) then set_kpc KReaped x else x).
Proof.
  induction ks as [|k ks IH]; intros s Hpc Hnd Hz.
  - exists s. split_and!; [done..|]. intros j x Hx. by rewrite decide_False by apply not_elem_of_nil.
  - apply NoDup_cons in Hnd as [Hk Hnd]. destruct (Hz k ltac:(by left)) as (x & Hx & Hzx).
    set (s1 := put k (set_kpc KReaped x) s).
    assert (Hstep : act cap s (PReap k) = Some s1).
    { cbn [act]. unfold parent_step. rewrite Hpc. apply with_kid_Some. eexists _, _.
      split_and!; [done| |done]. unfold kid_reap. by rewrite Hzx. }
    destruct (IH s1) as (s' & Hrun & Hpar & Hlen & Hkids); [done|done| |].
    { intros j Hj. destruct (Hz j ltac:(by right)) as (y & Hy & Hzy). exists y. split; [|done].
      unfold s1. simpl. rewrite list_lookup_insert_ne; [done|]. intros ->. by apply Hk. }
    exists s'. split_and!; [|by rewrite Hpar|by rewrite Hlen; unfold s1; simpl; rewrite length_insert|].
    + unfold run in *. cbn [map exec]. rewrite Hstep. cbn [mbind option_bind]. done.
    + intros j y Hy. destruct (decide (j = k)) as [->|Hne].
      * simplify_eq. rewrite decide_True by (by left).
        rewrite (Hkids k (set_kpc KReaped x)) by (by eapply lookup_put_eq).
        by rewrite decide_False by done.
      * rewrite (Hkids j y) by (unfold s1; simpl; by rewrite list_lookup_insert_ne).
        f_equal. destruct (decide (j ∈ ks)) as [Hj|Hj].
        -- by rewrite decide_True by (by right).
        -- by rewrite decide_False by (by intros [->|?]%elem_of_cons).
Qed.

Lemma child_map (p : SrvProcessPool T) f k : (f new_Process = new_Process) ->
  child (set_sub_process (map f (_sub_process p)) p) k = f (child p k).
Proof.
  intros Hf. unfold child, lookupZ. simpl. case_bool_decide; [|done].
  rewrite list_lookup_fmap. by destruct (_ !! _).
Qed.

Lemma mark_new pids : Forall (Z.lt 0) pids -> mark pids new_Process = new_Process.
Proof. unfold mark. by case_bool_decide. Qed.

Lemma live_mark pids p : live (mark pids p) = live p && negb (bool_decide (m_pid p ∈ pids)).
Proof. unfold mark. case_bool_decide; simpl; [by rewrite andb_false_r|by rewrite andb_true_r]. Qed.

(** No child is left, in the table and in the system. *)
Lemma agrees_all (p : SrvProcessPool T) l n : procs_ok (Z.of_nat n) p -> length l = n ->
  (forall k x, l !! k = Some x -> live (child p (Z.of_nat k)) = negb (is_reaped x)) ->
  forallb (fun p => negb (live p)) (_sub_process p) = forallb is_reaped l.
Proof.
  intros (_ & Hlen & _) Hl Hk. rewrite Nat2Z.id in Hlen. apply eq_true_iff_eq. rewrite !forallb_forall. split.
  - intros Hall x (k & Hx)%list_elem_of_In%list_elem_of_lookup. specialize (Hk _ _ Hx).
    destruct (lookup_lt_is_Some_2 (_sub_process p) k) as [q Hq].
    { rewrite Hlen, <- Hl. by eapply lookup_lt_Some. }
    unfold child in Hk. rewrite lookupZ_of_nat, Hq in Hk. simpl in Hk.
    specialize (Hall q ltac:(by eapply list_elem_of_In, list_elem_of_lookup_2)).
    rewrite Hk, negb_involutive in Hall. done.
  - intros Hall q (k & Hq)%list_elem_of_In%list_elem_of_lookup.
    destruct (lookup_lt_is_Some_2 l k) as [x Hx].
    { rewrite Hl, <- Hlen. by eapply lookup_lt_Some. }
    specialize (Hk _ _ Hx). unfold child in Hk. rewrite lookupZ_of_nat, Hq in Hk. simpl in Hk.
    rewrite Hk, negb_involutive. apply Hall. by eapply list_elem_of_In, list_elem_of_lookup_2.
Qed.

(** The handling of SIGCHLD, run when the parent is about to reap, is one PReap
    for each zombie, in the order in which waitpid reports them, followed by
    PReapEnd; the table and the system agree again, also on whether to stop. *)
Theorem parent_sigchld_refines cap m l s w :
  returns -> reaped_below m -> agrees (w_st w) s -> p_pc (par s) = PReaping l ->
  (forall j k, live (child (w_st w) j) = true ->
    m_pid (child (w_st w) j) = m_pid (child (w_st w) k) -> j = k) ->
  wp (parent_signal (S m) SIGCHLD) (fun r w' => r = Ok tt /\ exists pids,
    reaped (w_log w') = reaped (w_log w) ++ pids /\
    forall ks, pids = map (fun k => m_pid (child (w_st w) (Z.of_nat k))) ks -> NoDup ks ->
      (forall k x, kids s !! k = Some x -> is_zombie x = true <-> k ∈ ks) ->
      (forall k, k ∈ ks -> is_Some (kids s !! k)) ->
      exists s', run cap s (map PReap ks ++ [PReapEnd]) = Some s' /\ agrees (w_st w') s') w.
Proof.
  intros Hret Hm Ha Hpc Hinj. pose proof (ag_ok _ _ Ha) as Hok.
  eapply wp_mono; [by eapply parent_sigchld_wp|].
  intros r w' (-> & pids & Hr & _ & Hst). split; [done|]. exists pids. split; [done|].
  intros ks Hpids Hnd Hz Hdom.
  destruct (run_reaps cap l ks s Hpc Hnd) as (s1 & Hrun & Hpar & Hlen & Hkids).
  { intros k Hk. destruct (Hdom k Hk) as [x Hx]. exists x. split; [done|]. by eapply Hz. }
  set (p' := set_sub_process (map (mark pids) (_sub_process (w_st w))) (w_st w)) in *.
  assert (Hpos : mark pids new_Process = new_Process).
  { unfold mark, new_Process. simpl. case_bool_decide as Hin; [|done]. done. }
  assert (Hlive : forall k x, kids s1 !! k = Some x -> live (child p' (Z.of_nat k)) = negb (is_reaped x)).
  { intros k x1 Hx1. destruct (lookup_lt_is_Some_2 (kids s) k) as [x Hx].
    { rewrite <- Hlen. by eapply lookup_lt_Some. }
    pose proof (Hkids _ _ Hx) as Hk. rewrite Hx1 in Hk. injection Hk as ->.
    unfold p'. rewrite child_map, live_mark, (ag_live _ _ Ha _ _ Hx) by done.
    case_decide as Hin.
    - rewrite bool_decide_eq_true_2; [by rewrite andb_false_r|]. rewrite Hpids.
      apply list_elem_of_In, in_map_iff. exists k. by rewrite <- list_elem_of_In.
    - destruct (is_reaped x) eqn:Hre; [done|]. rewrite bool_decide_eq_false_2; [done|].
      rewrite Hpids. intros (j & He & Hj)%list_elem_of_In%in_map_iff.
      rewrite <- list_elem_of_In in Hj.
      assert (Z.of_nat k = Z.of_nat j) by (apply Hinj; [by rewrite (ag_live _ _ Ha _ _ Hx), Hre|done]).
      assert (k = j) as -> by lia. done. }
  assert (Hnz : existsb is_zombie (kids s1) = false).
  { apply not_true_is_false. intros (x1 & (k & Hx1)%list_elem_of_In%list_elem_of_lookup & Hz1)%existsb_exists.
    destruct (lookup_lt_is_Some_2 (kids s) k) as [x Hx]; [rewrite <- Hlen; by eapply lookup_lt_Some|].
    pose proof (Hkids _ _ Hx) as Hk. rewrite Hx1 in Hk. injection Hk as ->.
    case_decide as Hin; [done|]. by apply Hin, (Hz _ _ Hx). }
  eexists. split.
  - unfold run in *. rewrite exec_snoc, Hrun. cbn [mbind option_bind act]. unfold parent_step.
    rewrite Hpar, Hpc, Hnz. cbn. reflexivity.
  - rewrite Hst. split; simpl.
    + rewrite Hlen. destruct Hok as (? & ? & ?). split_and!; simpl; rewrite ?length_map; done || lia.
    + exact Hlive.
    + apply (agrees_all p' _ (length (kids s1))); [|done|done].
      rewrite Hlen. destruct Hok as (? & ? & ?). split_and!; simpl; rewrite ?length_map; done || lia.
Qed.
End reaping.

(** ** The theorems at concrete inputs *)

(** The table of ProcPool's demo - children 0 and 2 live, child 1 reaped - and a
    system that agrees with it. *)
Definition demo_kids : list kid := [new_kid; set_kpc KReaped new_kid; new_kid].
Definition demo_sys (l : list kid) (p : parent) : psys := mkSys l p [5] false false [5] [].

Lemma demo_agrees l p : length l = 3%nat -> p_stop p = false ->
  map is_reaped l = [false; true; false] -> agrees (demo_pool demo_procs) (demo_sys l p).
Proof.
  intros Hl Hp Hre. split; [cbn [kids demo_sys]; by rewrite Hl; apply demo_ok| |done].
  cbn [kids demo_sys]. intros k x Hx. apply (f_equal (fun l => l !! k)) in Hre. rewrite list_lookup_fmap, Hx in Hre.
  destruct k as [|[|[|k]]]; simpl in Hre; try (injection Hre as ->); done.
Qed.

Lemma demo_pids j k : live (child (demo_pool demo_procs) j) = true ->
  m_pid (child (demo_pool demo_procs) j) = m_pid (child (demo_pool demo_procs) k) -> j = k.
Proof.
  unfold child, lookupZ. simpl.
  assert (Hnat : forall z : Z, 0 <= z -> exists n, z = Z.of_nat n) by (intros z Hz; exists (Z.to_nat z); lia).
  repeat case_bool_decide; try done.
  - destruct (Hnat j) as [a ->], (Hnat k) as [b ->]; [done..|]. rewrite !Nat2Z.id.
    destruct a as [|[|[|a]]], b as [|[|[|b]]]; done.
  - destruct (Hnat j) as [a ->]; [done|]. rewrite Nat2Z.id. by destruct a as [|[|[|a]]].
Qed.

Lemma parent_new_con_refines_witness :
  let s := demo_sys demo_kids (mkParent PLoop 1 false true false []) in
  wp (@parent_new_con demo_env TestConn 1) (fun r w' => exists s',
    act 8 s (PNotify 4) = Some s' /\ agrees (w_st w') s' /\
    ((exists j, next_live (kids s) 1 = Some j /\ r = Ok (inl (Z.of_nat (p_counter (par s')))) /\
      calls w' = [] ++ [Send (fst (m_pipefd (child (demo_pool demo_procs) (Z.of_nat j)))) [1; 0; 0; 0] 0]) \/
     (r = Ok (inr 1) /\ p_stop (par s') = true /\ calls w' = []))) (demo_world demo_procs).
Proof.
  intros s. apply (@parent_new_con_refines demo_env TestConn 8 4 s (demo_world demo_procs));
    [apply pp_returns | by apply demo_agrees | done | done | simpl; lia |].
  intros x _. by eexists.
Defined.


Lemma parent_sigchld_refines_witness :
  let s := demo_sys [new_kid; set_kpc KReaped new_kid; set_kpc KZombie new_kid]
    (mkParent (PReaping []) 0 false false false []) in
  wp (@parent_signal demo_env TestConn 2 SIGCHLD) (fun r w' => r = Ok tt /\ exists pids,
    reaped (w_log w') = reaped [] ++ pids /\
    forall ks, pids = map (fun k => m_pid (child (demo_pool demo_procs) (Z.of_nat k))) ks -> NoDup ks ->
      (forall k x, kids s !! k = Some x -> is_zombie x = true <-> k ∈ ks) ->
      (forall k, k ∈ ks -> is_Some (kids s !! k)) ->
      exists s', run 8 s (map PReap ks ++ [PReapEnd]) = Some s' /\ agrees (w_st w') s')
    (demo_world demo_procs).
Proof.
  intros s. apply (@parent_sigchld_refines demo_env TestConn 8 1 [] s (demo_world demo_procs));
    [apply pp_returns | apply demo_reaped | by apply demo_agrees | done | apply demo_pids].
Defined.
