(* ===== verification/ProcParent.v ===== *)
(** * The loop of the parent, with the other processes acting at every call

    ProcRefine takes the functions of the pool one by one, run alone.  Here the
    whole loop of [run_parent] runs in the system of ProcSystem: at every system
    call the children, the clients and whoever sends signals may do any actions of
    theirs before the call is answered, and the answer is the one the system gives
    in the state it is then in ([serves]).  What the loop does is a sequence of
    the system's actions, and its table of children, its counter and its stop flag
    are the system's. *)

From S2P Require Import Prelude Sys CLib Fairness ProcPool ProcSystem ProcRefine.

(** ** What the others leave alone *)

(** The actions that are not the parent's. *)
Definition other (a : paction) : Prop :=
  match a with
  | PPoll | PNotify _ | PSigRead | PSigNext | PReap _ | PReapEnd | PKill | PExit => False
  | _ => True
  end.

Definition later (cap : nat) (s s' : psys) : Prop :=
  exists acts, Forall other acts /\ run cap s acts = Some s'.

(** Which children have been reaped. *)
Definition flags (s : psys) : list bool := map is_reaped (kids s).

(** The part of the parent nobody else changes. *)
Definition own_part (p : parent) : ppc * nat * bool * bool * bool :=
  (p_pc p, p_counter p, p_stop p, p_listen p, p_sig p).

Definition same_parent (s s' : psys) : Prop :=
  own_part (par s') = own_part (par s) /\ flags s' = flags s.

Lemma flags_put s k x y : kids s !! k = Some x -> is_reaped y = is_reaped x ->
  flags (put k y s) = flags s.
Proof.
  intros Hx Hy. unfold flags, put. cbn [kids set_kids].
  etransitivity; [apply (list_fmap_insert is_reaped)|]. apply list_insert_id.
  by rewrite (list_lookup_fmap is_reaped), Hx, Hy.
Qed.

Lemma other_same cap s a s' : other a -> pstep cap s a s' -> same_parent s s'.
Proof.
  intros Ho Ha. unfold same_parent.
  destruct Ha as [c| |Hch|a k f x y Hs Hx Hf|a k f x y Hs Hx Hf|k c rest x y Hb Hx Hf|k x y Hb Hx Hf
    |k x y Hb Hx Hf| | | | | | | | | | | |]; try done.
  - unfold handler. by destruct (_ <? _)%nat.
  - unfold handler. by destruct (_ <? _)%nat.
  - destruct (own_step_keeps _ _ _ _ _ Hs Hf) as (_ & Hr & _). by rewrite (flags_put _ _ _ _ Hx Hr).
  - destruct (end_step_keeps _ _ _ _ _ Hs Hf) as (_ & Hr & Hr' & _).
    split; [done|]. rewrite <- (flags_put s k x y Hx) by congruence. done.
  - destruct (kid_accepted_keeps _ _ _ Hf) as (_ & Hr & _).
    split; [done|]. rewrite <- (flags_put s k x y Hx Hr). done.
  - destruct (kid_failed_keeps _ _ Hf) as (_ & Hr & _). by rewrite (flags_put _ _ _ _ Hx Hr).
  - destruct (kid_failed_keeps _ _ Hf) as (_ & Hr & _). by rewrite (flags_put _ _ _ _ Hx Hr).
Qed.

Lemma later_same cap s s' : later cap s s' -> same_parent s s'.
Proof.
  intros (acts & Hall & Hrun). revert s Hrun. induction Hall as [|a acts Ha _ IH]; intros s Hrun.
  - by simplify_eq/=.
  - cbn in Hrun. destruct (act cap s a) as [s1|] eqn:Hs1; simplify_eq/=.
    destruct (other_same _ _ _ _ Ha (act_pstep _ _ _ _ Hs1)) as [Hp Hf].
    destruct (IH _ Hrun) as [Hp' Hf']. by split; congruence.
Qed.

Lemma flag_lookup s k b : flags s !! k = Some b <-> exists x, kids s !! k = Some x /\ is_reaped x = b.
Proof.
  unfold flags. rewrite (list_lookup_fmap is_reaped). destruct (kids s !! k) as [x|]; simpl; naive_solver.
Qed.

Lemma same_parent_trans s1 s2 s3 : same_parent s1 s2 -> same_parent s2 s3 -> same_parent s1 s3.
Proof. intros [H1 H2] [H3 H4]. split; congruence. Qed.

Lemma find_ext {A} (f g : A -> bool) l : (forall x, f x = g x) -> List.find f l = List.find g l.
Proof. intros Hfg. induction l as [|x l IH]; simpl; [done|]. by rewrite Hfg, IH. Qed.

Lemma next_live_flags l l' c : map is_reaped l = map is_reaped l' -> next_live l c = next_live l' c.
Proof.
  intros Hf. unfold next_live. assert (Hlen : length l = length l').
  { by rewrite <- (length_map is_reaped l), Hf, length_map. }
  rewrite Hlen. apply find_ext. intros j.
  enough (is_reaped <$> l !! j = is_reaped <$> l' !! j) as -> by done.
  rewrite <- !list_lookup_fmap. exact (f_equal (.!! j) Hf).
Qed.

Section run.
Context (cap : nat).

Lemma run_then s l1 l2 s1 s2 : run cap s l1 = Some s1 -> run cap s1 l2 = Some s2 ->
  run cap s (l1 ++ l2) = Some s2.
Proof.
  revert s. induction l1 as [|a l1 IH]; intros s H1 H2; [by simplify_eq/=|].
  unfold run in *. cbn in *. destruct (act cap s a); simplify_eq/=. eauto.
Qed.

Lemma run_length s acts s' : run cap s acts = Some s' -> length (kids s') = length (kids s).
Proof.
  intros Hrun. apply (run_ind cap (fun s' => length (kids s') = length (kids s)) acts s s'); [|done|done].
  intros s1 a s2 <- Ha. destruct Ha; cbn; rewrite ?length_insert; try done;
    unfold handler; by destruct (_ <? _)%nat.
Qed.

Lemma run_one s a s' : act cap s a = Some s' -> run cap s [a] = Some s'.
Proof. unfold run. cbn. by intros ->. Qed.
End run.

(** ** How the system answers the parent's calls *)

Section parent.
Context `{Env} {T : Type} `{!UserConn T}.
Context (cap : nat) (ep l sg : Z) (pids pipes : nat -> Z).
Implicit Types w : world (SrvProcessPool T).

(** A byte in the signal pipe. *)
Definition sig_byte (b : Z) (g : psig) : Prop :=
  match g with
  | SChld => wrap_s 8 b = SIGCHLD
  | STerm => wrap_s 8 b = SIGTERM \/ wrap_s 8 b = SIGINT
  end.

(** The calls the parent makes in a state: epoll_wait when its batch is done, the
    notification of a child, reading its signal pipe, waitpid and closing the pipe of
    a child, and the signal to a child. *)
Inductive asks (s : psys) : call -> Prop :=
| asks_wait : p_pc (par s) = PLoop -> p_stop (par s) = false -> p_listen (par s) = false ->
    p_sig (par s) = false -> asks s (EpollWait ep MAX_EVENT_NUMBER (-1))
| asks_send j : p_pc (par s) = PLoop -> p_listen (par s) = true ->
    next_live (kids s) (p_counter (par s)) = Some j -> asks s (Send (pipes j) [1; 0; 0; 0] 0)
| asks_recv : p_pc (par s) = PLoop -> p_sig (par s) = true -> asks s (Recv sg 1024 0)
| asks_waitpid sigs : p_pc (par s) = PReaping sigs -> asks s (Waitpid (-1) WNOHANG)
| asks_close sigs fd : p_pc (par s) = PReaping sigs -> asks s (Close fd)
| asks_kill k sigs : p_pc (par s) = PKilling k sigs -> flags s !! k = Some false ->
    asks s (Kill (pids k) SIGTERM).

(** The descriptors reported: those of the batch, in any order. *)
Definition reports (s : psys) (evs : list (Z * Z)) : Prop :=
  NoDup (map fst evs) /\ Forall (fun ev => has_flag (snd ev) EPOLLIN = true) evs /\
  forall fd, fd ∈ map fst evs <->
    (fd = l /\ p_listen (par s) = true) \/ (fd = sg /\ p_sig (par s) = true).

(** The call [c] is answered by [r] in the state [s], which becomes [s']: a failing
    epoll_wait and close change nothing, and the others do an action of the
    parent. *)
Inductive serves (s : psys) : call -> reply -> psys -> Prop :=
| serves_failed r : r_ret r < 0 -> serves s (EpollWait ep MAX_EVENT_NUMBER (-1)) r s
| serves_wait r s' : act cap s PPoll = Some s' -> r_ret r = Z.of_nat (length (r_evs r)) ->
    reports s' (r_evs r) -> serves s (EpollWait ep MAX_EVENT_NUMBER (-1)) r s'
| serves_send j m r s' : act cap s (PNotify m) = Some s' ->
    serves s (Send (pipes j) [1; 0; 0; 0] 0) r s'
| serves_recv r s' sigs : act cap s PSigRead = Some s' -> p_pc (par s') = PSigs sigs ->
    r_ret r = Z.of_nat (length (r_data r)) -> Forall2 sig_byte (r_data r) sigs ->
    serves s (Recv sg 1024 0) r s'
| serves_reaped k r s' : act cap s (PReap k) = Some s' -> r_ret r = pids k ->
    serves s (Waitpid (-1) WNOHANG) r s'
| serves_none r : r_ret r <= 0 -> existsb is_zombie (kids s) = false ->
    serves s (Waitpid (-1) WNOHANG) r s
| serves_close fd r : serves s (Close fd) r s
| serves_kill pid r s' : act cap s PKill = Some s' -> serves s (Kill pid SIGTERM) r s'.

(** The history [h] leaves the system in the state [s], as far as [R] tells; [R]
    does not look at the parent's own part, and every call the parent makes is
    answered by the system, after some actions of the others. *)
Record answered (R : psys -> list event -> Prop) : Prop := {
  an_private : forall s p h, R s h -> p_sigs p = p_sigs (par s) -> R (set_par p s) h;
  an_call : forall s h c r, R s h -> asks s c -> env h c = Some r ->
    exists s1 s2, later cap s s1 /\ serves s1 c r s2 /\ R s2 (h ++ [(c, r)]);
}.

(** The code's table of children says that those of [fl] are reaped; it and the
    other fields are those of the system. *)
Definition table_ok (fl : list bool) (p : SrvProcessPool T) : Prop :=
  procs_ok (Z.of_nat (length fl)) p /\
  forall (k : nat) (b : bool), fl !! k = Some b ->
    m_pid (child p (Z.of_nat k)) = (if b then -1 else pids k) /\
    fst (m_pipefd (child p (Z.of_nat k))) = pipes k.

Record same_but (fl : list bool) (s : psys) (p : SrvProcessPool T) : Prop := {
  ss_table : table_ok fl p;
  ss_stop : _stop p = p_stop (par s);
  ss_ep : _epollfd p = ep;
  ss_listen : _listenfd p = l;
  ss_sig : fst (sig_pipefd p) = sg;
  ss_counter : (p_counter (par s) < length (kids s))%nat;
}.
Definition same_state (s : psys) : SrvProcessPool T -> Prop := same_but (flags s) s.

Context (R : psys -> list event -> Prop) (HR : answered R).
Context (Hlsg : l <> sg) (Hpos : forall k, 0 < pids k) (Hinj : forall j k, pids j = pids k -> j = k).
#[local] Set Default Proof Using "All".

(** From [s] on, the system has done some actions, which led it to a state the
    history of [w'] leads to, with the code's state the same and [P]. *)
Definition goes (s : psys) w' (P : psys -> Prop) : Prop := exists acts s',
  run cap s acts = Some s' /\ R s' (w_log w') /\ same_state s' (w_st w') /\ P s'.

(** The code is stuck in a call that never returns, or out of fuel. *)
Definition stuck (s : psys) w' (h : halt) : Prop :=
  (h = HBlocked \/ h = HFuel) /\ exists acts s', run cap s acts = Some s' /\ R s' (w_log w').

Lemma goes_trans s acts s1 w' P : run cap s acts = Some s1 -> goes s1 w' P -> goes s w' P.
Proof using Type.
  intros Hrun (acts' & s' & Hrun' & ?). exists (acts ++ acts'), s'. split; [by eapply run_then|done].
Qed.

Lemma stuck_trans s acts s1 w' h : run cap s acts = Some s1 -> stuck s1 w' h -> stuck s w' h.
Proof using Type.
  intros Hrun (Hh & acts' & s' & Hrun' & ?). split; [done|]. exists (acts ++ acts'), s'.
  split; [by eapply run_then|done].
Qed.

Lemma stuck_here s w h : R s (w_log w) -> h = HBlocked \/ h = HFuel -> stuck s w h.
Proof using Type. intros HRs Hh. split; [done|]. by exists [], s. Qed.

(** A call of the parent. *)
Lemma wp_call c s w (Q : res reply -> world (SrvProcessPool T) -> Prop) :
  R s (w_log w) -> asks s c -> Q (Stop HBlocked) w ->
  (forall r s1 s2 acts, run cap s acts = Some s1 -> same_parent s s1 -> serves s1 c r s2 ->
    R s2 (w_log (after c r w)) -> Q (Ok r) (after c r w)) ->
  wp (sys c) Q w.
Proof.
  intros HRs Hasks Hblocked HQ. apply wp_sys; [done|]. intros r Hr.
  destruct (an_call _ HR _ _ _ _ HRs Hasks Hr) as (s1 & s2 & Hlater & Hserves & HR2).
  destruct Hlater as (acts & Hall & Hrun). eapply HQ; [done| |done|done].
  eapply later_same. by exists acts.
Qed.

Lemma wp_call_ c s w (Q : res Z -> world (SrvProcessPool T) -> Prop) :
  R s (w_log w) -> asks s c -> Q (Stop HBlocked) w ->
  (forall r s1 s2 acts, run cap s acts = Some s1 -> same_parent s s1 -> serves s1 c r s2 ->
    R s2 (w_log (after c r w)) -> Q (Ok (r_ret r)) (after c r w)) ->
  wp (sys_ c) Q w.
Proof.
  intros HRs Hasks Hblocked HQ. apply wp_bind. eapply wp_call; [done..|].
  intros r s1 s2 acts Hrun Hsame Hserves HR2. cbn [bind_post]. apply wp_ret. by eapply HQ.
Qed.

(** The code's state is the same when only the others acted. *)
Lemma length_flags s : length (flags s) = length (kids s).
Proof using Type. apply length_map. Qed.

Lemma same_but_other fl s s1 p : same_parent s s1 -> same_but fl s p -> same_but fl s1 p.
Proof.
  intros [Hown Hfl] [Ht Hs He Hl Hsig Hc]. unfold own_part in Hown. injection Hown as Hpc Hcn Hst Hli Hsi.
  split; try done; [congruence|].
  by rewrite <- (length_flags s1), Hfl, length_flags, Hcn.
Qed.

Lemma same_state_other s s1 p : same_parent s s1 -> same_state s p -> same_state s1 p.
Proof.
  intros Hsame Hss. unfold same_state in *. destruct (Hsame) as [_ ->]. by eapply same_but_other.
Qed.

(** A silent step of the parent, which makes no call. *)
Lemma silent_R s p h a : R s h -> act cap s a = Some (set_par p s) -> p_sigs p = p_sigs (par s) ->
  run cap s [a] = Some (set_par p s) /\ R (set_par p s) h.
Proof. intros HRs Ha Hp. split; [by apply run_one|by apply (an_private _ HR)]. Qed.

(** ** A new connection *)

Lemma same_agrees s p : same_state s p -> agrees p s.
Proof.
  intros [[Hok Ht] Hs _ _ _ _]. rewrite length_flags in Hok. split; [done| |done].
  intros k x Hx. destruct (Ht k (is_reaped x)) as [Hpid _].
  { unfold flags. etransitivity; [apply (list_lookup_fmap is_reaped)|by rewrite Hx]. }
  unfold live. rewrite Hpid. destruct (is_reaped x); [done|]. specialize (Hpos k).
  by rewrite (proj2 (Z.eqb_neq _ _)) by lia.
Qed.

(** What the code's search finds. *)
Lemma search_finds s p d : same_state s p ->
  let n := Z.of_nat (length (kids s)) in let c := Z.of_nat (p_counter (par s)) in
  0 <= d < n -> all_dead n p c d -> live (child p (after_child n c d)) = true ->
  exists j, next_live (kids s) (p_counter (par s)) = Some j /\ after_child n c d = Z.of_nat j /\
    after_child n c (d + 1) = Z.of_nat ((j + 1) mod length (kids s)).
Proof.
  intros Hss n c Hd Hdead Hlive. pose proof (same_agrees _ _ Hss) as Ha.
  pose proof (ss_counter _ _ _ Hss) as Hc. assert (Hn : n = Z.of_nat (length (kids s))) by done.
  exists ((p_counter (par s) + Z.to_nat d) mod length (kids s))%nat. split_and!.
  - apply next_live_first; [lia| |rewrite (agrees_after p) by (done || lia); fold n c; by rewrite Hlive].
    intros e He. rewrite <- (Nat2Z.id e), (agrees_after p) by (done || lia). fold n c.
    by rewrite Hdead by lia.
  - rewrite <- after_child_nat by lia. fold n c. pose proof (after_child_range n c d ltac:(lia)). lia.
  - pose proof (after_child_range n c (d + 1) ltac:(lia)). rewrite Nat.Div0.add_mod_idemp_l.
    replace (p_counter (par s) + Z.to_nat d + 1)%nat with (p_counter (par s) + Z.to_nat (d + 1))%nat by lia.
    rewrite <- after_child_nat by lia. fold n c. lia.
Qed.

(** The notification of the child the search finds. *)
Lemma notify_keeps_table s m s' j p : act cap s (PNotify m) = Some s' ->
  next_live (kids s) (p_counter (par s)) = Some j -> same_state s p ->
  same_state s' p /\ p_pc (par s') = PLoop /\ p_counter (par s') = ((j + 1) mod length (kids s))%nat /\
    p_listen (par s') = false /\ p_sig (par s') = p_sig (par s).
Proof.
  intros Hact Hj Hss. apply act_pstep in Hact. inversion Hact; simplify_eq.
  match goal with Hy : kid_notified _ _ = Some _ |- _ => destruct (kid_notified_keeps _ _ _ Hy) as [_ Hkpc] end.
  match goal with Hx : kids s !! j = Some _ |- _ => pose proof (flags_put _ _ _ _ Hx (is_reaped_pc _ _ Hkpc)) as Hfl end.
  split; [|done]. destruct Hss as [Htab Hst He Hl' Hsg' _]. split; try done; cbn.
  - by rewrite <- Hfl in Htab.
  - rewrite length_insert. apply Nat.mod_upper_bound. by destruct (kids s).
Qed.

Lemma new_con_goes s w :
  R s (w_log w) -> same_state s (w_st w) -> p_pc (par s) = PLoop -> p_listen (par s) = true ->
  wp (parent_new_con (Z.of_nat (p_counter (par s)))) (fun x w' => match x with
    | Ok (inl c) => goes s w' (fun s' => p_pc (par s') = PLoop /\ c = Z.of_nat (p_counter (par s')) /\
        p_listen (par s') = false /\ p_sig (par s') = p_sig (par s))
    | Ok (inr c) => goes s w' (fun s' => p_pc (par s') = PLoop /\ c = Z.of_nat (p_counter (par s')) /\
        p_listen (par s') = false /\ p_sig (par s') = false)
    | Stop h => stuck s w' h
    end) w.
Proof.
  intros HRs Hss Hpc Hli. pose proof (same_agrees _ _ Hss) as Ha.
  pose proof (ag_ok _ _ Ha) as Hok. pose proof Hok as (Hn & Hlen & Hn16).
  pose proof (ss_counter _ _ _ Hss) as Hc. set (n := Z.of_nat (length (kids s))) in *.
  set (c := Z.of_nat (p_counter (par s))) in *.
  unfold parent_new_con. do 3 wp_step. rewrite Hn. rewrite <- (after_child_0 n c) at 2 by lia.
  eapply wp_mono; [apply (pick_wp n); [done|lia|lia|lia|intros ? ?; lia]|].
  intros r w' (-> & [(d & Hd & Hall & -> & Hlive)|(Hall & ->)]); cbn [bind_post].
  - destruct (search_finds _ _ d Hss Hd Hall Hlive) as (j & Hj & Hjd & Hjn). fold n c in Hjd, Hjn.
    destruct (next_live_Some _ _ _ Hj) as (x & Hx & Hxr).
    wp_step. apply (wp_child n); [done|by apply after_child_range; lia|]. cbn [bind_post].
    unfold live in Hlive. apply negb_true_iff in Hlive. rewrite Hlive.
    pose proof (after_child_range n c d ltac:(lia)).
    wp_step. apply wp_c_mod; [lia|lia|]. cbn [bind_post].
    rewrite after_child_next by lia. rewrite Hjd, Hjn.
    destruct (ss_table _ _ _ Hss) as [_ Ht]. destruct (Ht j false) as [_ ->]; [by apply flag_lookup; eauto|].
    apply wp_bind. eapply wp_call_; [exact HRs|by apply asks_send|by apply stuck_here; auto|].
    intros r s1 s2 acts Hrun Hsame Hserves HR2. cbn [bind_post]. wp_step.
    inversion Hserves as [| |j' m r' s' Hact| | | | |]; subst.
    match goal with Hp : pipes _ = pipes _ |- _ => rewrite Hp end.
    assert (Hj1 : next_live (kids s1) (p_counter (par s1)) = Some j).
    { destruct Hsame as [Hown Hfl]. injection Hown as _ -> _ _ _. by rewrite (next_live_flags _ _ _ Hfl). }
    destruct (notify_keeps_table _ _ _ _ _ Hact Hj1 (same_state_other _ _ _ Hsame Hss)) as (Hss2 & Hpc2 & Hc2 & Hli2 & Hsi2).
    exists (acts ++ [PNotify m]), s2. split; [eapply run_then; [exact Hrun|by apply run_one]|].
    destruct Hsame as [Hown Hfl]. injection Hown as _ _ _ _ Hsi1.
    split_and!; [done..| |done|congruence]. rewrite Hc2. do 2 f_equal.
    by rewrite <- (length_flags s1), Hfl, length_flags.
  - pose proof (next_live_none (kids s) (p_counter (par s))) as Hnone.
    assert (Hn0 : next_live (kids s) (p_counter (par s)) = None).
    { apply Hnone. intros e He. rewrite <- (Nat2Z.id e), (agrees_after (w_st w)) by (done || lia).
      fold n c. by rewrite Hall by lia. }
    wp_step. apply (wp_child n); [done|lia|]. cbn [bind_post].
    pose proof (Hall 0 ltac:(lia)) as H0. rewrite after_child_0 in H0 by lia.
    unfold live in H0. apply negb_false_iff in H0. rewrite H0. wp_steps.
    set (p := mkParent PLoop (p_counter (par s)) true false false (p_sigs (par s))).
    destruct (silent_R s p (w_log w) (PNotify 0)) as [Hrun HR1]; [done| |done|].
    { cbn [act]. unfold parent_step. by rewrite Hpc, Hli, Hn0. }
    exists [PNotify 0], (set_par p s). split_and!; try done. destruct Hss. by split.
Qed.

(** ** Reaping *)

Lemma child_insert (p : SrvProcessPool T) i j q : 0 <= i < Z.of_nat (length (_sub_process p)) ->
  child (set_sub_process (insertZ i q (_sub_process p)) p) j = if decide (j = i) then q else child p j.
Proof using Type.
  intros Hi. unfold child. cbn [_sub_process set_sub_process]. case_decide as Hd.
  - subst j. by rewrite lookupZ_insertZ_eq.
  - by rewrite lookupZ_insertZ_ne by done.
Qed.

(** The child [k] has been reaped and the table does not say so yet: its pipe is
    closed and it is marked. *)
Lemma bury_goes s k sigs w :
  R s (w_log w) -> p_pc (par s) = PReaping sigs -> flags s !! k = Some true ->
  same_but (<[k := false]> (flags s)) s (w_st w) ->
  wp (bury (pids k)) (fun x w' => match x with
    | Ok _ => goes s w' (same_parent s)
    | Stop h => stuck s w' h
    end) w.
Proof.
  intros HRs Hpc Hk Hsb. destruct (ss_table _ _ _ Hsb) as [Hok _].
  rewrite length_insert in Hok. set (n := Z.of_nat (length (flags s))) in *.
  unfold bury. wp_step. wp_step. cbn [bind_post]. destruct Hok as (Hn & _). rewrite Hn.
  apply (wp_for_each_range (fun j w' => exists acts s', run cap s acts = Some s' /\
    R s' (w_log w') /\ same_parent s s' /\
    same_but (if Z.of_nat k <? j then flags s else <[k := false]> (flags s)) s' (w_st w'))); [lia| | |].
  - intros w' (acts & s' & Hrun & HR' & Hsame & Hsb'). exists acts, s'. split_and!; [done|done| |done].
    unfold same_state. destruct (Hsame) as [_ ->]. apply lookup_lt_Some in Hk.
    by rewrite (proj2 (Z.ltb_lt _ _)) in Hsb' by lia.
  - intros j w' Hj (acts & s' & Hrun & HR' & Hsame & Hsb'). wp_step. wp_step. cbn [bind_post]. wp_step.
    set (fl := if Z.of_nat k <? j then flags s else <[k := false]> (flags s)) in *.
    assert (Hfl : length fl = length (flags s)) by (unfold fl; case_match; by rewrite ?length_insert).
    destruct (ss_table _ _ _ Hsb') as [Hok' Ht]. rewrite Hfl in Hok'. fold n in Hok'.
    apply (wp_child n); [done|done|]. cbn [bind_post].
    destruct (lookup_lt_is_Some_2 fl (Z.to_nat j)) as [b Hb]; [lia|].
    destruct (Ht _ _ Hb) as [Hpid Hpipe]. rewrite Z2Nat.id in Hpid, Hpipe by lia. rewrite Hpid, Hpipe.
    destruct (decide (j = Z.of_nat k)) as [->|Hne].
    + unfold fl in Hb. rewrite Z.ltb_irrefl, Nat2Z.id, list_lookup_insert_eq in Hb
        by (by eapply lookup_lt_Some). injection Hb as <-. rewrite Nat2Z.id, Z.eqb_refl.
      apply wp_bind. eapply wp_call_; [exact HR'|eapply asks_close| |].
      { destruct Hsame as [Hown _]. injection Hown as -> _ _ _ _. exact Hpc. }
      { cbn [bind_post]. eapply stuck_trans; [exact Hrun|]. by apply stuck_here; auto. }
      intros r s1 s2 acts2 Hrun2 Hsame2 Hserves HR2. cbn [bind_post]. wp_step.
      inversion Hserves; subst. exists (acts ++ acts2), s2.
      split_and!; [by eapply run_then|done|by eapply same_parent_trans|].
      rewrite (proj2 (Z.ltb_lt (Z.of_nat k) _)) by lia.
      pose proof (same_but_other _ _ _ _ Hsame2 Hsb') as [_ Hst He Hl' Hsg' Hc].
      pose proof Hok' as (Hn' & Hlen' & Hn16).
      split; try done. split; [split_and!; cbn; rewrite ?length_insertZ; done || lia|].
      intros i bi Hi. rewrite child_insert by lia. case_decide as Hik.
      * assert (i = k) as -> by lia. simplify_eq. cbn. split; [done|]. by rewrite Hpipe, Nat2Z.id.
      * apply Ht. unfold fl. rewrite Z.ltb_irrefl, list_lookup_insert_ne; [done|]. intros ->. done.
    + assert (Hnot : ((if b then -1 else pids (Z.to_nat j)) =? pids k) = false).
      { apply Z.eqb_neq. destruct b; [specialize (Hpos k); lia|]. intros ?%Hinj. lia. }
      rewrite Hnot. wp_step. exists acts, s'. split_and!; [done..|].
      replace (Z.of_nat k <? j + 1) with (Z.of_nat k <? j); [done|].
      apply eq_true_iff_eq. rewrite !Z.ltb_lt. lia.
  - exists [], s. split_and!; [done|done|done|]. by rewrite (proj2 (Z.ltb_ge _ _)) by lia.
Qed.

(** The waitpid loop. *)
Lemma reap_goes fuel sigs s w :
  R s (w_log w) -> same_state s (w_st w) -> p_pc (par s) = PReaping sigs ->
  wp (reap fuel bury) (fun x w' => match x with
    | Ok _ => goes s w' (fun s' => own_part (par s') = own_part (par s) /\
        existsb is_zombie (kids s') = false)
    | Stop h => stuck s w' h
    end) w.
Proof.
  intros HRs Hss Hpc. unfold reap.
  apply (wp_while (fun _ w' => goes s w' (fun s' => own_part (par s') = own_part (par s)))).
  - intros _ w' (acts & s' & Hrun & HR' & _). split; [by right|]. by exists acts, s'.
  - intros _ w' (acts & s' & Hrun & HR' & Hss' & Hown).
    assert (Hpc' : p_pc (par s') = PReaping sigs) by (injection Hown; congruence).
    apply wp_bind. eapply wp_call_; [exact HR'|by eapply asks_waitpid| |].
    { cbn [bind_post]. eapply stuck_trans; [exact Hrun|]. by apply stuck_here; auto. }
    intros r s1 s2 acts1 Hrun1 Hsame1 Hserves HR2. cbn [bind_post].
    pose proof (run_then _ _ _ _ _ _ Hrun Hrun1) as Hrun01.
    pose proof (same_state_other _ _ _ Hsame1 Hss') as Hss1. pose proof Hsame1 as [Hown1 _].
    inversion Hserves as [| | | |k r' s2' Hact Hr| r' Hle Hz| |]; subst.
    + rewrite Hr, (proj2 (Z.ltb_lt _ _)) by apply Hpos.
      pose proof (run_then _ _ _ _ _ _ Hrun01 (run_one _ _ _ _ Hact)) as Hrun2.
      apply act_pstep in Hact. inversion Hact as [| | |? ? ? ? ? Hx|? ? ? ? ? Hx| | | | | | | | | | |k' sg' x y Hpc1 Hx Hf| | | |];
        subst; try discriminate.
      destruct (kid_reap_keeps _ _ Hf) as [_ Hy].
      assert (Hxr : is_reaped x = false) by (revert Hf; unfold kid_reap, is_zombie, is_reaped; by destruct (k_pc x)).
      set (s2 := put k y s1) in *.
      assert (Hfl2 : flags s2 = <[k := true]> (flags s1)).
      { unfold flags, s2. cbn [kids put set_kids]. etransitivity; [apply (list_fmap_insert is_reaped)|]. by rewrite Hy. }
      assert (Hk : flags s1 !! k = Some false) by (apply flag_lookup; eauto).
      apply wp_bind. eapply wp_mono; [eapply (bury_goes s2 k sigs); [exact HR2| | |]|].
      * cbn. injection Hown1. congruence.
      * rewrite Hfl2. apply list_lookup_insert_eq. by eapply lookup_lt_Some.
      * rewrite Hfl2, list_insert_insert_eq, list_insert_id by done.
        destruct Hss1 as [? ? ? ? ? Hc]. split; try done. cbn. by rewrite length_insert.
      * intros [[]|h] w2; cbn [bind_post]; [|intros Hs; by eapply stuck_trans].
        intros Hgoes. wp_step. eapply goes_trans; [exact Hrun2|].
        destruct Hgoes as (acts3 & s3 & Hrun3 & HR3 & Hss3 & Hown3 & _).
        exists acts3, s3. split_and!; [done..|]. rewrite Hown3. cbn. congruence.
    + rewrite (proj2 (Z.ltb_ge _ _)) by done. wp_step.
      eexists _, s2. split_and!; [exact Hrun01|done|done|congruence|done].
  - by exists [], s.
Qed.

(** ** Signals *)

(** What handling a signal leaves alone: the counter and the rest of the batch. *)
Definition batch_part (p : parent) : nat * bool * bool := (p_counter p, p_listen p, p_sig p).

Lemma own_batch p p' : own_part p' = own_part p -> batch_part p' = batch_part p.
Proof using Type. unfold own_part, batch_part. by intros [= _ -> _ -> ->]. Qed.

(** The step that a part of the code without a call does. *)
Lemma goes_silent s w p a (P : psys -> Prop) :
  R s (w_log w) -> act cap s a = Some (set_par p s) -> p_sigs p = p_sigs (par s) ->
  same_state (set_par p s) (w_st w) -> P (set_par p s) -> goes s w P.
Proof.
  intros HRs Ha Hp Hss HP. destruct (silent_R _ _ _ _ HRs Ha Hp) as [Hrun HR1].
  by exists [a], (set_par p s).
Qed.

Lemma sigchld_goes fuel sigs s w :
  R s (w_log w) -> same_state s (w_st w) -> p_pc (par s) = PReaping sigs ->
  wp (parent_signal fuel SIGCHLD) (fun x w' => match x with
    | Ok _ => goes s w' (fun s' => p_pc (par s') = PSigs sigs /\ batch_part (par s') = batch_part (par s))
    | Stop h => stuck s w' h
    end) w.
Proof.
  intros HRs Hss Hpc. unfold parent_signal. wp_step. wp_step. cbn [bind_post].
  change (SIGCHLD =? SIGCHLD) with true. cbn iota.
  destruct (ss_table _ _ _ Hss) as [(Hn & _) _]. rewrite Hn.
  apply wp_bind. eapply wp_mono; [by apply (reap_goes _ sigs)|].
  intros [[]|h] w1; cbn [bind_post]; [|done]. intros (acts & s1 & Hrun & HR1 & Hss1 & Hown & Hz).
  wp_step. wp_step. pose proof (same_agrees _ _ Hss1) as Ha1.
  pose proof Hss1 as [Htab _ He Hl' Hsg' Hc]. pose proof Htab as [Hok1 _].
  assert (Hlen : length (flags s) = length (flags s1)).
  { rewrite !length_flags. symmetry. by eapply run_length. }
  rewrite Hlen. eapply (stop_check_wp _ (w_st w1)); [exact Hok1|done|].
  intros w2 Hst2 Hlog2. eapply goes_trans; [exact Hrun|].
  rewrite (agrees_all _ (kids s1) (length (kids s1))) in Hst2; [|apply Ha1|done|apply Ha1].
  assert (Hpc1 : p_pc (par s1) = PReaping sigs) by (injection Hown; congruence).
  apply (goes_silent _ _ (mkParent (PSigs sigs) (p_counter (par s1)) (forallb is_reaped (kids s1))
      (p_listen (par s1)) (p_sig (par s1)) (p_sigs (par s1))) PReapEnd);
    [by rewrite Hlog2| |done| |].
  - cbn [act]. unfold parent_step. by rewrite Hpc1, Hz.
  - rewrite Hst2. split; try done.
  - split; [done|]. by rewrite <- (own_batch _ _ Hown).
Qed.

(** The turn of a child that has been reaped, which makes no call, and of one that
    has not. *)
Lemma kill_skips s k sigs : p_pc (par s) = PKilling k sigs -> flags s !! k = Some true ->
  act cap s PKill = Some (set_par (set_ppc (PKilling (S k) sigs) (par s)) s).
Proof using Type.
  intros Hpc (x & Hx & Hxr)%flag_lookup. cbn [act]. unfold parent_step. rewrite Hpc.
  rewrite (proj2 (Nat.ltb_lt _ _)) by (by eapply lookup_lt_Some).
  rewrite (proj2 (with_kid_Some k s _ (put k x s))).
  - cbn. unfold put. rewrite list_insert_id by done. by destruct s.
  - exists x, x. split_and!; [done| |done]. unfold kid_signalled.
    replace (running x) with false; [done|]. revert Hxr. unfold is_reaped, running. by destruct (k_pc x).
Qed.

Lemma kill_keeps_table s k sigs s' p : p_pc (par s) = PKilling k sigs -> is_Some (flags s !! k) ->
  act cap s PKill = Some s' -> same_state s p ->
  same_state s' p /\ p_pc (par s') = PKilling (S k) sigs /\ batch_part (par s') = batch_part (par s).
Proof.
  intros Hpc Hk Hact Hss. apply act_pstep in Hact.
  inversion Hact as [| | |? ? ? ? ? Hx|? ? ? ? ? Hx| | | | | | | | | | | | |k' l' x Hpc' Hx|k' l' Hpc' Hge|];
    subst; try discriminate; rewrite Hpc in Hpc'; injection Hpc' as <- <-.
  2: { apply lookup_lt_is_Some in Hk. rewrite length_flags in Hk. lia. }
  destruct (kid_signalled_keeps x) as [_ Hkpc].
  pose proof (flags_put _ _ _ _ Hx (is_reaped_pc _ _ Hkpc)) as Hfl.
  split; [|done]. destruct Hss as [Htab Hst He Hl' Hsg' Hc].
  split; try done; cbn; [by rewrite <- Hfl in Htab|by rewrite length_insert].
Qed.

(** SIGTERM or SIGINT: one child after the other. *)
Lemma sigterm_goes fuel sig sigs s w :
  sig = SIGTERM \/ sig = SIGINT ->
  R s (w_log w) -> same_state s (w_st w) -> p_pc (par s) = PKilling 0 sigs ->
  wp (parent_signal fuel sig) (fun x w' => match x with
    | Ok _ => goes s w' (fun s' => p_pc (par s') = PSigs sigs /\ batch_part (par s') = batch_part (par s))
    | Stop h => stuck s w' h
    end) w.
Proof.
  intros Hsig HRs Hss Hpc. unfold parent_signal. wp_step. wp_step. cbn [bind_post].
  replace (sig =? SIGCHLD) with false by (destruct Hsig; subst; done).
  replace ((sig =? SIGTERM) || (sig =? SIGINT)) with true by (destruct Hsig; subst; done).
  destruct (ss_table _ _ _ Hss) as [(Hn & _) _]. rewrite Hn.
  apply (wp_for_each_range (fun k w' => goes s w' (fun s' => p_pc (par s') = PKilling (Z.to_nat k) sigs /\
    batch_part (par s') = batch_part (par s)))); [lia| | |by exists [], s].
  - intros w' (acts & s1 & Hrun & HR1 & Hss1 & Hpc1 & Hb1). eapply goes_trans; [exact Hrun|].
    rewrite Nat2Z.id in Hpc1.
    apply (goes_silent _ _ (set_ppc (PSigs sigs) (par s1)) PKill); [done| |done| |done].
    + cbn [act]. unfold parent_step. rewrite Hpc1, length_flags, (run_length _ _ _ _ Hrun).
      by rewrite Nat.ltb_irrefl.
    + by destruct Hss1.
  - intros k w' Hk (acts & s1 & Hrun & HR1 & Hss1 & Hpc1 & Hb1). wp_step. wp_step. cbn [bind_post]. wp_step.
    destruct (ss_table _ _ _ Hss1) as [Hok1 Ht1].
    assert (Hlen : length (flags s1) = length (flags s)).
    { rewrite !length_flags. by eapply run_length. }
    eapply wp_child; [exact Hok1|lia|]. cbn [bind_post].
    destruct (lookup_lt_is_Some_2 (flags s1) (Z.to_nat k)) as [b Hb]; [lia|].
    destruct (Ht1 _ _ Hb) as [Hpid _]. rewrite Z2Nat.id in Hpid by lia. rewrite Hpid.
    replace (Z.to_nat (k + 1)) with (S (Z.to_nat k)) by lia.
    assert (Hkn : (Z.to_nat k <? length (kids s1))%nat = true).
    { apply Nat.ltb_lt. rewrite <- length_flags. lia. }
    destruct b.
    + cbn [negb Z.eqb Pos.eqb]. wp_step. eapply goes_trans; [exact Hrun|].
      apply (goes_silent _ _ (set_ppc (PKilling (S (Z.to_nat k)) sigs) (par s1)) PKill);
        [done|by apply kill_skips|done|by destruct Hss1|done].
    + specialize (Hpos (Z.to_nat k)) as Hp. rewrite (proj2 (Z.eqb_neq _ _)) by lia. cbn [negb].
      apply wp_bind. eapply wp_call_; [exact HR1|by eapply asks_kill| |].
      { cbn [bind_post]. eapply stuck_trans; [exact Hrun|]. by apply stuck_here; auto. }
      intros r s2 s3 acts2 Hrun2 Hsame2 Hserves HR3. cbn [bind_post]. wp_step.
      pose proof (same_state_other _ _ _ Hsame2 Hss1) as Hss2. destruct Hsame2 as [Hown2 Hfl2].
      inversion Hserves as [| | | | | | |pid r' s' Hact]; subst.
      exists (acts ++ (acts2 ++ [PKill])), s3.
      split; [eapply run_then; [exact Hrun|]; eapply run_then; [exact Hrun2|by apply run_one]|].
      assert (Hpc2 : p_pc (par s2) = PKilling (Z.to_nat k) sigs) by (injection Hown2; congruence).
      destruct (kill_keeps_table _ _ _ _ _ Hpc2 ltac:(by rewrite Hfl2; eauto) Hact Hss2) as (Hss3 & Hpc3 & Hb3).
      split_and!; [done..|]. by rewrite Hb3, (own_batch _ _ Hown2).
Qed.

(** One byte of those received. *)
Lemma signal_goes fuel b g sigs s w :
  sig_byte b g -> R s (w_log w) -> same_state s (w_st w) -> p_pc (par s) = PSigs (g :: sigs) ->
  wp (parent_signal fuel (wrap_s 8 b)) (fun x w' => match x with
    | Ok _ => goes s w' (fun s' => p_pc (par s') = PSigs sigs /\ batch_part (par s') = batch_part (par s))
    | Stop h => stuck s w' h
    end) w.
Proof.
  intros Hb HRs Hss Hpc. set (pc := match g with SChld => PReaping sigs | STerm => PKilling 0 sigs end).
  destruct (silent_R s (set_ppc pc (par s)) (w_log w) PSigNext) as [Hrun HR1]; [done| |done|].
  { cbn [act]. unfold parent_step. rewrite Hpc. by destruct g. }
  assert (Hss1 : same_state (set_par (set_ppc pc (par s)) s) (w_st w)) by by destruct Hss.
  eapply (wp_mono _ (fun x w' => match x with
    | Ok _ => goes (set_par (set_ppc pc (par s)) s) w' (fun s' => p_pc (par s') = PSigs sigs /\
        batch_part (par s') = batch_part (par s))
    | Stop h => stuck (set_par (set_ppc pc (par s)) s) w' h
    end)).
  - destruct g; cbn in Hb.
    + rewrite Hb. eapply wp_mono; [by apply (sigchld_goes _ sigs)|]. by intros [].
    + eapply wp_mono; [by apply (sigterm_goes _ _ sigs)|]. by intros [].
  - intros [[]|h] w'; [by apply goes_trans with [PSigNext]|by apply stuck_trans with [PSigNext]].
Qed.

(** The loop over the bytes received. *)
Lemma signals_go fuel data sigs junk s w :
  Forall2 sig_byte data sigs -> R s (w_log w) -> same_state s (w_st w) -> p_pc (par s) = PSigs sigs ->
  wp (each_signal (buf_write junk data) (Z.of_nat (length data)) (parent_signal fuel))
    (fun x w' => match x with
    | Ok _ => goes s w' (fun s' => p_pc (par s') = PLoop /\ batch_part (par s') = batch_part (par s))
    | Stop h => stuck s w' h
    end) w.
Proof.
  intros Hbytes HRs Hss Hpc. unfold each_signal.
  apply (wp_for_each_range (fun j w' => goes s w' (fun s' =>
    p_pc (par s') = PSigs (drop (Z.to_nat j) sigs) /\ batch_part (par s') = batch_part (par s))));
    [lia| | |exists [], s; by rewrite drop_0].
  - intros w' (acts & s1 & Hrun & HR1 & Hss1 & Hpc1 & Hb1). eapply goes_trans; [exact Hrun|].
    rewrite drop_ge in Hpc1 by (rewrite Nat2Z.id, (Forall2_length _ _ _ Hbytes); lia).
    apply (goes_silent _ _ (set_ppc PLoop (par s1)) PSigNext); [done| |done|by destruct Hss1|done].
    cbn [act]. unfold parent_step. by rewrite Hpc1.
  - intros j w' Hj (acts & s1 & Hrun & HR1 & Hss1 & Hpc1 & Hb1). wp_step.
    destruct (lookup_lt_is_Some_2 data (Z.to_nat j)) as [b Hb]; [lia|].
    destruct (Forall2_lookup_l _ _ _ _ _ Hbytes Hb) as (g & Hg & Hbg).
    assert (Hbuf : lookupZ (buf_write junk data) j = Some b).
    { apply lookupZ_Some. split; [lia|]. unfold buf_write. rewrite lookup_app_l; [done|].
      by eapply lookup_lt_Some. }
    apply wp_index; [|congruence]. intros b' Hb'. rewrite Hbuf in Hb'. injection Hb' as <-.
    cbn [bind_post].
    rewrite (drop_S _ _ _ Hg) in Hpc1. replace (Z.to_nat (j + 1)) with (S (Z.to_nat j)) by lia.
    eapply wp_mono; [by eapply signal_goes|]. intros [[]|h] w2 Hg2.
    + eapply goes_trans; [exact Hrun|]. destruct Hg2 as (acts2 & s2 & ? & ? & ? & ? & Hb2).
      exists acts2, s2. split_and!; try done. congruence.
    + by eapply stuck_trans.
Qed.

(** ** The loop *)

(** The descriptors still to be handled are those of the batch. *)
Definition batch_is (s : psys) (fds : list Z) : Prop := NoDup fds /\ forall fd, fd ∈ fds <->
  (fd = l /\ p_listen (par s) = true) \/ (fd = sg /\ p_sig (par s) = true).

Lemma batch_is_nil s : batch_is s [] -> p_listen (par s) = false /\ p_sig (par s) = false.
Proof using Type.
  intros [_ Hin]. split; apply not_true_iff_false; intros Htrue.
  - apply (not_elem_of_nil l), Hin. by left.
  - apply (not_elem_of_nil sg), Hin. by right.
Qed.

Lemma batch_none s : p_listen (par s) = false -> p_sig (par s) = false -> batch_is s [].
Proof using Hlsg.
  intros Hl Hs. split; [constructor|]. intros fd. rewrite Hl, Hs, elem_of_nil. naive_solver.
Qed.

Lemma batch_listen s s' fds : batch_is s (l :: fds) -> p_listen (par s') = false ->
  p_sig (par s') = p_sig (par s) -> batch_is s' fds.
Proof using Hlsg.
  intros [[Hn Hnd]%NoDup_cons Hin] Hl Hs. split; [done|]. intros fd. rewrite Hl, Hs.
  specialize (Hin fd). rewrite elem_of_cons in Hin. split.
  - intros Hfd. destruct (proj1 Hin (or_intror Hfd)) as [[-> _]|?]; [done|by right].
  - intros [[_ ?]|[-> Hsg]]; [done|]. destruct (proj2 Hin (or_intror (conj eq_refl Hsg))) as [?|?]; [|done].
    by destruct Hlsg.
Qed.

Lemma batch_sig s s' fds : batch_is s (sg :: fds) -> p_sig (par s') = false ->
  p_listen (par s') = p_listen (par s) -> batch_is s' fds.
Proof using Hlsg.
  intros [[Hn Hnd]%NoDup_cons Hin] Hs Hl. split; [done|]. intros fd. rewrite Hl, Hs.
  specialize (Hin fd). rewrite elem_of_cons in Hin. split.
  - intros Hfd. destruct (proj1 Hin (or_intror Hfd)) as [?|[-> _]]; [by left|done].
  - intros [[-> Hli]|[_ ?]]; [|done]. destruct (proj2 Hin (or_introl (conj eq_refl Hli))) as [?|?]; [|done].
    by destruct Hlsg.
Qed.

(** The state between two events: [c] is the local [sub_process_counter]. *)
Definition between (c : Z) (fds : list Z) (s : psys) : Prop :=
  p_pc (par s) = PLoop /\ c = Z.of_nat (p_counter (par s)) /\ batch_is s fds.

Context (junk : list Z) (Hjunk : length junk = 1024%nat).

Lemma event_goes fuel c fd evs fds s w :
  R s (w_log w) -> same_state s (w_st w) -> between c (fd :: fds) s -> has_flag evs EPOLLIN = true ->
  wp (parent_event junk fuel c (fd, evs)) (fun x w' => match x with
    | Ok (inl c') => goes s w' (between c' fds)
    | Ok (inr c') => goes s w' (between c' [])
    | Stop h => stuck s w' h
    end) w.
Proof.
  intros HRs Hss (Hpc & -> & Hbatch) Hev. unfold parent_event. wp_step. wp_step. cbn [bind_post].
  rewrite (ss_listen _ _ _ Hss), (ss_sig _ _ _ Hss). destruct (Z.eqb_spec fd l) as [->|Hfd].
  - assert (Hli : p_listen (par s) = true).
    { destruct Hbatch as [_ Hin]. destruct (proj1 (Hin l) ltac:(by left)) as [[_ ?]|[? _]]; [done|].
      by destruct Hlsg. }
    eapply wp_mono; [by apply new_con_goes|].
    intros [[c'|c']|h] w'; [| |done]; intros (acts & s' & Hrun & HR' & Hss' & Hpc' & -> & Hli' & Hsi');
      exists acts, s'; (split_and!; [done|done|done|]); (split_and!; [done|done|]).
    + by eapply batch_listen.
    + by apply batch_none.
  - assert (Hfsg : fd = sg /\ p_sig (par s) = true).
    { destruct Hbatch as [_ Hin]. by destruct (proj1 (Hin fd) ltac:(by left)) as [[? _]|?]. }
    destruct Hfsg as [-> Hsi]. rewrite Z.eqb_refl, Hev. cbn [andb].
    wp_step. unfold recv. apply wp_bind. eapply wp_call; [exact HRs|by apply asks_recv| |].
    { cbn [bind_post]. by apply stuck_here; auto. }
    intros r s1 s2 acts Hrun Hsame Hserves HR2. cbn [bind_post].
    pose proof (same_state_other _ _ _ Hsame Hss) as Hss1. destruct Hsame as [Hown _].
    inversion Hserves as [| | |r' s' sigs Hact Hsigs Hlen Hbytes| | | |]; subst.
    pose proof (run_then _ _ _ _ _ _ Hrun (run_one _ _ _ _ Hact)) as Hrun2.
    apply act_pstep in Hact. inversion Hact; subst; try discriminate. cbn in Hsigs. injection Hsigs as <-.
    assert (Hn : (length (r_data r) <= 1024)%nat).
    { rewrite (Forall2_length _ _ _ Hbytes), length_take. lia. }
    unfold fill. rewrite bool_decide_eq_true_2 by lia. wp_steps. rewrite Hlen, wrap_s32_id by lia.
    set (s2 := set_par _ s1) in *.
    assert (Hss2 : same_state s2 (w_st w)) by by destruct Hss1.
    assert (Hb2 : batch_is s2 fds).
    { eapply batch_sig; [exact Hbatch|done|]. cbn. by injection Hown. }
    assert (Hc2 : p_counter (par s2) = p_counter (par s)) by (cbn; by injection Hown).
    destruct (Z.leb_spec (Z.of_nat (length (r_data r))) 0) as [Hz|Hz].
    + wp_step. destruct (r_data r); [|simpl in Hz; lia]. apply Forall2_nil_inv_l in Hbytes as Hnil.
      eapply goes_trans; [exact Hrun2|].
      apply (goes_silent _ _ (set_ppc PLoop (par s2)) PSigNext); [done| |done|by destruct Hss2|].
      * cbn [act]. unfold parent_step. cbn [s2 par set_par p_pc]. by rewrite Hnil.
      * split_and!; [done|by rewrite <- Hc2|done].
    + apply wp_bind. eapply wp_mono; [by eapply (signals_go _ _ _ _ s2)|].
      intros [[]|h] w2; cbn [bind_post]; [|intros Hs; by eapply stuck_trans].
      intros (acts3 & s3 & Hrun3 & HR3 & Hss3 & Hpc3 & Hb3). wp_step.
      eapply goes_trans; [exact Hrun2|]. exists acts3, s3. split_and!; [done..|].
      unfold batch_part in Hb3. injection Hb3 as Hc3 Hl3 Hs3.
      split_and!; [done|f_equal; rewrite Hc3; exact (eq_sym Hc2)|]. destruct Hb2 as [Hnd Hin]. split; [done|].
      intros fd. by rewrite Hl3, Hs3.
Qed.

(** One turn: it ends the loop when the flag is set or epoll_wait fails. *)
Lemma turn_goes fuel c s w :
  R s (w_log w) -> same_state s (w_st w) -> between c [] s ->
  wp (parent_turn junk fuel c) (fun x w' => match x with
    | Ok (inl c') => goes s w' (between c' [])
    | Ok (inr _) => goes s w' (fun s' => (exists c', between c' [] s') /\ (p_stop (par s') = true \/
        exists h r, w_log w' = h ++ [(EpollWait ep MAX_EVENT_NUMBER (-1), r)] /\ r_ret r < 0))
    | Stop h => stuck s w' h
    end) w.
Proof.
  intros HRs Hss Hbt. pose proof Hbt as (Hpc & -> & Hbatch).
  destruct (batch_is_nil _ Hbatch) as [Hli Hsi]. unfold parent_turn. wp_step. wp_step. cbn [bind_post].
  rewrite (ss_stop _ _ _ Hss), (ss_ep _ _ _ Hss). destruct (p_stop (par s)) eqn:Hstop.
  { wp_step. exists [], s. split_and!; eauto. }
  apply wp_bind. eapply wp_call; [exact HRs|by apply asks_wait| |].
  { cbn [bind_post]. by apply stuck_here; auto. }
  intros r s1 s2 acts Hrun Hsame Hserves HR2. cbn [bind_post]. wp_step. wp_step. cbn [bind_post].
  pose proof (same_state_other _ _ _ Hsame Hss) as Hss1. destruct Hsame as [Hown _].
  injection Hown as Hpc1 Hc1 Hst1 Hli1 Hsi1.
  inversion Hserves as [r' Hneg|r' s' Hact Hlen Hrep| | | | | |]; subst.
  - assert (Hb2 : between (Z.of_nat (p_counter (par s))) [] s2).
    { split_and!; [congruence|by rewrite Hc1|apply batch_none; congruence]. }
    rewrite (proj2 (Z.ltb_lt _ _)) by done. cbn [andb].
    case_match; wp_step.
    + exists acts, s2. split_and!; [done..|by eauto|]. right. cbn. eauto.
    + unfold range. rewrite seqZ_nil by lia. apply wp_ret. cbn [bind_post]. wp_step. by exists acts, s2.
  - pose proof (run_then _ _ _ _ _ _ Hrun (run_one _ _ _ _ Hact)) as Hrun2.
    destruct Hrep as (Hnd & Hflags & Hin).
    assert (Hb2 : between (Z.of_nat (p_counter (par s))) (map fst (r_evs r)) s2 /\ same_state s2 (w_st w)).
    { apply act_pstep in Hact. inversion Hact; subst; try discriminate. cbn in *.
      split; [split_and!; [done|by rewrite <- Hc1|done]|]. destruct Hss1 as [? Hst ? ? ? ?]. split; try done.
      cbn. congruence. }
    destruct Hb2 as [Hb2 Hss2]. rewrite (proj2 (Z.ltb_ge _ _)) by lia. cbn [andb].
    apply wp_bind. rewrite Hlen.
    apply (wp_for_range (fun i c' w' => goes s w' (between c' (drop (Z.to_nat i) (map fst (r_evs r))))));
      [lia| | |eexists _, s2; by rewrite drop_0].
    + intros c' w' Hg. cbn [bind_post]. wp_step.
      by rewrite drop_ge in Hg by (rewrite Nat2Z.id, length_map; lia).
    + intros i c' w' Hi (acts1 & s3 & Hrun3 & HR3 & Hss3 & Hb3). wp_step.
      destruct (lookup_lt_is_Some_2 (r_evs r) (Z.to_nat i)) as [[fd ev] Hev]; [lia|].
      apply wp_index; [|rewrite lookupZ_None; lia]. intros ev' [_ Hev']%lookupZ_Some.
      rewrite Hev in Hev'. injection Hev' as <-. cbn [bind_post].
      assert (Hfd : map fst (r_evs r) !! Z.to_nat i = Some fd) by by rewrite (list_lookup_fmap fst), Hev.
      rewrite (drop_S _ _ _ Hfd) in Hb3. replace (Z.to_nat (i + 1)) with (S (Z.to_nat i)) by lia.
      eapply wp_mono; [eapply event_goes; [done|done|exact Hb3|]|].
      * by apply (proj1 (Forall_lookup _ _) Hflags _ _ Hev).
      * intros [[c2|c2]|h] w2; cbn [bind_post].
        -- by apply goes_trans with acts1.
        -- intros Hg. wp_step. by eapply goes_trans.
        -- by apply stuck_trans with acts1.
Qed.

Lemma parent_loop_goes fuel s w :
  R s (w_log w) -> same_state s (w_st w) -> between (Z.of_nat (p_counter (par s))) [] s ->
  wp (while_ fuel (parent_turn junk fuel) (Z.of_nat (p_counter (par s)))) (fun x w' => match x with
    | Ok _ => goes s w' (fun s' => (exists c, between c [] s') /\ (p_stop (par s') = true \/
        exists h r, w_log w' = h ++ [(EpollWait ep MAX_EVENT_NUMBER (-1), r)] /\ r_ret r < 0))
    | Stop h => stuck s w' h
    end) w.
Proof.
  intros HRs Hss Hb.
  apply (wp_while (fun c w' => goes s w' (between c []))).
  - intros c w' (acts & s1 & Hrun & HR1 & _). split; [by right|]. by exists acts, s1.
  - intros c w' (acts & s1 & Hrun & HR1 & Hss1 & Hb1).
    eapply wp_mono; [by apply (turn_goes _ _ s1)|]. intros [[c'|[]]|h] w2.
    + by apply goes_trans with acts.
    + by apply goes_trans with acts.
    + by apply stuck_trans with acts.
  - by exists [], s.
Qed.
End parent.

(** C14. The loop of run_parent is the parent of the system of processes: whatever the
    children, the clients and the senders of signals do at every call it makes,
    and in whatever order they do it, the loop does a sequence of the system's
    actions from its start, its table of children, counter and stop flag are the
    system's, and it ends only where the system's parent may leave its loop, or
    when epoll_wait fails. *)
Theorem parent_loop_refines `{Env} {T} `{!UserConn T} cap ep l sg pids pipes R junk fuel n
    (w : world (SrvProcessPool T)) :
  answered cap ep l sg pids pipes R -> l <> sg -> (forall k, 0 < pids k) ->
  (forall j k, pids j = pids k -> j = k) -> length junk = 1024%nat ->
  R (start n) (w_log w) -> same_state ep l sg pids pipes (start n) (w_st w) ->
  wp (while_ fuel (parent_turn junk fuel) 0) (fun x w' => exists acts s',
    run cap (start n) acts = Some s' /\ R s' (w_log w') /\
    match x with
    | Ok _ => same_state ep l sg pids pipes s' (w_st w') /\
        ((exists s'', act cap s' PExit = Some s'') \/
         exists h r, w_log w' = h ++ [(EpollWait ep MAX_EVENT_NUMBER (-1), r)] /\ r_ret r < 0)
    | Stop h => h = HBlocked \/ h = HFuel
    end) w.
Proof.
  intros HR Hlsg Hpos Hinj Hjunk HRs Hss.
  eapply wp_mono; [apply (parent_loop_goes cap ep l sg pids pipes R HR Hlsg Hpos Hinj junk Hjunk fuel (start n))|].
  - done.
  - done.
  - split_and!; [done|done|]. split; [constructor|]. intros fd. cbn. rewrite elem_of_nil. naive_solver.
  - intros [a|h] w'.
    + intros (acts & s' & Hrun & HR' & Hss' & (c & Hpc & _ & Hb) & Hend). exists acts, s'.
      split_and!; [done|done|done|]. destruct Hend as [Hstop|?]; [left|by right].
      destruct (batch_is_nil _ _ _ Hb) as [Hli Hsi]; try done. cbn [act]. unfold parent_step.
      rewrite Hpc, Hstop, Hli, Hsi. by eexists.
    + intros (Hh & acts & s' & Hrun & HR'). by exists acts, s'.
Qed.

(** ** The theorem at a concrete input

    One child, with the pid 100 and the pipe 20; the listening socket is 4, the
    signal pipe 5, the epoll instance 7.  A client comes and is told to the child,
    which accepts it; the parent gets a SIGTERM and passes it on; the child ends,
    is reaped, and the parent stops.  [script] are the parent's calls with their
    answers, each with what the others do before it is answered and the parent's
    own steps after that. *)

#[local] Instance call_eq_dec : EqDecision call.
Proof. solve_decision. Defined.

Definition wait_call : call := EpollWait 7 MAX_EVENT_NUMBER (-1).
Definition script : list (call * reply * list paction * list paction) :=
  [ (wait_call, ret_evs [(4, EPOLLIN)], [Arrive 9], [PPoll]);
    (Send 20 [1; 0; 0; 0] 0, ret_ok 4, [], [PNotify 4]);
    (wait_call, ret_evs [(5, EPOLLIN)], [KPoll 0 0; KRecv 0; KTake 0; TermParent], [PPoll]);
    (Recv 5 1024 0, ret_data [SIGTERM], [], [PSigRead; PSigNext]);
    (Kill 100 SIGTERM, ret_ok 0, [], [PKill; PKill; PSigNext]);
    (wait_call, ret_evs [(5, EPOLLIN)], [KPoll 0 0; KSignals 0; KExit 0; Deliver], [PPoll]);
    (Recv 5 1024 0, ret_data [SIGCHLD], [], [PSigRead; PSigNext]);
    (Waitpid (-1) WNOHANG, ret_ok 100, [], [PReap 0]);
    (Close 20, ret_ok 0, [], []);
    (Waitpid (-1) WNOHANG, ret_ok 0, [], [PReapEnd; PSigNext]) ].

Definition entry_event (e : call * reply * list paction * list paction) : event := (e.1.1.1, e.1.1.2).
Definition entry_acts (e : call * reply * list paction * list paction) : list paction := e.1.2 ++ e.2.

Definition script_env : Env := fun h c =>
  match script !! length h with
  | Some e => if decide (c = e.1.1.1) then Some e.1.1.2 else None
  | None => None
  end.

(** The system after [i] entries, and what others than the parent see of it. *)
Definition script_state (i : nat) : psys :=
  default (start 1) (run 8 (start 1) (concat (map entry_acts (take i script)))).
Definition shared (s : psys) :=
  (kids s, backlog s, chld s, dropped s, arrived s, accepted s, p_sigs (par s)).
Definition script_rel (s : psys) (h : list event) : Prop := exists i,
  (i <= 10)%nat /\ h = map entry_event (take i script) /\ shared s = shared (script_state i).

(** One entry: the others' actions, the answer, and the next state. *)
Ltac script_step acts serve i :=
  eexists _, _; split; [exists acts; split; [repeat (apply Forall_cons_2; [exact I|]); apply Forall_nil_2|reflexivity]|];
  split; [serve|exists i; split_and!; [lia|reflexivity|reflexivity]].
Ltac script_wait :=
  apply serves_wait; [reflexivity|reflexivity|];
  split_and!; [repeat constructor; set_solver|repeat constructor|];
  intros fd; cbn; rewrite list_elem_of_singleton; naive_solver.
Ltac script_recv := eapply serves_recv; [reflexivity..|]; repeat constructor.

Lemma script_answered :
  @answered script_env 8 7 4 5 (fun k => 100 + Z.of_nat k) (fun k => 20 + Z.of_nat k) script_rel.
Proof.
  split.
  - intros s p h (i & Hi & Hh & Hs) Hp. exists i. split_and!; [done|done|]. rewrite <- Hs.
    unfold shared. cbn. by rewrite Hp.
  - intros s h c r (i & Hi & -> & Hs) Hasks Hr.
    unfold env, script_env in Hr. rewrite length_map, length_take in Hr.
    destruct s as [ks [pc cn st li si sigs] bl ch dr ar ac]. unfold shared in Hs.
    cbn [kids backlog chld dropped arrived accepted par p_sigs] in Hs.
    destruct i as [|[|[|[|[|[|[|[|[|[|i]]]]]]]]]];
      [..|by replace i with 0%nat in Hr by lia];
      cbn in Hr; (case_decide as Hc; [|done]); injection Hr as <-; vm_compute in Hs;
      injection Hs as -> -> -> -> -> -> ->; subst c; inversion Hasks; cbn in *; subst.
    + script_step [Arrive 9] script_wait 1%nat.
    + assert (j = 0%nat) as -> by lia.
      script_step (@nil paction) ltac:(refine (serves_send 8 7 4 5 _ (fun k => 20 + Z.of_nat k) _ 0 4 _ _ _); reflexivity) 2%nat.
    + script_step [KPoll 0 0; KRecv 0; KTake 0; TermParent] script_wait 3%nat.
    + script_step (@nil paction) script_recv 4%nat.
    + assert (k = 0%nat) as -> by lia. script_step (@nil paction) ltac:(apply serves_kill; reflexivity) 5%nat.
    + script_step [KPoll 0 0; KSignals 0; KExit 0; Deliver] script_wait 6%nat.
    + script_step (@nil paction) script_recv 7%nat.
    + script_step (@nil paction) ltac:(refine (serves_reaped 8 7 4 5 (fun k => 100 + Z.of_nat k) _ _ 0 _ _ _ _); reflexivity) 8%nat.
    + script_step (@nil paction) ltac:(apply serves_close) 9%nat.
    + script_step (@nil paction) ltac:(apply serves_none; [done|reflexivity]) 10%nat.
Qed.

Definition script_pool : SrvProcessPool TestConn := mkPool (5, 6) 1 (-1) 7 4 false [mkProcess 100 (20, 0)] ∅.
Definition script_world : world (SrvProcessPool TestConn) := World script_pool 0 [] [].
Definition script_junk : list Z := replicate 1024 170.

(** The run ends by itself: the parent leaves its loop. *)
Lemma parent_loop_refines_witness :
  wp (while_ 5 (@parent_turn script_env TestConn script_junk 5) 0) (fun x w' => exists acts s',
    run 8 (start 1) acts = Some s' /\ script_rel s' (w_log w') /\
    match x with
    | Ok _ => same_state 7 4 5 (fun k => 100 + Z.of_nat k) (fun k => 20 + Z.of_nat k) s' (w_st w') /\
        ((exists s'', act 8 s' PExit = Some s'') \/
         exists h r, w_log w' = h ++ [(EpollWait 7 MAX_EVENT_NUMBER (-1), r)] /\ r_ret r < 0)
    | Stop h => h = HBlocked \/ h = HFuel
    end) script_world /\
  fst (while_ 5 (@parent_turn script_env TestConn script_junk 5) 0 script_world) = Ok tt.
Proof.
  split; [|by vm_compute].
  apply (@parent_loop_refines script_env TestConn _ 8 7 4 5 (fun k => 100 + Z.of_nat k)
    (fun k => 20 + Z.of_nat k) script_rel script_junk 5 1 script_world);
    [apply script_answered|done|intros k; lia|intros j k; lia|done| |].
  - exists 0%nat. split_and!; [lia|done|done].
  - split; [|done..|cbn; lia]. split; [split_and!; cbn; unfold MAX_PROCESS_NUMBER; lia|].
    intros [|k] b Hk; [|done]. by injection Hk as <-.
Defined.
