(* ===== verification/MultiConn.v ===== *)
(** * The multiplexing servers (server/include/multi_connection_server.hpp)

    One server, three event loops: select and poll, each with a table of slots
    for the connections, and epoll, whose reads run in a thread pool.  The loops
    are run to completion against the environment; the interleaving of the epoll
    server's threads is the subject of EpollThreads. *)

From S2P Require Import Prelude Sys CLib.

Definition SELECT_FDS_LEN : Z := 128.
Definition POLL_FDS_LEN : Z := 1024.
Definition EPOLL_FDS_LEN : Z := 1024.
(** The number of descriptors an [fd_set] has room for. *)
Definition FD_SETSIZE : Z := 1024.

Inductive MultiplexType := MT_SELECT | MT_POLL | MT_EPOLL.
Inductive EpollTriggerType := EP_LT | EP_ET.
#[export] Instance EpollTriggerType_eq_dec : EqDecision EpollTriggerType.
Proof. solve_decision. Defined.

(** The globals. *)
Record server := mkServer {
  running : bool;
  sig_pipe_fd : Z * Z;
  epfd : Z;
  ep_fds : gset Z;
}.
Definition server_init : server := mkServer true (0, 0) (-1) ∅.

Definition set_running v s := mkServer v (sig_pipe_fd s) (epfd s) (ep_fds s).
Definition set_sig_pipe v s := mkServer (running s) v (epfd s) (ep_fds s).
Definition set_epfd v s := mkServer (running s) (sig_pipe_fd s) v (ep_fds s).
Definition set_ep_fds v s := mkServer (running s) (sig_pipe_fd s) (epfd s) v.

Section common.
Context `{Env}.

Definition sig_handler (sig : Z) : M server unit :=
  save_errno ← get_errno;
  s ← get;
  when (negb (snd (sig_pipe_fd s) =? -1))
    (sys_ (Send (snd (sig_pipe_fd s)) [wrap_u 8 sig] 0);; mret tt);;
  set_errno save_errno.

Definition add_sig (sig : Z) : M server unit :=
  ret ← sys_ (Sigaction sig "sig_handler" SA_RESTART);
  assert_ (negb (ret =? -1)).

Definition set_no_blocking (cli_fd : Z) : M server unit :=
  old_op ← sys_ (FcntlGetfl cli_fd);
  sys_ (FcntlSetfl cli_fd (Z.lor old_op O_NONBLOCK));;
  mret tt.

Definition serv_accept (listen_fd : Z) : M server Z :=
  cli_fd ← sys_ (Accept listen_fd);
  if cli_fd <? 0 then mret (-1)
  else set_no_blocking cli_fd;; mret cli_fd.

Definition serv_read (cli_fd : Z) : M server Z :=
  n ← receive_message cli_fd;
  mret (wrap_s 32 n).

(** [ret == 0 || (ret < 0 && errno != EAGAIN && errno != EWOULDBLOCK)] *)
Definition gone (ret : Z) : M server bool :=
  e ← get_errno;
  mret ((ret =? 0) || ((ret <? 0) && negb (e =? EAGAIN) && negb (e =? EWOULDBLOCK))).

(** The first index at which a loop [for (i = 0; i < len; i++)] finds a free slot,
    or [len]. *)
Definition find_slot (len : Z) (slots : list Z) : M server Z :=
  for_ (range 0 len) (fun i _ =>
    fd ← index slots i;
    mret (if fd =? -1 then inr i else inl (i + 1))) 0.
End common.

(** ** select *)

Section select.
Context `{Env}.
Variables (fuel : nat) (listen_fd : Z).

(** [FD_SET] and [FD_ISSET]; a descriptor outside an [fd_set] is an access out of
    range. *)
Definition FD_SET (fd : Z) (rfds : list Z) : M server (list Z) :=
  if (0 <=? fd) && (fd <? FD_SETSIZE) then mret (rfds ++ [fd]) else stop HUB.
Definition FD_ISSET (fd : Z) (rfds : list Z) : M server bool :=
  if (0 <=? fd) && (fd <? FD_SETSIZE) then mret (bool_decide (fd ∈ rfds)) else stop HUB.

(** The loop that fills [rfds] and [maxfd]. *)
Definition set_rfds (fds : list Z) (maxfd : Z) : M server (list Z * Z) :=
  for_ (range 0 SELECT_FDS_LEN) (fun i '(rfds, maxfd) =>
    fd ← index fds i;
    if negb (fd =? -1) then
      rfds ← FD_SET fd rfds;
      mret (inl (rfds, Z.max fd maxfd))
    else mret (inl (rfds, maxfd))) ([], maxfd).

(** A new connection: it takes the first free slot, or is closed. *)
Definition select_accept (fds : list Z) : M server (list Z) :=
  cli_fd ← serv_accept listen_fd;
  if negb (-1 =? cli_fd) then
    i ← find_slot SELECT_FDS_LEN fds;
    if i =? SELECT_FDS_LEN then sys_ (Close cli_fd);; mret fds
    else mret (insertZ i cli_fd fds)
  else mret fds.

(** One turn of the loop over the client slots. *)
Definition select_client (rfds : list Z) (i : Z) (fds : list Z) : M server (list Z + list Z) :=
  fd ← index fds i;
  if negb (fd =? -1) then
    b ← FD_ISSET fd rfds;
    if b : bool then
      ret ← serv_read fd;
      g ← gone ret;
      if g : bool then sys_ (Close fd);; mret (inl (insertZ i (-1) fds))
      else mret (inl fds)
    else mret (inl fds)
  else mret (inl fds).

(** What follows a successful select. *)
Definition select_events (rfds fds : list Z) : M server (list Z) :=
  b ← FD_ISSET listen_fd rfds;
  fds ← (if b : bool then select_accept fds else mret fds);
  for_ (range 1 SELECT_FDS_LEN) (select_client rfds) fds.

Definition select_turn (st : list Z * Z) : M server (list Z * Z + unit) :=
  let '(fds, maxfd) := st in
  '(rfds, maxfd) ← set_rfds fds maxfd;
  r ← sys (Select (maxfd + 1) rfds 10);
  if r_ret r =? 0 then mret (inl (fds, maxfd))
  else if r_ret r =? -1 then stop (HExit 1)
  else
    fds ← select_events (r_data r) fds;
    mret (inl (fds, maxfd)).

Definition serv_select : M server unit :=
  let fds := insertZ 0 listen_fd (replicate (Z.to_nat SELECT_FDS_LEN) (-1)) in
  while_ fuel select_turn (fds, -1).
End select.

(** ** poll *)

Record pollfd := mkPollfd { pfd : Z; events : Z; revents : Z }.

Section poll.
Context `{Env}.
Variables (fuel : nat) (listen_fd : Z).

(** What the call leaves in the [revents] fields. *)
Definition set_revents (pfds : list pollfd) (res : list Z) : list pollfd :=
  zip_with (fun p r => mkPollfd (pfd p) (events p) r) pfds res.

Definition poll_accept (pfds : list pollfd) : M server (list pollfd) :=
  cli_fd ← serv_accept listen_fd;
  if negb (-1 =? cli_fd) then
    i ← find_slot POLL_FDS_LEN (map pfd pfds);
    if i =? POLL_FDS_LEN then mret pfds
    else
      p ← index pfds i;
      mret (insertZ i (mkPollfd cli_fd POLLIN (revents p)) pfds)
  else mret pfds.

Definition poll_client (i : Z) (pfds : list pollfd) : M server (list pollfd + list pollfd) :=
  p ← index pfds i;
  if negb (pfd p =? -1) && has_flag (revents p) POLLIN then
    ret ← serv_read (pfd p);
    g ← gone ret;
    if g : bool then
      sys_ (Close (pfd p));; mret (inl (insertZ i (mkPollfd (-1) (events p) (revents p)) pfds))
    else mret (inl pfds)
  else mret (inl pfds).

Definition poll_events (pfds : list pollfd) : M server (list pollfd) :=
  p0 ← index pfds 0;
  pfds ← (if has_flag (revents p0) POLLIN then poll_accept pfds else mret pfds);
  for_ (range 1 POLL_FDS_LEN) poll_client pfds.

Definition poll_turn (pfds : list pollfd) : M server (list pollfd + unit) :=
  r ← sys (Poll (map (fun p => (pfd p, events p)) pfds) 10000);
  if r_ret r =? 0 then mret (inl (set_revents pfds (r_data r)))
  else if r_ret r =? -1 then stop (HExit 1)
  else
    pfds ← poll_events (set_revents pfds (r_data r));
    mret (inl pfds).

(** [junk] stands for the fields left uninitialised. *)
Definition serv_poll (junk : Z) : M server unit :=
  let pfds := mkPollfd listen_fd POLLIN junk ::
    replicate (Z.to_nat (POLL_FDS_LEN - 1)) (mkPollfd (-1) junk junk) in
  while_ fuel poll_turn pfds.
End poll.

(** ** epoll *)

Section epoll.
Context `{Env}.
Variable fuel : nat.

(** The task that handles signals. *)
Definition ep_sig_turn (_ : unit) : M server (unit + unit) :=
  s ← get;
  '(n, sig) ← recv (fst (sig_pipe_fd s)) [0] 1 0;
  if n =? 1 then
    sig ← index sig 0;
    let sig := wrap_s 8 sig in
    when ((sig =? SIGTERM) || (sig =? SIGINT)) (modify (set_running false));;
    mret (inl tt)
  else mret (inr tt).

Definition ep_sig_worker_func : M server unit := while_ fuel ep_sig_turn tt.

Definition ep_accept_worker_func (listen_fd : Z) (trigger_type : EpollTriggerType) : M server unit :=
  cli_fd ← serv_accept listen_fd;
  if negb (-1 =? cli_fd) then
    s ← get;
    if Z.of_nat (size (ep_fds s)) <? EPOLL_FDS_LEN then
      let events := if decide (trigger_type = EP_ET) then Z.lor EPOLLIN EPOLLET else EPOLLIN in
      sys_ (EpollCtlAdd (epfd s) cli_fd events);;
      modify (fun s => set_ep_fds ({[cli_fd]} ∪ ep_fds s) s)
    else sys_ (Close cli_fd);; mret tt
  else mret tt.

(** The reading part of [ep_msg_worker_func]: [true] is the [goto CLOSE_FD] and
    [false] the [return]. *)
Definition ep_read_turn (cli_fd : Z) (_ : unit) : M server (unit + bool) :=
  ret ← serv_read cli_fd;
  if 0 <? ret then mret (inl tt)
  else if ret =? 0 then sys_ (Close cli_fd);; mret (inr true)
  else
    e ← get_errno;
    if (e =? EAGAIN) || (e =? EWOULDBLOCK) then mret (inr false)
    else sys_ (Close cli_fd);; mret (inr true).

Definition ep_read_lt (cli_fd : Z) : M server bool :=
  ret ← serv_read cli_fd;
  if ret =? 0 then sys_ (Close cli_fd);; mret true
  else if ret <? 0 then
    e ← get_errno;
    if (e =? EAGAIN) || (e =? EWOULDBLOCK) then mret false
    else sys_ (Close cli_fd);; mret true
  else mret false.

Definition ep_msg_worker_func (cli_fd : Z) (trigger_type : EpollTriggerType) : M server unit :=
  close_fd ← (if decide (trigger_type = EP_ET) then while_ fuel (ep_read_turn cli_fd) tt
              else ep_read_lt cli_fd);
  if close_fd : bool then
    s ← get;
    sys_ (EpollCtlDel (epfd s) cli_fd);;
    modify (fun s => set_ep_fds (ep_fds s ∖ {[cli_fd]}) s)
  else mret tt.

(** The number that stands for a trigger type in the arguments of a task. *)
Definition trigger_num (t : EpollTriggerType) : Z := match t with EP_LT => 0 | EP_ET => 1 end.

Definition epoll_event (listen_fd : Z) (trigger_type : EpollTriggerType) (ev : Z * Z) : M server unit :=
  let '(fd, evs) := ev in
  s ← get;
  if (fd =? listen_fd) && has_flag evs EPOLLIN then ep_accept_worker_func listen_fd trigger_type
  else if (fd =? fst (sig_pipe_fd s)) && has_flag evs EPOLLIN then
    sys_ (PoolDispatch "ep_sig_worker_func" []);; mret tt
  else if negb (fd =? -1) && has_flag evs EPOLLIN then
    sys_ (PoolDispatch "ep_msg_worker_func" [fd; trigger_num trigger_type]);; mret tt
  else mret tt.

(** One turn of [while (running)]; [background] is what the tasks of the pool do
    to the shared state in the meantime, taken to happen when the wait is over and
    the lock released. *)
Definition epoll_turn (background : M server unit) (listen_fd : Z) (trigger_type : EpollTriggerType)
    (_ : unit) : M server (unit + unit) :=
  s ← get;
  if running s then
    r ← sys (EpollWait (epfd s) EPOLL_FDS_LEN 5000);
    background;;
    if r_ret r =? 0 then mret (inl tt)
    else if r_ret r =? -1 then stop (HExit 1)
    else
      for_each (range 0 (r_ret r)) (fun i =>
        ev ← index (r_evs r) i; epoll_event listen_fd trigger_type ev);;
      mret (inl tt)
  else mret (inr tt).

(** The end of [serv_epoll]; the order in which an [unordered_set] is iterated
    is not specified. *)
Definition epoll_shutdown : M server unit :=
  s ← get;
  for_each (elements (ep_fds s)) (fun fd => sys_ (Close fd);; mret tt);;
  sys_ (Close (snd (sig_pipe_fd s)));;
  stop (HExit 0).

Definition serv_epoll (background : M server unit) (listen_fd : Z)
    (trigger_type : EpollTriggerType) : M server unit :=
  ep ← sys_ (EpollCreate EPOLL_FDS_LEN);
  modify (set_epfd ep);;
  s ← get;
  let sig_fd := fst (sig_pipe_fd s) in
  sys_ (EpollCtlAdd ep listen_fd EPOLLIN);;
  sys_ (EpollCtlAdd ep sig_fd EPOLLIN);;
  modify (fun s => set_ep_fds ({[sig_fd]} ∪ ({[listen_fd]} ∪ ep_fds s)) s);;
  concur_count ← sys_ HardwareConcurrency;
  sys_ (PoolNew concur_count);;
  while_ fuel (epoll_turn background listen_fd trigger_type) tt;;
  epoll_shutdown.
End epoll.

Definition start_multi_con_server `{Env, InetPton} (fuel : nat) (junk : Z)
    (background : M server unit) (ip : string) (port : Z)
    (multiplex_type : MultiplexType) (trigger_type : EpollTriggerType) : M server unit :=
  r ← sys (SocketPair AF_UNIX SOCK_STREAM 0);
  s ← get;
  let '(fd0, fd1) := match r_data r with [a; b] => (a, b) | _ => sig_pipe_fd s end in
  modify (set_sig_pipe (fd0, fd1));;
  set_no_blocking fd0;;
  set_no_blocking fd1;;
  for_each [SIGTERM; SIGINT; SIGPIPE; SIGURG; SIGALRM] add_sig;;
  let srv_addr := sockaddr_in ip port in
  srv_fd ← sys_ (Socket AF_INET SOCK_STREAM 0);
  assert_ (0 <=? srv_fd);;
  sys_ (SetSockOpt srv_fd SOL_SOCKET SO_REUSEADDR 1);;
  ret ← sys_ (Bind srv_fd srv_addr);
  assert_ (negb (ret =? -1));;
  ret ← sys_ (Listen srv_fd 1024);
  assert_ (negb (ret =? -1));;
  match multiplex_type with
  | MT_SELECT => serv_select fuel srv_fd
  | MT_POLL => serv_poll fuel srv_fd junk
  | MT_EPOLL => serv_epoll fuel background srv_fd trigger_type
  end.

(** ** Tables of slots *)

(** The connections in a table: the used slots after the first, which is the
    listening socket's. *)
Definition used (fd : Z) : bool := negb (fd =? -1).
Definition clients (slots : list Z) : list Z := List.filter used (drop 1 slots).

Lemma filter_insert {A} (f : A -> bool) l i x y : l !! i = Some x ->
  (if f x then [x] else []) ++ List.filter f (<[i := y]> l) ≡ₚ
  (if f y then [y] else []) ++ List.filter f l.
Proof.
  revert i. induction l as [|z l IH]; intros [|i] Hi; simplify_eq/=.
  - destruct (f x), (f y); simpl; [apply Permutation_swap|done..].
  - specialize (IH _ Hi). destruct (f z); [|done].
    rewrite <- !Permutation_middle. by rewrite IH.
Qed.

Lemma clients_insert slots i x y : 0 < i -> lookupZ slots i = Some x ->
  (if used x then [x] else []) ++ clients (insertZ i y slots) ≡ₚ
  (if used y then [y] else []) ++ clients slots.
Proof.
  intros Hi [_ Hl]%lookupZ_Some. unfold clients, insertZ. rewrite bool_decide_eq_true_2 by lia.
  destruct (Z.to_nat i) as [|j] eqn:Hj; [lia|]. destruct slots as [|s slots]; [done|]. simpl in *.
  rewrite !skipn_O. by apply filter_insert.
Qed.

Lemma length_clients slots :
  length (clients slots) = countb used (drop 1 slots).
Proof.
  unfold clients. induction (drop 1 slots) as [|x l IH]; [done|].
  simpl. destruct (used x); simpl; by rewrite IH.
Qed.

(** ** What the clients of the poll server see of its table

    An abstract table: how many connections it holds, and those that came when
    it held as many as there is room for next to the listening socket.  A
    connection arrives when it is accepted and leaves when it is closed. *)

Definition arrive (fd : Z) (t : Z * list Z) : Z * list Z :=
  if POLL_FDS_LEN - 1 <=? fst t then (fst t, snd t ++ [fd]) else (fst t + 1, snd t).
Definition leave (t : Z * list Z) : Z * list Z := (fst t - 1, snd t).
Definition observe (t : Z * list Z) (e : event) : Z * list Z :=
  match accept_of e, close_of (fst e) with
  | Some fd, _ => arrive fd t
  | None, Some _ => leave t
  | None, None => t
  end.
Definition table_of (L : list event) : Z * list Z := fold_left observe L (0, []).

Lemma table_of_app L L' : table_of (L ++ L') = fold_left observe L' (table_of L).
Proof. apply fold_left_app. Qed.
#[export] Hint Rewrite table_of_app : server.

Lemma table_of_quiet L : accepts L = [] -> closed L = [] -> table_of L = (0, []).
Proof.
  induction L as [|e L IH] using rev_ind; [done|]. autorewrite with server.
  intros [Ha1 Ha2]%app_nil [Hc1 Hc2]%app_nil. rewrite IH by done. cbn in *. unfold observe.
  by destruct (accept_of e), (close_of (fst e)).
Qed.

(** While no more connections were ever accepted than there is room for, none
    came to a full table. *)
Lemma table_of_small L : Z.of_nat (length (accepts L)) < POLL_FDS_LEN ->
  fst (table_of L) <= Z.of_nat (length (accepts L)) /\ snd (table_of L) = [].
Proof.
  induction L as [|e L IH] using rev_ind; [done|]. autorewrite with server. cbn [fold_left].
  unfold accepts at 2 4, observe. simpl. intros Hsmall.
  destruct (accept_of e) as [fd|] eqn:Ea; simpl in *.
  - destruct IH as [IHn IHl]; [lia|]. unfold arrive. rewrite IHl.
    rewrite (proj2 (Z.leb_gt _ _)) by lia. simpl. split; [lia|done].
  - destruct IH as [IHn IHl]; [lia|]. destruct (close_of _); simpl; split; try done; lia.
Qed.

Section slots.
Context `{Env}.
Implicit Types w : world server.

(** Every slot before [i] is in use. *)
Definition busy_upto (i : Z) (slots : list Z) : Prop :=
  forall j fd, 0 <= j < i -> lookupZ slots j = Some fd -> fd <> -1.

Lemma find_slot_wp slots (Q : res Z -> world server -> Prop) w :
  (forall i, 0 <= i <= Z.of_nat (length slots) -> busy_upto i slots ->
    (i < Z.of_nat (length slots) -> lookupZ slots i = Some (-1)) -> Q (Ok i) w) ->
  wp (find_slot (Z.of_nat (length slots)) slots) Q w.
Proof.
  intros HQ. unfold find_slot.
  apply (wp_for_range (fun i i' w' => i' = i /\ w' = w /\ busy_upto i slots)); [lia| | |].
  - intros i w' (-> & -> & Hb). apply HQ; [lia|done|lia].
  - intros i i' w' Hi (-> & -> & Hb). wp_step. apply wp_index; [|rewrite lookupZ_None; lia].
    intros fd Hfd. cbn [bind_post]. destruct (Z.eqb_spec fd (-1)) as [->|Hne]; wp_step.
    + apply HQ; [lia|done|done].
    + split_and!; [done|done|]. intros j fd' Hj Hfd'. destruct (decide (j = i)) as [->|]; [congruence|].
      eapply Hb; [|done]. lia.
  - split_and!; [done|done|]. intros j fd Hj. lia.
Qed.

Lemma serv_accept_wp listen_fd (Q : res Z -> world server -> Prop) w :
  returns ->
  (forall w', w_st w' = w_st w -> closed (w_log w') = closed (w_log w) ->
    accepts (w_log w') = accepts (w_log w) -> table_of (w_log w') = table_of (w_log w) ->
    Q (Ok (-1)) w') ->
  (forall fd w', 0 <= fd -> w_st w' = w_st w -> closed (w_log w') = closed (w_log w) ->
    accepts (w_log w') = accepts (w_log w) ++ [fd] ->
    table_of (w_log w') = arrive fd (table_of (w_log w)) -> Q (Ok fd) w') ->
  wp (serv_accept listen_fd) Q w.
Proof.
  intros Hret Hfail Hok. unfold serv_accept, set_no_blocking. wp_steps_ret Hret.
  destruct (Z.ltb_spec (r_ret r) 0) as [Hneg|Hpos].
  - wp_step. apply Hfail; simpl; autorewrite with server; rewrite ?app_nil_r; [done|done|..];
      cbn; unfold observe; cbn; rewrite (proj2 (Z.leb_gt _ _)) by done; by rewrite ?app_nil_r.
  - wp_steps_ret Hret. apply Hok; simpl; autorewrite with server; rewrite ?app_nil_r; [done..| |];
      cbn; unfold observe; cbn; by rewrite (proj2 (Z.leb_le _ _)) by done.
Qed.

Lemma serv_read_wp fd (Q : res Z -> world server -> Prop) w :
  returns -> recv_contract ->
  (forall r w', env (w_log w) (Recv fd (BUF_SIZE - 1) 0) = Some r -> -1 <= r_ret r < BUF_SIZE ->
    w_st w' = w_st w -> w_log w' = w_log w ++ [(Recv fd (BUF_SIZE - 1) 0, r)] ->
    w_out w' = w_out w ++ message_out fd r ->
    w_errno w' = (if r_ret r <? 0 then r_errno r else w_errno w) -> Q (Ok (r_ret r)) w') ->
  wp (serv_read fd) Q w.
Proof.
  intros Hret Hrecv HQ. unfold serv_read. wp_step.
  destruct (Hret (w_log w) (Recv fd (BUF_SIZE - 1) 0)) as [r Hr].
  destruct (Hrecv _ _ _ _ _ Hr ltac:(done)) as [Hle _].
  apply (receive_message_wp _ r); [done|done|]. intros w' Hst Hlog Hout He. cbn [bind_post]. wp_step.
  unfold BUF_SIZE in Hle. rewrite wrap_s32_id by lia. apply HQ; unfold BUF_SIZE; try done; lia.
Qed.
End slots.

(** ** The select server *)

Section select_props.
Context `{Env}.
Implicit Types w : world server.

(** The table of a running server: every connection ever accepted is in exactly
    one slot, has been closed exactly once, or is one of [ex]. *)
Definition accounted (ex slots : list Z) w : Prop :=
  accepts (w_log w) ≡ₚ clients slots ++ closed (w_log w) ++ ex.
Definition select_inv (listen_fd : Z) (fds : list Z) w : Prop :=
  Z.of_nat (length fds) = SELECT_FDS_LEN /\ lookupZ fds 0 = Some listen_fd /\ accounted [] fds w.

(** Code that keeps the table accounted for, also where it stops. *)
Definition select_post (listen_fd : Z) (r : res (list Z)) w : Prop :=
  match r with
  | Ok fds => select_inv listen_fd fds w
  | Stop _ => exists fds, select_inv listen_fd fds w
  end.

Lemma accounted_place ex slots w w' i fd : 0 < i -> lookupZ slots i = Some (-1) -> 0 <= fd ->
  accounted ex slots w -> accepts (w_log w') = accepts (w_log w) ++ [fd] ->
  closed (w_log w') = closed (w_log w) -> accounted ex (insertZ i fd slots) w'.
Proof.
  intros Hi Hl Hfd Hacc Ha Hc. unfold accounted in *. rewrite Ha, Hc, Hacc.
  pose proof (clients_insert _ _ _ fd Hi Hl) as Hp.
  assert (used fd = true) as Hu by (unfold used; lia). rewrite Hu in Hp. simpl in Hp.
  by rewrite Hp, <- Permutation_cons_append.
Qed.

Lemma accounted_close ex slots w w' fd :
  accounted ex slots w -> accepts (w_log w') = accepts (w_log w) ++ [fd] ->
  closed (w_log w') = closed (w_log w) ++ [fd] -> accounted ex slots w'.
Proof.
  intros Hacc Ha Hc. unfold accounted in *. rewrite Ha, Hc, Hacc, <- Permutation_cons_append.
  rewrite <- (app_assoc (closed _)). simpl. by rewrite <- !Permutation_middle.
Qed.

(** The connection came to a full table. *)
Lemma accounted_extra ex slots w w' fd :
  accounted ex slots w -> accepts (w_log w') = accepts (w_log w) ++ [fd] ->
  closed (w_log w') = closed (w_log w) -> accounted (ex ++ [fd]) slots w'.
Proof. intros Hacc Ha Hc. unfold accounted in *. by rewrite Ha, Hc, Hacc, !app_assoc. Qed.

Lemma accounted_clear ex slots w w' i fd : 0 < i -> lookupZ slots i = Some fd -> fd <> -1 ->
  accounted ex slots w -> accepts (w_log w') = accepts (w_log w) ->
  closed (w_log w') = closed (w_log w) ++ [fd] -> accounted ex (insertZ i (-1) slots) w'.
Proof.
  intros Hi Hl Hfd Hacc Ha Hc. unfold accounted in *. rewrite Ha, Hc, Hacc.
  pose proof (clients_insert _ _ _ (-1) Hi Hl) as Hp.
  assert (used fd = true) as Hu by (unfold used; lia). rewrite Hu in Hp. simpl in Hp.
  rewrite <- Hp, <- (app_assoc (closed _)). simpl. by rewrite <- !Permutation_middle.
Qed.

Lemma accounted_same ex slots w w' : accounted ex slots w ->
  accepts (w_log w') = accepts (w_log w) -> closed (w_log w') = closed (w_log w) ->
  accounted ex slots w'.
Proof. intros Hacc Ha Hc. unfold accounted in *. by rewrite Ha, Hc. Qed.

Lemma select_inv_same l fds w w' : select_inv l fds w ->
  accepts (w_log w') = accepts (w_log w) -> closed (w_log w') = closed (w_log w) -> select_inv l fds w'.
Proof. intros (? & ? & ?) ??. split_and!; [done|done|by eapply accounted_same]. Qed.

Lemma select_accept_wp l fds w : returns -> l <> -1 -> select_inv l fds w ->
  wp (select_accept l fds) (select_post l) w.
Proof.
  intros Hret Hl Hinv. pose proof Hinv as (Hlen & H0 & Hacc). unfold select_accept. apply wp_bind.
  apply serv_accept_wp; [done| |].
  - intros w' _ Hc Ha _. cbn [bind_post]. simpl. wp_step. by eapply select_inv_same.
  - intros fd w' Hfd _ Hc Ha _. cbn [bind_post]. destruct (Z.eqb_spec (-1) fd); [lia|]. simpl.
    wp_step. rewrite <- Hlen. apply find_slot_wp. intros i Hi Hb Hfree. cbn [bind_post].
    destruct (Z.eqb_spec i (Z.of_nat (length fds))) as [->|Hne].
    + wp_steps_ret Hret. split_and!; [done|done|]. eapply (accounted_close _ _ w _ fd); [done|..]; simpl;
        autorewrite with server; rewrite ?Ha, ?Hc; cbn; by rewrite ?app_nil_r.
    + wp_step. specialize (Hfree ltac:(lia)).
      assert (0 < i). { destruct (decide (i = 0)) as [->|]; [congruence|lia]. }
      split_and!; [by rewrite length_insertZ|by rewrite lookupZ_insertZ_ne by lia|].
      by eapply (accounted_place _ _ w _ i).
Qed.

Lemma select_client_wp l rfds i fds w : returns -> recv_contract -> 0 < i < SELECT_FDS_LEN ->
  select_inv l fds w ->
  wp (select_client rfds i fds) (fun r w' => match r with
    | Ok (inl fds') => select_inv l fds' w'
    | Ok (inr _) => False
    | Stop _ => exists fds', select_inv l fds' w'
    end) w.
Proof.
  intros Hret Hrecv Hi Hinv. pose proof Hinv as (Hlen & H0 & Hacc). unfold select_client. wp_step.
  apply wp_index; [|rewrite lookupZ_None; lia]. intros fd Hfd. cbn [bind_post].
  destruct (Z.eqb_spec fd (-1)) as [->|Hne]; simpl; [by wp_step|]. wp_step.
  unfold FD_ISSET. destruct (_ && _); [|wp_step; by eexists]. wp_step.
  case_bool_decide; [|by wp_step]. wp_step. apply serv_read_wp; [done|done|].
  intros r w' Hr Hle Hst Hlog _ _. cbn [bind_post]. unfold gone. wp_steps.
  assert (Hsame : accepts (w_log w') = accepts (w_log w) /\ closed (w_log w') = closed (w_log w)).
  { rewrite Hlog. autorewrite with server. cbn. by rewrite !app_nil_r. }
  destruct Hsame as [Ha Hc]. case_match; wp_steps_ret Hret; [|by eapply select_inv_same].
  split_and!; [by rewrite length_insertZ|by rewrite lookupZ_insertZ_ne by lia|].
  eapply (accounted_clear _ _ w _ i fd); [lia|done|done|done|..]; simpl; autorewrite with server;
    rewrite ?Ha, ?Hc; cbn; by rewrite ?app_nil_r.
Qed.

Lemma select_turn_wp l fds maxfd w : returns -> recv_contract -> l <> -1 -> select_inv l fds w ->
  wp (select_turn l (fds, maxfd)) (fun r w' => match r with
    | Ok (inl (fds', _)) => select_inv l fds' w'
    | Ok (inr _) => False
    | Stop _ => exists fds', select_inv l fds' w'
    end) w.
Proof.
  intros Hret Hrecv Hl Hinv. pose proof Hinv as (Hlen & H0 & Hacc). unfold select_turn, set_rfds. wp_step.
  apply (wp_for_range (fun _ _ w' => w' = w)); [done| | |done].
  - intros [rfds maxfd'] w' ->. cbn [bind_post]. wp_step. wp_step_ret Hret.
    assert (Hinv1 : select_inv l fds (after (Select (maxfd' + 1) rfds 10) r w)).
    { eapply select_inv_same; [done|..]; simpl; autorewrite with server; cbn; by rewrite app_nil_r. }
    destruct (r_ret r =? 0); [by wp_step|]. destruct (r_ret r =? -1); [wp_step; by eexists|].
    unfold select_events. wp_step. wp_step. unfold FD_ISSET.
    destruct (_ && _); [|wp_step; by eexists]. wp_step. wp_step.
    eapply (wp_mono _ (select_post l)); [case_bool_decide; [by apply select_accept_wp|by wp_step]|].
    intros [fds1|h] w1 Hinv2; cbn [bind_post]; [|done].
    apply (wp_for_range (fun _ fds' w' => select_inv l fds' w')); [done|..|done].
    + intros fds' w' Hinv'. by wp_steps.
    + intros i fds' w' Hi Hinv'. eapply wp_mono; [apply (select_client_wp l); [done|done|lia|done]|].
      by intros [[fds''|?]|h] w''.
  - intros i [rfds m] w' Hi ->. unfold FD_SET. wp_step. apply wp_index; [|intros; by eexists].
    intros fd Hfd. cbn [bind_post]. destruct (negb _); [|by wp_step].
    destruct (_ && _); wp_steps; [done|by eexists].
Qed.

(** C11. No connection is lost by the select server: from its start on, however long
    it runs and however it ends, every connection accepted is in exactly one slot
    of the table or has been closed exactly once - also when the table is full -
    and the loop itself never ends normally. *)
Theorem serv_select_accounts fuel listen_fd w :
  returns -> recv_contract -> listen_fd <> -1 ->
  accepts (w_log w) = [] -> closed (w_log w) = [] ->
  wp (serv_select fuel listen_fd) (fun r w' => (forall x, r <> Ok x) /\
    exists fds, Z.of_nat (length fds) = SELECT_FDS_LEN /\ lookupZ fds 0 = Some listen_fd /\
      accepts (w_log w') ≡ₚ clients fds ++ closed (w_log w')) w.
Proof.
  intros Hret Hrecv Hl Ha Hc. unfold serv_select.
  apply (wp_while (fun st w' => select_inv listen_fd (fst st) w')).
  - intros [fds m] w' (? & ? & Hacc). split; [done|]. exists fds.
    split_and!; [done|done|]. unfold accounted in Hacc. by rewrite app_nil_r in Hacc.
  - intros [fds m] w' Hinv. eapply wp_mono; [by apply select_turn_wp|].
    intros [[[fds' m']|x]|h] w''; [done|done|]. intros (fds' & ? & ? & Hacc).
    split; [done|]. exists fds'. split_and!; [done|done|].
    unfold accounted in Hacc. by rewrite app_nil_r in Hacc.
  - split_and!; [done|done|]. unfold accounted. rewrite Ha, Hc, app_nil_r. by vm_compute.
Qed.

(** A descriptor that an [fd_set] has no room for (the limit on open files is
    4096 by default) gets into the table like any other; with one there, the next
    turn of the loop writes out of range. *)
Theorem select_fd_overflow listen_fd fds maxfd i fd w :
  Z.of_nat (length fds) = SELECT_FDS_LEN -> lookupZ fds i = Some fd -> FD_SETSIZE <= fd ->
  wp (select_turn listen_fd (fds, maxfd)) (fun r w' => r = Stop HUB /\ w' = w) w.
Proof.
  intros Hlen Hfd Hbig. unfold select_turn, set_rfds. wp_step.
  assert (Hi : 0 <= i < SELECT_FDS_LEN) by (rewrite <- Hlen; apply lookupZ_is_Some; by eexists).
  apply (wp_for_range (fun k _ w' => w' = w /\ k <= i)); [done| | |split; [done|lia]].
  - intros ? ? [_ Hk]. lia.
  - intros k [rfds m] w' Hk [-> Hki]. unfold FD_SET. wp_step. apply wp_index; [|rewrite lookupZ_None; lia].
    intros fd' Hfd'. cbn [bind_post]. destruct (decide (k = i)) as [->|Hne].
    + simplify_eq. unfold FD_SETSIZE in *. rewrite (proj2 (Z.eqb_neq _ _)) by lia. simpl.
      rewrite (proj2 (Z.ltb_ge fd _)), andb_false_r by lia. by wp_steps.
    + destruct (negb _); [|wp_step; split; [done|lia]].
      destruct (_ && _); wp_steps; [split; [done|lia]|done].
Qed.
End select_props.

(** ** The poll server *)

Lemma map_pfd_insertZ i p pfds : map pfd (insertZ i p pfds) = insertZ i (pfd p) (map pfd pfds).
Proof. unfold insertZ. case_bool_decide; [apply list_fmap_insert|done]. Qed.

Lemma map_pfd_revents pfds res : length res = length pfds ->
  map pfd (set_revents pfds res) = map pfd pfds.
Proof.
  unfold set_revents. revert res. induction pfds as [|p l IH]; intros [|r res] Hl; simplify_eq/=; [done|].
  f_equal. by apply IH.
Qed.

Lemma lookupZ_pfd pfds i p : lookupZ pfds i = Some p -> lookupZ (map pfd pfds) i = Some (pfd p).
Proof.
  unfold lookupZ. case_bool_decide; [|done]. intros Hp. by apply list_lookup_fmap_Some; exists p.
Qed.

(** poll(2) fills in the [revents] of every entry. *)
Definition poll_contract `{Env} : Prop :=
  forall h pfds t r, env h (Poll pfds t) = Some r -> length (r_data r) = length pfds.

Section poll_props.
Context `{Env}.
Implicit Types w : world server.

(** The table of the code holds what the abstract one says: so many
    connections, and none of those that came to a full table. *)
Definition poll_inv (listen_fd : Z) (pfds : list pollfd) w : Prop :=
  Z.of_nat (length pfds) = POLL_FDS_LEN /\ lookupZ (map pfd pfds) 0 = Some listen_fd /\
  accounted (snd (table_of (w_log w))) (map pfd pfds) w /\
  fst (table_of (w_log w)) = Z.of_nat (length (clients (map pfd pfds))).

Definition poll_post (listen_fd : Z) (r : res (list pollfd)) w : Prop :=
  match r with
  | Ok pfds => poll_inv listen_fd pfds w
  | Stop _ => exists pfds, poll_inv listen_fd pfds w
  end.

Lemma poll_inv_same l pfds w w' : poll_inv l pfds w ->
  accepts (w_log w') = accepts (w_log w) -> closed (w_log w') = closed (w_log w) ->
  table_of (w_log w') = table_of (w_log w) -> poll_inv l pfds w'.
Proof.
  intros (? & ? & ? & ?) Ha Hc Ht. split_and!; [done|done| |by rewrite Ht].
  rewrite Ht. by eapply accounted_same.
Qed.

(** A table is full when it holds a connection in every slot but the first. *)
Lemma busy_full slots : Z.of_nat (length slots) = POLL_FDS_LEN -> busy_upto POLL_FDS_LEN slots ->
  Z.of_nat (length (clients slots)) = POLL_FDS_LEN - 1.
Proof.
  intros Hlen Hb. rewrite length_clients, countb_full, length_drop; [unfold POLL_FDS_LEN in *; lia|].
  intros i fd Hi. rewrite lookup_drop in Hi. unfold used.
  assert (fd <> -1); [|lia]. apply (Hb (Z.of_nat (1 + i))); [|by rewrite lookupZ_of_nat].
  apply lookup_lt_Some in Hi. lia.
Qed.

Lemma free_not_full slots i : Z.of_nat (length slots) = POLL_FDS_LEN -> 0 < i ->
  lookupZ slots i = Some (-1) -> Z.of_nat (length (clients slots)) < POLL_FDS_LEN - 1.
Proof.
  intros Hlen Hi [_ Hl]%lookupZ_Some. rewrite length_clients.
  assert (Hd : drop 1 slots !! (Z.to_nat i - 1)%nat = Some (-1)).
  { rewrite lookup_drop. by replace (1 + (Z.to_nat i - 1))%nat with (Z.to_nat i) by lia. }
  pose proof (countb_lt used _ _ _ Hd eq_refl) as Hlt. rewrite length_drop in Hlt. lia.
Qed.

(** A new connection takes the first free slot; with none it is dropped. *)
Lemma poll_accept_wp l pfds w (Q : res (list pollfd) -> world server -> Prop) :
  returns -> Z.of_nat (length pfds) = POLL_FDS_LEN ->
  (forall w', accepts (w_log w') = accepts (w_log w) -> closed (w_log w') = closed (w_log w) ->
    table_of (w_log w') = table_of (w_log w) -> Q (Ok pfds) w') ->
  (forall fd w', 0 <= fd -> accepts (w_log w') = accepts (w_log w) ++ [fd] ->
    closed (w_log w') = closed (w_log w) ->
    table_of (w_log w') = arrive fd (table_of (w_log w)) ->
    (busy_upto POLL_FDS_LEN (map pfd pfds) -> Q (Ok pfds) w') /\
    (forall i p, busy_upto i (map pfd pfds) -> lookupZ pfds i = Some p -> pfd p = -1 ->
       Q (Ok (insertZ i (mkPollfd fd POLLIN (revents p)) pfds)) w')) ->
  wp (poll_accept l pfds) Q w.
Proof.
  intros Hret Hlen Hfail Hacc. unfold poll_accept. apply wp_bind. apply serv_accept_wp; [done| |].
  - intros w' _ Hc Ha Ht. cbn [bind_post]. simpl. wp_step. by apply Hfail.
  - intros fd w' Hfd _ Hc Ha Ht. cbn [bind_post]. destruct (Z.eqb_spec (-1) fd); [lia|]. cbn [negb].
    destruct (Hacc fd w' Hfd Ha Hc Ht) as [Hfull Hplace].
    assert (Hlm : Z.of_nat (length (map pfd pfds)) = POLL_FDS_LEN) by (by rewrite length_map).
    apply wp_bind. rewrite <- Hlm at 1. apply find_slot_wp. intros i Hi Hb Hfree. cbn [bind_post].
    rewrite Hlm in Hi, Hfree. destruct (Z.eqb_spec i POLL_FDS_LEN) as [->|Hne]; [wp_step; by apply Hfull|].
    wp_step. apply wp_index; [|rewrite lookupZ_None; lia]. intros p Hp. cbn [bind_post]. wp_step.
    apply Hplace; [done|done|]. specialize (Hfree ltac:(lia)). apply lookupZ_pfd in Hp. congruence.
Qed.

(** A full table: when every slot of the poll server is in use, a connection
    that is accepted is put in no slot and is not closed either - although the
    message says it is disconnected - so nothing will ever read or close it. *)
Theorem poll_accept_full_leaks l pfds w :
  returns -> Z.of_nat (length pfds) = POLL_FDS_LEN -> busy_upto POLL_FDS_LEN (map pfd pfds) ->
  wp (poll_accept l pfds) (fun r w' => r = Ok pfds /\ closed (w_log w') = closed (w_log w) /\
    (accepts (w_log w') = accepts (w_log w) \/
     exists fd, 0 <= fd /\ accepts (w_log w') = accepts (w_log w) ++ [fd])) w.
Proof.
  intros Hret Hlen Hbusy. apply poll_accept_wp; [done|done|by auto|].
  intros fd w' Hfd Ha Hc _. split; [by eauto 10|]. intros i p _ Hp Hfree. exfalso.
  assert (0 <= i < POLL_FDS_LEN) by (rewrite <- Hlen; apply lookupZ_is_Some; by eexists).
  apply lookupZ_pfd in Hp. by apply (Hbusy _ _ H0 Hp).
Qed.

(** Filling a free slot and emptying a used one. *)
Lemma poll_inv_place l pfds w w' i p fd : l <> -1 -> lookupZ pfds i = Some p -> pfd p = -1 ->
  0 <= fd -> poll_inv l pfds w ->
  accepts (w_log w') = accepts (w_log w) ++ [fd] -> closed (w_log w') = closed (w_log w) ->
  table_of (w_log w') = arrive fd (table_of (w_log w)) ->
  poll_inv l (insertZ i (mkPollfd fd POLLIN (revents p)) pfds) w'.
Proof.
  intros Hl Hp Hfree Hfd (Hlen & H0 & Hacc & Hn) Ha Hc Ht. apply lookupZ_pfd in Hp. rewrite Hfree in Hp.
  assert (0 < i). { apply lookupZ_Some in Hp as Hi. destruct (decide (i = 0)) as [->|]; [congruence|lia]. }
  pose proof (free_not_full _ _ ltac:(by rewrite length_map) ltac:(done) Hp) as Hlt.
  unfold arrive in Ht. rewrite (proj2 (Z.leb_gt _ _)) in Ht by lia.
  pose proof (Permutation_length (clients_insert _ _ _ fd ltac:(done) Hp)) as Hcl.
  assert (used fd = true) as Hu by (unfold used; lia). rewrite Hu in Hcl. simpl in Hcl.
  split_and!; [by rewrite length_insertZ|rewrite map_pfd_insertZ..]; simpl.
  - by rewrite lookupZ_insertZ_ne by lia.
  - rewrite Ht. by eapply (accounted_place _ _ w _ i).
  - rewrite Ht, Hcl. simpl. lia.
Qed.

Lemma poll_inv_clear l pfds w w' i p : 0 < i -> lookupZ pfds i = Some p -> pfd p <> -1 ->
  poll_inv l pfds w ->
  accepts (w_log w') = accepts (w_log w) -> closed (w_log w') = closed (w_log w) ++ [pfd p] ->
  table_of (w_log w') = leave (table_of (w_log w)) ->
  poll_inv l (insertZ i (mkPollfd (-1) (events p) (revents p)) pfds) w'.
Proof.
  intros Hi Hp Hne (Hlen & H0 & Hacc & Hn) Ha Hc Ht. apply lookupZ_pfd in Hp.
  pose proof (Permutation_length (clients_insert _ _ _ (-1) Hi Hp)) as Hcl.
  assert (used (pfd p) = true) as Hu by (unfold used; lia). rewrite Hu in Hcl. simpl in Hcl.
  split_and!; [by rewrite length_insertZ|rewrite map_pfd_insertZ..]; simpl.
  - by rewrite lookupZ_insertZ_ne by lia.
  - rewrite Ht. by eapply (accounted_clear _ _ w _ i (pfd p)).
  - rewrite Ht. simpl. rewrite Hn, <- Hcl. lia.
Qed.

(** Accepting keeps the table as the abstract one: a connection that comes to
    a full table is put nowhere, and any other in the first free slot. *)
Lemma poll_accept_inv l pfds w : returns -> l <> -1 -> poll_inv l pfds w ->
  wp (poll_accept l pfds) (poll_post l) w.
Proof.
  intros Hret Hl Hinv. pose proof Hinv as (Hlen & H0 & Hacc & Hn).
  apply poll_accept_wp; [done|done| |].
  - intros w' Ha Hc Ht. by eapply poll_inv_same.
  - intros fd w' Hfd Ha Hc Ht. split.
    + intros Hb. unfold arrive in Ht.
      rewrite Hn, (busy_full (map pfd pfds)), Z.leb_refl in Ht by (by rewrite ?length_map).
      split_and!; [done|done| |]; rewrite Ht; simpl; [by eapply accounted_extra|].
      by rewrite busy_full by (by rewrite ?length_map).
    + intros i p _ Hp Hfree. by eapply poll_inv_place.
Qed.

Lemma poll_client_wp l i pfds w : returns -> recv_contract -> 0 < i < POLL_FDS_LEN ->
  poll_inv l pfds w ->
  wp (poll_client i pfds) (fun r w' => match r with
    | Ok (inl pfds') => poll_inv l pfds' w'
    | Ok (inr _) => False
    | Stop _ => exists pfds', poll_inv l pfds' w'
    end) w.
Proof.
  intros Hret Hrecv Hi Hinv. pose proof Hinv as (Hlen & _). unfold poll_client. wp_step.
  apply wp_index; [|rewrite lookupZ_None; lia]. intros p Hp. cbn [bind_post].
  destruct (Z.eqb_spec (pfd p) (-1)) as [He|Hne]; simpl; [by wp_step|].
  destruct (has_flag (revents p) POLLIN); [|by wp_step]. wp_step. apply serv_read_wp; [done|done|].
  intros r w' Hr Hle Hst Hlog _ _. cbn [bind_post]. unfold gone. wp_steps.
  assert (Hinv' : poll_inv l pfds w').
  { eapply poll_inv_same; [done|rewrite Hlog; autorewrite with server; cbn..]; by rewrite ?app_nil_r. }
  case_match; wp_steps_ret Hret; [|done].
  eapply (poll_inv_clear _ _ w'); [lia|done..| | |]; simpl; autorewrite with server; cbn;
    by rewrite ?app_nil_r.
Qed.

(** A turn of the loop of the poll server keeps its table as the abstract one,
    also when it is full, and leaves the listening socket in slot 0. *)
Theorem poll_turn_accounts l pfds w :
  returns -> recv_contract -> poll_contract -> l <> -1 -> poll_inv l pfds w ->
  wp (poll_turn l pfds) (fun r w' => match r with
    | Ok (inl pfds') => poll_inv l pfds' w'
    | Ok (inr _) => False
    | Stop _ => exists pfds', poll_inv l pfds' w'
    end) w.
Proof.
  intros Hret Hrecv Hpoll Hl (Hlen & H0 & Hacc & Hn). unfold poll_turn. wp_step. wp_step_ret Hret.
  match goal with Hr : env _ (Poll _ _) = Some _ |- _ => pose proof (Hpoll _ _ _ _ Hr) as Hrl end.
  rewrite length_map in Hrl. pose proof (map_pfd_revents pfds _ Hrl) as Hmap.
  set (pfds1 := set_revents pfds (r_data r)) in *.
  assert (Hlen1 : Z.of_nat (length pfds1) = POLL_FDS_LEN).
  { rewrite <- Hlen, <- (length_map pfd pfds1), Hmap. by rewrite length_map. }
  match goal with |- wp _ _ ?w' => set (w1 := w') end.
  assert (Hinv1 : poll_inv l pfds1 w1).
  { apply (poll_inv_same _ _ w); [|simpl; autorewrite with server; cbn; by rewrite ?app_nil_r..].
    unfold poll_inv. by rewrite Hmap. }
  clearbody w1 pfds1. clear Hacc Hn.
  destruct (r_ret r =? 0); [by wp_step|]. destruct (r_ret r =? -1); [wp_step; by eexists|].
  unfold poll_events. wp_step. wp_step. apply wp_index; [|rewrite lookupZ_None; unfold POLL_FDS_LEN in *; lia].
  intros p0 Hp0. cbn [bind_post]. wp_step. eapply (wp_mono _ (poll_post l)).
  - destruct (has_flag _ _); [by apply poll_accept_inv|by wp_step].
  - intros [pfds2|h] w2 Hinv2; cbn [bind_post]; [|done].
    apply (wp_for_range (fun _ pfds' w' => poll_inv l pfds' w')); [done|..|done].
    + intros pfds' w' Hinv'. by wp_steps.
    + intros i pfds' w' Hi Hinv'. eapply wp_mono; [apply (poll_client_wp l); [done|done|lia|done]|].
      by intros [[pfds''|?]|h] w''.
Qed.

(** C12. What becomes of every connection of the poll server: from its start on,
    however long it runs and however it ends, every connection accepted is in
    exactly one slot of its table, was closed exactly once, or came when all the
    slots were in use - and such a connection is never closed; with fewer than
    POLL_FDS_LEN connections in all there is none.  The loop never ends
    normally. *)
Theorem serv_poll_accounts fuel listen_fd junk w :
  returns -> recv_contract -> poll_contract -> listen_fd <> -1 ->
  accepts (w_log w) = [] -> closed (w_log w) = [] ->
  wp (serv_poll fuel listen_fd junk) (fun r w' => (forall x, r <> Ok x) /\
    exists pfds, Z.of_nat (length pfds) = POLL_FDS_LEN /\
      lookupZ (map pfd pfds) 0 = Some listen_fd /\
      let '(n, stranded) := table_of (w_log w') in
      n = Z.of_nat (length (clients (map pfd pfds))) /\
      accepts (w_log w') ≡ₚ clients (map pfd pfds) ++ closed (w_log w') ++ stranded /\
      (Z.of_nat (length (accepts (w_log w'))) < POLL_FDS_LEN -> stranded = [])) w.
Proof.
  intros Hret Hrecv Hpoll Hl Ha Hc.
  assert (Hpost : forall pfds w', poll_inv listen_fd pfds w' ->
    exists pfds, Z.of_nat (length pfds) = POLL_FDS_LEN /\
      lookupZ (map pfd pfds) 0 = Some listen_fd /\
      let '(n, stranded) := table_of (w_log w') in
      n = Z.of_nat (length (clients (map pfd pfds))) /\
      accepts (w_log w') ≡ₚ clients (map pfd pfds) ++ closed (w_log w') ++ stranded /\
      (Z.of_nat (length (accepts (w_log w'))) < POLL_FDS_LEN -> stranded = [])).
  { intros pfds w' (Hlen & H0 & Hacc & Hn). exists pfds. pose proof (table_of_small (w_log w')) as Hs.
    unfold accounted in Hacc. destruct (table_of (w_log w')) as [n stranded]; simpl in *.
    split_and!; [done..|]. intros H1. by apply Hs. }
  unfold serv_poll. apply (wp_while (fun pfds w' => poll_inv listen_fd pfds w')).
  - intros pfds w' Hinv. split; [done|]. by eapply Hpost.
  - intros pfds w' Hinv. eapply wp_mono; [by apply poll_turn_accounts|].
    intros [[pfds'|x]|h] w''; [done|done|]. intros [pfds' Hinv']. split; [done|]. by eapply Hpost.
  - unfold poll_inv, accounted. rewrite Ha, Hc, table_of_quiet by done. by vm_compute.
Qed.
End poll_props.

(** ** The epoll server *)

Section epoll_props.
Context `{Env}.
Implicit Types w : world server.

(** The events a connection is watched for. *)
Definition trigger_events (t : EpollTriggerType) : Z :=
  match t with EP_LT => EPOLLIN | EP_ET => Z.lor EPOLLIN EPOLLET end.

(** The bound of the epoll server: a connection accepted while fewer than
    EPOLL_FDS_LEN fds are watched is watched with the trigger asked for and
    recorded; one accepted at the bound is closed; the record never exceeds the
    bound. *)
Lemma ep_accept_bounded l t w :
  returns -> Z.of_nat (size (ep_fds (w_st w))) <= EPOLL_FDS_LEN ->
  wp (ep_accept_worker_func l t) (fun r w' => r = Ok tt /\
    Z.of_nat (size (ep_fds (w_st w'))) <= EPOLL_FDS_LEN /\
    ((w_st w' = w_st w /\ accepts (w_log w') = accepts (w_log w)) \/
     exists fd w1, 0 <= fd /\ accepts (w_log w1) = accepts (w_log w) ++ [fd] /\
       closed (w_log w1) = closed (w_log w) /\ w_st w1 = w_st w /\
       if Z.of_nat (size (ep_fds (w_st w))) <? EPOLL_FDS_LEN then
         calls w' = calls w1 ++ [EpollCtlAdd (epfd (w_st w)) fd (trigger_events t)] /\
         w_st w' = set_ep_fds ({[fd]} ∪ ep_fds (w_st w)) (w_st w)
       else calls w' = calls w1 ++ [Close fd] /\ w_st w' = w_st w)) w.
Proof.
  intros Hret Hsize. unfold ep_accept_worker_func. apply wp_bind. apply serv_accept_wp; [done| |].
  - intros w' Hst Hc Ha _. cbn [bind_post]. simpl. wp_step. rewrite Hst. split_and!; [done|done|by left].
  - intros fd w1 Hfd Hst Hc Ha _. cbn [bind_post]. destruct (Z.eqb_spec (-1) fd); [lia|]. cbn [negb].
    wp_step. wp_step. cbn [bind_post]. rewrite Hst.
    destruct (Z.ltb_spec (Z.of_nat (size (ep_fds (w_st w)))) EPOLL_FDS_LEN) as [Hlt|Hge]; wp_steps_ret Hret;
      (split; [done|]).
    + split.
      * rewrite Hst. simpl. rewrite (union_comm_L {[fd]}), size_union_alt.
        pose proof (subseteq_size ({[fd]} ∖ ep_fds (w_st w)) ({[fd]} : gset Z) 
          (subseteq_difference_l _ _ _ (reflexivity _))) as Hone.
        rewrite size_singleton in Hone. lia.
      * right. exists fd, w1. split_and!; [done..| |by rewrite Hst].
        unfold calls. simpl. rewrite map_app. by destruct t.
    + rewrite Hst. split; [done|]. right. exists fd, w1. split_and!; [done..| |done].
      unfold calls. simpl. by rewrite map_app.
Qed.

(** An answer of recv after which the connection is given up. *)
Definition lost (r : reply) : bool :=
  (r_ret r =? 0) ||
  ((r_ret r <? 0) && negb ((r_errno r =? EAGAIN) || (r_errno r =? EWOULDBLOCK))).

(** The answers a task of a given trigger type reads. *)
Definition reads_of (t : EpollTriggerType) (rs : list reply) (r : reply) : list reply :=
  match t with EP_ET => rs ++ [r] | EP_LT => take 1 (rs ++ [r]) end.

(** What giving up a connection does. *)
Definition msg_post (fd : Z) (reads : list reply) (drop_it : bool) w w' : Prop :=
  w_out w' = w_out w ++ concat (map (message_out fd) reads) /\
  comes_by w (map (fun _ => Recv fd (BUF_SIZE - 1) 0) reads ++
    (if drop_it then [Close fd; EpollCtlDel (epfd (w_st w)) fd] else [])) w' /\
  w_st w' = if drop_it then set_ep_fds (ep_fds (w_st w) ∖ {[fd]}) (w_st w) else w_st w.

(** The reads alone; the connection may already be closed. *)
Definition read_post (fd : Z) (reads : list reply) (drop_it : bool) w w' : Prop :=
  w_out w' = w_out w ++ concat (map (message_out fd) reads) /\
  comes_by w (map (fun _ => Recv fd (BUF_SIZE - 1) 0) reads ++
    (if drop_it then [Close fd] else [])) w' /\
  w_st w' = w_st w.

(** One more read, and the close after the last one. *)
Lemma read_post_snoc fd reads r w w1 w2 :
  read_post fd reads false w w1 -> w_st w2 = w_st w1 ->
  w_log w2 = w_log w1 ++ [(Recv fd (BUF_SIZE - 1) 0, r)] ->
  w_out w2 = w_out w1 ++ message_out fd r -> read_post fd (reads ++ [r]) false w w2.
Proof.
  intros (Hout & Hlog & Hst) Hst' Hlog' Hout'. unfold read_post. rewrite app_nil_r in *.
  rewrite Hout', Hout, Hst', Hst, !map_app, concat_app, <- !app_assoc. simpl. rewrite app_nil_r.
  split_and!; [done| |done]. eapply comes_by_trans; [done|]. by apply comes_by_log in Hlog'.
Qed.

Lemma read_post_close fd reads r w w' :
  read_post fd reads false w w' -> read_post fd reads true w (after (Close fd) r w').
Proof.
  intros (Hout & Hlog & Hst). unfold read_post. rewrite app_nil_r in Hlog. split_and!; [done| |done].
  eapply comes_by_trans; [done|]. by apply (comes_by_log _ _ [(Close fd, r)]).
Qed.

Lemma read_post_nil fd w : read_post fd [] false w w.
Proof. unfold read_post. rewrite !app_nil_r. split_and!; [done|by apply comes_by_refl|done]. Qed.

Lemma lost_after r : -1 <= r_ret r -> r_ret r <= 0 -> lost r =
  (r_ret r =? 0) || negb ((r_errno r =? EAGAIN) || (r_errno r =? EWOULDBLOCK)).
Proof.
  intros Hle Hneg. unfold lost. destruct (Z.eqb_spec (r_ret r) 0); [done|].
  by rewrite (proj2 (Z.ltb_lt _ _)) by lia.
Qed.

Lemma ep_read_et_wp fuel fd rs r w :
  returns -> recv_contract -> drains (Recv fd (BUF_SIZE - 1) 0) (w_log w) rs r ->
  (length rs < fuel)%nat ->
  wp (while_ fuel (ep_read_turn fd) tt) (fun x w' =>
    x = Ok (lost r) /\ read_post fd (rs ++ [r]) (lost r) w w') w.
Proof.
  intros Hret Hrecv Hd Hfuel. set (rc := Recv fd (BUF_SIZE - 1) 0) in *.
  apply (wp_while_drains rc _ (fun ps _ w' => read_post fd ps false w w') _ fuel tt w rs r);
    [| |done|done|].
  - intros ps [] w' r' Hread Hr Hpos. unfold ep_read_turn. wp_step.
    apply serv_read_wp; [done|done|]. intros r2 w'' Hr2 Hle Hst' Hlog' Hout' _. cbn [bind_post].
    subst rc. simplify_eq. rewrite (proj2 (Z.ltb_lt _ _)) by done. wp_step. exists tt.
    split_and!; [done|done|by eapply read_post_snoc].
  - intros [] w' Hread Hr Hneg. unfold ep_read_turn. wp_step.
    apply serv_read_wp; [done|done|]. intros r2 w'' Hr2 Hle Hst' Hlog' Hout' He. cbn [bind_post].
    subst rc. simplify_eq. rewrite lost_after by lia. rewrite (proj2 (Z.ltb_ge _ _)) by done.
    eapply read_post_snoc in Hread; [|done..].
    destruct (Z.eqb_spec (r_ret r) 0); cbn [orb]; wp_steps_ret Hret.
    + split; [done|]. by apply read_post_close.
    + rewrite (proj2 (Z.ltb_lt _ _)) in He by lia. rewrite He.
      destruct (_ || _); wp_steps_ret Hret; (split; [done|]); [done|by apply read_post_close].
  - apply read_post_nil.
Qed.

Lemma ep_read_lt_wp fd r w :
  returns -> recv_contract -> env (w_log w) (Recv fd (BUF_SIZE - 1) 0) = Some r ->
  wp (ep_read_lt fd) (fun x w' => x = Ok (lost r) /\ read_post fd [r] (lost r) w w') w.
Proof.
  intros Hret Hrecv Hr. unfold ep_read_lt. wp_step. apply serv_read_wp; [done|done|].
  intros r2 w' Hr2 Hle Hst Hlog Hout He. cbn [bind_post]. simplify_eq. unfold lost.
  pose proof (read_post_snoc _ _ _ _ _ _ (read_post_nil fd w) Hst Hlog Hout) as Hread. simpl in Hread.
  destruct (Z.eqb_spec (r_ret r) 0); cbn [orb]; wp_steps_ret Hret.
  - split; [done|]. by apply read_post_close.
  - destruct (Z.ltb_spec (r_ret r) 0); cbn [andb]; wp_steps_ret Hret; [rewrite He; destruct (_ || _)|];
      cbn [negb]; wp_steps_ret Hret; (split; [done|]); by try apply read_post_close.
Qed.

Lemma ep_msg_wp fuel fd t rs r w :
  returns -> recv_contract -> drains (Recv fd (BUF_SIZE - 1) 0) (w_log w) rs r ->
  (length rs < fuel)%nat ->
  wp (ep_msg_worker_func fuel fd t) (fun x w' => x = Ok tt /\
    msg_post fd (reads_of t rs r)
      (match t, rs with EP_LT, _ :: _ => false | _, _ => lost r end) w w') w.
Proof.
  intros Hret Hrecv Hd Hfuel. unfold ep_msg_worker_func. wp_step.
  assert (Hrest : forall b reads w1, read_post fd reads b w w1 ->
    wp (if b : bool then
          s ← get;
          sys_ (EpollCtlDel (epfd s) fd);;
          modify (fun s => set_ep_fds (ep_fds s ∖ {[fd]}) s)
        else mret tt) (fun x w' => x = Ok tt /\ msg_post fd reads b w w') w1).
  { intros b reads w1 (Hout & Hlog & Hst). unfold msg_post.
    destruct b; wp_steps_ret Hret; (split_and!; [done|done| |]); rewrite ?Hst; try done.
    eapply (comes_by_trans _ w1 _ _ [EpollCtlDel (epfd (w_st w)) fd]) in Hlog;
      [by rewrite <- app_assoc in Hlog|]. rewrite <- Hst. by eapply (comes_by_log _ _ [(_, _)]). }
  destruct t; simpl.
  - inversion Hd as [h r0 Hr Hneg|h r0 rs' r' Hr Hpos Hd']; subst;
      (eapply wp_mono; [by apply ep_read_lt_wp|]);
      intros x w1 (-> & Hpost); cbn [bind_post]; [by apply Hrest|].
    assert (Hno : lost r0 = false) by (unfold lost; lia). rewrite Hno in *. by apply (Hrest false).
  - eapply wp_mono; [by apply ep_read_et_wp|]. intros x w1 (-> & Hpost). cbn [bind_post].
    eapply wp_mono; [by apply Hrest|]. intros y w2 Hy. by destruct rs.
Qed.

(** A message task of the epoll server, when the socket holds the chunks [rs]
    and then gives [r]: edge triggered it reads all of them, level triggered only
    the first answer; each chunk is printed up to its first NUL; and exactly when
    the last answer read says that the client is gone the connection is closed,
    removed from the epoll instance and from the record. *)
Theorem ep_msg_worker_func_serves fuel fd t rs r w :
  returns -> recv_contract -> drains (Recv fd (BUF_SIZE - 1) 0) (w_log w) rs r ->
  (length rs < fuel)%nat ->
  wp (ep_msg_worker_func fuel fd t) (fun x w' => x = Ok tt /\
    msg_post fd (reads_of t rs r)
      (match t, rs with EP_LT, _ :: _ => false | _, _ => lost r end) w w') w.
Proof. apply ep_msg_wp. Qed.

(** [n] level-triggered message tasks for one descriptor, one after the other. *)
Fixpoint level_tasks (n : nat) (fd : Z) : M server unit :=
  match n with
  | O => mret tt
  | S n => ep_msg_worker_func O fd EP_LT;; level_tasks n fd
  end.

(** One turn of the edge-triggered loop against one level-triggered task. *)
Lemma edge_turn_level fd w :
  match ep_read_turn fd tt w with
  | (Ok (inl tt), w1) => ep_read_lt fd w = (Ok false, w1)
  | (Ok (inr b), w1) => ep_read_lt fd w = (Ok b, w1)
  | (Stop h, w1) => ep_read_lt fd w = (Stop h, w1)
  end.
Proof.
  unfold ep_read_turn, ep_read_lt, mbind, M_bind. destruct (serv_read fd w) as [[ret|h] w1]; [|done].
  destruct (Z.ltb_spec 0 ret).
  - by rewrite (proj2 (Z.eqb_neq _ _)), (proj2 (Z.ltb_ge _ _)) by lia.
  - destruct (Z.eqb_spec ret 0); [by destruct (sys_ (Close fd) w1) as [[]]|].
    rewrite (proj2 (Z.ltb_lt _ _)) by lia. simpl. destruct (_ || _); [done|].
    by destruct (sys_ (Close fd) w1) as [[]].
Qed.

(** CLOSE_FD, or the return before it. *)
Definition ep_finish (fd : Z) (b : bool) : M server unit :=
  if b then
    s ← get;
    sys_ (EpollCtlDel (epfd s) fd);;
    modify (fun s => set_ep_fds (ep_fds s ∖ {[fd]}) s)
  else mret tt.

Lemma level_task_run fd w : ep_msg_worker_func O fd EP_LT w =
  match ep_read_lt fd w with (Ok b, w1) => ep_finish fd b w1 | (Stop h, w1) => (Stop h, w1) end.
Proof. reflexivity. Qed.

Lemma edge_task_run fuel fd w : ep_msg_worker_func (S fuel) fd EP_ET w =
  match ep_read_turn fd tt w with
  | (Ok (inl _), w1) => ep_msg_worker_func fuel fd EP_ET w1
  | (Ok (inr b), w1) => ep_finish fd b w1
  | (Stop h, w1) => (Stop h, w1)
  end.
Proof.
  change (ep_msg_worker_func (S fuel) fd EP_ET w) with
    ((while_ (S fuel) (ep_read_turn fd) tt ≫= fun b => ep_finish fd b) w).
  change (while_ (S fuel) (ep_read_turn fd) tt) with (ep_read_turn fd tt ≫= fun r =>
    match r with inl a => while_ fuel (ep_read_turn fd) a | inr b => mret b end).
  unfold mbind, M_bind. by destruct (ep_read_turn fd tt w) as [[[[]|b]|h] w1].
Qed.

Lemma level_tasks_run n fd w : level_tasks (S n) fd w =
  match ep_msg_worker_func O fd EP_LT w with
  | (Ok _, w1) => level_tasks n fd w1
  | (Stop h, w1) => (Stop h, w1)
  end.
Proof. reflexivity. Qed.


(** The end: the record is closed, and the writing end of the signal pipe. *)
Lemma epoll_shutdown_wp w : returns ->
  wp epoll_shutdown (fun x w' => x = Stop (HExit 0) /\ w_st w' = w_st w /\
    comes_by w (map Close (elements (ep_fds (w_st w)) ++ [snd (sig_pipe_fd (w_st w))])) w') w.
Proof.
  intros Hret. unfold epoll_shutdown. wp_step. wp_step. cbn [bind_post]. wp_step. unfold for_each.
  apply (wp_for (fun rest _ w' => w_st w' = w_st w /\ exists past,
    elements (ep_fds (w_st w)) = past ++ rest /\ comes_by w (map Close past) w')).
  - intros [] w' (Hst & past & Hp & Hlog). rewrite app_nil_r in Hp. wp_steps_ret Hret.
    split_and!; [done|done|]. rewrite Hp, map_app. eapply comes_by_trans; [done|].
    by eapply (comes_by_log _ _ [(_, _)]).
  - intros fd rest [] w' (Hst & past & Hp & Hlog). wp_steps_ret Hret. split; [done|].
    exists (past ++ [fd]). rewrite <- app_assoc, map_app. split; [done|]. eapply comes_by_trans; [done|].
    by eapply (comes_by_log _ _ [(_, _)]).
  - split; [done|]. exists []. split; [done|]. by apply comes_by_refl.
Qed.

(** Shutdown of the epoll server: once a task has cleared [running] the main
    loop is left at its next test without another wait, every fd of the record
    is closed exactly once, then the signal pipe, and the program exits with 0. *)
Theorem serv_epoll_stops fuel background l t w :
  returns -> running (w_st w) = false ->
  wp (while_ (S fuel) (epoll_turn background l t) tt ≫= fun _ => epoll_shutdown) (fun r w' =>
    r = Stop (HExit 0) /\ w_st w' = w_st w /\
    calls w' = calls w ++ map Close (elements (ep_fds (w_st w)) ++ [snd (sig_pipe_fd (w_st w))])) w.
Proof.
  intros Hret Hrun. wp_step. apply wp_while_S. unfold epoll_turn. wp_step. wp_step. rewrite Hrun.
  wp_steps. eapply wp_mono; [by apply epoll_shutdown_wp|].
  intros x w' (-> & Hst & Hc%comes_by_calls). done.
Qed.
End epoll_props.

(** ** The theorems at concrete inputs *)

(** An environment in which every call returns: new clients get 10 plus the
    number of calls so far, and each socket's first read gives "hi". *)
Definition demo_env : Env := fun h c => Some (match c with
  | Recv _ len _ =>
      if bool_decide (countb (fun e => match fst e with Recv _ _ _ => true | _ => false end) h = 0%nat)
         && (2 <=? len)
      then ret_data [104; 105] else ret_err EAGAIN
  | Accept _ => ret_ok (10 + Z.of_nat (length h))
  | Select _ rfds _ => ret_data rfds
  | Poll pfds _ => Reply 1 0 (replicate (length pfds) POLLIN) [] None
  | _ => ret_ok 0
  end).

Lemma mc_returns : @returns demo_env.
Proof. intros h c. by eexists. Qed.

Lemma mc_recv : @recv_contract demo_env.
Proof.
  intros h f len fl r [= <-] Hlen. case_match eqn:E; [|split; simpl; lia].
  apply andb_true_iff in E as [_ E]. split; simpl; lia.
Qed.

Lemma mc_poll : @poll_contract demo_env.
Proof. intros h pfds t r [= <-]. apply length_replicate. Qed.

Definition demo_world : world server := World server_init 0 [] [].

Lemma serv_select_accounts_witness :
  wp (@serv_select demo_env 2 4) (fun r w' => (forall x, r <> Ok x) /\
    exists fds, Z.of_nat (length fds) = SELECT_FDS_LEN /\ lookupZ fds 0 = Some 4 /\
      accepts (w_log w') ≡ₚ clients fds ++ closed (w_log w')) demo_world.
Proof.
  apply (@serv_select_accounts demo_env 2 4 demo_world);
    [apply mc_returns | apply mc_recv | done..].
Defined.

Definition demo_big : list Z := insertZ 0 4 (insertZ 5 2000 (replicate 128 (-1))).

Lemma select_fd_overflow_witness :
  wp (@select_turn demo_env 4 (demo_big, -1)) (fun r w' => r = Stop HUB /\ w' = demo_world) demo_world.
Proof.
  apply (@select_fd_overflow demo_env 4 demo_big (-1) 5 2000 demo_world); vm_compute; done.
Defined.

Definition demo_full : list pollfd := mkPollfd 4 POLLIN POLLIN :: replicate 1023 (mkPollfd 9 POLLIN 0).

Lemma demo_full_busy : busy_upto POLL_FDS_LEN (map pfd demo_full).
Proof.
  intros j fd Hj [_ Hl]%lookupZ_Some. unfold demo_full in Hl. cbn [map] in Hl.
  rewrite (fmap_replicate pfd) in Hl. apply lookup_cons_Some in Hl as [[_ <-]|[_ Hl]]; [done|].
  apply lookup_replicate_1 in Hl as [-> _]. done.
Qed.

Lemma poll_accept_full_leaks_witness :
  wp (@poll_accept demo_env 4 demo_full) (fun r w' => r = Ok demo_full /\
    closed (w_log w') = closed [] /\
    (accepts (w_log w') = accepts [] \/ exists fd, 0 <= fd /\ accepts (w_log w') = accepts [] ++ [fd]))
    demo_world.
Proof.
  apply (@poll_accept_full_leaks demo_env 4 demo_full demo_world);
    [apply mc_returns | reflexivity | apply demo_full_busy].
Defined.

Definition demo_free : list pollfd := mkPollfd 4 POLLIN 0 :: replicate 1023 (mkPollfd (-1) 0 0).

Lemma demo_free_clients : clients (map pfd demo_free) = [].
Proof. unfold demo_free. cbn [map]. vm_compute. reflexivity. Qed.

Lemma poll_turn_accounts_witness :
  wp (@poll_turn demo_env 4 demo_free) (fun r w' => match r with
    | Ok (inl pfds') => poll_inv 4 pfds' w'
    | Ok (inr _) => False
    | Stop _ => exists pfds', poll_inv 4 pfds' w'
    end) demo_world.
Proof.
  apply (@poll_turn_accounts demo_env 4 demo_free demo_world);
    [apply mc_returns | apply mc_recv | apply mc_poll | done | ].
  split; [reflexivity|]. split; [reflexivity|]. unfold accounted. by rewrite demo_free_clients.
Defined.

Lemma serv_poll_accounts_witness :
  wp (@serv_poll demo_env 2 4 0) (fun r w' => (forall x, r <> Ok x) /\
    exists pfds, Z.of_nat (length pfds) = POLL_FDS_LEN /\
      lookupZ (map pfd pfds) 0 = Some 4 /\
      let '(n, stranded) := table_of (w_log w') in
      n = Z.of_nat (length (clients (map pfd pfds))) /\
      accepts (w_log w') ≡ₚ clients (map pfd pfds) ++ closed (w_log w') ++ stranded /\
      (Z.of_nat (length (accepts (w_log w'))) < POLL_FDS_LEN -> stranded = [])) demo_world.
Proof.
  apply (@serv_poll_accounts demo_env 2 4 0 demo_world);
    [apply mc_returns | apply mc_recv | apply mc_poll | done | done | done].
Defined.

Definition demo_epoll : world server := World (mkServer true (5, 6) 8 {[4; 5]}) 0 [] [].

Lemma ep_msg_worker_func_serves_witness :
  wp (@ep_msg_worker_func demo_env 2 12 EP_ET) (fun x w' => x = Ok tt /\
    msg_post 12 [ret_data [104; 105]; ret_err EAGAIN] false demo_epoll w') demo_epoll.
Proof.
  apply (@ep_msg_worker_func_serves demo_env 2 12 EP_ET [ret_data [104; 105]] (ret_err EAGAIN) demo_epoll);
    [apply mc_returns | apply mc_recv | by repeat econstructor | simpl; lia].
Defined.


Definition demo_stopped : world server := World (mkServer false (5, 6) 8 {[4; 5; 12]}) 0 [] [].

Lemma serv_epoll_stops_witness :
  wp (while_ 2 (@epoll_turn demo_env (mret tt) 4 EP_ET) tt ≫= fun _ => @epoll_shutdown demo_env)
    (fun r w' => r = Stop (HExit 0) /\ w_st w' = w_st demo_stopped /\
      calls w' = [] ++ map Close (elements (ep_fds (w_st demo_stopped)) ++ [6])) demo_stopped.
Proof.
  apply (@serv_epoll_stops demo_env 1 (mret tt) 4 EP_ET demo_stopped); [apply mc_returns | done].
Defined.
