(* ===== verification/MultiSafe.v ===== *)
(** * The multiplexing servers have no undefined behaviour

    The rules of Safe applied to MultiConn: the tables keep their lengths, every
    index is inside them, and every descriptor given to an [fd_set] fits in it. *)

From S2P Require Import Prelude Sys CLib Safe MultiConn.

(** What the code relies on: the results of recv, poll and epoll_wait as
    documented, and, for select alone, descriptors that fit in an [fd_set]. *)
Record net_ok `{Env} : Prop := {
  no_recv : recv_contract;
  no_poll : poll_contract;
  no_epoll h e n t r : env h (EpollWait e n t) = Some r -> r_ret r <= Z.of_nat (length (r_evs r));
}.
Definition small_fds `{Env} : Prop :=
  (forall h fd r, env h (Accept fd) = Some r -> r_ret r < FD_SETSIZE) /\
  (forall h d t p r, env h (Socket d t p) = Some r -> r_ret r < FD_SETSIZE).

Section servers.
Context `{Env} (Hnet : net_ok).
#[local] Set Default Proof Using "All".
Definition any (s : server) : Prop := True.
Abbreviation ok m := (safe any defined m) (only parsing).

Lemma modify_safe (f : server -> server) : ok (modify f) (fun _ => True).
Proof. by apply safe_modify. Qed.

Lemma set_no_blocking_safe fd : ok (set_no_blocking fd) (fun _ => True).
Proof. unfold set_no_blocking. do 2 safe_call. by apply safe_ret. Qed.

Lemma serv_accept_safe l : ok (serv_accept l) (fun fd => fd = -1 \/
  0 <= fd /\ exists h r, env h (Accept l) = Some r /\ r_ret r = fd).
Proof.
  unfold serv_accept. unfold sys_.
  eapply (safe_bind _ _ _ _ (fun fd => exists h r, env h (Accept l) = Some r /\ r_ret r = fd)).
  { eapply safe_bind; [by apply safe_sys|]. intros r [h Hr]. apply safe_ret. eauto. }
  intros fd Hfd. apply safe_if; [intros _; apply safe_ret; by left|]. intros Hge%Z.ltb_ge.
  safe_seq; [apply set_no_blocking_safe|]. apply safe_ret. by right.
Qed.

Lemma serv_read_safe fd : ok (serv_read fd) (fun _ => True).
Proof. unfold serv_read. safe_seq; [by apply receive_message_safe, Hnet|]. by apply safe_ret. Qed.

Lemma gone_safe ret : ok (gone ret) (fun _ => True).
Proof. unfold gone. safe_seq; [apply safe_get_errno|]. by apply safe_ret. Qed.

(** The loop over the slots finds an index in the table. *)
Lemma find_slot_range len slots : 0 <= len <= Z.of_nat (length slots) ->
  ok (find_slot len slots) (fun i => 0 <= i <= len).
Proof.
  intros Hlen w Hw. unfold find_slot.
  apply (wp_for_range (fun i a w' => a = i)); [lia| | |done].
  - intros a w' ->. split; [lia|done].
  - intros i a w' Hi ->. wp_step. apply wp_index; [|rewrite lookupZ_None; lia].
    intros x _. cbn [bind_post]. case_match; wp_step; [split; [lia|done]|done].
Qed.

(** *** select *)

Definition slot_ok (fd : Z) : Prop := fd = -1 \/ 0 <= fd < FD_SETSIZE.
Definition slots_ok (fds : list Z) : Prop :=
  Z.of_nat (length fds) = SELECT_FDS_LEN /\ Forall slot_ok fds.

Lemma slots_lookup fds i x : slots_ok fds -> lookupZ fds i = Some x -> slot_ok x.
Proof. intros [_ Hall] [_ Hx]%lookupZ_Some. by eapply Forall_lookup_1. Qed.

Lemma slots_insert fds i x : slots_ok fds -> slot_ok x -> slots_ok (insertZ i x fds).
Proof.
  intros [Hlen Hall] Hx. split; [by rewrite length_insertZ|]. unfold insertZ.
  case_bool_decide; [by apply Forall_insert|done].
Qed.

Lemma slot_safe fds i : slots_ok fds -> 0 <= i < SELECT_FDS_LEN -> ok (index fds i) slot_ok.
Proof.
  intros Hok Hi. eapply safe_mono; [apply safe_index; destruct Hok; lia|].
  intros x Hx. exact (slots_lookup _ _ _ Hok Hx).
Qed.

Lemma FD_SET_safe fd rfds : 0 <= fd < FD_SETSIZE -> ok (FD_SET fd rfds) (fun _ => True).
Proof. intros Hfd. unfold FD_SET. apply safe_if; [intros _; by apply safe_ret|lia]. Qed.
Lemma FD_ISSET_safe fd rfds : 0 <= fd < FD_SETSIZE -> ok (FD_ISSET fd rfds) (fun _ => True).
Proof. intros Hfd. unfold FD_ISSET. apply safe_if; [intros _; by apply safe_ret|lia]. Qed.

Lemma set_rfds_safe fds maxfd : slots_ok fds -> ok (set_rfds fds maxfd) (fun _ => True).
Proof.
  intros Hok. unfold set_rfds. apply safe_for; [done|]. intros i [rfds m] Hi%elem_of_range _.
  eapply safe_bind; [by apply slot_safe|]. intros fd Hfd.
  apply safe_if; intros Hne; [|by apply safe_ret]. safe_seq; [apply FD_SET_safe; destruct Hfd; lia|].
  by apply safe_ret.
Qed.

Lemma select_accept_safe l fds : small_fds -> slots_ok fds -> ok (select_accept l fds) slots_ok.
Proof.
  intros Hsmall Hok. unfold select_accept. eapply safe_bind; [apply serv_accept_safe|].
  intros fd Hfd. apply safe_if; intros Hne; [|by apply safe_ret].
  eapply safe_bind; [apply find_slot_range; destruct Hok; unfold SELECT_FDS_LEN in *; lia|]. intros i Hi.
  apply safe_if; intros _; [safe_call; by apply safe_ret|]. apply safe_ret, slots_insert; [done|].
  destruct Hfd as [->|(Hge & h & r & Hr & <-)]; [by left|]. right. split; [done|].
  by eapply (proj1 Hsmall).
Qed.

Lemma select_client_safe rfds i fds : slots_ok fds -> 0 <= i < SELECT_FDS_LEN ->
  ok (select_client rfds i fds) (fun r => match r with inl f | inr f => slots_ok f end).
Proof.
  intros Hok Hi. unfold select_client. eapply safe_bind; [by apply slot_safe|]. intros fd Hfd.
  apply safe_if; intros Hne; [|by apply safe_ret].
  safe_seq; [apply FD_ISSET_safe; destruct Hfd; lia|]. apply safe_if; intros _; [|by apply safe_ret].
  safe_seq; [apply serv_read_safe|]. safe_seq; [apply gone_safe|].
  apply safe_if; intros _; [|by apply safe_ret]. safe_call. apply safe_ret, slots_insert; [done|by left].
Qed.

Lemma serv_select_safe fuel l : small_fds -> 0 <= l < FD_SETSIZE -> ok (serv_select fuel l) (fun _ => True).
Proof.
  intros Hsmall Hl. unfold serv_select.
  apply (safe_while _ _ (fun st => slots_ok (fst st)) (fun _ => True)); [done| |].
  - cbn [fst]. apply slots_insert; [|by right]. split; [by rewrite length_replicate|].
    apply Forall_replicate. by left.
  - intros [fds maxfd] Hok. cbn [fst] in Hok. unfold select_turn.
    safe_seq; [by apply set_rfds_safe|]. match goal with |- context [let '(_, _) := ?p in _] => destruct p end.
    safe_seq; [by eapply safe_mono; [apply safe_sys|]|].
    apply safe_if; intros _; [by apply safe_ret|]. apply safe_if; intros _; [by apply safe_stop|].
    eapply (safe_bind _ _ _ _ slots_ok); [|intros fds' Hok'; by apply safe_ret].
    unfold select_events. safe_seq; [by apply FD_ISSET_safe|].
    eapply (safe_bind _ _ _ _ slots_ok).
    { apply safe_if; intros _; [by apply select_accept_safe|by apply safe_ret]. }
    intros fds' Hok'. apply safe_for; [done|]. intros i f [? ?]%elem_of_range Hf.
    apply select_client_safe; [done|]. split; [lia|done].
Qed.

(** *** poll *)

Definition poll_len (pfds : list pollfd) : Prop := Z.of_nat (length pfds) = POLL_FDS_LEN.

Lemma poll_insert pfds i x : poll_len pfds -> poll_len (insertZ i x pfds).
Proof. unfold poll_len. by rewrite length_insertZ. Qed.

Lemma pollfd_safe pfds i : poll_len pfds -> 0 <= i < POLL_FDS_LEN -> ok (index pfds i) (fun _ => True).
Proof. unfold poll_len. intros Hlen Hi. eapply safe_mono; [apply safe_index; lia|done]. Qed.

Lemma poll_accept_safe l pfds : poll_len pfds -> ok (poll_accept l pfds) poll_len.
Proof.
  intros Hlen. unfold poll_accept. eapply safe_bind; [apply serv_accept_safe|].
  intros fd _. apply safe_if; intros _; [|by apply safe_ret].
  eapply safe_bind; [apply find_slot_range; unfold poll_len in Hlen; rewrite length_map, Hlen; done|].
  cbv beta. intros i [? ?]. apply safe_if; [intros _; by apply safe_ret|]. intros Hne%Z.eqb_neq.
  safe_seq; [apply pollfd_safe; [done|lia]|]. by apply safe_ret, poll_insert.
Qed.

Lemma poll_client_safe i pfds : poll_len pfds -> 0 <= i < POLL_FDS_LEN ->
  ok (poll_client i pfds) (fun r => match r with inl f | inr f => poll_len f end).
Proof.
  intros Hlen Hi. unfold poll_client. safe_seq; [by apply pollfd_safe|].
  apply safe_if; intros _; [|by apply safe_ret].
  safe_seq; [apply serv_read_safe|]. safe_seq; [apply gone_safe|].
  apply safe_if; intros _; [|by apply safe_ret]. safe_call. by apply safe_ret, poll_insert.
Qed.

Lemma serv_poll_safe fuel l junk : ok (serv_poll fuel l junk) (fun _ => True).
Proof.
  unfold serv_poll. apply (safe_while _ _ poll_len (fun _ => True)); [done| |].
  - unfold poll_len. cbn [length]. rewrite length_replicate. unfold POLL_FDS_LEN. lia.
  - intros pfds Hlen. unfold poll_turn. eapply safe_bind; [by apply safe_sys|]. intros r [h Hr].
    assert (Hlen' : poll_len (set_revents pfds (r_data r))).
    { pose proof (no_poll Hnet _ _ _ _ Hr) as Hd. rewrite length_map in Hd. unfold poll_len, set_revents in *.
      rewrite length_zip_with. lia. }
    apply safe_if; intros _; [by apply safe_ret|]. apply safe_if; intros _; [by apply safe_stop|].
    eapply (safe_bind _ _ _ _ poll_len); [|intros p Hp; by apply safe_ret]. unfold poll_events.
    safe_seq; [apply pollfd_safe; done|].
    eapply (safe_bind _ _ _ _ poll_len).
    { apply safe_if; intros _; [by apply poll_accept_safe|by apply safe_ret]. }
    intros p Hp. apply safe_for; [done|]. intros i f [? ?]%elem_of_range Hf.
    apply poll_client_safe; [done|]. split; [lia|done].
Qed.

(** *** epoll *)

Lemma ep_sig_worker_func_safe fuel : ok (ep_sig_worker_func fuel) (fun _ => True).
Proof.
  unfold ep_sig_worker_func. apply (safe_while _ _ (fun _ => True) (fun _ => True)); [done|done|].
  intros [] _. unfold ep_sig_turn. safe_get s Hs.
  eapply safe_bind; [by apply safe_recv; [apply Hnet|done|simpl; lia]|]. intros [ret buf] [_ Hlen].
  simpl in Hlen. apply safe_if; intros _; [|by apply safe_ret].
  safe_seq; [apply safe_index; lia|]. safe_seq; [|by apply safe_ret].
  apply safe_if; intros _; [apply modify_safe|by apply safe_ret].
Qed.

Lemma ep_accept_worker_func_safe l t : ok (ep_accept_worker_func l t) (fun _ => True).
Proof.
  unfold ep_accept_worker_func. safe_seq; [apply serv_accept_safe|].
  apply safe_if; intros _; [|by apply safe_ret]. safe_get s Hs.
  apply safe_if; intros _; safe_call; [apply modify_safe|by apply safe_ret].
Qed.

Lemma ep_msg_worker_func_safe fuel fd t : ok (ep_msg_worker_func fuel fd t) (fun _ => True).
Proof.
  unfold ep_msg_worker_func. eapply (safe_bind _ _ _ _ (fun _ => True)).
  - destruct (decide (t = EP_ET)).
    + apply (safe_while _ _ (fun _ => True) (fun _ => True)); [done|done|]. intros [] _.
      unfold ep_read_turn. safe_seq; [apply serv_read_safe|].
      apply safe_if; intros _; [by apply safe_ret|]. apply safe_if; intros _; [safe_call; by apply safe_ret|].
      safe_seq; [apply safe_get_errno|]. apply safe_if; intros _; [by apply safe_ret|].
      safe_call; by apply safe_ret.
    + unfold ep_read_lt. safe_seq; [apply serv_read_safe|].
      apply safe_if; intros _; [safe_call; by apply safe_ret|]. apply safe_if; intros _; [|by apply safe_ret].
      safe_seq; [apply safe_get_errno|]. apply safe_if; intros _; [by apply safe_ret|].
      safe_call; by apply safe_ret.
  - intros b _. apply safe_if; intros _; [|by apply safe_ret]. safe_get s Hs. safe_call. apply modify_safe.
Qed.

Lemma epoll_event_safe l t ev : ok (epoll_event l t ev) (fun _ => True).
Proof.
  destruct ev as [fd evs]. unfold epoll_event. safe_get s Hs.
  apply safe_if; intros _; [apply ep_accept_worker_func_safe|].
  repeat (apply safe_if; intros _); [safe_call..|]; by apply safe_ret.
Qed.

Lemma epoll_turn_safe background l t : ok background (fun _ => True) ->
  ok (epoll_turn background l t tt) (fun _ => True).
Proof.
  intros Hbg. unfold epoll_turn. safe_get s Hs. apply safe_if; intros _; [|by apply safe_ret].
  eapply safe_bind; [by apply safe_sys|]. intros r [h Hr]. safe_seq; [done|].
  apply safe_if; intros _; [by apply safe_ret|]. apply safe_if; intros _; [by apply safe_stop|].
  safe_seq; [|by apply safe_ret]. apply safe_for_each. intros i [? ?]%elem_of_range.
  pose proof (no_epoll Hnet _ _ _ _ _ Hr) as Hle.
  safe_seq; [apply safe_index; lia|]. apply epoll_event_safe.
Qed.

Lemma serv_epoll_safe fuel background l t : ok background (fun _ => True) ->
  ok (serv_epoll fuel background l t) (fun _ => True).
Proof.
  intros Hbg. unfold serv_epoll. safe_call. safe_seq; [apply modify_safe|]. safe_get s Hs.
  do 2 safe_call. safe_seq; [apply modify_safe|]. do 2 safe_call. safe_seq.
  - apply (safe_while _ _ (fun _ => True) (fun _ => True)); [done|done|]. intros [] _.
    eapply safe_mono; [by apply epoll_turn_safe|]. by intros [].
  - unfold epoll_shutdown. safe_get s' Hs'.
    safe_seq; [apply safe_for_each; intros fd _; safe_call; by apply safe_ret|].
    safe_call. by apply safe_stop.
Qed.

Lemma add_sig_safe sig : ok (add_sig sig) (fun _ => True).
Proof. unfold add_sig. safe_call. eapply safe_mono; [by apply safe_assert|done]. Qed.

(** The start of the server, for each of its event loops. *)
Lemma start_multi_con_server_safe `{InetPton} fuel junk background ip port type trigger :
  ok background (fun _ => True) -> (type = MT_SELECT -> small_fds) ->
  ok (start_multi_con_server fuel junk background ip port type trigger) (fun _ => True).
Proof.
  intros Hbg Hsmall. unfold start_multi_con_server. safe_seq; [by eapply safe_mono; [by apply safe_sys|]|].
  safe_get s Hs. match goal with |- context [let '(_, _) := ?p in _] => destruct p end.
  safe_seq; [apply modify_safe|]. do 2 (safe_seq; [apply set_no_blocking_safe|]).
  safe_seq; [apply safe_for_each; intros sig _; apply add_sig_safe|].
  eapply (safe_bind _ _ _ _ (fun fd => small_fds -> fd < FD_SETSIZE)).
  { eapply safe_bind; [by apply safe_sys|]. intros r [h Hr]. apply safe_ret.
    intros [_ Hsock]. by eapply Hsock. }
  intros fd Hfd. eapply safe_bind; [by apply safe_assert|]. cbv beta. intros _ Hpos%Z.leb_le. safe_call.
  safe_call. safe_seq; [by apply safe_assert|]. safe_call. safe_seq; [by apply safe_assert|].
  destruct type; [|apply serv_poll_safe|by apply serv_epoll_safe].
  apply serv_select_safe; [auto|]. split; [done|]. auto.
Qed.
End servers.

(** [m] never stops in an access out of range. *)
Abbreviation defined_from m w := (wp m (fun r _ => r <> Stop HUB) w) (only parsing).

Lemma safe_defined `{Env} {S A} (I : S -> Prop) (m : M S A) P w :
  safe I defined m P -> I (w_st w) -> defined_from m w.
Proof.
  intros Hm Hw. eapply wp_mono; [by apply Hm|]. intros [a|h] w'; [done|]. by intros Hh [= ->].
Qed.

(** C18. The multiplexing server has no undefined behaviour: with each of the three
    event loops, whatever its calls answer within their documentation and however
    long it runs, every index stays inside the tables of slots, the message array and
    the arrays of events - in select provided that every descriptor the system gives
    out fits in an [fd_set].  The tasks that the epoll server gives to its pool have
    none either, so what they do meanwhile, as far as it is defined, does no harm. *)
Theorem start_multi_con_server_defined `{Env, InetPton} fuel junk background ip port type trigger
    (w : world server) :
  net_ok -> (type = MT_SELECT -> small_fds) -> (forall w', defined_from background w') ->
  defined_from (start_multi_con_server fuel junk background ip port type trigger) w /\
  forall w', defined_from (ep_sig_worker_func fuel) w' /\
    forall fd, defined_from (ep_msg_worker_func fuel fd trigger) w'.
Proof.
  intros Hnet Hsmall Hbg. split; [|intros w'; split; [|intros fd]]; eapply (safe_defined any); try done.
  - apply start_multi_con_server_safe; [done| |done]. intros w' _. eapply wp_mono; [apply Hbg|].
    by intros [[]|h] w'' Hh; [|intros ->].
  - by apply ep_sig_worker_func_safe.
  - by apply ep_msg_worker_func_safe.
Qed.

(** ** The theorem at a concrete input *)

(** Connections keep coming, each with the descriptor 12; the pool handles a signal
    and a message meanwhile. *)
Definition demo_small : Env := fun h c => match c with
  | Accept _ => Some (ret_ok 12)
  | _ => demo_env h c
  end.

Definition demo_background : M server unit :=
  @ep_sig_worker_func demo_small 2;; @ep_msg_worker_func demo_small 2 12 EP_ET.

Lemma demo_net : @net_ok demo_small.
Proof.
  split.
  - intros h fd len fl r Hr. exact (mc_recv h fd len fl r Hr).
  - intros h p t r Hr. exact (mc_poll h p t r Hr).
  - intros h e n t r [= <-]. simpl. lia.
Qed.

Lemma demo_small_fds : @small_fds demo_small.
Proof. split; [intros h fd r [= <-]|intros h d t p r [= <-]]; done. Qed.

Lemma demo_background_defined w : defined_from demo_background w.
Proof.
  apply (@safe_defined demo_small _ _ any _ (fun _ => True)); [|done]. unfold demo_background.
  eapply safe_bind; [apply ep_sig_worker_func_safe, demo_net|]. intros [] _.
  apply ep_msg_worker_func_safe, demo_net.
Qed.

Lemma start_multi_con_server_defined_witness :
  defined_from (@start_multi_con_server demo_small (fun _ => None) 3 7 demo_background "::" 80
    MT_SELECT EP_ET) (World server_init 0 [] []) /\
  forall w', defined_from (@ep_sig_worker_func demo_small 3) w' /\
    forall fd, defined_from (@ep_msg_worker_func demo_small 3 fd EP_ET) w'.
Proof.
  apply (@start_multi_con_server_defined demo_small (fun _ => None) 3 7 demo_background "::" 80
    MT_SELECT EP_ET); [apply demo_net | intros _; apply demo_small_fds | apply demo_background_defined].
Defined.
