(* ===== verification/EpollThreads.v ===== *)
(** * The threads of the epoll server, interleaved

    MultiConn has the code each thread of serv_epoll runs.  Here the main thread,
    which waits and accepts, and the tasks of the thread pool, which read and
    close, run at the same time on the table of open descriptors, the epoll
    instance and the record [ep_fds].  One action is what one thread does between
    two points where another can intervene: a block under [epfd_mutex], or one
    system call outside it (inside a block, a task's [close] can only fall before
    or after the block's effect).  The theorems: the record covers what is watched
    and stays within its bound; every open connection is watched as long as no
    descriptor is reused too early; a descriptor reused between a task's [close]
    and its lock leaves a connection stranded, and two tasks for one descriptor
    close the next connection that gets it; the functions of MultiConn, run alone,
    do these actions. *)

From S2P Require Import Prelude Sys CLib MultiConn.

(** Where a task of ep_msg_worker_func is: reading; told by [recv] that the
    client is gone, before [close(cli_fd)]; behind it and before the lock; done. *)
Inductive tpc := TRead | TGone | TClosed | TDone.

#[export] Instance tpc_eq_dec : EqDecision tpc.
Proof. solve_decision. Defined.

(** [opened] are the descriptors of the process, [watched] those the epoll
    instance reports, [recorded] is [ep_fds].  The main thread has the rest
    [batch] of the events epoll_wait reported to go through, and between [accept]
    and the lock of ep_accept_worker_func the descriptor [accepting]. *)
Record estate := mkE {
  opened : gset Z;
  watched : gset Z;
  recorded : gset Z;
  tasks : list (Z * tpc);
  batch : list Z;
  accepting : option Z;
}.

Inductive eaction :=
| EWait (fds : list Z) (* serv_epoll: epoll_wait reported these; [] is a timeout *)
| EAccept (cfd : Z)    (* ep_accept_worker_func: serv_accept returned [cfd] *)
| EAdd                 (* ep_accept_worker_func: the block under the lock *)
| EDispatch            (* serv_epoll: a client is ready, its task is dispatched *)
| ESkip                (* serv_epoll: a failed accept, a signal, an event without EPOLLIN *)
| EStay (i : nat)      (* ep_msg_worker_func: nothing more to read *)
| EGone (i : nat)      (* ep_msg_worker_func: recv returned 0 or failed *)
| EClose (i : nat)     (* ep_msg_worker_func: close(cli_fd) *)
| EForget (i : nat).   (* ep_msg_worker_func: CLOSE_FD, the block under the lock *)

(** The descriptor of task [i] when it is at [pc]. *)
Definition task_at (s : estate) (i : nat) (pc : tpc) : option Z :=
  '(fd, pc') ← tasks s !! i;
  if decide (pc' = pc) then Some fd else None.

Definition set_task (i : nat) (t : Z * tpc) (s : estate) : list (Z * tpc) := <[i := t]> (tasks s).

(** [close(fd)]: the system forgets a closed descriptor in every epoll instance;
    closing a descriptor that is not open fails and changes nothing. *)
Definition close_fd (fd : Z) (s : estate) : estate :=
  mkE (opened s ∖ {[fd]}) (watched s ∖ {[fd]}) (recorded s) (tasks s) (batch s) (accepting s).

(** [EPOLL_CTL_ADD] and [ep_fds.insert]; epoll_ctl fails on a closed descriptor. *)
Definition add_fd (fd : Z) (s : estate) : estate :=
  mkE (opened s) (if decide (fd ∈ opened s) then {[fd]} ∪ watched s else watched s)
    ({[fd]} ∪ recorded s) (tasks s) (batch s) (accepting s).

(** [EPOLL_CTL_DEL] and [ep_fds.erase]. *)
Definition forget_fd (fd : Z) (s : estate) : estate :=
  mkE (opened s) (watched s ∖ {[fd]}) (recorded s ∖ {[fd]}) (tasks s) (batch s) (accepting s).

Definition with_tasks (ts : list (Z * tpc)) (s : estate) : estate :=
  mkE (opened s) (watched s) (recorded s) ts (batch s) (accepting s).
Definition with_main (b : list Z) (a : option Z) (s : estate) : estate :=
  mkE (opened s) (watched s) (recorded s) (tasks s) b a.

Section threads.
Context (listen_fd sig_fd : Z).

(** One action; [None] when it is not possible in the state. *)
Definition eact (s : estate) (a : eaction) : option estate :=
  match a, batch s, accepting s with
  | EWait fds, [], None =>
      if bool_decide (Forall (.∈ watched s) fds /\ NoDup fds) &&
         (Z.of_nat (length fds) <=? EPOLL_FDS_LEN)
      then Some (with_main fds None s) else None
  | EAccept cfd, fd :: rest, None =>
      (* accept(2) returns a descriptor that is not in use *)
      if decide (fd = listen_fd /\ cfd ∉ opened s) then
        Some (with_main rest (Some cfd)
          (mkE ({[cfd]} ∪ opened s) (watched s) (recorded s) (tasks s) (batch s) None))
      else None
  | EAdd, rest, Some cfd =>
      Some (with_main rest None
        (if Z.of_nat (size (recorded s)) <? EPOLL_FDS_LEN then add_fd cfd s else close_fd cfd s))
  | EDispatch, fd :: rest, None =>
      if decide (fd <> listen_fd /\ fd <> sig_fd) then
        Some (with_main rest None (with_tasks (tasks s ++ [(fd, TRead)]) s))
      else None
  | ESkip, _ :: rest, None => Some (with_main rest None s)
  | EStay i, _, _ =>
      (* recv of a descriptor that is not open fails with EBADF *)
      fd ← task_at s i TRead;
      if decide (fd ∈ opened s) then Some (with_tasks (set_task i (fd, TDone) s) s) else None
  | EGone i, _, _ => fd ← task_at s i TRead; Some (with_tasks (set_task i (fd, TGone) s) s)
  | EClose i, _, _ =>
      fd ← task_at s i TGone; Some (close_fd fd (with_tasks (set_task i (fd, TClosed) s) s))
  | EForget i, _, _ =>
      fd ← task_at s i TClosed; Some (forget_fd fd (with_tasks (set_task i (fd, TDone) s) s))
  | _, _, _ => None
  end.

Fixpoint erun (s : estate) (l : list eaction) : option estate :=
  match l with [] => Some s | a :: l => s' ← eact s a; erun s' l end.

(** serv_epoll before its loop: the listening socket and the signal pipe. *)
Definition estart : estate :=
  let base := {[sig_fd]} ∪ {[listen_fd]} in mkE base base base [] [] None.

Lemma task_at_Some s i pc fd : task_at s i pc = Some fd <-> tasks s !! i = Some (fd, pc).
Proof.
  unfold task_at. destruct (tasks s !! i) as [[fd' pc']|]; simpl; [|done].
  case_decide; naive_solver.
Qed.

(** The same as a relation, one rule per outcome. *)
Inductive estep (s : estate) : eaction -> estate -> Prop :=
| estep_wait fds :
    batch s = [] -> accepting s = None -> Forall (.∈ watched s) fds -> NoDup fds ->
    Z.of_nat (length fds) <= EPOLL_FDS_LEN -> estep s (EWait fds) (with_main fds None s)
| estep_accept cfd rest :
    batch s = listen_fd :: rest -> accepting s = None -> (cfd ∉ opened s) ->
    estep s (EAccept cfd)
      (mkE ({[cfd]} ∪ opened s) (watched s) (recorded s) (tasks s) rest (Some cfd))
| estep_add cfd :
    accepting s = Some cfd -> Z.of_nat (size (recorded s)) < EPOLL_FDS_LEN ->
    estep s EAdd (with_main (batch s) None (add_fd cfd s))
| estep_full cfd :
    accepting s = Some cfd -> EPOLL_FDS_LEN <= Z.of_nat (size (recorded s)) ->
    estep s EAdd (with_main (batch s) None (close_fd cfd s))
| estep_dispatch fd rest :
    batch s = fd :: rest -> accepting s = None -> fd <> listen_fd -> fd <> sig_fd ->
    estep s EDispatch (with_main rest None (with_tasks (tasks s ++ [(fd, TRead)]) s))
| estep_skip fd rest :
    batch s = fd :: rest -> accepting s = None -> estep s ESkip (with_main rest None s)
| estep_stay i fd :
    tasks s !! i = Some (fd, TRead) -> (fd ∈ opened s) ->
    estep s (EStay i) (with_tasks (set_task i (fd, TDone) s) s)
| estep_gone i fd :
    tasks s !! i = Some (fd, TRead) -> estep s (EGone i) (with_tasks (set_task i (fd, TGone) s) s)
| estep_close i fd :
    tasks s !! i = Some (fd, TGone) ->
    estep s (EClose i) (close_fd fd (with_tasks (set_task i (fd, TClosed) s) s))
| estep_forget i fd :
    tasks s !! i = Some (fd, TClosed) ->
    estep s (EForget i) (forget_fd fd (with_tasks (set_task i (fd, TDone) s) s)).

Lemma eact_estep s a s' : eact s a = Some s' -> estep s a s'.
Proof.
  unfold eact. intros Ha. destruct a as [fds|cfd| | | |i|i|i|i].
  - destruct (batch s) eqn:?, (accepting s) eqn:?; try done.
    case_match eqn:Hc; [|done]. injection Ha as <-.
    apply andb_true_iff in Hc as [[Hw Hn]%bool_decide_eq_true Hl%Z.leb_le]. by constructor.
  - destruct (batch s) eqn:?, (accepting s) eqn:?; try done.
    case_decide as Hc; [|done]. injection Ha as <-. destruct Hc as [-> Hc].
    by apply (estep_accept s cfd l).
  - destruct (accepting s) eqn:?; [|by destruct (batch s)].
    destruct (batch s) eqn:Hb; injection Ha as <-; rewrite <- Hb; zcase; by constructor.
  - destruct (batch s) eqn:?, (accepting s) eqn:?; try done.
    case_decide as Hc; [|done]. injection Ha as <-. destruct Hc. by constructor.
  - destruct (batch s) eqn:?, (accepting s) eqn:?; try done. injection Ha as <-. by econstructor.
  - apply bind_Some in Ha as (fd & Ht%task_at_Some & Ha).
    case_decide; [|done]. injection Ha as <-. by constructor.
  - apply bind_Some in Ha as (fd & Ht%task_at_Some & [= <-]). by constructor.
  - apply bind_Some in Ha as (fd & Ht%task_at_Some & [= <-]). by constructor.
  - apply bind_Some in Ha as (fd & Ht%task_at_Some & [= <-]). by constructor.
Qed.

(** A property every action keeps holds of every state an execution reaches. *)
Lemma erun_ind (P : estate -> Prop) l s s' :
  (forall s a s', P s -> estep s a s' -> P s') -> P s -> erun s l = Some s' -> P s'.
Proof.
  intros Hstep. revert s. induction l as [|a l IH]; intros s Hs Hl; [by simplify_eq/=|].
  cbn in Hl. destruct (eact s a) as [s1|] eqn:Ha; simplify_eq/=. eauto using eact_estep.
Qed.

(** ** What always holds *)

Definition einv (s : estate) : Prop :=
  watched s ⊆ recorded s /\ watched s ⊆ opened s /\ Z.of_nat (size (recorded s)) <= EPOLL_FDS_LEN.

Lemma size_add (x : Z) (X : gset Z) : (size ({[x]} ∪ X) <= S (size X))%nat.
Proof.
  rewrite (union_comm_L {[x]}), size_union_alt.
  pose proof (subseteq_size ({[x]} ∖ X) ({[x]} : gset Z)
    (subseteq_difference_l _ _ _ (reflexivity _))) as Hone.
  rewrite size_singleton in Hone. lia.
Qed.

Lemma size_remove (x : Z) (X : gset Z) : (size (X ∖ {[x]}) <= size X)%nat.
Proof. apply subseteq_size. set_solver. Qed.

Lemma estep_inv s a s' : einv s -> estep s a s' -> einv s'.
Proof.
  intros (Hr & Ho & Hs) Ha.
  destruct Ha as [fds|cfd rest _ _ _|cfd _ Hlt|cfd|fd rest|fd rest|i fd|i fd|i fd|i fd];
    unfold einv; simpl; split_and!; try done; try set_solver.
  - case_decide; set_solver.
  - case_decide; set_solver.
  - pose proof (size_add cfd (recorded s)). lia.
  - pose proof (size_remove fd (recorded s)). lia.
Qed.

Lemma estart_inv : einv estart.
Proof.
  split_and!; [done|done|]. cbn [recorded estart]. pose proof (size_add sig_fd {[listen_fd]}) as Hs.
  rewrite size_singleton in Hs. unfold EPOLL_FDS_LEN. lia.
Qed.

(** Under every interleaving of the main thread and the tasks, every watched
    descriptor is open and recorded - so that the shutdown closes it - and the
    record stays within EPOLL_FDS_LEN. *)
Theorem epoll_record_covers l s :
  erun estart l = Some s ->
  watched s ⊆ recorded s /\ watched s ⊆ opened s /\ Z.of_nat (size (recorded s)) <= EPOLL_FDS_LEN.
Proof. apply (erun_ind einv); [exact estep_inv|exact estart_inv]. Qed.

(** ** No connection is stranded while no descriptor is reused too early *)

(** Task [t] has found its client gone and has still to close or to forget it. *)
Definition leaving (cfd : Z) (t : Z * tpc) : bool :=
  (t.1 =? cfd) && match t.2 with TGone | TClosed => true | TRead | TDone => false end.

(** accept does not return a descriptor that a task has still to forget. *)
Definition timely (s : estate) (a : eaction) : bool :=
  match a with EAccept cfd => negb (existsb (leaving cfd) (tasks s)) | _ => true end.

Fixpoint timely_run (s : estate) (l : list eaction) : bool :=
  match l with
  | [] => true
  | a :: l => timely s a && match eact s a with Some s' => timely_run s' l | None => true end
  end.

(** Every open descriptor is watched, but for the one being accepted; what a task
    has closed and not yet forgotten stays closed. *)
Definition all_watched (s : estate) : Prop :=
  (forall fd, fd ∈ opened s -> fd ∈ watched s \/ accepting s = Some fd) /\
  (forall i fd, tasks s !! i = Some (fd, TClosed) -> fd ∉ opened s).

Lemma not_leaving s cfd i pc :
  timely s (EAccept cfd) = true -> tasks s !! i = Some (cfd, pc) -> pc <> TClosed.
Proof.
  intros Ht%negb_true_iff Hi ->. apply not_true_iff_false in Ht. apply Ht, existsb_exists.
  exists (cfd, TClosed). split; [by eapply list_elem_of_In, list_elem_of_lookup_2|].
  unfold leaving. simpl. by rewrite Z.eqb_refl.
Qed.

Lemma set_task_lookup s i t j fd pc :
  set_task i t s !! j = Some (fd, pc) -> t = (fd, pc) \/ tasks s !! j = Some (fd, pc).
Proof.
  unfold set_task. intros Hj. destruct (decide (i = j)) as [->|Hne].
  - destruct (decide (j < length (tasks s))%nat).
    + rewrite list_lookup_insert_eq in Hj by done. simplify_eq. auto.
    + rewrite list_insert_ge in Hj by lia. auto.
  - rewrite list_lookup_insert_ne in Hj by done. auto.
Qed.

Lemma estep_all_watched s a s' :
  all_watched s -> timely s a = true -> estep s a s' -> all_watched s'.
Proof.
  intros [Ho Ht] Hok Ha.
  destruct Ha as [fds Hb Hn|cfd rest Hb Hn Hc|cfd Hn Hlt|cfd Hn Hge|fd rest Hb Hn|fd rest Hb Hn
    |i fd Hi Hfd|i fd Hi|i fd Hi|i fd Hi]; split; simpl; try done.
  - intros fd Hfd. rewrite <- Hn. auto.
  - intros fd [->%elem_of_singleton|Hfd]%elem_of_union; [by right|].
    destruct (Ho _ Hfd) as [?|?]; [by left|congruence].
  - intros i fd Hi. pose proof (Ht _ _ Hi). enough (fd <> cfd) by set_solver.
    intros ->. by eapply not_leaving.
  - intros fd Hfd. left. destruct (Ho _ Hfd) as [?|?].
    + case_decide; set_solver.
    + assert (fd = cfd) as -> by congruence. rewrite decide_True by done. set_solver.
  - intros fd [Hfd Hne%not_elem_of_singleton]%elem_of_difference. left.
    destruct (Ho _ Hfd) as [?|?]; [set_solver|congruence].
  - intros i fd Hi. pose proof (Ht _ _ Hi). set_solver.
  - intros fd' Hfd. rewrite <- Hn. auto.
  - intros i fd' [Hi|[_ [_ ?]%list_lookup_singleton_Some]]%lookup_app_Some; [eauto|done].
  - intros fd' Hfd. rewrite <- Hn. auto.
  - intros j fd' [?|Hj]%set_task_lookup; [done|eauto].
  - intros j fd' [?|Hj]%set_task_lookup; [done|eauto].
  - intros fd' [Hfd Hne]%elem_of_difference. destruct (Ho _ Hfd); [left; set_solver|by right].
  - intros j fd' [?|Hj]%set_task_lookup; [simplify_eq; set_solver|].
    pose proof (Ht _ _ Hj). set_solver.
  - intros fd' Hfd. destruct (Ho _ Hfd); [left|by right].
    pose proof (Ht _ _ Hi). set_solver.
  - intros j fd' [?|Hj]%set_task_lookup; [done|eauto].
Qed.

Lemma timely_all_watched l s :
  erun estart l = Some s -> timely_run estart l = true -> all_watched s.
Proof.
  assert (all_watched estart) as Hst by (split; cbn; [by left|done]).
  revert Hst. generalize estart. induction l as [|a l IH]; intros s0 Hs0 Hl Hok; [by simplify_eq/=|].
  cbn in Hl, Hok. destruct (eact s0 a) as [s1|] eqn:Ha; simplify_eq/=.
  apply andb_true_iff in Hok as [Ht Hok]. eauto using estep_all_watched, eact_estep.
Qed.

Lemma timely_recorded l s fd :
  erun estart l = Some s -> timely_run estart l = true -> (fd ∈ opened s) ->
  (fd ∈ watched s /\ fd ∈ recorded s) \/ accepting s = Some fd.
Proof.
  intros Hl Hok Hfd. destruct (timely_all_watched _ _ Hl Hok) as [Ho _].
  pose proof (erun_ind einv l estart s estep_inv estart_inv Hl) as (Hr & _ & _).
  destruct (Ho _ Hfd); [left; set_solver|by right].
Qed.


(** ** A stranded connection *)

(** A descriptor that is open, but that nothing watches, records, accepts or
    reads. *)
Definition stranded (fd : Z) (s : estate) : Prop :=
  (fd ∈ opened s) /\ (fd ∉ watched s) /\ (fd ∉ recorded s) /\ (fd ∉ batch s) /\
  accepting s <> Some fd /\ forall i pc, tasks s !! i = Some (fd, pc) -> pc = TDone.

Lemma stranded_task fd s i t :
  (forall j pc, tasks s !! j = Some (fd, pc) -> pc = TDone) ->
  (forall pc, t = (fd, pc) -> pc = TDone) ->
  forall j pc, set_task i t s !! j = Some (fd, pc) -> pc = TDone.
Proof. intros Hall Ht j pc [?|?]%set_task_lookup; eauto. Qed.

Lemma estep_stranded fd s a s' : stranded fd s -> estep s a s' -> stranded fd s'.
Proof.
  intros (Ho & Hw & Hr & Hb & Hn & Hall) Ha. unfold stranded.
  destruct Ha as [fds _ _ Hfds|cfd rest Heq _ Hc|cfd Heq Hlt|cfd Heq Hge|fd' rest Heq|fd' rest Heq
    |i fd' Hi|i fd' Hi|i fd' Hi|i fd' Hi]; simpl; rewrite ?Heq in *.
  - rewrite Forall_forall in Hfds. split_and!; auto.
  - assert (cfd <> fd) by congruence. split_and!; [set_solver..|congruence|done].
  - assert (cfd <> fd) by congruence. split_and!; [done| |set_solver|done|done|done].
    case_decide; set_solver.
  - assert (cfd <> fd) by congruence. split_and!; [set_solver..|done|done].
  - split_and!; [done..|set_solver|done|].
    intros i pc [Hi|[_ Hi]]%lookup_app_Some; [by eauto|].
    apply list_lookup_singleton_Some in Hi as [_ ?]. simplify_eq. set_solver.
  - split_and!; [done..|set_solver|done|done].
  - split_and!; [done..|]. apply stranded_task; [done|]. by intros pc [= _ <-].
  - assert (fd' <> fd) by (by intros ->; apply Hall in Hi).
    split_and!; [done..|]. apply stranded_task; [done|]. by intros pc [= -> _].
  - assert (fd' <> fd) by (by intros ->; apply Hall in Hi).
    split_and!; [set_solver..|done|]. apply stranded_task; [done|]. by intros pc [= -> _].
  - split_and!; [done|set_solver..|done|]. apply stranded_task; [done|]. by intros pc [= _ <-].
Qed.

(** A client leaves; its descriptor is closed, and given to the next client
    before the task takes the lock. *)
Definition reuse (fd : Z) : list eaction :=
  [EWait [listen_fd]; EAccept fd; EAdd; EWait [fd]; EDispatch; EGone 0; EClose 0;
   EWait [listen_fd]; EAccept fd; EAdd; EForget 0].

Lemma erun_step s a l s1 s2 : eact s a = Some s1 -> erun s1 l = Some s2 -> erun s (a :: l) = Some s2.
Proof. intros Ha Hl. cbn. by rewrite Ha. Qed.

Lemma eact_wait s fd : batch s = [] -> accepting s = None -> (fd ∈ watched s) ->
  eact s (EWait [fd]) = Some (with_main [fd] None s).
Proof.
  intros Hb Hn Hw. unfold eact. rewrite Hb, Hn, bool_decide_eq_true_2; [done|].
  split; [by constructor|apply NoDup_singleton].
Qed.

Lemma eact_accept s cfd rest :
  batch s = listen_fd :: rest -> accepting s = None -> (cfd ∉ opened s) ->
  eact s (EAccept cfd) = Some (with_main rest (Some cfd)
    (mkE ({[cfd]} ∪ opened s) (watched s) (recorded s) (tasks s) (batch s) None)).
Proof. intros Hb Hn Hc. unfold eact. by rewrite Hb, Hn, decide_True. Qed.

Lemma eact_add s cfd : accepting s = Some cfd -> (cfd ∈ opened s) ->
  Z.of_nat (size (recorded s)) < EPOLL_FDS_LEN ->
  eact s EAdd = Some (mkE (opened s) ({[cfd]} ∪ watched s) ({[cfd]} ∪ recorded s)
                        (tasks s) (batch s) None).
Proof.
  intros Hn Hc Hlt%Z.ltb_lt. unfold eact, add_fd. rewrite Hn, Hlt, decide_True by done.
  by destruct (batch s).
Qed.

Lemma eact_dispatch s fd rest :
  batch s = fd :: rest -> accepting s = None -> fd <> listen_fd -> fd <> sig_fd ->
  eact s EDispatch = Some (with_main rest None (with_tasks (tasks s ++ [(fd, TRead)]) s)).
Proof. intros Hb Hn Hl Hs. unfold eact. by rewrite Hb, Hn, decide_True. Qed.

(** The main thread takes one client. *)
Lemma accept_client s cfd :
  batch s = [] -> accepting s = None -> (listen_fd ∈ watched s) -> (cfd ∉ opened s) ->
  Z.of_nat (size (recorded s)) < EPOLL_FDS_LEN ->
  forall l s', erun (mkE ({[cfd]} ∪ opened s) ({[cfd]} ∪ watched s) ({[cfd]} ∪ recorded s)
                  (tasks s) [] None) l = Some s' ->
  erun s (EWait [listen_fd] :: EAccept cfd :: EAdd :: l) = Some s'.
Proof.
  intros Hb Hn Hw Hc Hs l s' Hl.
  eapply erun_step; [by apply eact_wait|].
  eapply erun_step; [by eapply eact_accept|].
  eapply erun_step; [|exact Hl]. refine (eact_add _ cfd _ _ _); [done|simpl; set_solver|done].
Qed.

Ltac fields :=
  cbn [opened watched recorded tasks batch accepting with_main with_tasks close_fd estart].

Lemma reuse_runs fd : fd <> listen_fd -> fd <> sig_fd ->
  exists s, erun estart (reuse fd) = Some s /\ stranded fd s.
Proof.
  intros Hl Hs. pose proof (size_add sig_fd {[listen_fd]}) as Hsize. rewrite size_singleton in Hsize.
  pose proof (size_add fd ({[sig_fd]} ∪ {[listen_fd]})) as Hsize2.
  eexists. split.
  - apply accept_client; fields; [done|done|set_solver|set_solver|unfold EPOLL_FDS_LEN; lia|].
    eapply erun_step; [apply eact_wait; fields; [done|done|set_solver]|].
    eapply erun_step; [by eapply eact_dispatch|].
    do 2 (eapply erun_step; [reflexivity|]).
    apply accept_client; fields; [done|done|set_solver|set_solver|unfold EPOLL_FDS_LEN; lia|].
    eapply erun_step; reflexivity.
  - unfold stranded. simpl. split_and!; [set_solver..|done|].
    intros i pc Hi. destruct i; simplify_eq/=. done.
Qed.

(** C29. A connection can be lost for good: for any descriptor, the client that has
    it may leave and the next client be given the same descriptor between the
    task's close and its lock; the task then removes the new connection from the
    epoll instance and the record.  From there on, whatever happens, it stays
    open and is neither watched nor recorded: it is never read, and not even the
    shutdown closes it. *)
Theorem stale_close_strands_connection fd :
  fd <> listen_fd -> fd <> sig_fd ->
  exists s, erun estart (reuse fd) = Some s /\
    forall l s', erun s l = Some s' -> (fd ∈ opened s') /\ (fd ∉ watched s') /\ (fd ∉ recorded s').
Proof.
  intros Hl Hs. destruct (reuse_runs _ Hl Hs) as (s & Hrun & Hstr).
  exists s. split; [done|]. intros l s' Hl'.
  by destruct (erun_ind (stranded fd) l s s' (estep_stranded fd) Hstr Hl') as (? & ? & ? & _).
Qed.
(** ** A connection closed for another one *)

(** Two events of the descriptor [fd], so two tasks for it, both of which find the
    client gone; the first closes and forgets it, and the next client gets the
    descriptor. *)
Definition twice (fd : Z) : list eaction :=
  [EWait [listen_fd]; EAccept fd; EAdd; EWait [fd]; EDispatch; EWait [fd]; EDispatch;
   EGone 0; EGone 1; EClose 0; EForget 0; EWait [listen_fd]; EAccept fd; EAdd].

(** A second way to lose a connection: the second of two tasks for one descriptor
    closes it after the next client has got it - accepted, watched and recorded, and
    no task has read it since. *)
Theorem double_close_drops_connection fd :
  fd <> listen_fd -> fd <> sig_fd ->
  exists s s', erun estart (twice fd) = Some s /\
    (fd ∈ opened s) /\ (fd ∈ watched s) /\ (fd ∈ recorded s) /\
    eact s (EClose 1) = Some s' /\ (fd ∉ opened s') /\ (fd ∉ watched s').
Proof.
  intros Hl Hs. pose proof (size_add sig_fd {[listen_fd]}) as Hsize. rewrite size_singleton in Hsize.
  pose proof (size_add fd ({[sig_fd]} ∪ {[listen_fd]})) as Hsize2.
  pose proof (size_remove fd ({[fd]} ∪ ({[sig_fd]} ∪ {[listen_fd]}))) as Hsize3.
  do 2 eexists. split.
  - apply accept_client; fields; [done|done|set_solver|set_solver|unfold EPOLL_FDS_LEN; lia|].
    do 2 (eapply erun_step; [apply eact_wait; fields; [done|done|set_solver]|];
      eapply erun_step; [by eapply eact_dispatch|]; cbn [with_main with_tasks]).
    do 4 (eapply erun_step; [reflexivity|]).
    apply accept_client; unfold forget_fd; fields;
      [done|done|set_solver|set_solver|unfold EPOLL_FDS_LEN; lia|]. reflexivity.
  - split_and!; [| | |reflexivity| |]; cbn; set_solver.
Qed.
End threads.

(** ** The actions are what the code does

    Run alone, the two functions of MultiConn that change the shared state do the
    actions above, in that order. *)

(** What a call does to the open and the watched descriptors ([accept] apart,
    whose descriptor is its answer); [ep] is the epoll instance. *)
Definition effect (ep : Z) (k : gset Z * gset Z) (c : call) : gset Z * gset Z :=
  match c with
  | Close fd => (k.1 ∖ {[fd]}, k.2 ∖ {[fd]})
  | EpollCtlAdd ep' fd _ => if decide (ep' = ep /\ fd ∈ k.1) then (k.1, {[fd]} ∪ k.2) else k
  | EpollCtlDel ep' fd => if decide (ep' = ep) then (k.1, k.2 ∖ {[fd]}) else k
  | _ => k
  end.

(** [w'] comes after [w] by the calls [cs], and [s] describes it when [k] are the
    descriptors open and watched before these calls. *)
Definition describes (ep : Z) (k : gset Z * gset Z) (cs : list call) (s : estate)
    (w w' : world server) : Prop :=
  calls w' = calls w ++ cs /\ recorded s = ep_fds (w_st w') /\
  (opened s, watched s) = fold_left (effect ep) cs k.

Section refinement.
Context `{Env} (listen_fd sig_fd : Z).
Implicit Types w : world server.

Lemma effect_reads {A} ep k fd n (l : list A) :
  fold_left (effect ep) (map (fun _ => Recv fd n 0) l) k = k.
Proof. by induction l. Qed.

Lemma set_task_at s i t : is_Some (tasks s !! i) -> set_task i t s !! i = Some t.
Proof. intros Hi%lookup_lt_is_Some. by apply list_lookup_insert_eq. Qed.

Lemma task_at_eq s i fd pc : tasks s !! i = Some (fd, pc) -> task_at s i pc = Some fd.
Proof. apply task_at_Some. Qed.

(** The three actions of a task whose client is gone. *)
Lemma gone_runs s i fd : tasks s !! i = Some (fd, TRead) ->
  exists s', erun listen_fd sig_fd s [EGone i; EClose i; EForget i] = Some s' /\
    opened s' = opened s ∖ {[fd]} /\ watched s' = watched s ∖ {[fd]} ∖ {[fd]} /\
    recorded s' = recorded s ∖ {[fd]} /\ tasks s' = set_task i (fd, TDone) s.
Proof.
  intros Hi. assert (Hsome : is_Some (tasks s !! i)) by eauto. eexists. split_and!.
  - cbn [erun eact]. rewrite (task_at_eq _ _ _ _ Hi). cbn [mbind option_bind].
    erewrite task_at_eq by (cbn [with_tasks tasks]; by apply set_task_at). cbn [mbind option_bind].
    erewrite task_at_eq; [reflexivity|]. cbn [close_fd with_tasks tasks]. apply set_task_at.
    cbn [with_tasks tasks]. rewrite set_task_at by done. eauto.
  - done.
  - done.
  - done.
  - unfold set_task. cbn [forget_fd close_fd with_tasks tasks]. by rewrite !list_insert_insert_eq.
Qed.


(** serv_accept: the calls it makes, and the descriptor it returns. *)
Lemma serv_accept_log (Q : res Z -> world server -> Prop) w :
  returns ->
  (forall r w', r_ret r < 0 -> w_st w' = w_st w -> w_log w' = w_log w ++ [(Accept listen_fd, r)] ->
    Q (Ok (-1)) w') ->
  (forall r r1 r2 n w', env (w_log w) (Accept listen_fd) = Some r -> 0 <= r_ret r ->
    w_st w' = w_st w ->
    w_log w' = w_log w ++ [(Accept listen_fd, r); (FcntlGetfl (r_ret r), r1);
                           (FcntlSetfl (r_ret r) n, r2)] ->
    Q (Ok (r_ret r)) w') ->
  wp (serv_accept listen_fd) Q w.
Proof.
  intros Hret Hfail Hok. unfold serv_accept, set_no_blocking. wp_steps_ret Hret.
  destruct (Z.ltb_spec (r_ret r) 0) as [Hneg|Hpos]; wp_steps_ret Hret; [by eapply Hfail|].
  eapply Hok; [done..|]. simpl. by rewrite <- !app_assoc.
Qed.

Lemma serv_accept_calls (Q : res Z -> world server -> Prop) w :
  returns ->
  (forall r w', r_ret r < 0 -> w_st w' = w_st w -> calls w' = calls w ++ [Accept listen_fd] ->
    accepts (w_log w') = accepts (w_log w) -> Q (Ok (-1)) w') ->
  (forall r w' n, env (w_log w) (Accept listen_fd) = Some r -> 0 <= r_ret r ->
    w_st w' = w_st w -> accepts (w_log w') = accepts (w_log w) ++ [r_ret r] ->
    calls w' = calls w ++ [Accept listen_fd; FcntlGetfl (r_ret r); FcntlSetfl (r_ret r) n] ->
    Q (Ok (r_ret r)) w') ->
  wp (serv_accept listen_fd) Q w.
Proof.
  intros Hret Hfail Hok. apply serv_accept_log; [done|..].
  - intros r w' Hneg Hst Hlog. eapply Hfail; [done|done|..]; unfold calls; rewrite Hlog.
    + by rewrite map_app.
    + rewrite accepts_app. cbn. by rewrite (proj2 (Z.leb_gt _ _)), app_nil_r by done.
  - intros r r1 r2 n w' Hr Hpos Hst Hlog. eapply Hok; [done..| |]; unfold calls; rewrite Hlog.
    + rewrite accepts_app. cbn. by rewrite (proj2 (Z.leb_le _ _)) by done.
    + by rewrite map_app.
Qed.

(** The action of the main thread under the lock. *)
Definition added (cfd : Z) (rest : list Z) (s : estate) : estate :=
  with_main rest None
    (let s1 := mkE ({[cfd]} ∪ opened s) (watched s) (recorded s) (tasks s) rest (Some cfd) in
     if Z.of_nat (size (recorded s)) <? EPOLL_FDS_LEN then add_fd cfd s1 else close_fd cfd s1).

Lemma accept_runs s cfd rest :
  batch s = listen_fd :: rest -> accepting s = None -> (cfd ∉ opened s) ->
  erun listen_fd sig_fd s [EAccept cfd; EAdd] = Some (added cfd rest s).
Proof.
  intros Hb Hn Hc. eapply erun_step; [by eapply eact_accept|].
  eapply erun_step; [|reflexivity]. by destruct rest.
Qed.

(** ep_accept_worker_func, run when the listening socket is next in the batch,
    does the actions of the main thread: it skips the event when accept fails,
    and otherwise accepts and then adds the client, or closes it at the bound. *)
Theorem ep_accept_worker_func_refines t s rest w :
  returns -> batch s = listen_fd :: rest -> accepting s = None ->
  recorded s = ep_fds (w_st w) ->
  (forall r, env (w_log w) (Accept listen_fd) = Some r -> 0 <= r_ret r -> r_ret r ∉ opened s) ->
  wp (ep_accept_worker_func listen_fd t) (fun x w' => x = Ok tt /\ exists s' cs,
    batch s' = rest /\ accepting s' = None /\
    ((erun listen_fd sig_fd s [ESkip] = Some s' /\ accepts (w_log w') = accepts (w_log w) /\
      describes (epfd (w_st w)) (opened s, watched s) cs s' w w') \/
     exists cfd, erun listen_fd sig_fd s [EAccept cfd; EAdd] = Some s' /\
      accepts (w_log w') = accepts (w_log w) ++ [cfd] /\
      describes (epfd (w_st w)) ({[cfd]} ∪ opened s, watched s) cs s' w w')) w.
Proof.
  intros Hret Hb Hn Hrec Hnew. unfold ep_accept_worker_func. apply wp_bind.
  apply serv_accept_calls; [done|..].
  - intros r w1 Hneg Hst Hc Ha. cbn [bind_post]. apply wp_ret. split; [done|].
    exists (with_main rest None s), [Accept listen_fd]. split_and!; [done|done|left]. split_and!.
    + cbn [erun eact]. by rewrite Hb, Hn.
    + done.
    + unfold describes. by rewrite Hst.
  - intros r w1 n Hr Hpos Hst Ha Hc. cbn [bind_post]. specialize (Hnew _ Hr Hpos).
    destruct (Z.eqb_spec (-1) (r_ret r)); [lia|]. cbn [negb]. wp_step. wp_step. cbn [bind_post].
    rewrite Hst, <- Hrec. unfold describes.
    pose proof (accept_runs s (r_ret r) rest Hb Hn Hnew) as Hrun. unfold added in Hrun.
    assert (Hin : r_ret r ∈ {[r_ret r]} ∪ opened s) by set_solver.
    destruct (Z.of_nat (size (recorded s)) <? EPOLL_FDS_LEN).
    + apply wp_bind, wp_sys__returns; [done|]. intros r2 _. cbn [bind_post]. apply wp_modify.
      split; [done|]. eexists _, _.
      split_and!; [| |right; exists (r_ret r); split_and!; [exact Hrun|..]]; [done|done|..].
      * cbn [w_log after]. by rewrite accepts_app, Ha, app_nil_r.
      * unfold calls in *. cbn [w_log after]. by rewrite map_app, Hc, <- app_assoc.
      * cbn. by rewrite Hrec, Hst.
      * cbn. by rewrite !decide_True by done.
    + apply wp_bind, wp_sys__returns; [done|]. intros r2 _. cbn [bind_post]. apply wp_ret.
      split; [done|]. eexists _, _.
      split_and!; [| |right; exists (r_ret r); split_and!; [exact Hrun|..]]; [done|done|..].
      * cbn [w_log after]. by rewrite accepts_app, Ha, app_nil_r.
      * unfold calls in *. cbn [w_log after]. by rewrite map_app, Hc, <- app_assoc.
      * cbn. by rewrite Hrec, Hst.
      * done.
Qed.
End refinement.

(** ** The theorems at concrete inputs *)

Lemma epoll_record_covers_witness :
  let s := mkE {[7; 3; 4]} {[7; 3; 4]} {[7; 3; 4]} [(7, TRead)] [] None in
  watched s ⊆ recorded s /\ watched s ⊆ opened s /\ Z.of_nat (size (recorded s)) <= EPOLL_FDS_LEN.
Proof.
  apply (epoll_record_covers 4 3 [EWait [4]; EAccept 7; EAdd; EWait [7]; EDispatch]). reflexivity.
Defined.


Lemma stale_close_strands_connection_witness :
  exists s, erun 4 3 (estart 4 3) (reuse 4 7) = Some s /\
    forall l s', erun 4 3 s l = Some s' -> (7 ∈ opened s') /\ (7 ∉ watched s') /\ (7 ∉ recorded s').
Proof. apply (stale_close_strands_connection 4 3 7); done. Defined.

(** The listening socket is 4, the signal pipe 3; clients leave at once. *)
Definition leave_env : Env := fun _ _ => Some (ret_ok 0).
Definition demo_threads (ts : list (Z * tpc)) (b : list Z) : estate :=
  mkE {[12; 3; 4]} {[12; 3; 4]} {[12; 3; 4]} ts b None.
Definition demo_server : world server := World (mkServer true (3, 6) 8 {[12; 3; 4]}) 0 [] [].


Lemma ep_accept_worker_func_refines_witness :
  let s := demo_threads [] [4; 12] in
  wp (@ep_accept_worker_func demo_env 4 EP_ET) (fun x w' => x = Ok tt /\ exists s' cs,
    batch s' = [12] /\ accepting s' = None /\
    ((erun 4 3 s [ESkip] = Some s' /\ accepts (w_log w') = [] /\
      describes 8 (opened s, watched s) cs s' demo_server w') \/
     exists cfd, erun 4 3 s [EAccept cfd; EAdd] = Some s' /\ accepts (w_log w') = [] ++ [cfd] /\
      describes 8 ({[cfd]} ∪ opened s, watched s) cs s' demo_server w')) demo_server.
Proof.
  intros s. apply (@ep_accept_worker_func_refines demo_env 4 3 EP_ET s [12] demo_server);
    [apply mc_returns|done|done|done|].
  intros r [= <-] _. by apply (bool_decide_unpack (10 ∉ _)).
Defined.
