(* ===== verification/EpollRefine.v ===== *)
(** * The main thread of the epoll server refines the interleaved system

    EpollThreads has the actions of the threads of serv_epoll; here the whole of
    [serv_epoll] - its start, every turn of its loop, the shutdown - is shown to
    do a sequence of them, with the tasks of the thread pool doing theirs
    whenever the code runs [background].  What the calls of the log mean for the
    kernel's tables ([kernel]) ties the state of the system to the calls made. *)

From S2P Require Import Prelude Sys CLib MultiConn EpollThreads.

(** What an event does to the open and the watched descriptors. *)
Definition effect_of (ep : Z) (k : gset Z * gset Z) (e : event) : gset Z * gset Z :=
  match accept_of e with
  | Some fd => ({[fd]} ∪ k.1, k.2)
  | None => effect ep k (fst e)
  end.

(** The descriptors for which a message task was dispatched. *)
Definition task_of (c : call) : option Z :=
  match c with PoolDispatch "ep_msg_worker_func" [fd; _] => Some fd | _ => None end.
Definition dispatched (L : list event) : list Z := omap task_of (map fst L).

(** Calls that are no [accept] act on the tables by themselves. *)
Lemma effects_of_calls ep L k : Forall (fun c => match c with Accept _ => False | _ => True end) (map fst L) ->
  fold_left (effect_of ep) L k = fold_left (effect ep) (map fst L) k.
Proof.
  revert k. induction L as [|[c r] L IH]; intros k Hall; [done|]. inversion Hall; subst. simpl.
  rewrite IH by done. by destruct c.
Qed.

Lemma dispatched_app L1 L2 : dispatched (L1 ++ L2) = dispatched L1 ++ dispatched L2.
Proof. unfold dispatched. by rewrite map_app, omap_app. Qed.

(** The actions of the tasks, which leave the main thread's part alone. *)
Definition task_action (a : eaction) : Prop :=
  match a with EStay _ | EGone _ | EClose _ | EForget _ => True | _ => False end.

Section system.
Context (listen_fd sig_fd : Z).

Lemma erun_app s l1 l2 s1 s2 :
  erun listen_fd sig_fd s l1 = Some s1 -> erun listen_fd sig_fd s1 l2 = Some s2 ->
  erun listen_fd sig_fd s (l1 ++ l2) = Some s2.
Proof.
  revert s. induction l1 as [|a l1 IH]; intros s H1 H2; [by simplify_eq/=|].
  cbn in *. destruct (eact _ _ s a); simplify_eq/=. eauto.
Qed.

Lemma task_actions_main acts s s' :
  Forall task_action acts -> erun listen_fd sig_fd s acts = Some s' ->
  batch s' = batch s /\ accepting s' = accepting s.
Proof.
  intros Hacts. revert s. induction Hacts as [|a acts Ha _ IH]; intros s Hrun; [by simplify_eq/=|].
  cbn in Hrun. destruct (eact _ _ s a) as [s1|] eqn:Hs1; simplify_eq/=.
  apply eact_estep in Hs1. destruct (IH _ Hrun) as [-> ->]. by destruct Hs1.
Qed.
End system.

Section main_thread.
Context `{Env} (listen_fd sig_fd : Z) (L0 : list event).
Implicit Types w : world server.

(** The kernel's tables after the events [L], which follow [L0]; before them the
    listening socket and the signal pipe are open and nothing is watched. *)
Definition kernel (ep : Z) (L : list event) : gset Z * gset Z :=
  fold_left (effect_of ep) L ({[sig_fd]} ∪ {[listen_fd]}, ∅).

(** The world [w] of the code is in the state [s] of the system. *)
Definition tracks (s : estate) w : Prop :=
  recorded s = ep_fds (w_st w) /\ fst (sig_pipe_fd (w_st w)) = sig_fd /\
  exists L, w_log w = L0 ++ L /\ (opened s, watched s) = kernel (epfd (w_st w)) L /\
    map fst (tasks s) = dispatched L.

(** accept(2) returns a descriptor that is not in use. *)
Definition accept_fresh : Prop := forall L ep r,
  env (L0 ++ L) (Accept listen_fd) = Some r -> 0 <= r_ret r -> r_ret r ∉ (kernel ep L).1.

(** epoll_wait(2) fails, or reports at most [n] of the watched descriptors, each
    once. *)
Definition wait_reports : Prop := forall L ep n t r,
  env (L0 ++ L) (EpollWait ep n t) = Some r -> r_ret r = -1 \/
  (r_ret r = Z.of_nat (length (r_evs r)) /\ r_ret r <= n /\ NoDup (map fst (r_evs r)) /\
   Forall (.∈ (kernel ep L).2) (map fst (r_evs r))).

(** What the tasks do while the main thread waits is some of their actions. *)
Definition background_refines (background : M server unit) : Prop := forall s w,
  tracks s w -> wp background (fun x w' => x = Ok tt /\ exists acts s',
    Forall task_action acts /\ erun listen_fd sig_fd s acts = Some s' /\ tracks s' w') w.

(** A piece of code that made the calls of [L]. *)
Lemma tracks_by s s' w w' L :
  tracks s w -> w_log w' = w_log w ++ L ->
  fold_left (effect_of (epfd (w_st w))) L (opened s, watched s) = (opened s', watched s') ->
  recorded s' = ep_fds (w_st w') -> epfd (w_st w') = epfd (w_st w) ->
  sig_pipe_fd (w_st w') = sig_pipe_fd (w_st w) ->
  map fst (tasks s') = map fst (tasks s) ++ dispatched L -> tracks s' w'.
Proof.
  intros (Hr & Hs & L1 & HL & Hk & Ht) Hlog Heff Hr' Hep Hsig Htasks.
  split_and!; [done|congruence|]. exists (L1 ++ L). rewrite Hlog, HL, app_assoc, dispatched_app.
  split_and!; [done| |congruence]. unfold kernel in *. by rewrite fold_left_app, Hep, <- Hk.
Qed.

(** The same when the calls concern neither the descriptors nor the tasks. *)
Lemma tracks_quiet s s' w w' L :
  tracks s w -> w_log w' = w_log w ++ L ->
  (forall k, fold_left (effect_of (epfd (w_st w))) L k = k) -> dispatched L = [] ->
  opened s' = opened s -> watched s' = watched s -> recorded s' = recorded s ->
  map fst (tasks s') = map fst (tasks s) ->
  ep_fds (w_st w') = ep_fds (w_st w) -> epfd (w_st w') = epfd (w_st w) ->
  sig_pipe_fd (w_st w') = sig_pipe_fd (w_st w) -> tracks s' w'.
Proof.
  intros Htr Hlog Heff Hd Ho Hw Hr Ht Hfds Hep Hsig. eapply tracks_by; [done|done|..|done|done|].
  - by rewrite Heff, Ho, Hw.
  - rewrite Hr, Hfds. by destruct Htr.
  - by rewrite Hd, app_nil_r.
Qed.

(** Some actions after which the main thread has the events [rest] to go
    through. *)
Definition main_does (s : estate) (rest : list Z) w' : Prop := exists acts s',
  erun listen_fd sig_fd s acts = Some s' /\ batch s' = rest /\ accepting s' = None /\ tracks s' w'.

Lemma skip_does s fd rest w w' L :
  tracks s w -> batch s = fd :: rest -> accepting s = None -> w_log w' = w_log w ++ L ->
  (forall k, fold_left (effect_of (epfd (w_st w))) L k = k) -> dispatched L = [] ->
  w_st w' = w_st w -> main_does s rest w'.
Proof.
  intros Htr Hb Hn Hlog Heff Hd Hst. exists [ESkip], (with_main rest None s). split_and!; [|done|done|].
  - cbn. by rewrite Hb, Hn.
  - by eapply tracks_quiet; [..|rewrite Hst|rewrite Hst|rewrite Hst].
Qed.

Lemma ep_accept_does t s rest w :
  returns -> accept_fresh -> tracks s w -> batch s = listen_fd :: rest -> accepting s = None ->
  wp (ep_accept_worker_func listen_fd t) (fun x w' => x = Ok tt /\ main_does s rest w') w.
Proof.
  intros Hret Hfresh Htr Hb Hn. unfold ep_accept_worker_func. apply wp_bind, serv_accept_log; [done|..].
  - intros r w1 Hneg Hst Hlog. cbn [bind_post]. apply wp_ret. split; [done|].
    eapply skip_does; [done|done|done|done| |done|done].
    intros k. cbn. unfold effect_of. cbn. by rewrite (proj2 (Z.leb_gt _ _)) by done.
  - intros r r1 r2 n w1 Hr Hpos Hst Hlog. cbn [bind_post].
    pose proof Htr as (Hrec & _ & L & HL & Hk & _).
    assert (Hnew : r_ret r ∉ opened s).
    { rewrite HL in Hr. pose proof (Hfresh _ (epfd (w_st w)) _ Hr Hpos) as Hf. by rewrite <- Hk in Hf. }
    destruct (Z.eqb_spec (-1) (r_ret r)); [lia|]. cbn [negb]. wp_step. wp_step. cbn [bind_post].
    rewrite Hst, <- Hrec.
    pose proof (accept_runs listen_fd sig_fd s (r_ret r) rest Hb Hn Hnew) as Hrun. unfold added in Hrun.
    destruct (Z.of_nat (size (recorded s)) <? EPOLL_FDS_LEN).
    + apply wp_bind, wp_sys__returns; [done|]. intros r3 _. cbn [bind_post]. apply wp_modify.
      split; [done|]. do 2 eexists. split_and!; [exact Hrun|done|done|].
      eapply tracks_by; [exact Htr|cbn [after w_log]; rewrite Hlog, <- app_assoc; reflexivity|..]; cbn.
      * unfold effect_of. cbn. rewrite (proj2 (Z.leb_le _ _)) by done. cbn.
        rewrite !decide_True by set_solver. done.
      * by rewrite Hrec, Hst.
      * by rewrite Hst.
      * by rewrite Hst.
      * by rewrite app_nil_r.
    + apply wp_bind, wp_sys__returns; [done|]. intros r3 _. cbn [bind_post]. apply wp_ret.
      split; [done|]. do 2 eexists. split_and!; [exact Hrun|done|done|].
      eapply tracks_by; [exact Htr|cbn [after w_log]; rewrite Hlog, <- app_assoc; reflexivity|..]; cbn.
      * unfold effect_of. cbn. by rewrite (proj2 (Z.leb_le _ _)) by done.
      * by rewrite Hrec, Hst.
      * by rewrite Hst.
      * by rewrite Hst.
      * by rewrite app_nil_r.
Qed.

(** The body of the loop over the events, for one event. *)
Lemma epoll_event_does t fd evs s rest w :
  returns -> accept_fresh -> tracks s w -> batch s = fd :: rest -> accepting s = None ->
  wp (epoll_event listen_fd t (fd, evs)) (fun x w' => x = Ok tt /\ main_does s rest w') w.
Proof.
  intros Hret Hfresh Htr Hb Hn. unfold epoll_event. wp_step. wp_step. cbn [bind_post].
  pose proof Htr as (_ & Hsig & _). rewrite Hsig.
  destruct (Z.eqb_spec fd listen_fd) as [->|Hl]; cbn [andb].
  { destruct (has_flag evs EPOLLIN); [by apply ep_accept_does|].
    rewrite !andb_false_r. wp_step. split; [done|]. by eapply (skip_does _ _ _ _ _ []); rewrite ?app_nil_r. }
  destruct (has_flag evs EPOLLIN); cycle 1.
  { rewrite !andb_false_r. wp_step. split; [done|]. by eapply (skip_does _ _ _ _ _ []); rewrite ?app_nil_r. }
  destruct (Z.eqb_spec fd sig_fd) as [->|Hs]; cbn [andb].
  { apply wp_bind, wp_sys__returns; [done|]. intros r _. cbn [bind_post]. wp_step. split; [done|].
    by eapply (skip_does _ _ _ _ _ [(_, r)]). }
  rewrite andb_true_r. destruct (negb (fd =? -1)); cycle 1.
  { wp_step. split; [done|]. by eapply (skip_does _ _ _ _ _ []); rewrite ?app_nil_r. }
  apply wp_bind, wp_sys__returns; [done|]. intros r _. cbn [bind_post]. wp_step. split; [done|].
  exists [EDispatch], (with_main rest None (with_tasks (tasks s ++ [(fd, TRead)]) s)).
  split_and!; [|done|done|].
  - cbn [erun]. by erewrite eact_dispatch by done.
  - eapply (tracks_by _ _ _ _ [(_, r)]); [exact Htr|done|done| |done|done|].
    + by destruct Htr.
    + cbn. by rewrite map_app.
Qed.

Lemma main_does_app s acts s1 rest w' :
  erun listen_fd sig_fd s acts = Some s1 -> main_does s1 rest w' -> main_does s rest w'.
Proof.
  intros Hrun (acts' & s' & Hrun' & ?). exists (acts ++ acts'), s'.
  split; [by eapply erun_app|done].
Qed.

(** The loop over the events reported, from the [i]-th on. *)
Lemma epoll_events_do t s w evs :
  returns -> accept_fresh -> tracks s w -> batch s = map fst evs -> accepting s = None ->
  wp (for_each (range 0 (Z.of_nat (length evs))) (fun i =>
        ev ← index evs i; epoll_event listen_fd t ev))
     (fun x w' => x = Ok tt /\ main_does s [] w') w.
Proof.
  intros Hret Hfresh Htr Hb Hn.
  apply (wp_for_each_range (fun i w' => main_does s (drop (Z.to_nat i) (map fst evs)) w')).
  - lia.
  - intros w' Hd. split; [done|]. rewrite drop_ge in Hd; [done|]. rewrite length_map. lia.
  - intros i w' Hi (acts & s1 & Hrun & Hb1 & Hn1 & Htr1). wp_step.
    apply wp_index; [|rewrite lookupZ_None; lia].
    intros [fd ev] [_ Hev]%lookupZ_Some. cbn [bind_post].
    assert (Hfd : map fst evs !! Z.to_nat i = Some fd) by by rewrite (list_lookup_fmap fst), Hev.
    apply drop_S in Hfd. replace (S (Z.to_nat i)) with (Z.to_nat (i + 1)) in Hfd by lia.
    eapply wp_mono; [eapply epoll_event_does; [done|done|done|by rewrite Hb1|done]|].
    intros x w'' [-> Hd]. by eapply main_does_app.
  - exists [], s. by rewrite drop_0.
Qed.

(** One turn of the loop. *)
Lemma epoll_turn_does background t s w :
  returns -> accept_fresh -> wait_reports -> background_refines background ->
  tracks s w -> batch s = [] -> accepting s = None ->
  wp (epoll_turn background listen_fd t tt) (fun x w' => match x with
    | Ok (inl _) => main_does s [] w'
    | Ok (inr _) => w' = w /\ running (w_st w) = false
    | Stop h => h = HExit 1 /\ main_does s [] w'
    end) w.
Proof.
  intros Hret Hfresh Hwait Hbg Htr Hb Hn. unfold epoll_turn. wp_step. wp_step. cbn [bind_post].
  destruct (running (w_st w)); [|by wp_step].
  apply wp_bind, wp_sys_returns; [done|]. intros r Hr. cbn [bind_post].
  pose proof Htr as (Hrec & Hsig & L & HL & Hk & Ht). rewrite HL in Hr.
  pose proof (Hwait _ _ _ _ _ Hr) as Hreply.
  set (fds := if r_ret r =? -1 then [] else map fst (r_evs r)).
  assert (Hrun : erun listen_fd sig_fd s [EWait fds] = Some (with_main fds None s)).
  { cbn. rewrite Hb, Hn. unfold fds. destruct (Z.eqb_spec (r_ret r) (-1)).
    - by rewrite bool_decide_eq_true_2 by (split; constructor).
    - destruct Hreply as [?|(Hlen & Hle & Hnd & Hall)]; [done|]. rewrite <- Hk in Hall.
      rewrite bool_decide_eq_true_2 by done. cbn [andb].
      by rewrite length_map, <- Hlen, (proj2 (Z.leb_le _ _)) by done. }
  assert (Htr1 : tracks (with_main fds None s) (after (EpollWait (epfd (w_st w)) EPOLL_FDS_LEN 5000) r w)).
  { by eapply (tracks_quiet _ _ _ _ [(_, r)]); [exact Htr|..]. }
  apply wp_bind. eapply wp_mono; [apply (Hbg _ _ Htr1)|].
  intros x w2 (-> & acts & s2 & Hacts & Hrun2 & Htr2). cbn [bind_post].
  destruct (task_actions_main _ _ _ _ _ Hacts Hrun2) as [Hb2 Hn2]. cbn in Hb2, Hn2.
  pose proof (erun_app _ _ _ _ _ _ _ Hrun Hrun2) as Hrun12.
  destruct (Z.eqb_spec (r_ret r) 0) as [H0|H0].
  { wp_step. eexists _, s2. split_and!; [exact Hrun12| |done|done]. rewrite Hb2. unfold fds.
    destruct (_ =? _) eqn:?; [done|]. destruct Hreply as [?|(Hlen & _)]; [lia|].
    destruct (r_evs r); [done|simpl in Hlen; lia]. }
  unfold fds in *. destruct (Z.eqb_spec (r_ret r) (-1)) as [H1|H1].
  { wp_step. split; [done|]. by eexists _, s2. }
  destruct Hreply as [?|(Hlen & _)]; [done|]. apply wp_bind. rewrite Hlen.
  eapply wp_mono; [by eapply epoll_events_do|]. intros x w3 [-> Hd]. cbn [bind_post].
  wp_step. by eapply main_does_app.
Qed.

(** A task of the pool in the same terms: run when it is reading, it does its
    actions; with others before and after it, it is a [background]. *)
Lemma ep_msg_does fuel fd t rs r s i w :
  returns -> recv_contract -> drains (Recv fd (BUF_SIZE - 1) 0) (w_log w) rs r ->
  (length rs < fuel)%nat -> tracks s w -> tasks s !! i = Some (fd, TRead) -> (fd ∈ opened s) ->
  wp (ep_msg_worker_func fuel fd t) (fun x w' => x = Ok tt /\ exists acts s',
    Forall task_action acts /\ erun listen_fd sig_fd s acts = Some s' /\
    tasks s' = <[i := (fd, TDone)]> (tasks s) /\ tracks s' w') w.
Proof.
  intros Hret Hrecv Hd Hfuel Htr Hi Ho. eapply wp_mono; [by apply ep_msg_wp|].
  intros x w' (-> & _ & (L & HL & Hcs) & Hst). split; [done|].
  set (b := match t, rs with EP_LT, _ :: _ => false | _, _ => lost r end) in *.
  assert (Heff : forall k, fold_left (effect_of (epfd (w_st w))) L k =
    if b then (k.1 ∖ {[fd]}, k.2 ∖ {[fd]} ∖ {[fd]}) else k).
  { intros k. rewrite effects_of_calls, Hcs, fold_left_app, effect_reads.
    - destruct b; [|done]. cbn. by rewrite decide_True.
    - rewrite Hcs. apply Forall_app. split; [by apply Forall_map, Forall_true|].
      destruct b; by repeat constructor. }
  assert (Hdis : dispatched L = []).
  { unfold dispatched. rewrite Hcs, omap_app. clear Heff Hcs.
    induction (reads_of t rs r); [by destruct b|done]. }
  assert (Htasks : map fst (set_task i (fd, TDone) s) = map fst (tasks s)).
  { unfold set_task. etransitivity; [apply (list_fmap_insert fst)|].
    apply list_insert_id. by rewrite (list_lookup_fmap fst), Hi. }
  pose proof Htr as (Hrec & _). destruct b.
  - destruct (gone_runs listen_fd sig_fd s i fd Hi) as (s' & Hrun & Ho' & Hw' & Hr' & Ht').
    exists [EGone i; EClose i; EForget i], s'. split_and!; [by repeat constructor|done|done|].
    eapply tracks_by; [exact Htr|exact HL|..]; rewrite ?Hst; try done.
    + by rewrite Heff, Ho', Hw'.
    + by rewrite Hr', Hrec.
    + by rewrite Ht', Htasks, Hdis, app_nil_r.
  - exists [EStay i], (with_tasks (set_task i (fd, TDone) s) s).
    split_and!; [by repeat constructor| |done|].
    + cbn. rewrite (task_at_eq _ _ _ _ Hi). cbn. by rewrite decide_True.
    + eapply tracks_quiet; [exact Htr|exact HL|done|done|done|done|done|done|by rewrite Hst..].
Qed.

Lemma background_ret : background_refines (mret tt).
Proof. intros s w Htr. wp_step. split; [done|]. by exists [], s. Qed.

Lemma background_seq m1 m2 :
  background_refines m1 -> background_refines m2 -> background_refines (m1;; m2).
Proof.
  intros H1 H2 s w Htr. apply wp_bind. eapply wp_mono; [by apply H1|].
  intros x w1 (-> & acts1 & s1 & Ha1 & Hr1 & Htr1). cbn [bind_post].
  eapply wp_mono; [by apply H2|]. intros x w2 (-> & acts2 & s2 & Ha2 & Hr2 & Htr2). split; [done|].
  exists (acts1 ++ acts2), s2. split_and!; [by apply Forall_app|by eapply erun_app|done].
Qed.


(** The task that handles signals leaves the tables alone. *)
Lemma background_sig fuel :
  recv_contract ->
  (forall h, exists rs r, drains (Recv sig_fd 1 0) h rs r /\ (length rs < fuel)%nat) ->
  background_refines (ep_sig_worker_func fuel).
Proof.
  intros Hrecv Hdrains s w Htr. destruct (Hdrains (w_log w)) as (rs & r & Hd & Hfuel).
  unfold ep_sig_worker_func.
  assert (Hread : forall v w1 r1, tracks s w1 -> ep_fds v = ep_fds (w_st w1) ->
    epfd v = epfd (w_st w1) -> sig_pipe_fd v = sig_pipe_fd (w_st w1) -> forall e o,
    tracks s (World v e (w_log w1 ++ [(Recv sig_fd 1 0, r1)]) o)).
  { intros v w1 r1 Htr1 ??? e o. by eapply (tracks_quiet _ _ w1 _ [(_, r1)]); [exact Htr1|..]. }
  apply (wp_while_drains (Recv sig_fd 1 0) _ (fun _ _ w1 => tracks s w1) _ fuel tt w rs r);
    [| |done|done|done].
  - intros ps [] w1 r1 Htr1 Hr1 Hpos. unfold ep_sig_turn. wp_step. wp_step. cbn [bind_post].
    pose proof Htr1 as (_ & -> & _). wp_step. eapply recv_wp; [done|done|simpl; lia|].
    intros [Hle Hlen]. cbn [bind_post]. replace (r_ret r1 =? 1) with true by lia. wp_step.
    apply wp_index; [|rewrite lookupZ_None, length_buf_write; simpl; lia].
    intros sig _. cbn [bind_post]. wp_step. apply wp_when; intros _; wp_steps; exists tt;
      (split_and!; [done|done|]); by apply Hread.
  - intros [] w1 Htr1 Hr1 Hneg. unfold ep_sig_turn. wp_step. wp_step. cbn [bind_post].
    pose proof Htr1 as (_ & -> & _). wp_step. eapply recv_wp; [done|done|simpl; lia|].
    intros _. cbn [bind_post]. rewrite (proj2 (Z.eqb_neq _ _)) by lia. wp_step. split; [done|].
    exists [], s. split_and!; [done|done|]. by apply Hread.
Qed.
End main_thread.

(** ** The whole server *)

Section serv_epoll.
Context `{Env} (listen_fd : Z).
Implicit Types w : world server.

(** What [serv_epoll] has done when it stops: a sequence of actions of the
    system, which led to [s] in the world [w1]; then, unless it was cut short in
    its loop, the shutdown. *)
Definition epoll_done (sig_fd : Z) (L0 : list event) (x : res unit) w' : Prop :=
  exists acts s w1, erun listen_fd sig_fd (estart listen_fd sig_fd) acts = Some s /\
    tracks listen_fd sig_fd L0 s w1 /\ batch s = [] /\ accepting s = None /\
    ((x = Stop (HExit 0) /\ running (w_st w1) = false /\
      comes_by w1 (map Close (elements (recorded s) ++ [snd (sig_pipe_fd (w_st w1))])) w' /\
      (timely_run listen_fd sig_fd (estart listen_fd sig_fd) acts = true ->
       forall fd, (fd ∈ opened s) -> fd ∈ closed (drop (length (w_log w1)) (w_log w')))) \/
     ((x = Stop (HExit 1) \/ x = Stop HFuel) /\ w' = w1)).

(** What the calls before the loop make of the tables. *)
Lemma start_tracks sig_fd L0 w ep r1 r2 r3 r4 r5 :
  w_log w = L0 ++ [(EpollCreate EPOLL_FDS_LEN, r1); (EpollCtlAdd ep listen_fd EPOLLIN, r2);
    (EpollCtlAdd ep sig_fd EPOLLIN, r3); (HardwareConcurrency, r4); (PoolNew (r_ret r4), r5)] ->
  epfd (w_st w) = ep -> fst (sig_pipe_fd (w_st w)) = sig_fd ->
  ep_fds (w_st w) = {[sig_fd]} ∪ {[listen_fd]} ->
  tracks listen_fd sig_fd L0 (estart listen_fd sig_fd) w.
Proof.
  intros Hlog Hep Hsig Hfds. split_and!; [by rewrite Hfds|done|]. eexists. split_and!; [exact Hlog| |done].
  unfold kernel, effect_of. cbn. rewrite Hep.
  rewrite (decide_True (P := ep = ep /\ listen_fd ∈ {[sig_fd; listen_fd]})) by set_solver. cbn.
  rewrite decide_True by set_solver. cbn. by rewrite (right_id_L ∅ (∪)).
Qed.

End serv_epoll.

(** ** The theorem at a concrete input

    The listening socket is 4, the signal pipe (3, 6), the epoll instance 8; the
    kernel answers by its tables: a client is always waiting to be accepted, and
    whoever reads the signal pipe finds one SIGINT in it. *)

Lemma kernel_opened listen_fd sig_fd ep ep' L :
  (kernel listen_fd sig_fd ep L).1 = (kernel listen_fd sig_fd ep' L).1.
Proof.
  unfold kernel. generalize (({[sig_fd; listen_fd]}, ∅) : gset Z * gset Z). intros k.
  enough (Hgen : forall k', k'.1 = k.1 ->
    (fold_left (effect_of ep) L k').1 = (fold_left (effect_of ep') L k).1) by by apply Hgen.
  revert k. induction L as [|[c r] L IH]; intros k k' Hk; [done|]. cbn [fold_left]. apply IH.
  unfold effect_of, accept_of. cbn [fst]. destruct c; cbn; repeat case_decide; cbn; rewrite ?Hk; try done.
  by destruct (0 <=? r_ret r); cbn; rewrite ?Hk.
Qed.

Definition unused (X : gset Z) : Z := foldr Z.max 9 (elements X) + 1.

Lemma unused_fresh X : unused X ∉ X.
Proof.
  unfold unused. intros Hin%elem_of_elements. revert Hin.
  enough (Hle : forall l x, x ∈ l -> x <= foldr Z.max 9 l) by (intros Hin%Hle; lia).
  induction l as [|y l IH]; intros x; [by intros ?%not_elem_of_nil|].
  intros [->|Hx]%elem_of_cons; simpl; [lia|]. apply IH in Hx. lia.
Qed.

Definition is_recv (e : event) : bool := match fst e with Recv _ _ _ => true | _ => false end.

Definition demo_kernel : Env := fun h c => Some (match c with
  | EpollCreate _ => ret_ok 8
  | EpollWait ep n _ =>
      if n <? 1 then ret_err 0
      else if decide (4 ∈ (kernel 4 3 ep h).2) then ret_evs [(4, EPOLLIN)] else ret_evs []
  | Accept _ => ret_ok (unused (kernel 4 3 8 h).1)
  | Recv fd len _ =>
      if (1 <=? len) && negb (match last h with Some e => is_recv e | None => false end)
      then ret_data [SIGINT] else ret_err EAGAIN
  | _ => ret_ok 0
  end).

Definition demo_start : world server := World (mkServer true (3, 6) (-1) ∅) 0 [] [].

Lemma demo_background : background_refines 4 3 [] (@ep_sig_worker_func demo_kernel 2).
Proof.
  apply background_sig.
  - intros h fd len fl r [= <-] Hlen. unfold read_ok.
    destruct (_ && _) eqn:E; [apply andb_true_iff in E as [E _]|]; simpl; lia.
  - intros h. destruct (match last h with Some e => is_recv e | None => false end) eqn:E.
    + exists [], (ret_err EAGAIN). split; [|simpl; lia]. constructor; [|done].
      unfold env, demo_kernel. by rewrite E.
    + exists [ret_data [SIGINT]], (ret_err EAGAIN). split; [|simpl; lia]. apply drains_more; [|done|].
      * unfold env, demo_kernel. by rewrite E.
      * constructor; [|done]. unfold env, demo_kernel. by rewrite last_snoc.
Qed.

