(* ===== verification/LibevMulti.v ===== *)
(** * The single-threaded libevent server (server/include/libev_multi_con_server.hpp)

    Its start, the callbacks libevent runs one after the other, and [msg_cb], the
    plain-event variant of the message callback that the file keeps beside the
    bufferevent one. *)

From S2P Require Import Prelude Sys CLib.

(** [succ_cli_count], the only global. *)
Definition count := Z.
Definition count_init : count := 0.

Section server.
Context `{Env}.

Definition tcp_server_init `{InetPton} (ip : string) (port : Z) : M count Z :=
  let srv_addr := sockaddr_in ip port in
  srv_fd ← sys_ (Socket AF_INET SOCK_STREAM 0);
  assert_ (0 <=? srv_fd);;
  sys_ (EvutilReuseable srv_fd);;
  let error := (sys_ (EvutilClosesocket srv_fd);; mret (-1)) : M count Z in
  ret ← sys_ (Bind srv_fd srv_addr);
  if ret =? -1 then error
  else
    ret ← sys_ (Listen srv_fd 65535);
    if ret =? -1 then error
    else
      sys_ (EvutilNonblocking srv_fd);;
      mret srv_fd.

(** One turn of the loop of [msg_cb]: [true] is the [break] and [false] the
    [goto ERROR]. *)
Definition msg_turn (cli_fd : Z) (buf : list Z) : M count (list Z + bool) :=
  '(n, buf) ← recv cli_fd buf (BUF_SIZE - 1) 0;
  if 0 <? n then
    buf ← terminate_and_print cli_fd n buf;
    mret (inl buf)
  else if n <? 0 then
    e ← get_errno;
    if negb (e =? EAGAIN) && negb (e =? EWOULDBLOCK) then mret (inr false) else mret (inr true)
  else mret (inr false).

(** "OK\r\n" *)
Definition OK_CRLF : list Z := OK ++ [13; 10].

(** [buf] is the content of the uninitialised array, [ev] the event passed as
    [arg]. *)
Definition msg_cb (fuel : nat) (buf : list Z) (cli_fd ev : Z) : M count unit :=
  answer ← while_ fuel (msg_turn cli_fd) buf;
  if answer : bool then
    sys_ (Sleep 100);;
    sys_ (Send cli_fd OK_CRLF 0);;
    mret tt
  else
    sys_ (EventFree ev);;
    sys_ (Close cli_fd);;
    mret tt.

Definition signal_cb (sig base : Z) : M count unit :=
  if sig =? SIGINT then sys_ (EventBaseLoopexit base);; mret tt else mret tt.

(** One turn of the loop of [be_msg_cb]. *)
Definition be_msg_turn (be cli_fd : Z) (buf : list Z) : M count (list Z + unit) :=
  '(size, buf) ← bufferevent_read be buf (BUF_SIZE - 1);
  let n := wrap_s 32 size in
  if n <=? 0 then mret (inr tt)
  else
    modify (fun c => wrap_s 32 (c + 1));;
    buf ← terminate_and_print cli_fd n buf;
    mret (inl buf).

Definition be_msg_cb (fuel : nat) (buf : list Z) (be : Z) : M count unit :=
  cli_fd ← sys_ (BevGetfd be);
  while_ fuel (be_msg_turn be cli_fd) buf;;
  sys_ (Sleep 100);;
  sys_ (BevWrite be OK);;
  mret tt.

Definition be_event_cb (be event : Z) : M count unit :=
  sys_ (BevGetfd be);;
  if has_flag event BEV_EVENT_EOF then sys_ (BevFree be);; mret tt
  else if has_flag event BEV_EVENT_ERROR then sys_ (BevFree be);; mret tt
  else mret tt.

Definition accept_cb (srv_fd base : Z) : M count unit :=
  cli_fd ← sys_ (Accept srv_fd);
  if cli_fd <? 0 then mret tt
  else
    sys_ (EvutilNonblocking cli_fd);;
    be ← sys_ (BevSocketNew base cli_fd BEV_OPT_CLOSE_ON_FREE);
    sys_ (BevSetcb be "be_msg_cb" "" "be_event_cb" [base]);;
    sys_ (BevEnable be (Z.lor EV_READ EV_PERSIST));;
    mret tt.

(** The callbacks registered, by name. *)
Definition callback (fuel : nat) (buf : list Z) (base : Z) (cb : string) (args : list Z)
    : M count unit :=
  match args with
  | [a] =>
      if bool_decide (cb = "accept_cb") then accept_cb a base
      else if bool_decide (cb = "signal_cb") then signal_cb a base
      else if bool_decide (cb = "be_msg_cb") then be_msg_cb fuel buf a
      else stop HUB
  | [a; event] => if bool_decide (cb = "be_event_cb") then be_event_cb a event else stop HUB
  | _ => stop HUB
  end.

Definition start_libev_multi_server `{InetPton} (fuel : nat) (buf : list Z) (ip : string) (port : Z)
    : M count unit :=
  srv_fd ← tcp_server_init ip port;
  if srv_fd =? -1 then mret tt
  else
    base ← sys_ EventBaseNew;
    sig_listener ← sys_ (EventNew base SIGINT (Z.lor EV_SIGNAL EV_PERSIST) "signal_cb" [base]);
    sys_ (EventAdd sig_listener);;
    accept_listener ← sys_ (EventNew base srv_fd (Z.lor EV_READ EV_PERSIST) "accept_cb" [base]);
    sys_ (EventAdd accept_listener);;
    event_loop fuel base (callback fuel buf base);;
    sys_ (EventBaseFree base);;
    sys_ (Close srv_fd);;
    mret tt.
End server.

(** ** Properties *)

Section props.
Context `{Env}.
Implicit Types w : world count.

(** Every outcome of [tcp_server_init]: the program stops at the assertion when
    there is no socket; when bind or listen fails the socket is closed and -1
    returned; otherwise the socket returned is bound to the address asked for,
    listening and non-blocking - and no socket is ever left behind. *)
Theorem tcp_server_init_outcomes `{InetPton} ip port w :
  returns ->
  wp (tcp_server_init ip port) (fun r w' => w_st w' = w_st w /\
    exists fd, let setup := [Socket AF_INET SOCK_STREAM 0; EvutilReuseable fd;
        Bind fd (sockaddr_in ip port)] in
    match r with
    | Stop h => h = HAssert /\ fd < 0 /\ calls w' = calls w ++ [Socket AF_INET SOCK_STREAM 0]
    | Ok ret => 0 <= fd /\
        ((ret = -1 /\ (calls w' = calls w ++ setup ++ [EvutilClosesocket fd] \/
            calls w' = calls w ++ setup ++ [Listen fd 65535; EvutilClosesocket fd])) \/
         (ret = fd /\ calls w' = calls w ++ setup ++ [Listen fd 65535; EvutilNonblocking fd]))
    end) w.
Proof.
  intros Hret. unfold tcp_server_init, calls.
  wp_steps_ret Hret; [repeat (case_match; wp_steps_ret Hret)|]; (split; [done|]);
    exists (r_ret r); simpl; rewrite !map_app, <- ?app_assoc; simpl; repeat split; try lia; auto.
Qed.

(** The plain-event message callback: if the socket holds the chunks [rs] and
    then gives [r], every chunk is read inside the array and printed up to its
    first NUL; then the client is answered once when the socket would block, or
    its event is freed and its socket closed when it is gone or in error. *)
Theorem msg_cb_serves fuel buf fd ev rs r w :
  returns -> recv_contract -> length buf = Z.to_nat BUF_SIZE ->
  drains (Recv fd (BUF_SIZE - 1) 0) (w_log w) rs r -> (length rs < fuel)%nat ->
  wp (msg_cb fuel buf fd ev) (fun x w' => x = Ok tt /\ w_st w' = w_st w /\
    w_out w' = w_out w ++ concat (map (message_out fd) rs) /\
    calls w' = calls w ++ replicate (S (length rs)) (Recv fd (BUF_SIZE - 1) 0) ++
      (if (r_ret r <? 0) && ((r_errno r =? EAGAIN) || (r_errno r =? EWOULDBLOCK))
       then [Sleep 100; Send fd OK_CRLF 0] else [EventFree ev; Close fd])) w.
Proof.
  intros Hret Hrecv Hbuf Hd Hfuel. unfold msg_cb. wp_step.
  set (rc := Recv fd (BUF_SIZE - 1) 0) in *.
  apply (wp_while_drains rc _ (fun ps buf' w' => length buf' = Z.to_nat BUF_SIZE /\ w_st w' = w_st w /\
    w_out w' = w_out w ++ concat (map (message_out fd) ps) /\
    calls w' = calls w ++ replicate (length ps) rc) _ fuel buf w rs r); [| |done|done|].
  - intros ps a w' r' (Hlen & Hst & Hout & Hlog) Hr Hpos. unfold msg_turn.
    wp_step. apply (recv_wp _ _ _ _ r'); [done|done|unfold BUF_SIZE in *; lia|].
    intros Hok. cbn [bind_post]. rewrite (proj2 (Z.ltb_lt _ _)) by done.
    wp_step. apply terminate_and_print_wp; [done|done|done|]. intros buf' Hbuf'. cbn [bind_post]. wp_step.
    exists buf'. unfold calls in *. simpl. split_and!; [done|done|done|done| |].
    + by rewrite Hout, map_app, concat_app, <- app_assoc; simpl; rewrite app_nil_r.
    + by rewrite map_app, Hlog, length_app, replicate_add, <- app_assoc.
  - intros a w' (Hlen & Hst & Hout & Hlog) Hr Hneg. unfold msg_turn.
    wp_step. apply (recv_wp _ _ _ _ r); [done|done|unfold BUF_SIZE in *; lia|].
    intros Hok. cbn [bind_post]. rewrite (proj2 (Z.ltb_ge _ _)) by done. unfold calls in *.
    destruct (Z.ltb_spec (r_ret r) 0); cbn [andb]; [wp_step; wp_step; unfold after; simpl|].
    + rewrite (proj2 (Z.ltb_lt _ _)) by done. rewrite <- negb_orb.
      destruct (_ || _); simpl; wp_steps_ret Hret; (split_and!; [done|done|done|]);
        rewrite !map_app, Hlog, app_comm_cons, replicate_cons_app, <- !app_assoc; done.
    + wp_steps_ret Hret. split_and!; [done|done|done|].
      rewrite !map_app, Hlog, app_comm_cons, replicate_cons_app, <- !app_assoc. done.
  - split_and!; [done|done|by rewrite app_nil_r|by rewrite app_nil_r].
Qed.

(** ** The whole server *)

(** The descriptors given to a bufferevent, and the number of messages printed. *)
Definition bev_of (c : call) : option Z := match c with BevSocketNew _ fd _ => Some fd | _ => None end.
Definition bevs (L : list event) : list Z := omap bev_of (map fst L).
Definition is_msg (o : output) : bool := match o with OutMsg _ _ _ => true | _ => false end.

Lemma bevs_app L1 L2 : bevs (L1 ++ L2) = bevs L1 ++ bevs L2.
Proof. unfold bevs. by rewrite map_app, omap_app. Qed.

(** Every connection accepted was given to one bufferevent, in order of acceptance,
    and the counter is the number of messages printed, as an [int]. *)
Definition accounted w : Prop :=
  bevs (w_log w) = accepts (w_log w) /\
  w_st w = wrap_s 32 (Z.of_nat (countb is_msg (w_out w))).

Lemma wrap_s_add v : wrap_s 32 (wrap_s 32 v + 1) = wrap_s 32 (v + 1).
Proof.
  unfold wrap_s. f_equal.
  replace ((v + 2 ^ (32 - 1)) mod 2 ^ 32 - 2 ^ (32 - 1) + 1 + 2 ^ (32 - 1))
    with ((v + 2 ^ (32 - 1)) mod 2 ^ 32 + 1) by lia.
  rewrite Zplus_mod_idemp_l. f_equal. lia.
Qed.

(** A call that neither accepts nor makes a bufferevent. *)
Definition plain (c : call) : Prop :=
  match c with Accept _ | BevSocketNew _ _ _ => False | _ => True end.

Lemma accounted_after c r w : plain c -> accounted w -> accounted (after c r w).
Proof.
  intros Hc [Hb Hn]. split; [|done]. cbn [w_log after]. rewrite bevs_app, accepts_app, Hb.
  by destruct c.
Qed.
#[local] Hint Extern 0 (plain _) => exact I : server.
#[local] Hint Resolve accounted_after : server.

(** What running a callback leaves: the account, unless a call did not return. *)
Definition keeps_account {A} (r : res A) w : Prop :=
  match r with Ok _ | Stop HFuel => accounted w | Stop h => h = HBlocked end.

Lemma be_msg_turn_accounts be fd buf w :
  bev_read_contract -> length buf = Z.to_nat BUF_SIZE -> accounted w ->
  wp (be_msg_turn be fd buf) (fun r w' => match r with
    | Ok (inl buf') => length buf' = Z.to_nat BUF_SIZE /\ accounted w'
    | Ok (inr _) => accounted w'
    | Stop h => h = HBlocked
    end) w.
Proof.
  intros Hbev Hlen Hw. unfold be_msg_turn. wp_step.
  destruct (env (w_log w) (BevRead be (BUF_SIZE - 1))) as [r|] eqn:Hr.
  2: { unfold bufferevent_read. apply wp_bind, wp_sys; [done|congruence]. }
  destruct (Hbev _ _ _ _ Hr ltac:(done)) as [Hpos Hok]. pose proof Hok as [Hle Hdl].
  unfold BUF_SIZE in Hle, Hlen.
  apply (bufferevent_read_wp _ _ _ r); [done|lia|]. cbn [bind_post].
  rewrite wrap_s32_id by lia. zcase; [wp_step; auto with server|].
  wp_step. wp_step. cbn [bind_post]. wp_step. apply terminate_and_print_wp; [done|done|done|].
  intros buf' Hbuf'. cbn [bind_post]. wp_step. split; [done|].
  destruct Hw as [Hb Hn]. split; cbn [w_log w_st w_out after].
  - rewrite bevs_app, accepts_app, Hb. done.
  - rewrite Hn, wrap_s_add, countb_app. unfold message_out.
    rewrite (proj2 (Z.ltb_lt _ _)) by done. cbn [countb is_msg]. f_equal. lia.
Qed.

Lemma be_msg_cb_accounts fuel buf be w :
  bev_read_contract -> length buf = Z.to_nat BUF_SIZE -> accounted w ->
  wp (be_msg_cb fuel buf be) keeps_account w.
Proof.
  intros Hbev Hlen Hw. unfold be_msg_cb. do 2 wp_step; [done|]. cbn [bind_post]. wp_step.
  apply (wp_while (fun buf w' => length buf = Z.to_nat BUF_SIZE /\ accounted w')).
  - by intros ? ? [_ ?].
  - intros buf' w' [Hlen' Hw']. eapply wp_mono; [by apply be_msg_turn_accounts|].
    intros [[buf2|[]]|h] w2; cbn [bind_post]; [done| |by intros ->].
    intros Hw2. wp_steps; unfold keeps_account; auto 8 with server.
  - auto with server.
Qed.

Lemma be_event_cb_accounts be ev w : accounted w -> wp (be_event_cb be ev) keeps_account w.
Proof.
  intros Hw. unfold be_event_cb. do 2 wp_step; [done|]. cbn [bind_post].
  repeat case_match; wp_steps; unfold keeps_account; auto 8 with server.
Qed.

Lemma signal_cb_accounts sig base w : accounted w -> wp (signal_cb sig base) keeps_account w.
Proof.
  intros Hw. unfold signal_cb. case_match; wp_steps; unfold keeps_account; auto with server.
Qed.

Lemma accept_cb_accounts fd base w : accounted w -> wp (accept_cb fd base) keeps_account w.
Proof.
  intros [Hb Hn]. unfold accept_cb. do 2 wp_step; [done|]. cbn [bind_post].
  destruct (Z.ltb_spec (r_ret r) 0); wp_steps; try done; (split; [|done]); cbn [w_log after];
    rewrite ?bevs_app, ?accepts_app, Hb; cbn; [rewrite (proj2 (Z.leb_gt _ _)) by done; by rewrite !app_nil_r|].
  rewrite (proj2 (Z.leb_le _ _)) by done. by rewrite !app_nil_r.
Qed.

(** libevent runs the callbacks that were registered, with their arguments. *)
Definition registered (cb : string) (args : list Z) : Prop :=
  (cb ∈ ["accept_cb"; "signal_cb"; "be_msg_cb"] /\ exists a, args = [a]) \/
  (cb = "be_event_cb" /\ exists a e, args = [a; e]).
Definition dispatch_contract : Prop := forall h base r cb args,
  env h (EventBaseDispatch base) = Some r -> r_cb r = Some (cb, args) -> registered cb args.

Lemma callback_accounts fuel buf base cb args w :
  bev_read_contract -> length buf = Z.to_nat BUF_SIZE -> registered cb args -> accounted w ->
  wp (callback fuel buf base cb args) keeps_account w.
Proof.
  intros Hbev Hlen [[Hcb [a ->]]|[-> (a & e & ->)]] Hw; [|by apply be_event_cb_accounts].
  rewrite !elem_of_cons, elem_of_nil in Hcb. destruct Hcb as [->|[->|[->|[]]]]; simpl.
  - by apply accept_cb_accounts.
  - by apply signal_cb_accounts.
  - by apply be_msg_cb_accounts.
Qed.

(** C20. The server as a whole, whatever callbacks libevent runs and in whatever order:
    no access is out of range, and at every return to libevent and at the end every
    connection accepted has been given to one bufferevent, in order, and
    succ_cli_count is the number of messages received - not of clients -, wrapped to
    32 bits. *)
Theorem libev_server_accounts `{InetPton} fuel buf ip port :
  bev_read_contract -> dispatch_contract -> length buf = Z.to_nat BUF_SIZE ->
  wp (start_libev_multi_server fuel buf ip port) (fun r w' => match r with
    | Ok _ | Stop HFuel => accounted w'
    | Stop h => h = HBlocked \/ h = HAssert
    end) (World count_init 0 [] []).
Proof.
  intros Hbev Hdisp Hlen. unfold start_libev_multi_server. wp_step.
  assert (Hinit : accounted (World count_init 0 [] [])) by done. revert Hinit.
  generalize (World count_init 0 [] []). intros w0 Hw0.
  apply (wp_mono _ (fun r w' => match r with Ok _ => accounted w' | Stop h => h = HBlocked \/ h = HAssert end)).
  { unfold tcp_server_init. wp_steps; auto. repeat (case_match; wp_steps; auto 9 with server). }
  intros [srv|h] w1; cbn [bind_post]; [|by intros [-> | ->]; auto]. intros Hw1.
  case_match; [by wp_step|]. wp_steps; auto.
  unfold event_loop. apply (wp_while (fun _ w' => accounted w')); [done| |auto 10 with server].
  intros [] w2 Hw2. do 2 wp_step; [auto|]. cbn [bind_post].
  destruct (r_cb _) as [[cb args]|] eqn:Hcb.
  - wp_step. eapply wp_mono; [apply callback_accounts; eauto with server|].
    intros [[]|[]] w3; cbn [bind_post keeps_account]; auto; done.
  - wp_steps; auto 10 with server.
Qed.
End props.

(** ** The theorems at concrete inputs *)

(** Every call returns; the first bind fails, each socket's first read gives
    "hi". *)
Definition demo_env : Env := fun h c => Some (match c with
  | Recv _ len _ =>
      if bool_decide (length h = 0%nat) && (2 <=? len) then ret_data [104; 105] else ret_err EAGAIN
  | Bind _ _ => ret_err 98
  | Socket _ _ _ => ret_ok 3
  | _ => ret_ok 0
  end).
Definition demo_pton : InetPton := fun _ => Some [127; 0; 0; 1].
Definition demo_world : world count := World count_init 0 [] [].

Lemma lm_returns : @returns demo_env.
Proof. intros h c. by eexists. Qed.

Lemma lm_recv : @recv_contract demo_env.
Proof.
  intros h f len fl r [= <-] Hlen. case_match eqn:E; [|split; simpl; lia].
  apply andb_true_iff in E as [_ E]. split; simpl; lia.
Qed.

Lemma tcp_server_init_outcomes_witness :
  wp (@tcp_server_init demo_env demo_pton "127.0.0.1" 80) (fun r w' => w_st w' = w_st demo_world /\
    exists fd, let setup := [Socket AF_INET SOCK_STREAM 0; EvutilReuseable fd;
        Bind fd (@sockaddr_in demo_pton "127.0.0.1" 80)] in
    match r with
    | Stop h => h = HAssert /\ fd < 0 /\ calls w' = calls demo_world ++ [Socket AF_INET SOCK_STREAM 0]
    | Ok ret => 0 <= fd /\
        ((ret = -1 /\ (calls w' = calls demo_world ++ setup ++ [EvutilClosesocket fd] \/
            calls w' = calls demo_world ++ setup ++ [Listen fd 65535; EvutilClosesocket fd])) \/
         (ret = fd /\ calls w' = calls demo_world ++ setup ++ [Listen fd 65535; EvutilNonblocking fd]))
    end) demo_world.
Proof.
  apply (@tcp_server_init_outcomes demo_env demo_pton "127.0.0.1" 80 demo_world). apply lm_returns.
Defined.

Lemma msg_cb_serves_witness :
  wp (@msg_cb demo_env 2 (replicate 4096 170) 12 30) (fun x w' => x = Ok tt /\ w_st w' = count_init /\
    w_out w' = [] ++ [OutMsg 12 2 [104; 105]] /\
    calls w' = [] ++ [Recv 12 (BUF_SIZE - 1) 0; Recv 12 (BUF_SIZE - 1) 0] ++
      [Sleep 100; Send 12 OK_CRLF 0]) demo_world.
Proof.
  apply (@msg_cb_serves demo_env 2 (replicate 4096 170) 12 30 [ret_data [104; 105]] (ret_err EAGAIN)
    demo_world);
    [apply lm_returns | apply lm_recv | by rewrite length_replicate | by repeat econstructor | simpl; lia].
Defined.

(** Two clients, one of which sends "hi" twice, then SIGINT ends the loop. *)
Definition demo_events : Env := fun h c => Some (match c with
  | EventBaseDispatch _ =>
      match countb (fun e => match fst e with EventBaseDispatch _ => true | _ => false end) h with
      | 0%nat | 1%nat => ret_cb "accept_cb" [3]
      | 2%nat => ret_cb "be_msg_cb" [20]
      | 3%nat => ret_cb "be_event_cb" [20; 17]
      | 4%nat => ret_cb "signal_cb" [2]
      | _ => ret_ok 0
      end
  | Accept _ => ret_ok (30 + Z.of_nat (length h))
  | BevRead _ size =>
      if (2 <=? size) &&
        bool_decide (countb (fun e => match fst e with BevRead _ _ => true | _ => false end) h < 2)%nat
      then ret_data [104; 105] else ret_ok 0
  | Socket _ _ _ => ret_ok 3
  | _ => ret_ok 0
  end).

Example demo_events_run : exists w,
  @start_libev_multi_server demo_events demo_pton 10 (replicate 4096 170) "127.0.0.1" 80 demo_world =
    (Ok tt, w) /\ length (accepts (w_log w)) = 2%nat /\ w_st w = 2.
Proof. eexists. split; [vm_compute; reflexivity|]. by vm_compute. Qed.

Lemma libev_server_accounts_witness :
  wp (@start_libev_multi_server demo_events demo_pton 10 (replicate 4096 170) "127.0.0.1" 80)
    (fun r w' => match r with
      | Ok _ | Stop HFuel => accounted w'
      | Stop h => h = HBlocked \/ h = HAssert
      end) demo_world.
Proof.
  apply (@libev_server_accounts demo_events demo_pton 10 (replicate 4096 170) "127.0.0.1" 80).
  - intros h be size r [= <-] Hsize. case_match eqn:E; [|split; [|split]; simpl; lia].
    apply andb_true_iff in E as [E%Z.leb_le _]. split; [simpl; lia|]. split; simpl; lia.
  - intros h base r cb args [= <-] Hcb. unfold registered.
    repeat case_match; simpl in Hcb; simplify_eq; (left; split; [set_solver|by eexists]) || eauto.
  - by rewrite length_replicate.
Defined.
