(* ===== verification/Client.v ===== *)
(** * The load client (client/include/libevent_no_block_client.hpp)

    The clients are split among the threads of a pool; each thread runs its own
    event loop.  First the code, run to completion, then the message callbacks of
    all threads interleaved on the shared counter. *)

From S2P Require Import Prelude Sys CLib.

(** The globals. *)
Record client := mkClient {
  total_req_count : Z;
  comp_req_count : Z;
  begin_time_ms : Z;
}.
Definition client_init : client := mkClient 0 0 0.

Definition set_total v c := mkClient v (comp_req_count c) (begin_time_ms c).
Definition set_begin v c := mkClient (total_req_count c) (comp_req_count c) v.
Definition incr_comp c :=
  mkClient (total_req_count c) (wrap_s 32 (comp_req_count c + 1)) (begin_time_ms c).

(** "Hello!" *)
Definition HELLO : list Z := [72; 101; 108; 108; 111; 33].

Section callbacks.
Context `{Env}.

Definition connect_to_server `{InetPton} (bev : Z) (ip : string) (port : Z) : M client Z :=
  let srv_addr := sockaddr_in ip port in sys_ (BevConnect bev srv_addr).

(** [buf] is the content of the uninitialised array. *)
Definition server_msg_cb (buf : list Z) (bev : Z) : M client unit :=
  '(size, msg) ← bufferevent_read bev buf (BUF_SIZE - 1);
  let len := wrap_u 64 size in
  msg ← store msg len 0;
  modify incr_comp;;
  fd ← sys_ (BevGetfd bev);
  s ← string_of msg;
  print (OutMsg fd len s);;
  c ← get;
  if total_req_count c =? comp_req_count c then
    end_time_ms ← sys_ Now;
    c ← get;
    print (OutNum "All client request complete with cost" (end_time_ms - begin_time_ms c))
  else mret tt.

Definition writable_cb (bev : Z) : M client unit :=
  fd ← sys_ (BevGetfd bev);
  print (OutNum "writable" fd).

Definition event_cb (bev event : Z) : M client unit :=
  sys_ (BevGetfd bev);;
  if has_flag event BEV_EVENT_EOF then sys_ (BevFree bev);; mret tt
  else if has_flag event BEV_EVENT_ERROR then sys_ (BevFree bev);; mret tt
  else if has_flag event BEV_EVENT_CONNECTED then sys_ (BevWrite bev HELLO);; mret tt
  else mret tt.

(** One turn of the loop of [start_clients_func]. *)
Definition start_client `{InetPton} (base : Z) (ip : string) (port : Z) : M client unit :=
  bev ← sys_ (BevSocketNew base (-1) BEV_OPT_CLOSE_ON_FREE);
  ret ← connect_to_server bev ip port;
  if ret =? 0 then
    sock_fd ← sys_ (BevGetfd bev);
    sys_ (EvutilNonblocking sock_fd);;
    sys_ (SetSockOpt sock_fd SOL_SOCKET SO_SNDBUF 1024);;
    sys_ (GetSockOpt sock_fd SOL_SOCKET SO_SNDBUF);;
    sys_ (BevSetcb bev "server_msg_cb" "" "event_cb" [base]);;
    sys_ (BevEnable bev (Z.lor EV_READ EV_PERSIST));;
    mret tt
  else sys_ (BevFree bev);; mret tt.

Definition client_callback (buf : list Z) (cb : string) (args : list Z) : M client unit :=
  match args with
  | [bev] => if bool_decide (cb = "server_msg_cb") then server_msg_cb buf bev else stop HUB
  | [bev; event] => if bool_decide (cb = "event_cb") then event_cb bev event else stop HUB
  | _ => stop HUB
  end.

Definition start_clients_func `{InetPton} (fuel : nat) (buf : list Z) (ip : string)
    (port sub_cli_count : Z) : M client unit :=
  base ← sys_ EventBaseNew;
  for_each (range 0 sub_cli_count) (fun _ => start_client base ip port);;
  event_loop fuel base (client_callback buf);;
  sys_ (EventBaseFree base);;
  mret tt.

(** One turn of the loop that starts the threads; [res_cli_count] is what is left
    of the remainder. *)
Definition dispatch_turn (sub_cli_count : Z) (_ res_cli_count : Z) : M client (Z + Z) :=
  let '(count, res_cli_count) :=
    if 0 <? res_cli_count then (sub_cli_count + 1, res_cli_count - 1)
    else (sub_cli_count, res_cli_count) in
  sys_ (PoolDispatch "start_clients_func" [count]);;
  mret (inl res_cli_count).

(** The tasks run in the pool. *)
Definition start_multi_client (client_count thread_count : Z) : M client unit :=
  now ← sys_ Now;
  modify (set_begin now);;
  modify (set_total client_count);;
  sys_ (PoolNew thread_count);;
  sub_cli_count ← c_div client_count thread_count;
  res_cli_count ← c_mod client_count thread_count;
  for_ (range 0 thread_count) (dispatch_turn sub_cli_count) res_cli_count;;
  sys_ PoolJoin;;
  mret tt.
End callbacks.

(** ** Splitting the clients *)

Definition task_of (c : call) : option Z :=
  match c with PoolDispatch "start_clients_func" [n] => Some n | _ => None end.
Definition tasks {S} (w : world S) : list Z := omap task_of (calls w).

Definition sum (l : list Z) : Z := foldr Z.add 0 l.

Lemma sum_app l k : sum (l ++ k) = sum l + sum k.
Proof. induction l; simpl; lia. Qed.
Lemma sum_replicate n x : sum (replicate n x) = Z.of_nat n * x.
Proof. induction n; simpl; lia. Qed.

Lemma tasks_after {S} c r (w : world S) :
  tasks (after c r w) = tasks w ++ match task_of c with Some n => [n] | None => [] end.
Proof. unfold tasks, calls. simpl. by rewrite map_app, omap_app. Qed.

Section split_props.
Context `{Env}.
Implicit Types w : world client.

(** The shares of [n] clients among [t] threads. *)
Definition shares (n t : Z) : list Z :=
  replicate (Z.to_nat (n mod t)) (n / t + 1) ++ replicate (Z.to_nat (t - n mod t)) (n / t).

Lemma shares_sum n t : 0 < t -> sum (shares n t) = n.
Proof.
  intros Ht. pose proof (Z.mod_pos_bound n t Ht). unfold shares.
  rewrite sum_app, !sum_replicate, !Z2Nat.id by lia. pose proof (Z.div_mod n t ltac:(lia)). lia.
Qed.

Lemma shares_length n t : 0 < t -> Z.of_nat (length (shares n t)) = t.
Proof.
  intros Ht. pose proof (Z.mod_pos_bound n t Ht). unfold shares.
  rewrite length_app, !length_replicate. lia.
Qed.

(** The share of thread [i]. *)
Lemma shares_snoc q r i : 0 <= r -> 0 <= i ->
  replicate (Z.to_nat (Z.min r (i + 1))) (q + 1) ++ replicate (Z.to_nat (i + 1 - r)) q =
  (replicate (Z.to_nat (Z.min r i)) (q + 1) ++ replicate (Z.to_nat (i - r)) q) ++
  [if 0 <? r - Z.min r i then q + 1 else q].
Proof.
  intros Hr Hi. destruct (Z.ltb_spec 0 (r - Z.min r i)).
  - replace (Z.to_nat (i + 1 - r)) with 0%nat by lia. replace (Z.to_nat (i - r)) with 0%nat by lia.
    replace (Z.to_nat (Z.min r (i + 1))) with (S (Z.to_nat (Z.min r i))) by lia.
    rewrite replicate_S_end. simpl. by rewrite !app_nil_r.
  - replace (Z.to_nat (i + 1 - r)) with (S (Z.to_nat (i - r))) by lia.
    replace (Z.min r (i + 1)) with (Z.min r i) by lia.
    by rewrite replicate_S_end, app_assoc.
Qed.

(** Splitting the load: with at least one thread, each thread is given one task;
    the numbers of clients of the tasks add up to the number asked for and differ
    by at most one, the earlier threads having the larger share.  With no thread
    the division is undefined. *)
Theorem start_multi_client_splits n t w :
  returns -> 0 <= n -> 0 <= t ->
  wp (start_multi_client n t) (fun r w' =>
    if t =? 0 then r = Stop HUB
    else r = Ok tt /\ tasks w' = tasks w ++ shares n t /\
      sum (shares n t) = n /\ Z.of_nat (length (shares n t)) = t /\
      total_req_count (w_st w') = n /\ comp_req_count (w_st w') = comp_req_count (w_st w)) w.
Proof.
  intros Hret Hn Ht. unfold start_multi_client. wp_steps_ret Hret.
  destruct (Z.eqb_spec t 0) as [->|Hne]; [unfold c_div; simpl; by wp_steps|].
  assert (Hpos : 0 < t) by lia. pose proof (Z.mod_pos_bound n t Hpos) as Hr.
  apply wp_c_div; [done|done|]. cbn [bind_post]. wp_step. apply wp_c_mod; [done|done|]. cbn [bind_post].
  match goal with |- wp _ _ ?w' => set (w0 := w') end.
  assert (Hw0 : tasks w0 = tasks w /\ total_req_count (w_st w0) = n /\
    comp_req_count (w_st w0) = comp_req_count (w_st w)).
  { split; [|done]. unfold tasks, calls, w0. simpl.
    rewrite !map_app, !omap_app. simpl. by rewrite !app_nil_r. }
  clearbody w0. wp_step.
  apply (wp_for_range (fun i res w' => res = n mod t - Z.min (n mod t) i /\ w_st w' = w_st w0 /\
    tasks w' = tasks w ++ replicate (Z.to_nat (Z.min (n mod t) i)) (n / t + 1) ++
      replicate (Z.to_nat (i - n mod t)) (n / t))); [lia| | |].
  - intros res w' (_ & Hst & Htasks). cbn [bind_post]. wp_steps_ret Hret.
    split_and!; [done| |by apply shares_sum|by apply shares_length|by rewrite Hst; apply Hw0..].
    rewrite tasks_after, Htasks, app_nil_r, Z.min_l by lia. done.
  - intros i res w' Hi (-> & Hst & Htasks). unfold dispatch_turn.
    assert (Hx : 0 <= n mod t - Z.min (n mod t) i) by lia.
    pose proof (shares_snoc (n / t) (n mod t) i ltac:(lia) ltac:(lia)) as Hsnoc.
    destruct (Z.ltb_spec 0 (n mod t - Z.min (n mod t) i)); wp_steps_ret Hret;
      (split_and!; [lia|done|]); rewrite tasks_after, Htasks, Hsnoc, <- !app_assoc; done.
  - split_and!; [lia|done|]. destruct Hw0 as [-> _]. rewrite Z.min_r by lia.
    replace (Z.to_nat (0 - n mod t)) with 0%nat by lia. by rewrite app_nil_r.
Qed.
End split_props.

(** ** The message callbacks of all threads, interleaved

    [comp_req_count++] and [comp_req_count.load()] are atomic one by one, but not
    together.  One callback runs per answer. *)

(** Where a callback is: before the increment, before the test, at its end. *)
Inductive rpc := RInc | RTest | REnd.

Record rstate := mkR {
  comp : Z;          (* comp_req_count *)
  callbacks : list rpc;
  reports : nat;     (* how often "All client request complete" was printed *)
}.

Inductive raction := Inc (i : nat) | Test (i : nat).

Definition ract (total : Z) (s : rstate) (a : raction) : option rstate :=
  match a with
  | Inc i =>
      match callbacks s !! i with
      | Some RInc => Some (mkR (wrap_s 32 (comp s + 1)) (<[i := RTest]> (callbacks s)) (reports s))
      | _ => None
      end
  | Test i =>
      match callbacks s !! i with
      | Some RTest =>
          Some (mkR (comp s) (<[i := REnd]> (callbacks s))
            (if total =? comp s then S (reports s) else reports s))
      | _ => None
      end
  end.

Fixpoint rrun (total : Z) (s : rstate) (l : list raction) : option rstate :=
  match l with [] => Some s | a :: l => s' ← ract total s a; rrun total s' l end.

(** Every client gets one answer. *)
Definition rstart (total : nat) : rstate := mkR 0 (replicate total RInc) 0.

Definition counted (p : rpc) : bool := match p with RInc => false | _ => true end.
Definition testing (p : rpc) : bool := match p with RTest => true | _ => false end.

(** The counter is the number of callbacks past the increment; when it has
    reached the total, some callback has reported or is about to test. *)
Record rinv (total : nat) (s : rstate) : Prop := {
  ri_len : length (callbacks s) = total;
  ri_comp : comp s = Z.of_nat (countb counted (callbacks s));
  ri_report : comp s = Z.of_nat total ->
    (0 < countb testing (callbacks s))%nat \/ (0 < reports s)%nat \/ total = 0%nat;
}.

Lemma countb_replicate {A} (f : A -> bool) n x : f x = false -> countb f (replicate n x) = 0%nat.
Proof. intros Hf. induction n; simpl; [done|]. by rewrite Hf. Qed.

Lemma rinv_start total : rinv total (rstart total).
Proof.
  split; simpl; [apply length_replicate| |].
  - by rewrite countb_replicate.
  - intros He. right; right. lia.
Qed.

Lemma ract_inv total s a s' : Z.of_nat total < 2 ^ 31 ->
  rinv total s -> ract (Z.of_nat total) s a = Some s' -> rinv total s'.
Proof.
  intros Htot [Hlen Hcomp Hrep] Ha.
  destruct a as [i|i]; cbn in Ha; destruct (callbacks s !! i) as [[]|] eqn:H; simplify_eq/=.
  - pose proof (countb_insert counted _ _ RTest _ H) as Hc. simpl in Hc.
    pose proof (countb_insert testing _ _ RTest _ H) as Ht. simpl in Ht.
    pose proof (countb_le counted (<[i:=RTest]> (callbacks s))) as Hle. rewrite length_insert in Hle.
    split; simpl; [by rewrite length_insert| |].
    + rewrite Hcomp, wrap_s32_id by lia. lia.
    + intros _. left. lia.
  - pose proof (countb_insert counted _ _ REnd _ H) as Hc. simpl in Hc.
    split; simpl; [by rewrite length_insert|lia|].
    intros He. right; left. rewrite He, Z.eqb_refl. lia.
Qed.

Lemma rrun_inv total l s s' : Z.of_nat total < 2 ^ 31 ->
  rinv total s -> rrun (Z.of_nat total) s l = Some s' -> rinv total s'.
Proof.
  intros Htot. revert s. induction l as [|a l IH]; intros s Hinv Hs; [by simplify_eq/=|].
  cbn in Hs. destruct (ract _ s a) as [s1|] eqn:Ha; simplify_eq/=. eauto using ract_inv.
Qed.

Lemma rrun_app total l1 l2 s s1 : rrun total s l1 = Some s1 -> rrun total s (l1 ++ l2) = rrun total s1 l2.
Proof.
  revert s. induction l1 as [|a l1 IH]; intros s Hs; [by simplify_eq/=|].
  cbn in *. destruct (ract total s a); [by apply IH|done].
Qed.

Lemma countb_all {A} (f g : A -> bool) l :
  Forall (fun x => f x = true /\ g x = false) l -> countb f l = length l /\ countb g l = 0%nat.
Proof. induction 1 as [|x l [Hf Hg] Hl [IHf IHg]]; simpl; [done|]. rewrite Hf, Hg, IHf, IHg. done. Qed.

(** All callbacks increment, then all test. *)
Lemma rrun_incs total k m : Z.of_nat (k + m) < 2 ^ 31 ->
  rrun total (mkR (Z.of_nat k) (replicate k RTest ++ replicate m RInc) 0) (map Inc (seq k m)) =
  Some (mkR (Z.of_nat (k + m)) (replicate (k + m) RTest) 0).
Proof.
  revert k. induction m as [|m IH]; intros k Hk.
  - simpl. by rewrite app_nil_r, Nat.add_0_r.
  - cbn [seq map rrun ract callbacks].
    rewrite lookup_app_r by (by rewrite length_replicate). rewrite length_replicate, Nat.sub_diag. cbn.
    rewrite wrap_s32_id by lia. replace (Z.of_nat k + 1) with (Z.of_nat (S k)) by lia.
    rewrite insert_app_r_alt by (by rewrite length_replicate). rewrite length_replicate, Nat.sub_diag. cbn.
    rewrite (cons_middle RTest), app_assoc, <- replicate_S_end, IH by lia. by rewrite Nat.add_succ_r.
Qed.

Lemma rrun_tests total k m r :
  rrun total (mkR total (replicate k REnd ++ replicate m RTest) r) (map Test (seq k m)) =
  Some (mkR total (replicate (k + m) REnd) (r + m)).
Proof.
  revert k r. induction m as [|m IH]; intros k r.
  - simpl. by rewrite app_nil_r, !Nat.add_0_r.
  - cbn [seq map rrun ract callbacks].
    rewrite lookup_app_r by (by rewrite length_replicate). rewrite length_replicate, Nat.sub_diag. cbn.
    rewrite Z.eqb_refl.
    rewrite insert_app_r_alt by (by rewrite length_replicate). rewrite length_replicate, Nat.sub_diag. cbn.
    rewrite (cons_middle REnd), app_assoc, <- replicate_S_end, IH. by rewrite !Nat.add_succ_r.
Qed.

(** C36. The final report: when every client has got one answer and all callbacks
    have run, in any interleaving, the completion has been reported at least once;
    and it may be reported as often as there are clients, because the increment
    and the test are two steps. *)
Theorem completion_reported total :
  (0 < total)%nat -> Z.of_nat total < 2 ^ 31 ->
  (forall l s, rrun (Z.of_nat total) (rstart total) l = Some s ->
     Forall (eq REnd) (callbacks s) -> (0 < reports s)%nat) /\
  (exists l s, rrun (Z.of_nat total) (rstart total) l = Some s /\
     Forall (eq REnd) (callbacks s) /\ reports s = total).
Proof.
  intros Hpos Htot. split.
  - intros l s Hl Hend. destruct (rrun_inv _ _ _ _ Htot (rinv_start total) Hl) as [Hlen Hcomp Hrep].
    destruct (countb_all counted testing (callbacks s)) as [Hc Ht].
    { eapply Forall_impl; [done|]. by intros p <-. }
    destruct Hrep as [?|[?|?]]; [congruence|lia|done|lia].
  - exists (map Inc (seq 0 total) ++ map Test (seq 0 total)). eexists. split.
    + erewrite rrun_app by apply (rrun_incs _ 0 total Htot). apply (rrun_tests _ 0 total 0).
    + split; [|done]. apply Forall_replicate. done.
Qed.

(** ** The callback and its two actions *)

Definition is_report (o : output) : bool :=
  match o with OutNum tag _ => bool_decide (tag = "All client request complete with cost") | _ => false end.

(** C33. Refinement: a run of [server_msg_cb] - whatever the server has sent, up to what
    the array holds - is the action that counts the answer followed by the action that
    compares the counter with the total: the counters agree before and after, and the
    completion is printed exactly when the second action reports it. *)
Theorem server_msg_cb_refines `{Env} buf bev k (s : rstate) (w : world client) :
  returns -> bev_read_contract -> length buf = Z.to_nat BUF_SIZE ->
  comp_req_count (w_st w) = comp s -> callbacks s !! k = Some RInc ->
  wp (server_msg_cb buf bev) (fun r w' => r = Ok tt /\ exists s' O,
    rrun (total_req_count (w_st w)) s [Inc k; Test k] = Some s' /\
    comp_req_count (w_st w') = comp s' /\ total_req_count (w_st w') = total_req_count (w_st w) /\
    w_out w' = w_out w ++ O /\ reports s' = (reports s + countb is_report O)%nat /\
    callbacks s' = <[k := REnd]> (callbacks s)) w.
Proof.
  intros Hret Hbev Hbuf Hcomp Hk.
  destruct (Hret (w_log w) (BevRead bev (BUF_SIZE - 1))) as [r Hr].
  destruct (Hbev _ _ _ _ Hr ltac:(done)) as [Hpos [Hle Hdl]].
  assert (Hrun : rrun (total_req_count (w_st w)) s [Inc k; Test k] = Some (mkR (wrap_s 32 (comp s + 1))
    (<[k := REnd]> (callbacks s))
    (if total_req_count (w_st w) =? wrap_s 32 (comp s + 1) then S (reports s) else reports s))).
  { cbn. rewrite Hk. cbn. rewrite list_lookup_insert_eq by (by eapply lookup_lt_Some). cbn.
    by rewrite list_insert_insert_eq. }
  unfold server_msg_cb. wp_step. unfold BUF_SIZE in *.
  apply (bufferevent_read_wp _ _ _ r); [done|lia|]. cbn [bind_post].
  rewrite wrap_u_id by lia. unfold store, index. wp_step.
  destruct (lookupZ (buf_write buf (r_data r)) (r_ret r)) as [x|] eqn:Hl.
  2: { apply lookupZ_None in Hl. rewrite length_buf_write in Hl by lia. lia. }
  wp_steps_ret Hret. unfold string_of. replace (r_ret r) with (Z.of_nat (length (r_data r))) at 1 by lia.
  rewrite c_str_terminated by lia. wp_steps_ret Hret.
  rewrite Hcomp. destruct (_ =? _) eqn:E; wp_steps_ret Hret; (split; [done|]).
  all: do 2 eexists; split; [exact Hrun|]; simpl; rewrite ?Hcomp; do 2 (split; [done|]).
  - split; [by rewrite <- app_assoc|]. split; [simpl; lia|done].
  - split; [done|]. split; [simpl; lia|done].
Qed.

(** ** The theorems at concrete inputs *)

Definition demo_env : Env := fun _ _ => Some (ret_ok 0).

Lemma start_multi_client_splits_witness :
  let w := World client_init 0 [] [] in
  wp (@start_multi_client demo_env 10 4) (fun r w' =>
    if 4 =? 0 then r = Stop HUB
    else r = Ok tt /\ tasks w' = tasks w ++ shares 10 4 /\
      sum (shares 10 4) = 10 /\ Z.of_nat (length (shares 10 4)) = 4 /\
      total_req_count (w_st w') = 10 /\ comp_req_count (w_st w') = comp_req_count (w_st w)) w.
Proof.
  intros w. apply (@start_multi_client_splits demo_env 10 4 w); [|lia|lia].
  intros h c. by eexists.
Defined.

Lemma completion_reported_witness :
  (forall l s, rrun 3 (rstart 3) l = Some s -> Forall (eq REnd) (callbacks s) -> (0 < reports s)%nat) /\
  (exists l s, rrun 3 (rstart 3) l = Some s /\ Forall (eq REnd) (callbacks s) /\ reports s = 3%nat).
Proof. apply (completion_reported 3); lia. Defined.

(** Two clients, of which the other has been counted; "OK" arrives in an array that
    was not initialised. *)
Definition demo_answer : Env := fun _ c => Some (match c with
  | BevRead _ size => if 2 <=? size then ret_data OK else ret_ok 0
  | _ => ret_ok 0
  end).

Lemma server_msg_cb_refines_witness :
  let s := mkR 1 [REnd; RInc] 0 in
  let w := World (mkClient 2 1 0) 0 [] [] in
  wp (@server_msg_cb demo_answer (replicate 4096 170) 30) (fun r w' => r = Ok tt /\ exists s' O,
    rrun 2 s [Inc 1; Test 1] = Some s' /\
    comp_req_count (w_st w') = comp s' /\ total_req_count (w_st w') = 2 /\
    w_out w' = [] ++ O /\ reports s' = (reports s + countb is_report O)%nat /\
    callbacks s' = <[1%nat := REnd]> (callbacks s)) w.
Proof.
  intros s w. apply (@server_msg_cb_refines demo_answer (replicate 4096 170) 30 1 s w).
  - intros h c. by eexists.
  - intros h be size r [= <-] Hsize. case_match; split; try split; simpl; lia.
  - by vm_compute.
  - done.
  - done.
Defined.
