(* ===== verification/ClientSafe.v ===== *)
(** * The load client has no undefined behaviour

    The rules of Safe applied to Client: the messages of the server stay inside
    the arrays they are read into, and the division that splits the clients is
    defined when there is a thread. *)

From S2P Require Import Prelude Sys CLib Safe Client.

(** What the threads of the client register with libevent. *)
Definition client_registered (cb : string) (args : list Z) : Prop :=
  (cb = "server_msg_cb" /\ exists bev, args = [bev]) \/
  (cb = "event_cb" /\ exists bev event, args = [bev; event]).

Section client.
Context `{Env}.
#[local] Set Default Proof Using "Type*".
Definition any (c : client) : Prop := True.
Abbreviation ok m := (safe any defined m (fun _ => True)) (only parsing).

Lemma server_msg_cb_safe buf bev : bev_read_contract -> length buf = Z.to_nat BUF_SIZE ->
  ok (server_msg_cb buf bev).
Proof.
  intros Hbev Hbuf. unfold server_msg_cb.
  eapply safe_bind; [apply safe_bufferevent_read; [done|unfold BUF_SIZE in *; lia]|].
  intros [size msg] [Hs Hl]. unfold BUF_SIZE in *. rewrite wrap_u_id by lia.
  apply (safe_bind _ _ _ _ (fun m => m = insertZ size 0 msg)).
  { unfold store. safe_seq; [apply safe_index; lia|]. by apply safe_ret. }
  intros m ->. safe_seq; [by apply safe_modify|]. safe_call.
  apply (safe_bind _ _ _ _ (fun _ => True)); [apply string_of_safe; lia|]. intros s _.
  safe_seq; [apply safe_print|]. safe_get c Hc. apply safe_if; intros _; [|by apply safe_ret].
  safe_call. safe_get c' Hc'. apply safe_print.
Qed.

Lemma event_cb_safe bev event : ok (event_cb bev event).
Proof.
  unfold event_cb. safe_call. repeat (apply safe_if; intros _); [safe_call..|]; by apply safe_ret.
Qed.

Lemma start_client_safe `{InetPton} base ip port : ok (start_client base ip port).
Proof.
  unfold start_client, connect_to_server. do 2 safe_call.
  apply safe_if; intros _; [do 6 safe_call|safe_call]; by apply safe_ret.
Qed.

(** A task of the pool. *)
Lemma start_clients_func_safe `{InetPton} fuel buf ip port count :
  bev_read_contract -> dispatches client_registered -> length buf = Z.to_nat BUF_SIZE ->
  ok (start_clients_func fuel buf ip port count).
Proof.
  intros Hbev Hdisp Hbuf. unfold start_clients_func. safe_call.
  safe_seq; [apply safe_for_each; intros i _; apply start_client_safe|]. safe_seq.
  { eapply safe_event_loop; [done|]. intros cb args [[-> [bev ->]]|[-> (bev & event & ->)]]; simpl.
    - by apply server_msg_cb_safe.
    - apply event_cb_safe. }
  safe_call. by apply safe_ret.
Qed.

Lemma safe_c_div (a b : Z) : b <> 0 -> ok (c_div a b).
Proof. intros Hb. unfold c_div. apply safe_if; [lia|]. intros _. by apply safe_ret. Qed.

(** The main thread, with a number of threads that is not zero. *)
Lemma start_multi_client_safe clients threads : threads <> 0 -> ok (start_multi_client clients threads).
Proof.
  intros Ht. unfold start_multi_client. safe_call. do 2 (safe_seq; [by apply safe_modify|]). safe_call.
  safe_seq; [by apply safe_c_div|]. safe_seq; [by apply safe_c_mod|]. safe_seq; [|safe_call; by apply safe_ret].
  apply (safe_for _ _ (fun _ => True)); [done|]. intros i res _ _. unfold dispatch_turn.
  case_match; safe_call; by apply safe_ret.
Qed.
End client.
