(* ===== verification/LoadTest.v ===== *)
(** * The load client against the thread pool server

    The two programs, composed: the threads of the server (PoolSystem, unchanged)
    and the callbacks of the client's threads (the shared counter of Client,
    unchanged), joined by the connections between them.  A client's connection waits
    in the backlog of the listening socket, is accepted under a fresh descriptor,
    answered by a worker that has registered it ([client_msg_cb], run to
    completion), and counted by the client's [server_msg_cb].  Every fair execution
    ends with every request answered and counted and the completion reported.

    The message of a client, six bytes, and its answer are taken to arrive in one
    piece, and no call to fail. *)

From S2P Require Import Prelude Fairness Sys CLib ThreadSafeQueue LibevThreadPool PoolSystem PoolShutdown Client.

(** A connection: not made yet; in the backlog, the message sent; accepted as a
    descriptor of the server; answered; its answer counted by the client. *)
Inductive conn := Offline | Backlog | Opened (fd : Z) | Answered | Counted.

Inductive naction :=
| NConnect (k : nat)           (* start_client, event_cb: connect and send the message *)
| NAccept (k : nat) (fd : Z)   (* libevent accepts: the first part of conn_listener_cb *)
| NServer (a : action)         (* the server's threads by themselves *)
| NServe (i : Z) (k : nat)     (* client_msg_cb in worker i *)
| NInc (k : nat)               (* server_msg_cb, up to the counter *)
| NTest (k : nat).             (* server_msg_cb, the rest *)

(** The main thread and the workers of the server, and the threads of the client. *)
Inductive proc := PServer (p : thread) | PClient (j : nat).

#[export] Instance action_eq_dec : EqDecision action.
Proof. solve_decision. Defined.

Section load_test.
Context {Q : Type -> Type} `{FifoQueue Q} {C : Type} `{ByteChannel C}.
(** The number of requests, and which thread of the client handles which. *)
Variables (total : nat) (thread_of : nat -> nat).
Implicit Types (w : worker Q C).

Record net := mkNet {
  srv : sys_state Q C;
  cli : rstate;
  conns : list conn;
}.
Implicit Types (s : net).

Definition set_conn (k : nat) (c : conn) s : net := mkNet (srv s) (cli s) (<[k := c]> (conns s)).
Definition set_srv x s : net := mkNet x (cli s) (conns s).
Definition set_cli x s : net := mkNet (srv s) x (conns s).

(** Worker [w] is in its event loop and has the descriptor registered. *)
Definition serves w (fd : Z) : bool :=
  match w_pc w with WIdle => bool_decide (fd ∈ w_conns w) | _ => false end.

Definition nact s (a : naction) : option net :=
  match a with
  | NConnect k =>
      match conns s !! k with Some Offline => Some (set_conn k Backlog s) | _ => None end
  | NAccept k fd =>
      match conns s !! k with
      | Some Backlog =>
          if bool_decide (fd ∈ accepted (srv s)) then None
          else x ← act (srv s) (Accept_ fd); Some (set_conn k (Opened fd) (set_srv x s))
      | _ => None
      end
  | NServer (Accept_ _) => None
  | NServer a => x ← act (srv s) a; Some (set_srv x s)
  | NServe i k =>
      match conns s !! k, lookupZ (workers (srv s)) i with
      | Some (Opened fd), Some w => if serves w fd then Some (set_conn k Answered s) else None
      | _, _ => None
      end
  | NInc k =>
      match conns s !! k with
      | Some Answered => x ← ract (Z.of_nat total) (cli s) (Inc k); Some (set_conn k Counted (set_cli x s))
      | _ => None
      end
  | NTest k => x ← ract (Z.of_nat total) (cli s) (Test k); Some (set_cli x s)
  end.

Definition nstart (cs : list C) : net := mkNet (start cs) (rstart total) (replicate total Offline).

(** ** Who can act *)

Definition nmine (p : proc) (a : naction) : bool :=
  match p, a with
  | PServer TMain, NAccept _ _ => true
  | PServer p, NServer a => mine p a
  | PServer (TWorker i), NServe j _ => i =? j
  | PClient j, (NConnect k | NInc k | NTest k) => (thread_of k =? j)%nat
  | _, _ => false
  end.

Definition waiting (c : conn) : bool := match c with Backlog => true | _ => false end.
Definition servable w (c : conn) : bool := match c with Opened fd => serves w fd | _ => false end.
Definition client_ready s (k : nat) : bool :=
  match conns s !! k with Some (Offline | Answered) => true | _ => false end ||
  match callbacks (cli s) !! k with Some RTest => true | _ => false end.

Definition nready (p : proc) s : bool :=
  match p with
  | PServer TMain =>
      ready TMain (srv s) || (match main (srv s) with MIdle => existsb waiting (conns s) | _ => false end)
  | PServer (TWorker i) =>
      ready (TWorker i) (srv s) ||
      match lookupZ (workers (srv s)) i with Some w => existsb (servable w) (conns s) | None => false end
  | PClient j => existsb (fun k => (thread_of k =? j)%nat && client_ready s k) (seq 0 (length (conns s)))
  end.

Definition nfair (tr : nat -> net) (lab : nat -> option naction) : Prop :=
  forall p, weakly_fair (nready p) (on_action false (nmine p)) tr lab.

(** No SIGINT comes. *)
Definition no_signal (a : naction) : bool := match a with NServer SigInt => false | _ => true end.

(** ** The invariant *)

Definition uncounted (c : conn) : bool := match c with Counted => false | _ => true end.
Definition past (c : conn) : bool := match c with Offline | Backlog => false | _ => true end.

Record net_inv (n : Z) s : Prop := {
  ni_srv : sys_inv n (srv s);
  ni_main : dispatching (main (srv s)) = true;
  ni_cli : rinv total (cli s);
  ni_len : length (conns s) = total;
  (* a callback has counted exactly when the connection says so *)
  ni_count : forall k c p, conns s !! k = Some c -> callbacks (cli s) !! k = Some p ->
    counted p = negb (uncounted c);
  (* descriptors in use were accepted *)
  ni_fd : forall k fd, conns s !! k = Some (Opened fd) -> fd ∈ accepted (srv s);
  ni_past : countb past (conns s) = length (accepted (srv s));
}.

(** The work left when one worker changes. *)
Lemma with_worker_total (x : sys_state Q C) i f y : with_worker i x f = Some y ->
  exists w w', f w = Some w' /\ (total_work y + work w = total_work x + work w')%nat.
Proof.
  intros (w & w' & [Hpos Hi]%lookupZ_Some & Hf & ->)%with_worker_Some. exists w, w'. split; [done|].
  unfold total_work, insertZ; simpl. rewrite bool_decide_eq_true_2 by done.
  by apply sum_list_with_insert.
Qed.

(** What a server action does to what the composition looks at. *)
Lemma act_accept (x : sys_state Q C) fd y : act x (Accept_ fd) = Some y ->
  main x = MIdle /\ main y = MSend /\ accepted y = accepted x ++ [fd] /\
  total_work y = (total_work x + 2)%nat.
Proof.
  simpl. destruct (main x); try done. unfold mbind, option_bind. case_match eqn:Hww; [|done].
  intros [= <-]. destruct (with_worker_total _ _ _ _ Hww) as (w & w' & [= <-] & Hs).
  apply with_worker_Some in Hww as (? & ? & _ & _ & ->). split_and!; [done..|].
  unfold total_work, work in *. simpl in *. rewrite fq_view_push, length_app in Hs. simpl in Hs. lia.
Qed.

Lemma act_notify (x y : sys_state Q C) : act x Notify = Some y ->
  main x = MSend /\ main y = MIdle /\ accepted y = accepted x /\ (total_work y <= total_work x + 4)%nat.
Proof.
  simpl. destruct (main x); try done. unfold mbind, option_bind. case_match eqn:Hww; [|done].
  intros [= <-]. destruct (with_worker_total _ _ _ _ Hww) as (w & w' & [= <-] & Hs).
  apply with_worker_Some in Hww as (? & ? & _ & _ & ->). split_and!; [done..|].
  destruct (send_view COMM_NEW_CONNECTED (w_chan w)) as (l & Hl & Hcase).
  assert (length l <= 1)%nat by (by destruct Hcase as [->|[-> _]]; simpl; lia).
  unfold total_work, work, pc_work in *. simpl in *. rewrite Hl, length_app in Hs.
  destruct (w_pc w); simpl in *; try lia. destruct (ch_view (w_chan w)), l; simpl in *; lia.
Qed.

(** The other actions of a server that is not shutting down. *)
Lemma act_inner (x y : sys_state Q C) a : dispatching (main x) = true -> act x a = Some y ->
  match a with Accept_ _ | Notify | SigInt => False | _ => True end ->
  main y = main x /\ accepted y = accepted x /\ (total_work y < total_work x)%nat.
Proof.
  intros Hd Hs Ha. destruct (worker_action a) eqn:Hw; [by destruct (worker_act_work _ _ _ Hs Hw) as (? & ? & ?)|].
  destruct a; try done. simpl in Hs. by destruct (main x).
Qed.

(** A server action in the composition. *)
Lemma nact_server s a s' : nact s (NServer a) = Some s' ->
  exists x, act (srv s) a = Some x /\ s' = set_srv x s /\ match a with Accept_ _ => False | _ => True end.
Proof.
  cbn [nact]. intros Hs. destruct a; try done; unfold mbind, option_bind in Hs;
    case_match; simplify_eq; eauto.
Qed.

(** An action that replaces one connection, its callback and the server. *)
Lemma net_inv_update n s k c c' x y p' :
  net_inv n s -> conns s !! k = Some c -> sys_inv n x -> dispatching (main x) = true -> rinv total y ->
  callbacks y = (match p' with Some p => <[k := p]> (callbacks (cli s)) | None => callbacks (cli s) end) ->
  (match p' with Some p => counted p | None => negb (uncounted c) end) = negb (uncounted c') ->
  accepted x = accepted (srv s) \/ (exists fd, accepted x = accepted (srv s) ++ [fd]) ->
  (forall fd, c' = Opened fd -> fd ∈ accepted x) ->
  (length (accepted x) + (if past c then 1 else 0) =
   length (accepted (srv s)) + (if past c' then 1 else 0))%nat ->
  net_inv n (mkNet x y (<[k := c']> (conns s))).
Proof.
  intros [Hsrv Hmain Hcli Hlen Hcount Hfd Hpast] Hk Hx Hmx Hy Hcb Hc' Hacc Hfd' Hnum.
  split; simpl; [done|done|done|by rewrite length_insert| | |].
  - intros j cj p Hj Hp. rewrite Hcb in Hp.
    apply list_lookup_insert_Some in Hj as [(<- & <- & _)|[Hne Hj]].
    + destruct p' as [p'|].
      * apply list_lookup_insert_Some in Hp as [(_ & <- & _)|[? _]]; done.
      * rewrite <- Hc'. by apply (Hcount k).
    + destruct p' as [p'|]; [|by eapply Hcount].
      rewrite list_lookup_insert_ne in Hp by done. by eapply Hcount.
  - intros j fd Hj. apply list_lookup_insert_Some in Hj as [(_ & -> & _)|[_ Hj]]; [by apply Hfd'|].
    specialize (Hfd _ _ Hj). destruct Hacc as [->|[fd' ->]]; [done|]. apply elem_of_app. by left.
  - pose proof (countb_insert past _ _ c' _ Hk) as Hins. lia.
Qed.

Lemma nact_keeps n s a s' : Z.of_nat total < 2 ^ 31 ->
  net_inv n s -> no_signal a = true -> nact s a = Some s' -> net_inv n s'.
Proof.
  intros Htot Hinv Hok Hs. pose proof Hinv as [Hsrv Hmain Hcli Hlen Hcount Hfd Hpast].
  destruct a as [k|k fd|a|i k|k|k]; [| |apply nact_server in Hs as (x & Ha & -> & Hna)| | |]; try cbn [nact] in Hs.
  - destruct (conns s !! k) as [[]|] eqn:Hk; simplify_eq.
    by apply (net_inv_update n s k Offline Backlog _ _ None); auto.
  - destruct (conns s !! k) as [[]|] eqn:Hk; simplify_eq. case_bool_decide; [done|].
    unfold mbind, option_bind in Hs. case_match eqn:Ha; [|done]. injection Hs as <-.
    destruct (act_accept _ _ _ Ha) as (_ & Hm & Hacc & _).
    apply (net_inv_update n s k Backlog (Opened fd) _ _ None); try done.
    + by eapply act_keeps.
    + simpl. by rewrite Hm.
    + right. by exists fd.
    + intros fd' [= <-]. simpl. rewrite Hacc, elem_of_app. right. by apply list_elem_of_singleton.
    + simpl. rewrite Hacc, length_app. simpl. lia.
  - assert (Hkeep : dispatching (main x) = true /\ accepted x = accepted (srv s)).
    { destruct (decide (a = Notify)) as [->|Hnn]; [by destruct (act_notify _ _ Ha) as (_ & -> & -> & _)|].
      destruct (act_inner _ _ _ Hmain Ha) as (-> & -> & _); [by destruct a|done]. }
    destruct Hkeep as [Hm Hacc]. split; simpl; rewrite ?Hacc; try done. by eapply act_keeps.
  - destruct (conns s !! k) as [[]|] eqn:Hk; simplify_eq. destruct (lookupZ _ i); [|done].
    case_match; simplify_eq. by apply (net_inv_update n s k (Opened fd) Answered _ _ None); auto.
  - destruct (conns s !! k) as [[]|] eqn:Hk; simplify_eq. unfold mbind, option_bind in Hs.
    case_match eqn:Hr; [|done]. injection Hs as <-. pose proof (ract_inv _ _ _ _ Htot Hcli Hr) as Hcli'.
    simpl in Hr. repeat case_match; simplify_eq/=.
    by apply (net_inv_update n s k Answered Counted _ _ (Some RTest)); auto.
  - unfold mbind, option_bind in Hs. case_match eqn:Hr; [|done]. injection Hs as <-.
    pose proof (ract_inv _ _ _ _ Htot Hcli Hr) as Hcli'. simpl in Hr.
    destruct (callbacks (cli s) !! k) as [[]|] eqn:Hcb; simplify_eq.
    split; simpl; try done. intros j c p Hj Hp.
    apply list_lookup_insert_Some in Hp as [(<- & <- & _)|[_ Hp]]; [|by eapply Hcount].
    rewrite <- (Hcount _ _ RTest Hj); done.
Qed.

(** ** Every action brings the end nearer *)

Definition conn_left (c : conn) : nat :=
  match c with Offline => 13 | Backlog => 12 | Opened _ => 3 | Answered => 2 | Counted => 0 end.
Definition main_left (m : mpc) : nat := match m with MSend => 5 | _ => 0 end.
Definition net_left s : nat :=
  sum_list_with conn_left (conns s) + countb testing (callbacks (cli s)) +
  (total_work (srv s) + main_left (main (srv s))).

Lemma nact_left n s a s' : net_inv n s -> no_signal a = true -> nact s a = Some s' ->
  (net_left s' < net_left s)%nat.
Proof.
  intros [Hsrv Hmain _ _ _ _ _] Hok Hs. unfold net_left.
  assert (Hins : forall k c c', conns s !! k = Some c ->
    (sum_list_with conn_left (<[k := c']> (conns s)) + conn_left c =
     sum_list_with conn_left (conns s) + conn_left c')%nat).
  { intros k c c' Hk. by apply sum_list_with_insert. }
  destruct a as [k|k fd|a|i k|k|k]; [| |apply nact_server in Hs as (x & Ha & -> & Hna)| | |]; try cbn [nact] in Hs.
  - destruct (conns s !! k) as [[]|] eqn:Hk; simplify_eq. specialize (Hins _ _ Backlog Hk). simpl in *. lia.
  - destruct (conns s !! k) as [[]|] eqn:Hk; simplify_eq. case_bool_decide; [done|].
    unfold mbind, option_bind in Hs. case_match eqn:Ha; [|done]. injection Hs as <-.
    destruct (act_accept _ _ _ Ha) as (Hm & Hm' & _ & Hw). specialize (Hins _ _ (Opened fd) Hk).
    simpl in *. rewrite Hm, Hm'. simpl. lia.
  - simpl.
    destruct (decide (a = Notify)) as [->|Hnn].
    + destruct (act_notify _ _ Ha) as (-> & -> & _ & Hle). simpl. lia.
    + destruct (act_inner _ _ _ Hmain Ha) as (-> & _ & Hlt); [by destruct a|lia].
  - destruct (conns s !! k) as [[]|] eqn:Hk; simplify_eq. destruct (lookupZ _ i); [|done].
    case_match; simplify_eq. specialize (Hins _ _ Answered Hk). simpl in *. lia.
  - destruct (conns s !! k) as [[]|] eqn:Hk; simplify_eq. unfold mbind, option_bind in Hs.
    case_match eqn:Hr; [|done]. injection Hs as <-. specialize (Hins _ _ Counted Hk). simpl in Hr.
    destruct (callbacks (cli s) !! k) as [[]|] eqn:Hcb; simplify_eq.
    pose proof (countb_insert testing _ _ RTest _ Hcb). simpl in *. lia.
  - unfold mbind, option_bind in Hs. case_match eqn:Hr; [|done]. injection Hs as <-. simpl in Hr.
    destruct (callbacks (cli s) !! k) as [[]|] eqn:Hcb; simplify_eq.
    pose proof (countb_insert testing _ _ REnd _ Hcb). simpl in *. lia.
Qed.

(** ** Until the end somebody can act *)

Definition answered_all s : bool := forallb (fun p => match p with REnd => true | _ => false end) (callbacks (cli s)).

(** Every connection is assigned to some worker. *)
Lemma assigned_some {A} n (l : list A) x k : 0 < n -> x ∈ l ->
  exists i, 0 <= i < n /\ x ∈ assigned n i k l.
Proof.
  intros Hn. revert k. induction l as [|y l IH]; intros k; [by intros ?%elem_of_nil|].
  intros [->|Hin]%elem_of_cons.
  - exists (k mod n). split; [by apply Z.mod_pos_bound|]. simpl. rewrite Z.eqb_refl. by left.
  - destruct (IH (k + 1) Hin) as (i & Hi & Hx). exists i. split; [done|]. simpl. case_match; [by right|done].
Qed.

(** With the server at rest every accepted connection can be served. *)
Lemma rest_serves n (x : sys_state Q C) fd :
  sys_inv n x -> main x = MIdle -> (forall i, ready (TWorker i) x = false) -> fd ∈ accepted x ->
  exists i w, lookupZ (workers x) i = Some w /\ serves w fd = true.
Proof.
  intros Hinv Hm Hrest Hfd. pose proof Hinv as [Hlen Hcur _ Hworkers].
  destruct (assigned_some n _ _ 0 ltac:(lia) Hfd) as (i & Hi & Hin).
  destruct (lookupZ (workers x) i) as [w|] eqn:Hw; [|apply lookupZ_None in Hw; lia].
  exists i, w. split; [done|]. specialize (Hrest i). cbn [ready] in Hrest. rewrite Hw in Hrest.
  destruct (wi_pipe _ _ _ _ _ _ (Hworkers _ _ Hw)) as [_ Hnd]; [by rewrite Hm|].
  assert (Hidle : w_pc w = WIdle /\ pending w = []).
  { unfold worker_ready, pending in *. destruct (w_pc w); try done. by destruct (ch_view (w_chan w)). }
  destruct Hidle as [Hpc Hp].
  destruct (idle_worker_served _ _ _ _ Hinv ltac:(by rewrite Hm) Hw Hpc Hp) as [_ Hc].
  unfold serves. rewrite Hpc, Hc. by apply bool_decide_eq_true_2.
Qed.

Lemma existsb_false {A} (f : A -> bool) l x : existsb f l = false -> x ∈ l -> f x = false.
Proof.
  intros Hf Hx. destruct (f x) eqn:E; [|done].
  assert (existsb f l = true) by (apply existsb_exists; exists x; split; [by apply list_elem_of_In|done]). congruence.
Qed.

Lemma net_progress n s : net_inv n s -> (forall p, nready p s = false) -> answered_all s = true.
Proof.
  intros [Hsrv Hmain Hcli Hlen Hcount Hfd Hpast] Hstuck.
  pose proof (Hstuck (PServer TMain)) as Hm. cbn [nready ready] in Hm. apply orb_false_iff in Hm as [Hm Hback].
  assert (Hidle : main (srv s) = MIdle) by (by destruct (main (srv s))). rewrite Hidle in Hback.
  assert (Hrest : forall i, ready (TWorker i) (srv s) = false).
  { intros i. pose proof (Hstuck (PServer (TWorker i))) as Hi. cbn [nready] in Hi.
    by apply orb_false_iff in Hi as [? _]. }
  apply forallb_forall. intros p [k Hp]%list_elem_of_In%list_elem_of_lookup.
  assert (Hk : (k < length (conns s))%nat) by (rewrite Hlen, <- (ri_len _ _ Hcli); by eapply lookup_lt_Some).
  destruct (lookup_lt_is_Some_2 _ _ Hk) as [c Hc].
  assert (Hcr : client_ready s k = false).
  { pose proof (Hstuck (PClient (thread_of k))) as Hj. cbn [nready] in Hj.
    apply (existsb_false _ _ k) in Hj; [|apply elem_of_seq; lia]. cbv beta in Hj. by rewrite Nat.eqb_refl in Hj. }
  unfold client_ready in Hcr. rewrite Hc, Hp in Hcr. apply orb_false_iff in Hcr as [Hcr Htest].
  pose proof (Hcount _ _ _ Hc Hp) as Hcnt. pose proof (list_elem_of_lookup_2 _ _ _ Hc) as Hin.
  destruct c as [| |fd| |]; try done.
  - by apply (existsb_false _ _ _ Hback) in Hin.
  - exfalso. destruct (rest_serves _ _ _ Hsrv Hidle Hrest (Hfd _ _ Hc)) as (i & w & Hw & Hs).
    pose proof (Hstuck (PServer (TWorker i))) as Hi. cbn [nready] in Hi.
    apply orb_false_iff in Hi as [_ Hi]. rewrite Hw in Hi.
    apply (existsb_false _ _ _ Hi) in Hin. simpl in Hin. congruence.
  - by destruct p.
Qed.

(** The first process that can act. *)
Definition procs s : list proc :=
  PServer TMain :: map (fun i => PServer (TWorker i)) (range 0 (Z.of_nat (length (workers (srv s))))) ++
  map (fun k => PClient (thread_of k)) (seq 0 (length (conns s))).
Definition nmover s : proc := default (PServer TMain) (snd <$> list_find (fun p => nready p s = true) (procs s)).

Lemma nready_procs s p : nready p s = true -> p ∈ procs s.
Proof.
  unfold procs. destruct p as [[|i]|j]; intros Hr; [by left|right; apply elem_of_app..].
  - left. apply list_elem_of_fmap. exists i. split; [done|]. apply elem_of_seqZ.
    cbn [nready ready] in Hr. destruct (lookupZ (workers (srv s)) i) as [w|] eqn:Hw; [|done].
    assert (is_Some (lookupZ (workers (srv s)) i)) as ?%lookupZ_is_Some by by eexists. lia.
  - right. cbn [nready] in Hr. apply existsb_exists in Hr as (k & Hk%list_elem_of_In & Hr).
    apply andb_true_iff in Hr as [Hj%Nat.eqb_eq _]. apply list_elem_of_fmap. exists k. by subst.
Qed.

Lemma nmover_ready n s : net_inv n s -> answered_all s <> true -> nready (nmover s) s = true.
Proof.
  intros Hinv Hng. unfold nmover. destruct (list_find _ _) as [[i p]|] eqn:Hf; simpl.
  - by apply list_find_Some in Hf as (_ & ? & _).
  - exfalso. apply Hng. eapply net_progress; [done|]. intros p. destruct (nready p s) eqn:Hp; [|done].
    apply list_find_None in Hf. rewrite Forall_forall in Hf. exfalso. by apply (Hf p); [apply nready_procs|].
Qed.

Lemma nstart_inv cs : cs <> [] -> Forall (fun c : C => ch_view c = []) cs ->
  net_inv (Z.of_nat (length cs)) (nstart cs).
Proof.
  intros Hne Hall. split; simpl; [by apply start_inv|done|apply rinv_start|apply length_replicate| | |].
  - by intros k c p [-> _]%lookup_replicate [-> _]%lookup_replicate.
  - by intros k fd [? _]%lookup_replicate.
  - by apply countb_replicate.
Qed.

(** C1. The load test completes.  Take any fair execution of the client's threads and
    the server's threads, without SIGINT, in which [total] clients start.  Then every
    connection is accepted, handed to a worker, answered and counted; the counter of
    the client ends at [total], and the completion has been reported.  This holds
    whatever pipe capacity the server has - the notifications it loses are made up
    for - and however the client's clients are spread over its threads. *)
Theorem load_test_completes cs tr lab :
  infinite_run (stutter nact) tr lab -> nfair tr lab ->
  cs <> [] -> Forall (fun c : C => ch_view c = []) cs -> (0 < total)%nat -> Z.of_nat total < 2 ^ 31 ->
  tr 0%nat = nstart cs -> (forall t, on_action true no_signal (lab t) = true) ->
  exists t, Forall (eq Counted) (conns (tr t)) /\ length (conns (tr t)) = total /\
    length (accepted (srv (tr t))) = total /\ comp (cli (tr t)) = Z.of_nat total /\
    (0 < reports (cli (tr t)))%nat.
Proof.
  intros Hrun Hfair Hne Hempty Hpos Htot Hstart Hok. set (n := Z.of_nat (length cs)).
  assert (Hinv : forall t, (0 <= t)%nat -> net_inv n (tr t)).
  { apply (stutter_invariant nact no_signal (net_inv n) tr lab 0 Hrun); [by intros t _| |].
    - intros s a s' Hs Ha Hact. by eapply nact_keeps.
    - rewrite Hstart. by apply nstart_inv. }
  destruct (stutter_leads_to nact nmine nready nmover Nat.lt net_left no_signal (net_inv n)
    (fun s => answered_all s = true) tr lab 0) as (t & _ & Hall).
  - apply lt_wf.
  - split; [apply nmover_ready|]. intros s a s' Hs _ Ha Hact. right; left. by eapply nact_left.
  - done.
  - by intros t _.
  - done.
  - done.
  - exists t. destruct (Hinv t ltac:(lia)) as [_ _ [Hrl Hrc Hrr] Hlen Hcount _ Hpast].
    unfold answered_all in Hall. rewrite forallb_forall in Hall.
    assert (Hend : forall k p, callbacks (cli (tr t)) !! k = Some p -> p = REnd).
    { intros k p Hp. specialize (Hall p ltac:(by eapply list_elem_of_In, list_elem_of_lookup_2)). by destruct p. }
    assert (Hconns : Forall (eq Counted) (conns (tr t))).
    { apply Forall_lookup. intros k c Hc.
      assert (Hk : (k < length (callbacks (cli (tr t))))%nat) by (rewrite Hrl, <- Hlen; by eapply lookup_lt_Some).
      destruct (lookup_lt_is_Some_2 _ _ Hk) as [p Hp]. pose proof (Hcount _ _ _ Hc Hp) as Hcp.
      rewrite (Hend _ _ Hp) in Hcp. by destruct c. }
    destruct (countb_all counted testing (callbacks (cli (tr t)))) as [Hc Ht].
    { apply Forall_lookup. intros k p Hp. by rewrite (Hend _ _ Hp). }
    destruct (countb_all past waiting (conns (tr t))) as [Hp _].
    { eapply Forall_impl; [exact Hconns|]. by intros c <-. }
    split_and!; [done|done|congruence|congruence|]. destruct Hrr as [?|[?|?]]; [congruence|lia|done|lia].
Qed.
End load_test.

(** ** The theorem at a concrete input *)

(** Two clients in two threads, a server with two workers, each client with the
    other's number modulo two. *)
Definition demo_net_run : list naction :=
  [NConnect 0; NConnect 1; NAccept 1 9; NServer Notify; NAccept 0 8; NServer Notify;
   NServer (Wake 0); NServer (RecvByte 0); NServer (TryPop 0); NServer (Register 0); NServer (TryPop 0);
   NServer (RecvByte 0); NServe 0 1;
   NServer (Wake 1); NServer (RecvByte 1); NServer (TryPop 1); NServer (Register 1); NServer (TryPop 1);
   NServer (RecvByte 1); NServe 1 0; NInc 0; NInc 1; NTest 0; NTest 1].
Definition demo_net_end : net (Q := ThreadSafeQueue) (C := bchan) :=
  default (nstart 2 demo_chans) (exec (nact 2) (nstart 2 demo_chans) demo_net_run).
Definition demo_net_at : nat -> net (Q := ThreadSafeQueue) (C := bchan) :=
  lasso_state (stutter (nact 2)) (nstart 2 demo_chans) demo_net_end (map Some demo_net_run) [None].
Definition demo_net_lab : nat -> option naction := lasso_lab None (map Some demo_net_run) [None].

Lemma demo_net_fair : nfair id demo_net_at demo_net_lab.
Proof.
  intros p. apply (lasso_fair _ _ _ _ _ _ _ _ 0); [simpl; lia|]. right.
  change (nready id p demo_net_end = false). destruct (nready id p demo_net_end) eqn:Hr; [|done].
  assert (Hall : forallb (fun p => negb (nready id p demo_net_end)) (procs id demo_net_end) = true)
    by (vm_compute; reflexivity).
  rewrite forallb_forall in Hall. specialize (Hall p).
  rewrite Hr in Hall. symmetry. by apply Hall, list_elem_of_In, nready_procs.
Qed.

Lemma load_test_completes_witness :
  exists t, Forall (eq Counted) (conns (demo_net_at t)) /\ length (conns (demo_net_at t)) = 2%nat /\
    length (accepted (srv (demo_net_at t))) = 2%nat /\ comp (cli (demo_net_at t)) = 2 /\
    (0 < reports (cli (demo_net_at t)))%nat.
Proof.
  apply (load_test_completes 2 id demo_chans demo_net_at demo_net_lab).
  - apply lasso_run; [done|vm_compute; reflexivity..].
  - apply demo_net_fair.
  - done.
  - by repeat constructor.
  - lia.
  - lia.
  - reflexivity.
  - intros t. apply (lasso_all (stutter (nact 2)) (nstart 2 demo_chans) demo_net_end None
      (map Some demo_net_run) [None] (on_action true no_signal) (fun _ => true) 0);
      [vm_compute; reflexivity..|done|lia].
Defined.
