(* ===== verification/Tools.v ===== *)
(** * Tools (server/include/tools.hpp)

    [daemonize], with what open(2) and close(2) do to the table of descriptors, and
    [get_thread_id].  The syslog macros only log. *)

From S2P Require Import Prelude Sys CLib.

Section tools.
Context `{Env} {S : Type}.

Definition daemonize (no_change no_close : bool) : M S bool :=
  pid ← sys_ Fork;
  if pid <? 0 then mret false
  else if 0 <? pid then stop (HExit 0)
  else
    sys_ (Umask 0);;
    sid ← sys_ Setsid;
    if sid <? 0 then mret false
    else
      failed ← (if no_change then mret false else ret ← sys_ (Chdir "/"); mret (ret <? 0));
      if failed : bool then mret false
      else if no_close then mret true
      else
        for_each [0; 1; 2] (fun fd => sys_ (Close fd);; mret tt);;
        for_each [(0, 0); (2, 1); (2, 2)] (fun '(mode, expected) =>
          fd ← sys_ (Open "/dev/null" mode); assert_ (fd =? expected));;
        mret true.

(** The [unsigned long] in the first bytes of an object, on this (little endian)
    host; reading past the end of the object is undefined. *)
Definition sizeof_ulong : nat := 8.
Fixpoint load_le (bytes : list Z) : Z :=
  match bytes with [] => 0 | b :: bytes => b + 256 * load_le bytes end.

(** [thread_id] is the representation of the [std::thread::id] of the thread. *)
Definition get_thread_id (thread_id : list Z) : M S Z :=
  if (sizeof_ulong <=? length thread_id)%nat
  then mret (load_le (take sizeof_ulong thread_id)) else stop HUB.
End tools.

(** ** Descriptors *)

(** The open descriptors after a history, from those open at its start. *)
Definition fd_step (fds : gset Z) (e : event) : gset Z :=
  match e with
  | (Close fd, _) => fds ∖ {[fd]}
  | (Open _ _, r) => if 0 <=? r_ret r then {[r_ret r]} ∪ fds else fds
  | _ => fds
  end.
Definition fds_after (fds : gset Z) (L : list event) : gset Z := foldl fd_step fds L.

Lemma fds_after_app fds L1 L2 : fds_after fds (L1 ++ L2) = fds_after (fds_after fds L1) L2.
Proof. apply foldl_app. Qed.

(** open(2): the lowest descriptor that is not open; "/dev/null" can be opened. *)
Definition open_contract `{Env} (fds : gset Z) : Prop :=
  forall h flags r, env h (Open "/dev/null" flags) = Some r ->
    0 <= r_ret r /\ (r_ret r ∉ fds_after fds h) /\
    forall fd, 0 <= fd < r_ret r -> fd ∈ fds_after fds h.

Section props.
Context `{Env} {S : Type} (fds : gset Z).
Implicit Types w : world S.

(** Opening when the descriptors before [n] are the open ones among those up to [n]. *)
Lemma open_next flags n w (Q : res unit -> world S -> Prop) :
  returns -> open_contract fds -> 0 <= n ->
  n ∉ fds_after fds (w_log w) -> (forall fd, 0 <= fd < n -> fd ∈ fds_after fds (w_log w)) ->
  (forall r, let w' := after (Open "/dev/null" flags) r w in
    fds_after fds (w_log w') = {[n]} ∪ fds_after fds (w_log w) -> Q (Ok tt) w') ->
  wp (fd ← sys_ (Open "/dev/null" flags); assert_ (fd =? n)) Q w.
Proof.
  intros Hret Hopen Hn Hfree Hlow HQ.
  destruct (Hret (w_log w) (Open "/dev/null" flags)) as [r Hr].
  destruct (Hopen _ _ _ Hr) as (Hpos & Hr1 & Hr2).
  assert (Heq : r_ret r = n).
  { destruct (Z.lt_trichotomy (r_ret r) n) as [Hlt|[?|Hlt]]; [|done|].
    - by destruct Hr1; apply Hlow.
    - by destruct Hfree; apply Hr2. }
  wp_step. apply wp_sys_; [congruence|]. intros r' Hr'. simplify_eq. cbn [bind_post].
  rewrite Z.eqb_refl. apply wp_assert; [intros _|done]. apply HQ. simpl. rewrite fds_after_app. cbn.
  by rewrite (proj2 (Z.leb_le _ _)).
Qed.

(** Closing a list of descriptors. *)
Lemma close_all_wp l w (Q : res unit -> world S -> Prop) : returns ->
  (forall w' L, w_st w' = w_st w -> w_log w' = w_log w ++ L ->
    fds_after fds (w_log w') = fds_after fds (w_log w) ∖ list_to_set l -> Q (Ok tt) w') ->
  wp (for_each l (fun fd => sys_ (Close fd);; mret tt)) Q w.
Proof.
  intros Hret. revert w. induction l as [|fd l IH]; intros w HQ.
  - apply wp_for_each_nil, (HQ _ []); [done|by rewrite app_nil_r|set_solver].
  - apply wp_for_each_cons. wp_steps_ret Hret. apply IH. intros w' L Hst Hlog Hfds.
    eapply HQ; [done|by rewrite Hlog; simpl; rewrite <- app_assoc|].
    rewrite Hfds. simpl. rewrite fds_after_app. cbn. set_solver.
Qed.

(** The standard descriptors, redirected. *)
Lemma redirect_wp w : returns -> open_contract fds ->
  wp (for_each [0; 1; 2] (fun fd => sys_ (Close fd);; mret tt);;
      for_each [(0, 0); (2, 1); (2, 2)] (fun '(mode, expected) =>
        fd ← sys_ (Open "/dev/null" mode); assert_ (fd =? expected));;
      mret true)
    (fun r w' => r = Ok true /\ w_st w' = w_st w /\ exists L, w_log w' = w_log w ++ L /\
      fds_after fds (w_log w') = {[0; 1; 2]} ∪ fds_after fds (w_log w)) w.
Proof.
  intros Hret Hopen. wp_step. apply close_all_wp; [done|]. intros w1 L Hst Hlog Hfds. cbn [bind_post].
  wp_step. apply wp_for_each_cons.
  apply open_next; [done|done|lia|rewrite Hfds; set_solver|lia|]. intros r0 w2 Hfds2. cbn [bind_post].
  apply wp_for_each_cons. apply open_next; [done|done|lia|rewrite Hfds2, Hfds; set_solver| |].
  { intros fd Hfd. assert (fd = 0) as -> by lia. rewrite Hfds2. set_solver. }
  intros r1 w3 Hfds3. cbn [bind_post].
  apply wp_for_each_cons. apply open_next; [done|done|lia|rewrite Hfds3, Hfds2, Hfds; set_solver| |].
  { intros fd Hfd. assert (fd = 0 \/ fd = 1) as [-> | ->] by lia; rewrite Hfds3, Hfds2; set_solver. }
  intros r2 w4 Hfds4. cbn [bind_post]. apply wp_for_each_nil. cbn [bind_post]. apply wp_ret.
  split_and!; [done|done|]. eexists. split; [simpl; rewrite Hlog, <- !app_assoc; reflexivity|].
  rewrite Hfds4, Hfds3, Hfds2, Hfds. apply set_eq. intros fd.
  destruct (decide (fd = 0)), (decide (fd = 1)), (decide (fd = 2)); set_solver.
Qed.

Ltac daemon_false :=
  eexists; split; [simpl; rewrite <- ?app_assoc; reflexivity|]; split; [done|];
  simpl; rewrite ?fds_after_app; done.

End props.

(** ** Thread identifiers *)

Definition byte (b : Z) : Prop := 0 <= b < 256.

Lemma load_le_bounds l : Forall byte l -> 0 <= load_le l < 256 ^ Z.of_nat (length l).
Proof.
  induction 1 as [|b l Hb Hl IH]; [done|]. unfold byte in Hb. cbn [load_le length].
  rewrite Nat2Z.inj_succ, Z.pow_succ_r by lia. lia.
Qed.

Lemma load_le_inj l k : Forall byte l -> Forall byte k -> length l = length k ->
  load_le l = load_le k -> l = k.
Proof.
  intros Hl. revert k. induction Hl as [|b l Hb Hl IH]; intros [|c k] Hk Hlen Heq; try done.
  inversion Hk as [|? ? Hc Hk']; subst. unfold byte in *. cbn [load_le] in Heq.
  injection Hlen as Hlen. assert (b = c /\ load_le l = load_le k) as [-> Hrest] by lia.
  f_equal. by apply IH.
Qed.

(** Identifiers of eight bytes - a [pthread_t] - that differ get different numbers,
    of 64 bits. *)
Lemma get_thread_id_distinct {S} a b (w : world S) :
  Forall byte a -> Forall byte b -> length a = sizeof_ulong -> length b = sizeof_ulong ->
  exists m n, get_thread_id a w = (Ok m, w) /\ get_thread_id b w = (Ok n, w) /\
    0 <= m < 2 ^ 64 /\ (m = n <-> a = b).
Proof.
  intros Ha Hb Hla Hlb. exists (load_le a), (load_le b). unfold get_thread_id.
  rewrite Hla, Hlb. cbn. rewrite !take_ge by (by rewrite ?Hla, ?Hlb).
  pose proof (load_le_bounds _ Ha) as Hm. rewrite Hla in Hm. split_and!; [done|done|lia|unfold sizeof_ulong in Hm; simpl in Hm; lia|].
  split; [|congruence]. apply load_le_inj; [done|done|congruence].
Qed.

(** ** The theorem at a concrete input *)

(** The lowest number that is not in a set. *)
Definition lowest (s : gset Z) : Z :=
  match list_find (fun n => n ∉ s) (seqZ 0 (Z.of_nat (size s) + 1)) with
  | Some (_, n) => n
  | None => 0
  end.

Lemma lowest_spec s : 0 <= lowest s /\ (lowest s ∉ s) /\ forall n, 0 <= n < lowest s -> n ∈ s.
Proof.
  unfold lowest. destruct (list_find _ _) as [[i n]|] eqn:E.
  - apply list_find_Some in E as (Hi & Hn & Hmin). apply lookup_seqZ in Hi as [Hn' Hlt].
    split_and!; [lia|done|]. intros m Hm. destruct (decide (m ∈ s)) as [|Hni]; [done|].
    exfalso. apply (Hmin (Z.to_nat m) m); [apply lookup_seqZ; lia|lia|done].
  - exfalso. apply list_find_None in E.
    assert (Hsub : list_to_set (seqZ 0 (Z.of_nat (size s) + 1)) ⊆ s).
    { intros x Hx%elem_of_list_to_set. rewrite Forall_forall in E. specialize (E _ Hx).
      destruct (decide (x ∈ s)); done. }
    apply subseteq_size in Hsub. rewrite size_list_to_set in Hsub by apply NoDup_seqZ.
    rewrite length_seqZ in Hsub. lia.
Qed.

(** The child of the fork; the standard descriptors and two others are open. *)
Definition demo_fds : gset Z := {[0; 1; 2; 4; 5]}.
Definition demo_child : Env := fun h c => Some (match c with
  | Setsid => ret_ok 7
  | Open _ _ => ret_ok (lowest (fds_after demo_fds h))
  | _ => ret_ok 0
  end).

