(* ===== verification/SimpleServers.v ===== *)
(** * The single-connection programs
      (server/include/simple_tcp_server.hpp, server/include/simple_file_down_server.hpp,
       client/include/simple_tcp_client.hpp)

    Straight-line programs without state of their own.  A function that must
    return a value and reaches its closing brace is undefined behaviour. *)

From S2P Require Import Prelude Sys CLib.

(** [BUFSIZ] of the C library. *)
Definition BUFSIZ : Z := 8192.

(** What an array of BUFSIZ bytes holds after a memset to [c]. *)
Definition bufsiz_filled (c : Z) : list Z := replicate (Z.to_nat BUFSIZ) c.
#[global] Arguments bufsiz_filled : simpl never.

Section programs.
Context `{Env}.

(** The part the two servers share: a listening socket. *)
Definition listening_socket `{InetPton} (ip : string) (port : Z) (configure : Z -> M unit unit)
    : M unit Z :=
  let srv_addr := sockaddr_in ip port in
  srv_fd ← sys_ (Socket AF_INET SOCK_STREAM 0);
  assert_ (0 <=? srv_fd);;
  sys_ (SetSockOpt srv_fd SOL_SOCKET SO_REUSEADDR 1);;
  configure srv_fd;;
  ret ← sys_ (Bind srv_fd srv_addr);
  assert_ (negb (ret =? -1));;
  ret ← sys_ (Listen srv_fd 1024);
  assert_ (negb (ret =? -1));;
  mret srv_fd.

(** One turn of the loop of the simple server; the array is all zeros at its
    start. *)
Definition simple_turn (cli_fd : Z) (_ : unit) : M unit (unit + unit) :=
  '(n, buf) ← recv cli_fd (bufsiz_filled 0) (BUFSIZ - 1) 0;
  if 0 <? n then
    msg ← string_of buf;
    print (OutMsg cli_fd n msg);;
    mret (inl tt)
  else if n <? 0 then stop (HExit 1)
  else sys_ (Close cli_fd);; mret (inr tt).

(** [cli_addr] are the 16 bytes that accept stored; [inet_ntop] is given the
    address of the structure, and the console the port as it is in memory. *)
Definition print_peer (cli_addr : list Z) : M unit unit :=
  print (OutStr "client addr" (take 4 cli_addr));;
  print (OutNum "client port" (load_u16 (sin_port cli_addr))).

Definition start_simple_tcp_server `{InetPton} (fuel : nat) (ip : string) (port recv_buf_size : Z)
    : M unit Z :=
  srv_fd ← listening_socket ip port (fun srv_fd =>
    sys_ (SetSockOpt srv_fd SOL_SOCKET SO_RCVBUF recv_buf_size);;
    r ← sys (GetSockOpt srv_fd SOL_SOCKET SO_RCVBUF);
    print (OutNum "The tcp receive buffer size" (default recv_buf_size (head (r_data r)))));
  r ← sys (Accept srv_fd);
  let cli_fd := r_ret r in
  if cli_fd <? 0 then mret 1
  else
    print_peer (r_data r);;
    while_ fuel (simple_turn cli_fd) tt;;
    sys_ (Sleep 10000);;
    sys_ (Close srv_fd);;
    mret 0.

Definition start_simple_file_down_server `{InetPton} (ip : string) (port : Z) (file_path : string)
    : M unit Z :=
  srv_fd ← listening_socket ip port (fun _ => mret tt);
  cli_fd ← sys_ (Accept srv_fd);
  if cli_fd <? 0 then mret 1
  else
    file_fd ← sys_ (Open file_path 0);
    assert_ (0 <? file_fd);;
    r ← sys (Fstat file_fd);
    let st_size := default 0 (head (r_data r)) in
    count ← sys_ (SendFile cli_fd file_fd st_size);
    print (OutNum "Send file with bytes" st_size);;
    print (OutNum "send successfully bytes" count);;
    sys_ (Close file_fd);;
    sys_ (Close cli_fd);;
    sys_ (Close srv_fd);;
    stop HUB.

Definition start_simple_tcp_client `{InetPton} (ip : string) (port send_buf_size : Z) : M unit Z :=
  let srv_addr := sockaddr_in ip port in
  srv_fd ← sys_ (Socket AF_INET SOCK_STREAM 0);
  assert_ (0 <=? srv_fd);;
  sys_ (SetSockOpt srv_fd SOL_SOCKET SO_SNDBUF send_buf_size);;
  r ← sys (GetSockOpt srv_fd SOL_SOCKET SO_SNDBUF);
  print (OutNum "The tcp send buffer size" (default send_buf_size (head (r_data r))));;
  ret ← sys_ (Connect srv_fd srv_addr);
  if negb (ret =? -1) then
    len ← sys_ (Send srv_fd (bufsiz_filled 97) 0);
    when (0 <? wrap_s 32 len) (print (OutNum "Send successfully with len" (wrap_s 32 len)));;
    sys_ (Sleep 10000);;
    sys_ (Close srv_fd);;
    mret 0
  else stop HUB.
End programs.

(** ** Properties *)

Section props.
Context `{Env}.
Implicit Types w : world unit.

(** The peer that the simple server prints is not the client: for a client at
    the address [ip] and the port [port], the four bytes shown as its address are
    the address family and the port of its socket address, and the number shown as
    its port is the port with its two bytes exchanged. *)
Theorem print_peer_shows `{InetPton} ip port w :
  0 <= port < 2 ^ 16 ->
  wp (print_peer (sockaddr_in ip port)) (fun r w' => r = Ok tt /\ w_out w' = w_out w ++
    [OutStr "client addr" [AF_INET; 0; port / 256; port mod 256];
     OutNum "client port" (256 * (port mod 256) + port / 256)]) w.
Proof.
  intros Hp. unfold print_peer. wp_steps. split; [done|]. rewrite <- app_assoc. simpl.
  unfold htons, sin_port. simpl. by rewrite wrap_u_id by done.
Qed.

(** What a client that connects makes of it. *)
Definition messages (fd : Z) (rs : list reply) : list output :=
  map (fun r => OutMsg fd (r_ret r) (until_nul (r_data r))) rs.

(** The simple server's read loop: it prints every chunk [rs] the client sends,
    up to its first NUL, and then closes the connection when the client has left
    ([r] is 0) or ends the program with status 1 when the socket fails. *)
Lemma simple_turn_reads fuel fd rs r w :
  returns -> recv_contract -> drains (Recv fd (BUFSIZ - 1) 0) (w_log w) rs r ->
  (length rs < fuel)%nat ->
  wp (while_ fuel (simple_turn fd) tt) (fun x w' => w_out w' = w_out w ++ messages fd rs /\
    if r_ret r =? 0 then x = Ok tt /\ closed (w_log w') = closed (w_log w) ++ [fd]
    else x = Stop (HExit 1) /\ closed (w_log w') = closed (w_log w)) w.
Proof.
  intros Hret Hrecv Hd Hfuel. set (rc := Recv fd (BUFSIZ - 1) 0) in *.
  assert (Hlen : Z.of_nat (length (bufsiz_filled 0)) = BUFSIZ).
  { unfold bufsiz_filled. rewrite length_replicate. apply Z2Nat.id. unfold BUFSIZ. lia. }
  apply (wp_while_drains rc _ (fun ps _ w' => w_out w' = w_out w ++ messages fd ps /\
    closed (w_log w') = closed (w_log w)) _ fuel tt w rs r); [| |done|done|].
  - intros ps [] w' r' (Hout & Hc) Hr Hpos. unfold simple_turn. wp_step.
    apply (recv_wp _ _ _ _ r'); [done|done|unfold BUFSIZ in *; lia|]. intros [Hle Hdl]. cbn [bind_post].
    rewrite (proj2 (Z.ltb_lt _ _)) by done. wp_step. unfold string_of, bufsiz_filled.
    rewrite c_str_cleared by (unfold BUFSIZ in *; lia). wp_steps. exists tt.
    split_and!; [done|done| |].
    + unfold messages. by rewrite map_app, Hout, <- app_assoc.
    + rewrite closed_app, Hc, app_nil_r. done.
  - intros [] w' (Hout & Hc) Hr Hneg. unfold simple_turn. wp_step.
    apply (recv_wp _ _ _ _ r); [done|done|unfold BUFSIZ in *; lia|]. intros [Hle Hdl]. cbn [bind_post].
    rewrite (proj2 (Z.ltb_ge _ _)) by done.
    destruct (Z.ltb_spec (r_ret r) 0); wp_steps_ret Hret.
    + rewrite (proj2 (Z.eqb_neq _ _)) by lia. split; [done|]. split; [done|].
      by rewrite closed_app, app_nil_r.
    + rewrite (proj2 (Z.eqb_eq _ _)) by lia. split; [done|]. split; [done|].
      rewrite !closed_app, Hc, app_nil_r. done.
  - by rewrite app_nil_r.
Qed.

(** The answers of recv in a log that carried data. *)
Definition chunk_of (e : event) : option reply :=
  match e with (Recv _ _ _, r) => if 0 <? r_ret r then Some r else None | _ => None end.
Definition chunks (L : list event) : list reply := omap chunk_of L.

Lemma chunks_app L1 L2 : chunks (L1 ++ L2) = chunks L1 ++ chunks L2.
Proof. apply omap_app. Qed.

(** The addresses that accept stored. *)
Definition peer_of (e : event) : option (list Z) :=
  match e with (Accept _, r) => if 0 <=? r_ret r then Some (r_data r) else None | _ => None end.
Definition peers (L : list event) : list (list Z) := omap peer_of L.

Lemma peers_app L1 L2 : peers (L1 ++ L2) = peers L1 ++ peers L2.
Proof. apply omap_app. Qed.

Lemma peers_nil L : accepts L = [] -> peers L = [].
Proof.
  unfold accepts, peers. induction L as [|[c r] L IH]; [done|]. cbn.
  destruct c; try done. destruct (0 <=? r_ret r); [done|]. apply IH.
Qed.

(** The read loop of the simple server, whatever recv answers and however long. *)
Lemma simple_loop fuel fd w :
  returns -> recv_contract ->
  wp (while_ fuel (simple_turn fd) tt) (fun x w' => exists L,
    w_log w' = w_log w ++ L /\ w_out w' = w_out w ++ messages fd (chunks L) /\
    accepts L = [] /\ closed L = (match x with Ok _ => [fd] | Stop _ => [] end) /\
    match x with Ok _ => True | Stop h => h = HExit 1 \/ h = HFuel end) w.
Proof.
  intros Hret Hrecv.
  assert (Hlen : Z.of_nat (length (bufsiz_filled 0)) = BUFSIZ).
  { unfold bufsiz_filled. rewrite length_replicate. apply Z2Nat.id. unfold BUFSIZ. lia. }
  apply (wp_while (fun _ w' => exists L, w_log w' = w_log w ++ L /\
    w_out w' = w_out w ++ messages fd (chunks L) /\ accepts L = [] /\ closed L = [])).
  - intros [] w' (L & ? & ? & ? & ?). exists L. split_and!; auto.
  - intros [] w' (L & Hlog & Hout & Ha & Hc). set (rc := Recv fd (BUFSIZ - 1) 0).
    destruct (Hret (w_log w') rc) as [r Hr]. unfold simple_turn. wp_step.
    apply (recv_wp _ _ _ _ r); [done|done|unfold BUFSIZ in *; lia|]. intros [Hle Hdl]. cbn [bind_post].
    destruct (Z.ltb_spec 0 (r_ret r)) as [Hpos|Hneg].
    + wp_step. unfold string_of, bufsiz_filled. rewrite c_str_cleared by (unfold BUFSIZ in *; lia).
      wp_steps. exists (L ++ [(rc, r)]). rewrite Hlog, Hout, chunks_app, accepts_app, closed_app, Ha, Hc.
      split_and!; [by rewrite app_assoc| |done|done]. cbn. rewrite (proj2 (Z.ltb_lt _ _)) by done.
      unfold messages. by rewrite map_app, app_assoc.
    + assert (Hno : chunk_of (rc, r) = None) by (cbn; by rewrite (proj2 (Z.ltb_ge _ _))).
      destruct (Z.ltb_spec (r_ret r) 0); wp_steps_ret Hret.
      * exists (L ++ [(rc, r)]). rewrite Hlog, Hout, chunks_app, accepts_app, closed_app, Ha, Hc.
        cbn [chunks omap list_omap]. rewrite Hno, app_nil_r. split_and!; auto. by rewrite app_assoc.
      * match goal with |- context [(Close fd, ?a)] => exists (L ++ [(rc, r); (Close fd, a)]) end.
        rewrite Hlog, Hout, chunks_app, accepts_app, closed_app, Ha, Hc.
        cbn [chunks omap list_omap]. rewrite Hno. cbn. rewrite app_nil_r. split_and!; auto.
        by rewrite <- !app_assoc.
  - exists []. by rewrite !app_nil_r.
Qed.

(** C39. The simple server, start to end, whatever the calls answer and however much
    its client sends: it prints the size of its buffer, what it takes for the
    client's address and port, and then every chunk received, in order, up to its
    first NUL; a client is accepted at most once; at a regular end (0) the
    connection and then the listening socket have been closed, once each; when
    accept fails (1) or recv fails (exit 1) the sockets are left to the end of the
    process. *)
Theorem simple_tcp_server_session `{InetPton} fuel ip port size :
  returns -> recv_contract ->
  wp (start_simple_tcp_server fuel ip port size) (fun r w' =>
    let L := w_log w' in
    let printed := fun fd => exists n addr, peers L = [addr] /\ w_out w' =
      [OutNum "The tcp receive buffer size" n; OutStr "client addr" (take 4 addr);
       OutNum "client port" (load_u16 (sin_port addr))] ++ messages fd (chunks L) in
    match r with
    | Ok 0 => exists fd rsrv, head L = Some (Socket AF_INET SOCK_STREAM 0, rsrv) /\
        accepts L = [fd] /\ closed L = [fd; r_ret rsrv] /\ printed fd
    | Ok ret => ret = 1 /\ accepts L = [] /\ closed L = [] /\ chunks L = []
    | Stop HAssert => accepts L = [] /\ closed L = [] /\ chunks L = []
    | Stop h => (h = HExit 1 \/ h = HFuel) /\
        exists fd, accepts L = [fd] /\ closed L = [] /\ printed fd
    end) (World tt 0 [] []).
Proof.
  intros Hret Hrecv. unfold start_simple_tcp_server, listening_socket.
  wp_steps_ret Hret; try done.
  match goal with Hr : env _ (Accept _) = Some ?a |- _ => destruct (Z.ltb_spec (r_ret a) 0) end.
  - wp_step. cbn. by rewrite (proj2 (Z.leb_gt _ _)).
  - unfold print_peer. wp_steps_ret Hret. eapply wp_mono; [by apply simple_loop|].
    intros x w' (L & Hlog & Hout & Ha & Hc & Hx).
    cbn [w_log w_out after] in Hlog, Hout. destruct x as [[]|h]; cbn [bind_post].
    + wp_steps_ret Hret. do 2 eexists. rewrite Hlog, Hout. split; [reflexivity|].
      rewrite <- !app_assoc. rewrite !accepts_app, !closed_app, !chunks_app, !peers_app, Ha, Hc, (peers_nil L Ha).
      cbn. rewrite (proj2 (Z.leb_le _ _)) by done. split_and!; [done|done|]. rewrite !app_nil_r.
      by do 2 eexists.
    + assert (Hgoal : exists fd, accepts (w_log w') = [fd] /\ closed (w_log w') = [] /\
        exists n addr, peers (w_log w') = [addr] /\ w_out w' =
          [OutNum "The tcp receive buffer size" n; OutStr "client addr" (take 4 addr);
           OutNum "client port" (load_u16 (sin_port addr))] ++ messages fd (chunks (w_log w'))).
      { eexists. rewrite Hlog, Hout, !accepts_app, !closed_app, !chunks_app, !peers_app, Ha, Hc,
          (peers_nil L Ha). cbn. rewrite (proj2 (Z.leb_le _ _)) by done. split_and!; [done|done|]. by do 2 eexists. }
      destruct Hx as [->| ->]; (split; [auto|exact Hgoal]).
Qed.

(** Where the file server and the simple client end without a value. *)
Lemma start_simple_file_down_server_no_value `{InetPton} ip port path w :
  returns ->
  wp (start_simple_file_down_server ip port path)
    (fun r _ => r = Stop HAssert \/ r = Ok 1 \/ r = Stop HUB) w.
Proof.
  intros Hret. unfold start_simple_file_down_server, listening_socket.
  wp_steps_ret Hret; repeat (case_match; wp_steps_ret Hret); auto.
Qed.

Lemma start_simple_tcp_client_outcomes `{InetPton} ip port size w :
  returns -> closed (w_log w) = [] ->
  wp (start_simple_tcp_client ip port size) (fun r w' =>
    match r with
    | Ok ret => ret = 0 /\ exists fd, closed (w_log w') = [fd]
    | Stop h => (h = HAssert \/ h = HUB) /\ closed (w_log w') = []
    end) w.
Proof.
  intros Hret Hc. unfold start_simple_tcp_client.
  wp_steps_ret Hret; repeat (case_match; wp_steps_ret Hret); simpl; rewrite ?closed_app, ?Hc; eauto.
Qed.
End props.

(** ** The theorems at concrete inputs *)

Definition demo_env : Env := fun h c => Some (match c with
  | Recv _ len _ =>
      if bool_decide (length h = 0%nat) && (2 <=? len) then ret_data [104; 105] else ret_ok 0
  | _ => ret_ok 0
  end).

Lemma ss_returns : @returns demo_env.
Proof. intros h c. by eexists. Qed.

Lemma ss_recv : @recv_contract demo_env.
Proof.
  intros h f len fl r [= <-] Hlen. case_match eqn:E; [|split; simpl; lia].
  apply andb_true_iff in E as [_ E]. split; simpl; lia.
Qed.

Lemma print_peer_shows_witness :
  let addr := @sockaddr_in (fun _ => Some [127; 0; 0; 1]) "127.0.0.1" 8080 in
  wp (print_peer addr) (fun r w' => r = Ok tt /\ w_out w' = [] ++
    [OutStr "client addr" [AF_INET; 0; 8080 / 256; 8080 mod 256];
     OutNum "client port" (256 * (8080 mod 256) + 8080 / 256)]) (World tt 0 [] []).
Proof.
  intros addr. apply (@print_peer_shows (fun _ => Some [127; 0; 0; 1]) "127.0.0.1" 8080 (World tt 0 [] [])).
  lia.
Defined.

(** A client that says "hi" and leaves. *)
Definition demo_session : Env := fun h c => Some (match c with
  | Socket _ _ _ => ret_ok 3
  | Accept _ => Reply 4 0 [2; 0; 31; 144; 127; 0; 0; 1] [] None
  | Recv _ len _ =>
      if (2 <=? len) && bool_decide (length h < 8)%nat then ret_data [104; 105] else ret_ok 0
  | _ => ret_ok 0
  end).

Lemma simple_tcp_server_session_witness :
  wp (@start_simple_tcp_server demo_session (fun _ => None) 3 "127.0.0.1" 8080 4096) (fun r w' =>
    let L := w_log w' in
    let printed := fun fd => exists n addr, peers L = [addr] /\ w_out w' =
      [OutNum "The tcp receive buffer size" n; OutStr "client addr" (take 4 addr);
       OutNum "client port" (load_u16 (sin_port addr))] ++ messages fd (chunks L) in
    match r with
    | Ok 0 => exists fd rsrv, head L = Some (Socket AF_INET SOCK_STREAM 0, rsrv) /\
        accepts L = [fd] /\ closed L = [fd; r_ret rsrv] /\ printed fd
    | Ok ret => ret = 1 /\ accepts L = [] /\ closed L = [] /\ chunks L = []
    | Stop HAssert => accepts L = [] /\ closed L = [] /\ chunks L = []
    | Stop h => (h = HExit 1 \/ h = HFuel) /\
        exists fd, accepts L = [fd] /\ closed L = [] /\ printed fd
    end) (World tt 0 [] []).
Proof.
  apply (@simple_tcp_server_session demo_session (fun _ => None) 3 "127.0.0.1" 8080 4096).
  - intros h c. by eexists.
  - intros h f len fl r [= <-] Hlen. case_match eqn:E; [|split; simpl; lia].
    apply andb_true_iff in E as [E _]. split; simpl; lia.
Defined.
