(* ===== verification/Mains.v ===== *)
(** * The two main programs (server/main.cpp, client/main.cpp)

    Reading the command line and starting what the programs start; that what they
    start has no undefined behaviour when the numbers on it make sense. *)

From Stdlib Require Import Ascii.
From S2P Require Import Prelude Sys CLib Safe ThreadSafeQueue LibevThreadPool PoolSafe Client ClientSafe.

(** ** atoi *)

Definition digit (c : Ascii.ascii) : option Z :=
  let n := Z.of_nat (Ascii.nat_of_ascii c) in
  if (48 <=? n) && (n <=? 57) then Some (n - 48) else None.

(** The value of the digits at the start of a string, after [acc]. *)
Fixpoint digits (acc : Z) (s : string) : Z :=
  match s with
  | String c s => match digit c with Some d => digits (10 * acc + d) s | None => acc end
  | EmptyString => acc
  end.

Definition is_space (c : Ascii.ascii) : bool :=
  let n := Ascii.nat_of_ascii c in ((n =? 32) || ((9 <=? n) && (n <=? 13)))%nat.

Fixpoint skip_spaces (s : string) : string :=
  match s with
  | String c s' => if is_space c then skip_spaces s' else s
  | EmptyString => s
  end.

(** [atoi]: undefined when the number does not fit an [int]. *)
Definition atoi (s : string) : option Z :=
  let v := match skip_spaces s with
    | String "-"%char s => - digits 0 s
    | String "+"%char s => digits 0 s
    | s => digits 0 s
    end in
  if (- 2 ^ 31 <=? v) && (v <? 2 ^ 31) then Some v else None.

(** Decimal notation, for round trips. *)
Definition to_digit (d : Z) : Ascii.ascii := Ascii.ascii_of_nat (Z.to_nat (48 + d)).
Fixpoint to_decimal (fuel : nat) (n : Z) (s : string) : string :=
  match fuel with
  | O => s
  | S fuel =>
      let s := String (to_digit (n mod 10)) s in
      if n <? 10 then s else to_decimal fuel (n / 10) s
  end.
Definition decimal (n : Z) : string := to_decimal 10 n "".

(** ** The programs *)

Section programs.
Context `{Env, InetPton}.

(** [argv[i]] as a number. *)
Definition arg_number {S} (argv : list string) (i : nat) : M S Z :=
  match argv !! i with
  | Some s => match atoi s with Some v => mret v | None => stop HUB end
  | None => stop HUB
  end.

(** [limit_of v]: the [unsigned long] that an [int] is stored in. *)
Definition limit_of (v : Z) : Z := wrap_u 64 v.

Definition server_main (fuel : nat) (argv : list string) : M pool Z :=
  let argc := length argv in
  if (argc <? 3)%nat then mret 1
  else
    let ip := nth 1 argv "" in
    v ← arg_number argv 2;
    let port := wrap_s 16 v in
    hw ← sys_ HardwareConcurrency;
    max_open_fd ← (if (4 <=? argc)%nat then v ← arg_number argv 3; mret (limit_of v) else mret 4096);
    concur ← (if (5 <=? argc)%nat then arg_number argv 4 else mret (wrap_s 32 hw));
    sys_ (SetRlimit max_open_fd max_open_fd);;
    r ← sys GetRlimit;
    print (OutStr "FD limit" (r_data r));;
    start_libev_adv_server fuel ip port concur;;
    mret 0.

Definition client_main (argv : list string) : M client Z :=
  let argc := length argv in
  if (argc <? 3)%nat then mret 1
  else
    v ← arg_number argv 2;
    let port := wrap_s 16 v in
    hw ← sys_ HardwareConcurrency;
    max_open_fd ← (if (4 <=? argc)%nat then v ← arg_number argv 3; mret (limit_of v) else mret 4096);
    req_count ← (if (5 <=? argc)%nat then arg_number argv 4 else mret 1000);
    concur ← (if (6 <=? argc)%nat then arg_number argv 5 else mret (wrap_s 32 hw));
    sys_ (SetRlimit max_open_fd max_open_fd);;
    r ← sys GetRlimit;
    print (OutStr "FD limit" (r_data r));;
    start_multi_client req_count concur;;
    mret 0.
End programs.

(** ** Properties *)

Lemma digit_to_digit d : 0 <= d < 10 -> digit (to_digit d) = Some d.
Proof.
  intros Hd. assert (d = 0 \/ d = 1 \/ d = 2 \/ d = 3 \/ d = 4 \/ d = 5 \/ d = 6 \/ d = 7 \/ d = 8 \/ d = 9)
    as Hcases by lia.
  repeat destruct Hcases as [->|Hcases]; try done. by subst.
Qed.

(** The digits of [n], most significant first, in front of [s]. *)
Lemma digits_to_decimal fuel n acc s : 0 <= n < 10 ^ Z.of_nat fuel -> 0 <= acc ->
  exists k, 0 <= k /\ n < 10 ^ k /\
    digits acc (to_decimal fuel n s) = digits (acc * 10 ^ k + n) s.
Proof.
  revert n acc s. induction fuel as [|fuel IH]; intros n acc s Hn Hacc; [simpl in Hn|].
  - exists 0. split_and!; [lia|simpl; lia|]. simpl. f_equal. lia.
  - rewrite Nat2Z.inj_succ, Z.pow_succ_r in Hn by lia. cbn [to_decimal].
    pose proof (Z.mod_pos_bound n 10 ltac:(lia)) as Hm. pose proof (Z.div_mod n 10 ltac:(lia)) as Hdm.
    destruct (Z.ltb_spec n 10) as [Hlt|Hge].
    + exists 1. split_and!; [lia|lia|]. cbn [digits]. rewrite digit_to_digit by lia.
      rewrite Z.mod_small by lia. f_equal. lia.
    + destruct (IH (n / 10) acc (String (to_digit (n mod 10)) s)) as (k & Hk & Hlt & Heq); [|done|].
      { split; [apply Z.div_pos; lia|]. apply Z.div_lt_upper_bound; lia. }
      exists (k + 1). rewrite Z.pow_add_r by lia. split_and!; [lia|lia|]. rewrite Heq. cbn [digits].
      rewrite digit_to_digit by lia. f_equal. lia.
Qed.

(** A decimal number starts with a digit: no space and no sign. *)
Lemma to_decimal_head fuel n s : (0 < fuel)%nat -> 0 <= n ->
  exists d s', 0 <= d < 10 /\ to_decimal fuel n s = String (to_digit d) s'.
Proof.
  revert n s. induction fuel as [|fuel IH]; intros n s Hf Hn; [lia|]. cbn [to_decimal].
  pose proof (Z.mod_pos_bound n 10 ltac:(lia)) as Hm.
  destruct (Z.ltb_spec n 10); [by exists (n mod 10), s|].
  destruct fuel as [|fuel]; [by exists (n mod 10), s|].
  apply IH; [lia|]. apply Z.div_pos; lia.
Qed.

Lemma skip_digit d s : 0 <= d < 10 ->
  skip_spaces (String (to_digit d) s) = String (to_digit d) s /\
  match String (to_digit d) s with
  | String "-"%char s => - digits 0 s
  | String "+"%char s => digits 0 s
  | s => digits 0 s
  end = digits 0 (String (to_digit d) s).
Proof.
  intros Hd. assert (d = 0 \/ d = 1 \/ d = 2 \/ d = 3 \/ d = 4 \/ d = 5 \/ d = 6 \/ d = 7 \/ d = 8 \/ d = 9)
    as Hcases by lia.
  repeat destruct Hcases as [->|Hcases]; try done. by subst.
Qed.

(** The value of a decimal number, as atoi computes it before its range check. *)
Lemma digits_decimal n : 0 <= n < 10 ^ 10 -> digits 0 (decimal n) = n.
Proof.
  intros Hn. unfold decimal.
  destruct (digits_to_decimal 10 n 0 "" ltac:(simpl; lia) ltac:(lia)) as (k & _ & _ & ->). simpl. lia.
Qed.

Lemma atoi_digits n : 0 <= n < 10 ^ 10 ->
  atoi (decimal n) = (if n <? 2 ^ 31 then Some n else None).
Proof.
  intros Hn. destruct (to_decimal_head 10 n "" ltac:(lia) ltac:(lia)) as (d & s' & Hd' & Heq).
  destruct (skip_digit d s' Hd') as [Hskip Hmatch]. unfold atoi. fold (decimal n) in Heq.
  rewrite Heq, Hskip, Hmatch, <- Heq, digits_decimal by done.
  by rewrite (proj2 (Z.leb_le (- 2 ^ 31) n)) by lia.
Qed.

Lemma atoi_decimal n : 0 <= n < 2 ^ 31 -> atoi (decimal n) = Some n.
Proof. intros Hn. rewrite atoi_digits by lia. by rewrite (proj2 (Z.ltb_lt _ _)) by lia. Qed.

Lemma atoi_minus n : 0 <= n < 10 ^ 10 ->
  atoi (String "-" (decimal n)) = (if n <=? 2 ^ 31 then Some (- n) else None).
Proof.
  intros Hn. unfold atoi. simpl skip_spaces. cbn iota. rewrite digits_decimal by done.
  destruct (Z.leb_spec n (2 ^ 31)).
  - by rewrite (proj2 (Z.leb_le _ _)), (proj2 (Z.ltb_lt _ _)) by lia.
  - by rewrite (proj2 (Z.leb_gt _ _)) by lia.
Qed.

Lemma port_mod `{InetPton} ip v :
  ntohs (sin_port (sockaddr_in ip (wrap_s 16 v))) = v mod 2 ^ 16.
Proof.
  unfold sin_port, sockaddr_in. simpl. unfold htons. rewrite wrap_u_wrap_s by lia.
  unfold wrap_u. pose proof (Z.div_mod (v mod 2 ^ 16) 256 ltac:(lia)). lia.
Qed.

(** The range of the numbers on the command line: a decimal argument of up to
    ten digits, with or without a minus sign, is read as the number it shows when
    that fits an [int], and is undefined behaviour otherwise; and whatever [int] is
    given as the port, the socket address gets it modulo 65536 - no argument is
    refused. *)
Theorem port_argument_bounds `{InetPton} ip n :
  0 <= n < 10 ^ 10 ->
  atoi (decimal n) = (if n <? 2 ^ 31 then Some n else None) /\
  atoi (String "-" (decimal n)) = (if n <=? 2 ^ 31 then Some (- n) else None) /\
  forall v, (atoi (decimal n) = Some v \/ atoi (String "-" (decimal n)) = Some v) ->
    - 2 ^ 31 <= v < 2 ^ 31 /\
    ntohs (sin_port (sockaddr_in ip (wrap_s 16 v))) = v mod 2 ^ 16.
Proof.
  intros Hn. rewrite atoi_digits, atoi_minus by done. split_and!; [done..|].
  intros v Hv. split; [|apply port_mod].
  destruct Hv as [Hv|Hv]; zcase_in Hv; simplify_eq; lia.
Qed.


(** ** The programs have no undefined behaviour

    The numbers on the command line decide: each must fit an [int], and there must
    be at least one thread. *)

(** The arguments from number 2 on are numbers. *)
Definition numbers (argv : list string) : Prop :=
  forall i s, argv !! i = Some s -> (2 <= i)%nat -> is_Some (atoi s).

(** The number of threads - argument [i] or, without it, what the machine has -
    satisfies [P]. *)
Definition threads `{Env} (argv : list string) (i : nat) (P : Z -> Prop) : Prop :=
  match argv !! i with
  | Some s => forall v, atoi s = Some v -> P v
  | None => forall h r, env h HardwareConcurrency = Some r -> P (wrap_s 32 (r_ret r))
  end.

Lemma atoi_int s v : atoi s = Some v -> - 2 ^ 31 <= v < 2 ^ 31.
Proof.
  unfold atoi. cbv zeta. match goal with |- (if ?b then _ else _) = _ -> _ => destruct b eqn:E end; [|done].
  apply andb_true_iff in E as [Hlo%Z.leb_le Hhi%Z.ltb_lt]. by intros [= <-].
Qed.

Lemma wrap_s32_int v : - 2 ^ 31 <= wrap_s 32 v < 2 ^ 31.
Proof. unfold wrap_s. pose proof (Z.mod_pos_bound (v + 2 ^ (32 - 1)) (2 ^ 32) ltac:(lia)). lia. Qed.

Section defined.
Context `{Env, InetPton} {S : Type}.
#[local] Set Default Proof Using "Type*".

(** Reading a number leaves the program's state alone. *)
Lemma arg_number_safe (I : S -> Prop) argv i : numbers argv -> (2 <= i < length argv)%nat ->
  safe I defined (arg_number argv i) (fun v => exists s, argv !! i = Some s /\ atoi s = Some v).
Proof.
  intros Hnum Hi. unfold arg_number. destruct (argv !! i) as [s|] eqn:E.
  - destruct (Hnum _ _ E ltac:(lia)) as [v Hv]. rewrite Hv. apply safe_ret. eauto.
  - apply lookup_ge_None in E. lia.
Qed.

(** What the machine has. *)
Lemma hardware_safe (I : S -> Prop) : safe I defined (sys_ HardwareConcurrency)
  (fun hw => exists h r, env h HardwareConcurrency = Some r /\ hw = r_ret r).
Proof. eapply safe_bind; [by apply safe_sys|]. intros r [h Hr]. apply safe_ret. eauto. Qed.

(** The number of threads the programs end up with. *)
Lemma threads_safe (I : S -> Prop) argv i P hw : numbers argv -> threads argv i P -> (2 <= i)%nat ->
  (exists h r, env h HardwareConcurrency = Some r /\ hw = r_ret r) ->
  safe I defined (if (Datatypes.S i <=? length argv)%nat then arg_number argv i else mret (wrap_s 32 hw))
    (fun v => P v /\ - 2 ^ 31 <= v < 2 ^ 31).
Proof.
  intros Hnum Hth Hi (h & r & Hr & ->). unfold threads in Hth. apply safe_if; intros Hlen.
  - apply Nat.leb_le in Hlen. eapply safe_mono; [apply arg_number_safe; [done|lia]|].
    intros v (s & Hs & Hv). rewrite Hs in Hth. split; [auto|by eapply atoi_int].
  - apply Nat.leb_gt in Hlen. rewrite lookup_ge_None_2 in Hth by lia. apply safe_ret.
    split; [eauto|apply wrap_s32_int].
Qed.

(** An optional argument that is used as any number. *)
Lemma option_safe {A} (I : S -> Prop) argv i (f : Z -> A) d : numbers argv -> (2 <= i)%nat ->
  safe I defined (if (Datatypes.S i <=? length argv)%nat then v ← arg_number argv i; mret (f v) else mret d)
    (fun _ => True).
Proof.
  intros Hnum Hi. apply safe_if; intros Hlen; [|by apply safe_ret]. apply Nat.leb_le in Hlen.
  safe_seq; [apply arg_number_safe; [done|lia]|]. by apply safe_ret.
Qed.
End defined.

(** A step of main before the server is started. *)
Ltac from_init Hst tac :=
  eapply (wp_safe_bind (eq pool_init) defined); [tac|exact Hst|by intros ? ? ?|].

(** C17. The thread pool server as it is started from the command line, start to end, has
    no undefined behaviour when the numbers on the command line fit an [int] and there
    is at least one thread - whatever connections and signals the main loop is given.
    Nor has a worker, from any state in which there is a queue for each worker,
    whatever bytes and messages it reads; and the vectors of pipes and queues keep
    one entry per worker. *)
Theorem server_main_defined `{Env, InetPton} fuel argv (w : world pool) :
  socketpair_contract -> dispatches main_registered -> numbers argv -> threads argv 4 (Z.lt 0) ->
  w_st w = pool_init ->
  wp (server_main fuel argv) (fun r w' => match r with
    | Ok ret => ret = (if (length argv <? 3)%nat then 1 else 0)
    | Stop h => h <> HUB
    end) w /\
  forall (env' : Env) n buf i mfd (w' : world pool),
    @recv_contract env' -> @bev_read_contract env' -> @dispatches env' worker_registered ->
    length buf = Z.to_nat BUF_SIZE -> 0 <= i < n -> vectors_ok n (w_st w') ->
    wp (@worker_func env' fuel buf i mfd) (fun r w'' => match r with
      | Ok _ => vectors_ok n (w_st w'')
      | Stop h => h <> HUB
      end) w'.
Proof.
  intros Hsp Hdisp Hnum Hth Hst. split.
  - unfold server_main. cbv zeta. destruct (Nat.ltb_spec (length argv) 3) as [|Hlen]; [by wp_step|].
    symmetry in Hst.
    from_init Hst ltac:(apply arg_number_safe; [done|lia]). intros v w1 _ Hst1. cbv zeta.
    from_init Hst1 ltac:(apply hardware_safe). intros hw w2 Hhw Hst2.
    from_init Hst2 ltac:(apply (option_safe _ argv 3); [done|lia]). intros lim w3 _ Hst3.
    from_init Hst3 ltac:(apply (threads_safe _ argv 4); [done|done|lia|done]).
    intros concur w4 [Hpos Hint] Hst4.
    from_init Hst4 ltac:(by apply safe_sys_). intros _ w5 _ Hst5.
    from_init Hst5 ltac:(by apply safe_sys). intros r w6 _ Hst6.
    from_init Hst6 ltac:(by apply safe_print). intros _ w7 _ Hst7.
    wp_step. eapply wp_mono; [apply start_libev_adv_server_safe; [done|done|lia|done]|].
    intros [[]|h] w8; [intros _|intros Hh]; cbn [bind_post]; [by wp_step|done].
  - intros env' n buf i mfd w' Hrecv Hbev Hd Hbuf Hi Hv.
    eapply wp_mono; [by eapply worker_func_safe|]. by intros [[]|h] w''; [intros [_ ?]|].
Qed.

(** C19. The load client as it is started from the command line, start to end, has no
    undefined behaviour when the numbers on the command line fit an [int] and the number
    of threads is not zero.  Nor has any task it gives to its pool, whatever the
    server sends. *)
Theorem client_main_defined `{Env, InetPton} fuel argv buf ip port count (w w' : world client) :
  bev_read_contract -> dispatches client_registered -> numbers argv ->
  threads argv 5 (fun n => n <> 0) -> length buf = Z.to_nat BUF_SIZE ->
  wp (client_main argv) (fun r _ => match r with
    | Ok ret => ret = (if (length argv <? 3)%nat then 1 else 0)
    | Stop h => h <> HUB
    end) w /\
  wp (start_clients_func fuel buf ip port count) (fun r _ => r <> Stop HUB) w'.
Proof.
  intros Hbev Hdisp Hnum Hth Hbuf. split.
  - unfold client_main. cbv zeta. destruct (Nat.ltb_spec (length argv) 3) as [|Hlen]; [by wp_step|].
    eapply wp_mono; [eapply (safe_bind ClientSafe.any defined _ _ _ (fun ret => ret = 0));
      [apply arg_number_safe; [done|lia]| |done]|by intros [ret|h] w1; [intros [-> _]|]].
    intros v _. eapply safe_bind; [apply hardware_safe|]. intros hw Hhw.
    safe_seq; [apply (option_safe _ argv 3); [done|lia]|]. eapply (safe_bind _ _ _ _ (fun _ => True)).
    { apply safe_if; intros E; [|by apply safe_ret]. apply Nat.leb_le in E.
      eapply safe_mono; [apply arg_number_safe; [done|lia]|done]. }
    intros clients _.
    eapply safe_bind; [apply (threads_safe _ argv 5); [done|done|lia|done]|]. intros concur [Hne _].
    safe_call. safe_seq; [by eapply safe_mono; [by apply safe_sys|]|]. safe_seq; [apply safe_print|].
    safe_seq; [by apply start_multi_client_safe|]. by apply safe_ret.
  - eapply wp_mono; [by apply start_clients_func_safe|]. intros [[]|h] w1; [done|]. by intros Hh [= ->].
Qed.

(** ** The theorems at concrete inputs *)

Lemma port_argument_bounds_witness :
  atoi (decimal 2147483648) = (if 2147483648 <? 2 ^ 31 then Some 2147483648 else None) /\
  atoi (String "-" (decimal 2147483648)) =
    (if 2147483648 <=? 2 ^ 31 then Some (- 2147483648) else None) /\
  forall v, (atoi (decimal 2147483648) = Some v \/ atoi (String "-" (decimal 2147483648)) = Some v) ->
    - 2 ^ 31 <= v < 2 ^ 31 /\
    ntohs (sin_port (@sockaddr_in (fun _ => None) "localhost" (wrap_s 16 v))) = v mod 2 ^ 16.
Proof. apply (@port_argument_bounds (fun _ => None) "localhost" 2147483648). lia. Defined.


Lemma numbers_cons a b l : Forall (fun s => is_Some (atoi s)) l -> numbers (a :: b :: l).
Proof.
  intros Hl [|[|i]] s Hs Hi; [lia|lia|]. exact (Forall_lookup_1 _ _ _ _ Hl Hs).
Qed.

Definition demo_server_argv : list string := ["server"; "::"; "8080"; "4096"; "2"].
Definition demo_client_argv : list string := ["client"; "::"; "8080"; "4096"; "1000"; "2"].

Lemma demo_server_numbers : numbers demo_server_argv.
Proof. apply numbers_cons. repeat (constructor; [vm_compute; by eexists|]). constructor. Qed.

Lemma demo_client_numbers : numbers demo_client_argv.
Proof. apply numbers_cons. repeat (constructor; [vm_compute; by eexists|]). constructor. Qed.

Lemma server_main_defined_witness :
  wp (@server_main demo_main (fun _ => None) 4 demo_server_argv) (fun r w' => match r with
    | Ok ret => ret = (if (length demo_server_argv <? 3)%nat then 1 else 0)
    | Stop h => h <> HUB
    end) (demo_world pool_init) /\
  wp (@worker_func demo_worker 4 (replicate 4096 170) 1 7) (fun r w' => match r with
    | Ok _ => vectors_ok 2 (w_st w')
    | Stop h => h <> HUB
    end) (demo_world (mkPool [11; 12] (replicate 2 default_ctor) 0 0)).
Proof.
  destruct (@server_main_defined demo_main (fun _ => None) 4 demo_server_argv (demo_world pool_init))
    as [Hmain Hworker].
  - apply demo_socketpair.
  - apply demo_main_dispatches.
  - apply demo_server_numbers.
  - intros v. vm_compute. by intros [= <-].
  - done.
  - split; [exact Hmain|].
    refine (Hworker demo_worker 2 (replicate 4096 170) 1 7
      (demo_world (mkPool [11; 12] (replicate 2 default_ctor) 0 0))
      (demo_dispatch_recv _) (demo_dispatch_bev_read _) demo_worker_dispatches _ _ _);
    [by vm_compute|lia|split; reflexivity].
Defined.

(** A task that gets an answer of the server and then its end of file. *)
Definition demo_client : Env :=
  demo_dispatch [("server_msg_cb", [30]); ("event_cb", [30; BEV_EVENT_EOF])].

Lemma demo_client_dispatches : @dispatches demo_client client_registered.
Proof.
  apply demo_dispatch_registered. intros cb args Hin. unfold client_registered.
  repeat (apply elem_of_cons in Hin as [[= -> ->]|Hin]; [naive_solver eauto|]). by apply elem_of_nil in Hin.
Qed.

Lemma client_main_defined_witness :
  wp (@client_main demo_client demo_client_argv) (fun r _ => match r with
    | Ok ret => ret = (if (length demo_client_argv <? 3)%nat then 1 else 0)
    | Stop h => h <> HUB
    end) (World client_init 0 [] []) /\
  wp (@start_clients_func demo_client (fun _ => None) 4 (replicate 4096 170) "::" 8080 3)
    (fun r _ => r <> Stop HUB) (World client_init 0 [] []).
Proof.
  refine (@client_main_defined demo_client (fun _ => None) 4 demo_client_argv (replicate 4096 170) "::" 8080 3
    (World client_init 0 [] []) (World client_init 0 [] []) (demo_dispatch_bev_read _)
    demo_client_dispatches demo_client_numbers _ _).
  - intros v. vm_compute. by intros [= <-].
  - by vm_compute.
Defined.
